(* ===== verification/_CoqProject ===== *)
-Q . S2P
Prelude.v
Adler32.v
Crc32Tables.v
Crc32.v
DeflateTables.v
Inftrees.v
Codes.v
Sorting.v
Tables.v
Zlib.v
DeflateState.v
Trees.v
Bitstream.v
InflateState.v
Inffast.v
Inflate.v
Deflate.v
Drivers.v
Format.v
Encode.v
Rle.v
Flush.v
Reencode.v
Codebook.v
Huffman.v
Builds.v
Headers.v
HeaderOut.v
Blocks.v
Recode.v
Bytes.v
Fastpath.v
Decoding.v
Capture.v
HeaderIn.v
Instructions.v
Files.v
Wp.v
Invariant.v
Fastsafe.v
Turns.v
TurnsHeader.v
Progress.v
