(* ===== verification/Prelude.v ===== *)
(** * SimEnc partial gzip decoding: a verification development

    SimEnc stores gzip-compressed container layers so that similar layers can be
    delta-compressed.  Compressed data hides similarity, so SimEnc decodes a layer
    only half-way: the Huffman coding is undone, the LZ77 matches are kept.  The
    program's own core is a modified zlib under src/partial/libz_j/ and the two
    drivers src/partial/decode_docker.cpp and encode_docker.cpp:

    - [j_inflate] (inflate.c, inffast.c, inftrees.c) reads a deflate stream and
      writes an instruction stream: for every block the bits of its header, padded
      to bytes and ended by 0xaa 0xff, then one instruction per symbol (a literal
      byte, with 0xaa doubled, or 0xaa and a distance and length), ended by
      0xaa 0xff; the bytes of a stored block are copied.
    - [j_deflate] (deflate.c, trees.c) reads such an instruction stream, collects
      the symbols of each block in [sym_buf] and writes the block again with the
      code of its captured header.  It must reproduce the deflate stream bit for
      bit, since the registry serves layers by the hash of their compressed form.
    - the drivers split a .gz file into its header, trailer and deflate stream, run
      [j_inflate] on 16 kB chunks, and keep both parts in a .fri file; and back.

    ** Files

    - Prelude: C integers, record update, arrays as total maps, loops with a
      measure, bit strings ([bits_of], [val_of], [bytes_bits]).
    - Adler32, Crc32Tables, Crc32: adler32.c, crc32.c and crc32.h.
    - DeflateTables, Inftrees, Zlib: the constant tables (trees.h, inffixed.h), the
      decoding-table builder (inftrees.c and [inflate_table_my] of deflate.c, one
      generic definition), the stream interface (zfunc.h, zutil.c).
    - Codes, Sorting, Tables, Huffman: the table builder is right.  Codes holds the
      arithmetic of canonical codes, bit-reversed; Sorting the counting sort and
      the Kraft sum; Tables the invariant of the main loop; Huffman the result.
    - DeflateState, Trees: the compressor's state (deflate.h), with [sym_buf] as a
      window of [pending_buf] as in the code, and the block encoder (trees.c); the
      relation [emits] says that an operation appends a bit string and nothing else.
    - Bitstream: the error and exit monad both machines run in, the class
      [BitReader] of states with a bit reader, the macros NEEDBITS, BITS, DROPBITS
      and so on over it, proved once against the class.
    - InflateState, Inffast, Inflate: one definition per [case] of the [switch] of
      [j_inflate], a normal return being [break]; [dispatch] is the [switch], [run]
      the [for (;;)].
    - Deflate: the same for [deflate_my], then [j_deflate] and the initialisation.
    - Drivers: the drivers on in-memory files.
    - Format: the instruction format and the deflate format on abstract symbols.
    - Encode, Rle, Flush: what trees.c writes for symbols, code lengths, blocks.
    - Reencode, Blocks, Recode, Bytes: what [deflate_my] does with the instructions
      of a block, with a block, with a stream; that it writes bytes.
    - Codebook, Builds: decoding tables against code trees; which code lengths the
      builder accepts, and that this depends on the lengths alone.
    - Headers: the header of a dynamic block.  Both machines read it with the same
      code over different states, so the code is written once over an interface
      (the classes [HeaderOps] and [HeaderLaws]: the fields of a header as a view of
      the state, and the machine's DROPBITS) and shown to read every well-formed
      header.  HeaderOut and HeaderIn are the two instances.
    - Fastpath, Decoding: one symbol of [inflate_fast], all the symbols of a block
      through [j_inflate].
    - Capture, Instructions: the capture of block headers, and [j_inflate] on whole
      streams.
    - Files: the drivers on whole files, both ways.
    - Wp: weakest preconditions of programs in the monad, loops with a measure.
    - Invariant, Fastsafe, Turns, TurnsHeader, Progress: the decoder on arbitrary
      bytes.  Invariant states what holds in each mode of [j_inflate] and what a turn
      of its loop establishes; Fastsafe runs [inflate_fast] on any input; Turns and
      TurnsHeader have one lemma for each [case]; Progress puts the loop, the calls
      and the loops of decode_docker together.

    ** What is shown

    The abstract contract of both machines is in Blocks: a list of blocks has a
    deflate stream [stream_enc] and an instruction stream [stream_ins].
    [Instructions.inflate_stream] shows that [j_inflate] takes the first to the
    second, [Recode.reencode_stream] that [j_deflate] takes the second back to the
    first, and [Files.file_roundtrip] composes them with the drivers: a gzip file of
    such blocks is reproduced bit for bit.  Blocks are of all three types.  The
    encoder sends the code lengths of a dynamic header with runs of its own choice
    ([rle_block]), which are those of zlib and gzip; [Recode.runs_not_kept] shows
    that other runs are lost.  The decoder's side rests on
    [Decoding.decode_block], the encoder's on [Reencode.collect_block] (reading
    instructions), [Flush.flush_block_spec] (writing a block, of all three types)
    and [Flush.flush_pending_spec] (delivery).

    What happens on all other input is the subject of Progress.  The states a caller
    can reach (the relation [reachable]: an initialisation, then any calls) satisfy an
    invariant ([Progress.inflate_invariant]); a call on such a state always returns
    and writes no more than its input pays for ([Progress.inflate_returns]); it stops
    only at the end, at an error, or without input or room
    ([Progress.inflate_progress]); and so the program decode_docker ends on every
    file on which its gzip parser does ([Progress.decode_ends]).

    For dynamic blocks, [HeaderIn.header_captured] and [HeaderOut.header_rebuilt]
    show that the machines read a header (with [HeaderIn.header_program], by one
    program), [Huffman.inflate_table_decides] and
    [Huffman.inflate_table_decodes] show that the table builder accepts exactly the
    codes it should and that its tables decode the canonical code of RFC 1951;
    [Codebook.fixed_tables_decode] says the same of the fixed tables.  [Encode] and
    [Rle] show the bits of symbols and of code lengths, and where the encoder is
    wrong: [sym_buf] can be overwritten before it is read, and trailing zero lengths
    are lost.  Adler32 and Crc32 show the optimised checksums equal to their
    definitions, their combination functions right and the generated tables correct.

    ** Conventions

    C integers are [Z] with the wrap-around written out.  Pointers are offsets into
    the array they point into.  Loops of the code carry fuel: the turns of the two
    machines (64 turns per input bit and output byte; for [j_inflate] this is shown to
    be enough on every input: a turn uses a bit or a byte of room, or goes down in the
    order [rank] of the modes), the bytes a NEEDBITS may
    pull, the code lengths of a header (at most 320).  Running out of fuel is a
    value ([Diverge] or [None]), so a theorem that gives a result also says that the
    fuel was enough.  What C leaves indeterminate is a parameter: the locals of the
    [switch] of [deflate_my] that a jump to a [case] leaves uninitialised ([indet]),
    its variable [out] ([out0]), and the memory an allocation returns.

    ** Not modelled

    The allocator and file I/O, the sliding window functions that are never called,
    crc32.c's big-endian and ARM variants and table printing, [build_bl_tree] of
    trees.c (it calls functions that do not exist), and the rest of the repository:
    vendored libraries (xdelta3, NGT, lz4, xxhash), the training experiments around
    them, and the fork of the Go registry.

    ** Limits

    The round trip of the drivers is shown for files that fit their buffers of 16 kB,
    and what [j_deflate] does on bytes that are not an instruction stream is covered
    by [Bytes.deflate_writes_bytes] only.  Where [inflate_fast] gives unused bytes back it
    moves its pointer into the input; here the position can not go below the start of the
    input of the call. *)
From stdpp Require Export base list gmap numbers.
From Stdlib Require Export ZArith Lia Bool.
Export ListNotations.
#[global] Open Scope Z_scope.

(** ** Machine integers: the C types, as [Z] with the wrap-around written out *)

Definition u8 (x : Z) : Z := x mod 2 ^ 8.
Definition u16 (x : Z) : Z := x mod 2 ^ 16.
Definition u32 (x : Z) : Z := x mod 2 ^ 32.
Definition u64 (x : Z) : Z := x mod 2 ^ 64.
(** conversion to a signed 32-bit [int] (two's complement) *)
Definition s32 (x : Z) : Z := (x + 2 ^ 31) mod 2 ^ 32 - 2 ^ 31.

Definition is_byte (b : Z) : Prop := 0 <= b < 256.
Abbreviation bytes_ok l := (Forall is_byte l).

Lemma u8_small x : 0 <= x < 256 -> u8 x = x.
Proof. intros; apply Z.mod_small; lia. Qed.
Lemma u16_small x : 0 <= x < 65536 -> u16 x = x.
Proof. intros; apply Z.mod_small; lia. Qed.
Lemma u32_small x : 0 <= x < 2 ^ 32 -> u32 x = x.
Proof. intros; apply Z.mod_small; lia. Qed.
Lemma u64_small x : 0 <= x < 2 ^ 64 -> u64 x = x.
Proof. intros; apply Z.mod_small; lia. Qed.
Lemma s32_small x : - 2 ^ 31 <= x < 2 ^ 31 -> s32 x = x.
Proof. intros; unfold s32; rewrite Z.mod_small; lia. Qed.
Lemma u8_range x : 0 <= u8 x < 256.
Proof. apply Z.mod_pos_bound; lia. Qed.
Lemma u16_range x : 0 <= u16 x < 65536.
Proof. apply Z.mod_pos_bound; lia. Qed.
Lemma u32_range x : 0 <= u32 x < 2 ^ 32.
Proof. apply Z.mod_pos_bound; lia. Qed.
Lemma u64_range x : 0 <= u64 x < 2 ^ 64.
Proof. apply Z.mod_pos_bound; lia. Qed.

Arguments u8 : simpl never.
Arguments u16 : simpl never.
Arguments u32 : simpl never.
Arguments u64 : simpl never.
Arguments s32 : simpl never.

Create HintDb cint.
#[export] Hint Resolve u8_range u16_range u32_range u64_range : cint.

(** ** Record updates: [r <| f := v |>] *)

Class Settable (R : Type) := eta_of : R -> R.
Class SetField {R E : Type} (f : R -> E) := set_field : E -> R -> R.
Arguments set_field {R E} f {_} v r /.

#[global] Hint Extern 0 (@SetField ?R ?E ?f) =>
  (let i := constr:(_ : Settable R) in
   let i' := eval hnf in i in
   exact (fun (v : E) (r : R) => ltac:(
     let t := eval cbv beta in (i' r) in
     let h := eval pattern (f r) in t in
     match h with ?F _ => let t' := eval cbv beta in (F v) in exact t' end)))
  : typeclass_instances.

Declare Scope record_scope.
#[global] Open Scope record_scope.
#[warnings="-postfix-notation-not-level-1"]
Notation "r <| f := v |>" := (set_field f v r)
  (at level 12, f at level 7, v at level 60, left associativity,
   format "r  <|  f  :=  v  |>") : record_scope.

(** ** C arrays: total maps from indices, an unwritten cell reads as [d] *)

Abbreviation arr A := (gmap Z A).
Definition aget {A} (d : A) (a : arr A) (i : Z) : A := default d (a !! i).
Definition aset {A} (a : arr A) (i : Z) (v : A) : arr A := <[i := v]> a.
(** [n] cells from [off] *)
Definition aread {A} (d : A) (a : arr A) (off : Z) (n : nat) : list A :=
  map (fun i => aget d a (off + Z.of_nat i)) (seq 0 n).
(** write a list of cells from [off] upward, in order *)
Fixpoint awrite {A} (a : arr A) (off : Z) (l : list A) : arr A :=
  match l with [] => a | x :: l => awrite (aset a off x) (off + 1) l end.
(** constant tables *)
Definition tget {A} (d : A) (l : list A) (i : Z) : A :=
  if i <? 0 then d else nth (Z.to_nat i) l d.

Arguments aget : simpl never.
Arguments aset : simpl never.
Arguments aread : simpl never.
Arguments tget : simpl never.

Section Arrays.
Context {A : Type} (d : A).
Implicit Types (a : arr A) (l : list A).

Lemma aget_aset_eq a i v : aget d (aset a i v) i = v.
Proof. unfold aget, aset. by rewrite lookup_insert_eq. Qed.
Lemma aget_aset_ne a i j v : i <> j -> aget d (aset a i v) j = aget d a j.
Proof. intros H. unfold aget, aset. by rewrite lookup_insert_ne. Qed.
Lemma aget_aset a i j v :
  aget d (aset a i v) j = if i =? j then v else aget d a j.
Proof.
  destruct (Z.eqb_spec i j) as [->|]; [apply aget_aset_eq | by apply aget_aset_ne].
Qed.

Lemma length_aread a off n : length (aread d a off n) = n.
Proof. unfold aread. by rewrite length_map, length_seq. Qed.
Lemma aread_S a off n :
  aread d a off (S n) = aread d a off n ++ [aget d a (off + Z.of_nat n)].
Proof. unfold aread. by rewrite seq_S, map_app. Qed.
Lemma aread_cons a off n :
  aread d a off (S n) = aget d a off :: aread d a (off + 1) n.
Proof.
  unfold aread. cbn [seq map]. rewrite Z.add_0_r. f_equal.
  rewrite <- seq_shift, map_map. apply map_ext. intros i. f_equal. lia.
Qed.
Lemma aread_ext a a' off n :
  (forall i, off <= i < off + Z.of_nat n -> aget d a i = aget d a' i) ->
  aread d a off n = aread d a' off n.
Proof.
  intros H. apply map_ext_in. intros i Hi. apply in_seq in Hi. apply H. clear H. lia.
Qed.
Lemma aread_aset_out a off n i v :
  i < off \/ off + Z.of_nat n <= i ->
  aread d (aset a i v) off n = aread d a off n.
Proof. intros H. apply aread_ext. intros j Hj. apply aget_aset_ne. lia. Qed.
Lemma aread_app a off n m :
  aread d a off (n + m) = aread d a off n ++ aread d a (off + Z.of_nat n) m.
Proof.
  revert off. induction n as [|n IH]; intros off.
  - change (aread d a off 0) with (@nil A). by rewrite Z.add_0_r.
  - cbn [Nat.add]. rewrite !aread_cons, IH. cbn [app].
    by replace (off + Z.of_nat (S n)) with (off + 1 + Z.of_nat n) by lia.
Qed.

Lemma aget_awrite_out a off l i :
  i < off \/ off + Z.of_nat (length l) <= i ->
  aget d (awrite a off l) i = aget d a i.
Proof.
  revert a off. induction l as [|x l IH]; intros a off H; [done|].
  cbn [awrite]. cbn [length] in H. rewrite IH by lia. apply aget_aset_ne. lia.
Qed.
Lemma aget_awrite_all (P : A -> Prop) a off l :
  (forall i, P (aget d a i)) -> Forall P l -> forall i, P (aget d (awrite a off l) i).
Proof.
  intros Ha Hl. revert a off Ha. induction Hl as [|x l Hx _ IH]; intros a off Ha; [done|].
  apply IH. intros i. rewrite aget_aset. by destruct (off =? i).
Qed.
Lemma aread_awrite a off l : aread d (awrite a off l) off (length l) = l.
Proof.
  revert a off. induction l as [|x l IH]; intros a off; [done|].
  cbn [awrite length]. rewrite aread_cons, IH. f_equal.
  rewrite aget_awrite_out by lia. apply aget_aset_eq.
Qed.
End Arrays.

(** ** Loops with a measure *)

(** [step] returns [inl] to go on and [inr] to leave the loop. *)
Section Loop.
Context {St R : Type} (step : St -> St + R).

Fixpoint loop (fuel : nat) (s : St) : option R :=
  match fuel with
  | O => None
  | S f => match step s with inl s' => loop f s' | inr r => Some r end
  end.

(** a measure that strictly decreases on every iteration bounds the fuel *)
Lemma loop_terminates (I : St -> Prop) (m : St -> nat) :
  (forall s s', I s -> step s = inl s' -> I s' /\ (m s' < m s)%nat) ->
  forall fuel s, I s -> (m s < fuel)%nat -> exists r, loop fuel s = Some r.
Proof.
  intros Hstep fuel. induction fuel as [|f IH]; intros s Hi Hm; [lia|].
  cbn. destruct (step s) as [s'|r] eqn:E; [|by eexists].
  destruct (Hstep _ _ Hi E). apply IH; [done|lia].
Qed.

(** partial-correctness rule *)
Lemma loop_inv (I : St -> Prop) (Q : R -> Prop) :
  (forall s s', I s -> step s = inl s' -> I s') ->
  (forall s r, I s -> step s = inr r -> Q r) ->
  forall fuel s r, I s -> loop fuel s = Some r -> Q r.
Proof.
  intros H1 H2 fuel. induction fuel as [|f IH]; intros s r Hi; cbn; [done|].
  destruct (step s) eqn:E; [eauto|]. intros [= <-]. eauto.
Qed.

Lemma loop_mono fuel fuel' s r :
  loop fuel s = Some r -> (fuel <= fuel')%nat -> loop fuel' s = Some r.
Proof.
  revert fuel' s. induction fuel as [|f IH]; intros fuel' s H Hle; [done|].
  destruct fuel' as [|f']; [lia|]. cbn in *.
  destruct (step s); [apply IH; [done|lia] | done].
Qed.
End Loop.

(** an invariant of a fold *)
Lemma foldl_keeps {A B} (P : A -> Prop) (f : A -> B -> A) l a :
  (forall a x, P a -> P (f a x)) -> P a -> P (foldl f a l).
Proof. intros Hf. revert a. induction l as [|x l IH]; intros a Ha; [done|]. cbn [foldl]. by apply IH, Hf. Qed.

(** ** Bit strings, least significant bit first *)

Fixpoint bits_of (n : nat) (v : Z) : list bool :=
  match n with O => [] | S n => Z.odd v :: bits_of n (Z.div2 v) end.
Fixpoint val_of (l : list bool) : Z :=
  match l with [] => 0 | b :: l => Z.b2z b + 2 * val_of l end.
(** a byte sequence as the bit string the deflate format reads from it *)
Definition bytes_bits (l : list Z) : list bool := flat_map (bits_of 8) l.

Section Bits.
Lemma length_bits_of n v : length (bits_of n v) = n.
Proof. revert v. induction n; intros v; cbn; [done|by f_equal]. Qed.

Lemma val_of_bound l : 0 <= val_of l < 2 ^ Z.of_nat (length l).
Proof.
  induction l as [|b l IH]; [done|]. cbn [val_of length].
  rewrite Nat2Z.inj_succ, Z.pow_succ_r by lia. destruct b; cbn [Z.b2z]; lia.
Qed.

Lemma val_of_bits_of n v : val_of (bits_of n v) = v mod 2 ^ Z.of_nat n.
Proof.
  revert v. induction n as [|n IH]; intros v; [by rewrite Z.mod_1_r|].
  cbn [bits_of val_of]. rewrite IH, Nat2Z.inj_succ, Z.pow_succ_r by lia.
  rewrite Z.rem_mul_r by lia. rewrite Z.div2_div. f_equal.
  rewrite Zmod_odd. by destruct (Z.odd v).
Qed.

Lemma bits_of_val_of l : bits_of (length l) (val_of l) = l.
Proof.
  induction l as [|b l IH]; [done|]. cbn [length val_of bits_of].
  rewrite Z.div2_div.
  replace (Z.odd (Z.b2z b + 2 * val_of l)) with b.
  - f_equal. replace ((Z.b2z b + 2 * val_of l) / 2) with (val_of l); [done|].
    rewrite Z.add_comm, Z.mul_comm, Z.div_add_l by lia.
    destruct b; cbn [Z.b2z]; [change (1 / 2) with 0|change (0 / 2) with 0]; by rewrite Z.add_0_r.
  - rewrite Z.odd_add_mul_2. by destruct b.
Qed.

(** two values with the same bits agree modulo [2 ^ n] *)
Lemma bits_of_mod n v : bits_of n (v mod 2 ^ Z.of_nat n) = bits_of n v.
Proof.
  rewrite <- val_of_bits_of.
  rewrite <- (length_bits_of n v) at 1. apply bits_of_val_of.
Qed.
Lemma bits_of_ext n v w :
  v mod 2 ^ Z.of_nat n = w mod 2 ^ Z.of_nat n -> bits_of n v = bits_of n w.
Proof. intros H. by rewrite <- (bits_of_mod n v), H, bits_of_mod. Qed.
Lemma bits_of_inj n v w :
  0 <= v < 2 ^ Z.of_nat n -> 0 <= w < 2 ^ Z.of_nat n ->
  bits_of n v = bits_of n w -> v = w.
Proof.
  intros Hv Hw H. apply (f_equal val_of) in H. rewrite !val_of_bits_of in H.
  by rewrite !Z.mod_small in H.
Qed.
Lemma val_of_inj l l' : length l = length l' -> val_of l = val_of l' -> l = l'.
Proof.
  intros Hl H. rewrite <- (bits_of_val_of l), <- (bits_of_val_of l'). by rewrite Hl, H.
Qed.

Lemma val_of_app l l' : val_of (l ++ l') = val_of l + 2 ^ Z.of_nat (length l) * val_of l'.
Proof.
  induction l as [|b l IH]; cbn [app val_of length]; [lia|].
  rewrite IH, Nat2Z.inj_succ, Z.pow_succ_r by lia. ring.
Qed.

Lemma bits_of_add n m v : bits_of (n + m) v = bits_of n v ++ bits_of m (Z.shiftr v (Z.of_nat n)).
Proof.
  revert v. induction n as [|n IH]; intros v; [done|].
  cbn [Nat.add bits_of app]. rewrite IH. do 2 f_equal.
  rewrite Z.div2_spec, Z.shiftr_shiftr by lia. f_equal. f_equal. lia.
Qed.
Lemma bits_of_app n m a b :
  0 <= a < 2 ^ Z.of_nat n ->
  bits_of (n + m) (a + 2 ^ Z.of_nat n * b) = bits_of n a ++ bits_of m b.
Proof.
  intros Ha. rewrite bits_of_add. f_equal.
  - apply bits_of_ext. rewrite Z.mul_comm, Z.mod_add by lia. done.
  - f_equal. rewrite Z.shiftr_div_pow2 by lia. rewrite Z.mul_comm, Z.div_add by lia.
    rewrite Z.div_small by lia. lia.
Qed.
Lemma bits_of_take n m v : (n <= m)%nat -> take n (bits_of m v) = bits_of n v.
Proof.
  intros H. replace m with (n + (m - n))%nat by lia.
  rewrite bits_of_add, take_app_length'; [done|by rewrite length_bits_of].
Qed.
Lemma bits_of_drop n m v :
  (n <= m)%nat -> drop n (bits_of m v) = bits_of (m - n) (Z.shiftr v (Z.of_nat n)).
Proof.
  intros H. replace m with (n + (m - n))%nat at 1 by lia.
  rewrite bits_of_add, drop_app_length'; [done|by rewrite length_bits_of].
Qed.

Lemma bytes_bits_app l l' : bytes_bits (l ++ l') = bytes_bits l ++ bytes_bits l'.
Proof. apply flat_map_app. Qed.
Lemma length_bytes_bits l : length (bytes_bits l) = (8 * length l)%nat.
Proof.
  induction l as [|x l IH]; [done|]. cbn [bytes_bits flat_map].
  rewrite length_app, length_bits_of. fold (bytes_bits l). rewrite IH. cbn. lia.
Qed.
Lemma bytes_bits_cons x l : bytes_bits (x :: l) = bits_of 8 x ++ bytes_bits l.
Proof. done. Qed.
Lemma bytes_bits_inj l l' :
  bytes_ok l -> bytes_ok l' -> bytes_bits l = bytes_bits l' -> l = l'.
Proof.
  intros Hl. revert l'. induction Hl as [|x l Hx Hl IH]; intros [|y l'] Hl' H.
  - done.
  - exfalso. apply (f_equal length) in H. rewrite !length_bytes_bits in H. cbn in H. lia.
  - exfalso. apply (f_equal length) in H. rewrite !length_bytes_bits in H. cbn in H. lia.
  - inversion Hl' as [|? ? Hy Hl'']; subst. rewrite !bytes_bits_cons in H.
    apply app_inj_1 in H as [H1 H2]; [|by rewrite !length_bits_of].
    f_equal; [|by apply IH]. by apply (bits_of_inj 8).
Qed.
End Bits.

Create Rewrite HintDb bits.
#[export] Hint Rewrite @length_bits_of @length_bytes_bits @bytes_bits_app @length_app
  @length_aread @length_take @length_drop @length_map : bits.

(** ** Masks, shifts and disjoint sums *)

Lemma land_ones_mod n x : 0 <= n -> Z.land x (2 ^ n - 1) = x mod 2 ^ n.
Proof. intros H. by rewrite <- Z.land_ones, Z.ones_equiv, Z.sub_1_r by done. Qed.

(** [a | (b << n)] is a sum when [a] fits in the low [n] bits *)
Lemma lor_shiftl_add n a b :
  0 <= n -> 0 <= a < 2 ^ n -> Z.lor a (Z.shiftl b n) = a + 2 ^ n * b.
Proof.
  intros Hn Ha. rewrite Z.shiftl_mul_pow2, (Z.mul_comm _ b) by done.
  symmetry. apply Z.add_nocarry_lxor || idtac.
  rewrite <- Z.lxor_lor, Z.add_nocarry_lxor; try done.
  all: apply Z.bits_inj'; intros i Hi; rewrite Z.land_spec, Z.bits_0;
    destruct (Z.lt_ge_cases i n);
    [rewrite (Z.mul_pow2_bits_low b) by lia; apply andb_false_r
    |rewrite <- (Z.mod_small a (2 ^ n)), Z.mod_pow2_bits_high by lia; done].
Qed.

Lemma lxor_range k a b :
  0 <= k -> 0 <= a < 2 ^ k -> 0 <= b < 2 ^ k -> 0 <= Z.lxor a b < 2 ^ k.
Proof.
  intros Hk Ha Hb. rewrite <- (Z.mod_small a (2 ^ k)), <- (Z.mod_small b (2 ^ k)) by done.
  replace (Z.lxor (a mod 2 ^ k) (b mod 2 ^ k)) with (Z.lxor a b mod 2 ^ k).
  { apply Z.mod_pos_bound. lia. }
  apply Z.bits_inj'; intros i Hi. rewrite Z.lxor_spec.
  destruct (Z.lt_ge_cases i k).
  - by rewrite !Z.mod_pow2_bits_low, Z.lxor_spec by lia.
  - by rewrite !Z.mod_pow2_bits_high by lia.
Qed.
