(* ===== verification/Adler32.v ===== *)
(** * Adler-32 (partial/libz_j/adler32.c)

    [adler32_z] with its three code paths (one byte, fewer than 16 bytes,
    NMAX blocks with deferred reduction) and [adler32_combine_]; the
    specification is the byte-at-a-time checksum with a reduction at every
    step.  [uLong] is 64 bits wide, as on the x86-64 build the Makefile
    targets. *)
From S2P Require Import Prelude.

Definition BASE : Z := 65521.
Definition NMAX : Z := 5552.

(** ** The code *)

(** DO1 .. DO16: [k] unrolled steps [adler += *buf++; sum2 += adler] *)
Fixpoint DO (k : nat) (adler sum2 : Z) (buf : list Z) : Z * Z * list Z :=
  match k, buf with
  | S k, b :: buf' =>
      let adler := u64 (adler + b) in
      let sum2 := u64 (sum2 + adler) in
      DO k adler sum2 buf'
  | _, _ => (adler, sum2, buf)
  end.
Definition DO16 := DO 16.

Definition MOD (a : Z) : Z := a mod BASE.
Definition MOD28 (a : Z) : Z := a mod BASE.
Definition MOD63 (a : Z) : Z := Z.rem a BASE.

(** the inner [do { DO16(buf); buf += 16; } while (--n)] *)
Fixpoint do16_loop (n : nat) (adler sum2 : Z) (buf : list Z) : Z * Z * list Z :=
  match n with
  | O => (adler, sum2, buf)
  | S n => let '(adler, sum2, buf) := DO16 adler sum2 buf in do16_loop n adler sum2 buf
  end.

(** [while (len >= NMAX)]; [fuel] bounds the number of blocks *)
Fixpoint nmax_loop (fuel : nat) (adler sum2 : Z) (buf : list Z) : Z * Z * list Z :=
  match fuel with
  | O => (adler, sum2, buf)
  | S fuel =>
      if Z.of_nat (length buf) >=? NMAX then
        let '(adler, sum2, buf) := do16_loop (Z.to_nat (NMAX / 16)) adler sum2 buf in
        nmax_loop fuel (MOD adler) (MOD sum2) buf
      else (adler, sum2, buf)
  end.

Definition adler_pack (adler sum2 : Z) : Z := Z.lor adler (u64 (Z.shiftl sum2 16)).

(** [buf = None] is [Z_NULL]; otherwise [len] is the length of the buffer *)
Definition adler32_z (adler : Z) (buf : option (list Z)) : Z :=
  let sum2 := Z.land (Z.shiftr adler 16) 65535 in
  let adler := Z.land adler 65535 in
  match buf with
  | None => 1
  | Some [b] =>
      let adler := u64 (adler + b) in
      let adler := if adler >=? BASE then u64 (adler - BASE) else adler in
      let sum2 := u64 (sum2 + adler) in
      let sum2 := if sum2 >=? BASE then u64 (sum2 - BASE) else sum2 in
      adler_pack adler sum2
  | Some buf =>
      if Z.of_nat (length buf) <? 16 then
        let '(adler, sum2, _) := DO (length buf) adler sum2 buf in
        let adler := if adler >=? BASE then u64 (adler - BASE) else adler in
        adler_pack adler (MOD28 sum2)
      else
        let '(adler, sum2, buf) := nmax_loop (length buf) adler sum2 buf in
        match buf with
        | [] => adler_pack adler sum2
        | _ =>
            let '(adler, sum2, buf) := do16_loop (length buf / 16) adler sum2 buf in
            let '(adler, sum2, _) := DO (length buf) adler sum2 buf in
            adler_pack (MOD adler) (MOD sum2)
        end
  end.
Definition adler32 := adler32_z.

Definition adler32_combine_ (adler1 adler2 len2 : Z) : Z :=
  if len2 <? 0 then 4294967295
  else
    let len2 := MOD63 len2 in
    let rem := u32 len2 in
    let sum1 := Z.land adler1 65535 in
    let sum2 := u64 (rem * sum1) in
    let sum2 := MOD sum2 in
    let sum1 := u64 (sum1 + (Z.land adler2 65535 + BASE - 1)) in
    let sum2 := u64 (sum2 + (Z.land (Z.shiftr adler1 16) 65535
                             + Z.land (Z.shiftr adler2 16) 65535 + BASE - rem)) in
    let sum1 := if sum1 >=? BASE then u64 (sum1 - BASE) else sum1 in
    let sum1 := if sum1 >=? BASE then u64 (sum1 - BASE) else sum1 in
    let sum2 := if sum2 >=? Z.shiftl BASE 1 then u64 (sum2 - Z.shiftl BASE 1) else sum2 in
    let sum2 := if sum2 >=? BASE then u64 (sum2 - BASE) else sum2 in
    Z.lor sum1 (u64 (Z.shiftl sum2 16)).
Definition adler32_combine := adler32_combine_.
Definition adler32_combine64 := adler32_combine_.

(** ** The specification: reduce after every byte *)

Definition adler_step (s : Z * Z) (b : Z) : Z * Z :=
  let a := (s.1 + b) mod BASE in (a, (s.2 + a) mod BASE).
Definition adler_run (s : Z * Z) (buf : list Z) : Z * Z := foldl adler_step s buf.
Definition adler_value (s : Z * Z) : Z := s.1 + 65536 * s.2.
Definition adler_spec (s : Z * Z) (buf : list Z) : Z := adler_value (adler_run s buf).

(** a valid pair of running sums *)
Definition adler_ok (s : Z * Z) : Prop := 0 <= s.1 < BASE /\ 0 <= s.2 < BASE.

(** ** Unreduced sums *)

Definition raw_step (s : Z * Z) (b : Z) : Z * Z := (s.1 + b, s.2 + (s.1 + b)).
Definition raw_run (s : Z * Z) (buf : list Z) : Z * Z := foldl raw_step s buf.
Definition pair_mod (s : Z * Z) : Z * Z := (s.1 mod BASE, s.2 mod BASE).

Lemma pair_mod_ok s : adler_ok (pair_mod s).
Proof. split; apply Z.mod_pos_bound; reflexivity. Qed.
Lemma pair_mod_id s : adler_ok s -> pair_mod s = s.
Proof. destruct s. intros []. unfold pair_mod. cbn in *. by rewrite !Z.mod_small. Qed.

Lemma adler_run_app s l l' : adler_run s (l ++ l') = adler_run (adler_run s l) l'.
Proof. apply foldl_app. Qed.
Lemma raw_run_app s l l' : raw_run s (l ++ l') = raw_run (raw_run s l) l'.
Proof. apply foldl_app. Qed.

(** reducing at the end is reducing at every step *)
Lemma raw_run_mod s buf : adler_run (pair_mod s) buf = pair_mod (raw_run s buf).
Proof.
  revert s. induction buf as [|b buf IH]; intros [a s]; [done|].
  cbn [adler_run raw_run foldl]. fold (adler_run). fold (raw_run).
  replace (adler_step (pair_mod (a, s)) b) with (pair_mod (raw_step (a, s) b)).
  { apply IH. }
  unfold adler_step, pair_mod, raw_step; cbn [fst snd].
  f_equal; [by rewrite Zplus_mod_idemp_l|].
  rewrite Zplus_mod_idemp_l, Zplus_mod_idemp_r, !(Z.add_comm _ b), !Z.add_assoc.
  by rewrite Zplus_mod_idemp_r.
Qed.
Lemma adler_run_ok s buf : adler_ok s -> adler_ok (adler_run s buf).
Proof. intros H. rewrite <- (pair_mod_id s H), raw_run_mod. apply pair_mod_ok. Qed.

(** both sums stay below their closed-form bound *)
Lemma raw_run_bound a s buf :
  bytes_ok buf -> 0 <= a -> 0 <= s ->
  let n := Z.of_nat (length buf) in
  let '(a', s') := raw_run (a, s) buf in
  0 <= a' <= a + 255 * n /\ 0 <= s' /\ 2 * s' <= 2 * s + 2 * n * a + 255 * n * (n + 1).
Proof.
  intros Hb. revert a s. induction Hb as [|b buf Hb Hbs IH]; intros a s Ha Hs.
  { cbn. lia. }
  cbn [raw_run foldl length]. fold raw_run.
  unfold raw_step; cbn [fst snd]. unfold is_byte in Hb.
  specialize (IH (a + b) (s + (a + b))). unfold raw_run in *.
  destruct (foldl _ _ buf) as [a' s']. rewrite Nat2Z.inj_succ. nia.
Qed.

(** the unrolled loops never wrap below the 64-bit bound *)
Lemma DO_raw k a s buf :
  bytes_ok buf -> 0 <= a -> 0 <= s ->
  a + 255 * Z.of_nat k < 2 ^ 64 ->
  2 * s + 2 * Z.of_nat k * a + 255 * Z.of_nat k * (Z.of_nat k + 1) < 2 ^ 65 ->
  DO k a s buf = (raw_run (a, s) (take k buf), drop k buf).
Proof.
  intros Hb. revert k a s. induction Hb as [|b buf Hb Hbs IH]; intros k a s Ha Hs H1 H2.
  { by destruct k. }
  destruct k as [|k]; [done|]. cbn [DO take drop].
  rewrite Nat2Z.inj_succ in *. unfold is_byte in Hb.
  rewrite !(u64_small (a + b)), u64_small by nia.
  rewrite IH by nia. done.
Qed.
Lemma DO_add k m a s buf :
  DO (k + m) a s buf = let '(a, s, buf) := DO k a s buf in DO m a s buf.
Proof.
  revert a s buf. induction k as [|k IH]; intros a s buf; [done|].
  destruct buf; cbn [Nat.add DO]; [|apply IH]. by destruct m.
Qed.
Lemma do16_loop_DO n a s buf : do16_loop n a s buf = DO (n * 16) a s buf.
Proof.
  revert a s buf. induction n as [|n IH]; intros a s buf; [done|].
  cbn [do16_loop Nat.mul]. rewrite DO_add. unfold DO16.
  destruct (DO 16 a s buf) as [[? ?] ?]. apply IH.
Qed.

(** one batch of at most [NMAX] bytes followed by a reduction *)
Lemma DO_batch k a s buf :
  bytes_ok buf -> adler_ok (a, s) -> (Z.of_nat k <= NMAX) ->
  let '(a', s', buf') := DO k a s buf in
  (MOD a', MOD s') = adler_run (a, s) (take k buf) /\ buf' = drop k buf.
Proof.
  intros Hb Hok Hk. pose proof Hok as [Ha Hs]. cbn in Ha, Hs. unfold BASE, NMAX in *.
  rewrite DO_raw by (done || nia).
  destruct (raw_run _ _) as [a' s'] eqn:E. split; [|done].
  rewrite <- (pair_mod_id (a, s)) by done. by rewrite raw_run_mod, E.
Qed.

Lemma nmax_loop_spec fuel a s buf :
  bytes_ok buf -> adler_ok (a, s) -> (length buf <= fuel)%nat ->
  let '(a', s', rest) := nmax_loop fuel a s buf in
  exists done, buf = done ++ rest /\ (a', s') = adler_run (a, s) done /\
               Z.of_nat (length rest) < NMAX.
Proof.
  revert a s buf. induction fuel as [|fuel IH]; intros a s buf Hb Hok Hlen.
  { exists []. destruct buf; [done|cbn in Hlen; lia]. }
  cbn [nmax_loop]. destruct (Z.geb_spec (Z.of_nat (length buf)) NMAX) as [Hge|Hlt].
  2:{ exists []. split_and!; [done|done|lia]. }
  rewrite do16_loop_DO.
  pose proof (DO_batch (Z.to_nat (NMAX / 16) * 16) a s buf Hb Hok) as Hd.
  destruct (DO _ a s buf) as [[a1 s1] buf1].
  destruct Hd as [Hrun ->]; [reflexivity|].
  assert (Hk : (Z.to_nat (NMAX / 16) * 16)%nat = Z.to_nat NMAX) by reflexivity.
  rewrite Hk in *. unfold NMAX in Hge.
  specialize (IH (MOD a1) (MOD s1) (drop (Z.to_nat NMAX) buf)).
  destruct (nmax_loop fuel _ _ _) as [[a' s'] rest].
  destruct IH as (d & Hd & Hr & Hl).
  - by apply Forall_drop.
  - rewrite Hrun. by apply adler_run_ok.
  - rewrite length_drop. unfold NMAX. lia.
  - exists (take (Z.to_nat NMAX) buf ++ d). split_and!; [|by rewrite adler_run_app, <- Hrun|done].
    by rewrite <- app_assoc, <- Hd, take_drop.
Qed.

(** ** Splitting and packing the two sums *)

Definition adler_split (adler : Z) : Z * Z :=
  (Z.land adler 65535, Z.land (Z.shiftr adler 16) 65535).

Lemma adler_pack_value s : adler_ok s -> adler_pack s.1 s.2 = adler_value s.
Proof.
  intros [H1 H2]. unfold adler_pack, adler_value, BASE in *.
  rewrite u64_small by (rewrite Z.shiftl_mul_pow2 by lia; lia).
  by rewrite lor_shiftl_add by lia.
Qed.
Lemma adler_split_value s : adler_ok s -> adler_split (adler_value s) = s.
Proof.
  destruct s as [a b]. intros [H1 H2]. unfold adler_split, adler_value, BASE in *. cbn in *.
  change 65535 with (2 ^ 16 - 1). rewrite !land_ones_mod, Z.shiftr_div_pow2 by lia.
  f_equal; Z.div_mod_to_equations; lia.
Qed.

(** one conditional subtraction reduces a sum below [2 * BASE] *)
Lemma sub_base x :
  0 <= x < 2 * BASE -> (if x >=? BASE then u64 (x - BASE) else x) = x mod BASE.
Proof.
  unfold BASE. intros H. destruct (Z.geb_spec x 65521).
  - rewrite u64_small by lia. rewrite <- (Z.mod_small (x - 65521) 65521) by lia.
    rewrite <- (Z.mod_add x (-1)) by lia. f_equal; lia.
  - by rewrite Z.mod_small by lia.
Qed.

Lemma adler32_z_short a s buf :
  bytes_ok buf -> adler_ok (a, s) -> Z.of_nat (length buf) < 16 ->
  (let '(adler, sum2, _) := DO (length buf) a s buf in
   adler_pack (if adler >=? BASE then u64 (adler - BASE) else adler) (MOD28 sum2))
  = adler_spec (a, s) buf.
Proof.
  intros Hb Hok Hn. pose proof Hok as [Ha Hs]. cbn in Ha, Hs.
  pose proof (DO_batch (length buf) a s buf Hb Hok) as Hd.
  pose proof (raw_run_bound a s buf Hb) as Hr.
  rewrite DO_raw in * by (done || unfold BASE in *; nia).
  rewrite take_ge in * by lia.
  destruct (raw_run (a, s) buf) as [a' s']. unfold BASE, NMAX in *.
  destruct Hd as [Hd _]; [lia|]. destruct Hr as [Hr _]; [lia..|].
  unfold adler_spec. rewrite <- Hd, <- adler_pack_value;
    [|rewrite Hd; by apply adler_run_ok].
  cbn [fst snd]. f_equal. rewrite sub_base by (unfold BASE; lia). done.
Qed.

(** C31. [adler32_z] computes the byte-at-a-time Adler-32 on every path: for a
    valid checksum and any non-null buffer of bytes the result is the
    reference checksum. *)
Theorem adler32_z_correct s buf :
  adler_ok s -> bytes_ok buf -> adler32_z (adler_value s) (Some buf) = adler_spec s buf.
Proof.
  intros Hok Hb. pose proof (adler_split_value s Hok) as Hs.
  destruct s as [a b]. unfold adler_split in Hs. unfold adler32_z.
  injection Hs as -> ->.
  destruct (decide (length buf = 1%nat)) as [H1|Hn1].
  { destruct buf as [|x [|]]; try done. inversion_clear Hb as [|? ? Hx _].
    destruct Hok as [Ha Hs]. unfold is_byte in Hx. cbn in Ha, Hs. unfold BASE in *.
    rewrite (u64_small (a + x)), sub_base by (unfold BASE; lia).
    assert (0 <= (a + x) mod BASE < BASE) as Hm by (apply Z.mod_pos_bound; done).
    rewrite u64_small, sub_base by (unfold BASE in *; lia).
    apply (adler_pack_value (_, _)). split; apply Z.mod_pos_bound; done. }
  transitivity (if Z.of_nat (length buf) <? 16 then
        let '(adler, sum2, _) := DO (length buf) a b buf in
        adler_pack (if adler >=? BASE then u64 (adler - BASE) else adler) (MOD28 sum2)
      else
        let '(adler, sum2, buf) := nmax_loop (length buf) a b buf in
        match buf with
        | [] => adler_pack adler sum2
        | _ =>
            let '(adler, sum2, buf) := do16_loop (length buf / 16) adler sum2 buf in
            let '(adler, sum2, _) := DO (length buf) adler sum2 buf in
            adler_pack (MOD adler) (MOD sum2)
        end).
  { by destruct buf as [|? [|]]. }
  destruct (Z.ltb_spec (Z.of_nat (length buf)) 16) as [Hlt|Hge].
  { by apply adler32_z_short. }
  pose proof (nmax_loop_spec (length buf) a b buf Hb Hok) as Hl.
  destruct (nmax_loop _ _ _ _) as [[a1 s1] rest].
  destruct Hl as (d & -> & Hr & Hrest); [lia|].
  apply Forall_app in Hb as [_ Hbr].
  assert (Hok1 : adler_ok (a1, s1)) by (rewrite Hr; by apply adler_run_ok).
  unfold adler_spec. rewrite adler_run_app, <- Hr.
  destruct rest as [|x rest]; [by rewrite <- adler_pack_value|].
  set (r := x :: rest) in *. clearbody r.
  rewrite do16_loop_DO.
  assert (Hsplit : (length r = length r / 16 * 16 + length (drop (length r / 16 * 16) r))%nat).
  { rewrite length_drop. pose proof (Nat.Div0.mul_div_le (length r) 16). lia. }
  pose proof (DO_add (length r / 16 * 16) (length (drop (length r / 16 * 16) r)) a1 s1 r) as Ha.
  pose proof (DO_batch (length r) a1 s1 r Hbr Hok1) as Hd.
  rewrite <- Hsplit in Ha.
  pose proof (DO_batch (length r / 16 * 16) a1 s1 r Hbr Hok1) as Hd1.
  destruct (DO (length r / 16 * 16) a1 s1 r) as [[a2 s2] r2].
  destruct Hd1 as [_ ->]; [lia|]. rewrite <- Ha.
  destruct (DO (length r) a1 s1 r) as [[a3 s3] r3]. destruct Hd as [Hd _]; [lia|].
  rewrite take_ge in Hd by lia. rewrite <- Hd.
  by rewrite <- adler_pack_value by (rewrite Hd; by apply adler_run_ok).
Qed.

Lemma adler32_z_correct_witness :
  adler_ok (1, 0) /\ bytes_ok [97; 98; 99] /\
  adler32_z 1 (Some [97; 98; 99]) = adler_spec (1, 0) [97; 98; 99].
Proof.
  assert (adler_ok (1, 0)) by (split; cbn; unfold BASE; lia).
  assert (bytes_ok [97; 98; 99]) by (repeat constructor; unfold is_byte; lia).
  split_and!; [done|done|]. by apply (adler32_z_correct (1, 0)).
Defined.

(** ** Combining two checksums *)

(** shifting the start of an unreduced run *)
Lemma raw_run_shift da ds a s buf :
  raw_run (a + da, s + ds) buf =
  let '(a', s') := raw_run (a, s) buf in
  (a' + da, s' + ds + Z.of_nat (length buf) * da).
Proof.
  revert a s ds. induction buf as [|b buf IH]; intros a s ds.
  { cbn. f_equal. lia. }
  cbn [raw_run foldl length]. fold raw_run. unfold raw_step; cbn [fst snd].
  replace (a + da + b) with (a + b + da) by lia.
  replace (s + ds + (a + b + da)) with (s + (a + b) + (ds + da)) by lia.
  unfold raw_run in IH. unfold raw_run. rewrite IH. destruct (foldl _ _ _) as [a' s'].
  f_equal. lia.
Qed.

Lemma adler_run_concat a1 b1 buf a2 b2 :
  adler_ok (a1, b1) -> adler_run (1, 0) buf = (a2, b2) ->
  adler_run (a1, b1) buf =
  ((a1 + a2 - 1) mod BASE, (b1 + b2 + Z.of_nat (length buf) * (a1 - 1)) mod BASE).
Proof.
  intros Hok H2. rewrite <- (pair_mod_id (a1, b1)), raw_run_mod by done.
  rewrite <- (pair_mod_id (1, 0)), raw_run_mod in H2 by (split; cbn; unfold BASE; lia).
  pose proof (raw_run_shift (a1 - 1) b1 1 0 buf) as Hs.
  replace (1 + (a1 - 1)) with a1 in Hs by lia. rewrite Z.add_0_l in Hs. rewrite Hs.
  destruct (raw_run (1, 0) buf) as [a' s']. injection H2 as <- <-.
  unfold pair_mod; cbn [fst snd]. f_equal.
  - rewrite <- (Zplus_mod_idemp_l a'). f_equal. lia.
  - replace (b1 + s' mod BASE + _) with (s' mod BASE + (b1 + Z.of_nat (length buf) * (a1 - 1)))
      by lia.
    rewrite Zplus_mod_idemp_l. f_equal. lia.
Qed.

Lemma sub_base2 x :
  0 <= x < 2 * (2 * BASE) ->
  (if x >=? Z.shiftl BASE 1 then u64 (x - Z.shiftl BASE 1) else x) mod BASE = x mod BASE /\
  0 <= (if x >=? Z.shiftl BASE 1 then u64 (x - Z.shiftl BASE 1) else x) < 2 * BASE.
Proof.
  change (Z.shiftl BASE 1) with (2 * BASE). unfold BASE. intros H.
  destruct (Z.geb_spec x (2 * 65521)).
  - rewrite u64_small by lia. split; [|lia].
    rewrite <- (Z.mod_add (x - 2 * 65521) 2 65521) by lia. f_equal; lia.
  - split; [done|lia].
Qed.

Lemma adler32_combine_sums a1 b1 a2 b2 n :
  adler_ok (a1, b1) -> adler_ok (a2, b2) -> 0 <= n ->
  adler32_combine_ (adler_value (a1, b1)) (adler_value (a2, b2)) n =
  adler_value ((a1 + a2 - 1) mod BASE, (b1 + b2 + n * (a1 - 1)) mod BASE).
Proof.
  intros Hok1 Hok2 Hn. pose proof (adler_split_value _ Hok1) as E1.
  pose proof (adler_split_value _ Hok2) as E2.
  unfold adler_split in E1, E2. injection E1 as E1 E1'. injection E2 as E2 E2'.
  destruct Hok1 as [Ha1 Hb1], Hok2 as [Ha2 Hb2]. cbn in Ha1, Hb1, Ha2, Hb2.
  unfold adler32_combine_. destruct (Z.ltb_spec n 0); [lia|].
  rewrite E1, E1', E2, E2'. unfold MOD63, MOD. rewrite Z.rem_mod_nonneg by (unfold BASE; lia).
  assert (Hr : 0 <= n mod BASE < BASE) by (apply Z.mod_pos_bound; done).
  set (r := n mod BASE) in *.
  rewrite (u32_small r), (u64_small (r * a1)) by (unfold BASE in *; nia).
  assert (Hp : 0 <= (r * a1) mod BASE < BASE) by (apply Z.mod_pos_bound; done).
  set (p := (r * a1) mod BASE) in *.
  rewrite (u64_small (a1 + _)), (u64_small (p + _)) by (unfold BASE in *; lia).
  set (y := p + (b1 + b2 + BASE - r)).
  destruct (sub_base2 y) as [Hy1 Hy2]; [subst y; unfold BASE in *; lia|].
  rewrite (sub_base (if y >=? _ then _ else _)), Hy1 by done.
  set (x := a1 + (a2 + BASE - 1)).
  assert (Hx : (if (if x >=? BASE then u64 (x - BASE) else x) >=? BASE
                then u64 ((if x >=? BASE then u64 (x - BASE) else x) - BASE)
                else (if x >=? BASE then u64 (x - BASE) else x)) = x mod BASE).
  { destruct (Z.geb_spec x BASE).
    - rewrite (u64_small (x - BASE)), sub_base by (subst x; unfold BASE in *; lia).
      rewrite <- (Z.mod_add (x - BASE) 1 BASE) by done. f_equal; lia.
    - destruct (Z.geb_spec x BASE); [lia|]. by rewrite Z.mod_small by (subst x; lia). }
  rewrite Hx, u64_small; [|rewrite Z.shiftl_mul_pow2 by lia;
    pose proof (Z.mod_pos_bound y BASE eq_refl); unfold BASE in *; lia].
  rewrite lor_shiftl_add
    by (try lia; pose proof (Z.mod_pos_bound x BASE eq_refl); unfold BASE in *; lia).
  unfold adler_value; cbn [fst snd]. change (2 ^ 16) with 65536. f_equal; [|f_equal].
  - subst x. rewrite <- (Z.mod_add (a1 + a2 - 1) 1 BASE) by done. f_equal; lia.
  - subst y p r. rewrite Z.add_comm.
    replace (b1 + b2 + BASE - n mod BASE + (n mod BASE * a1) mod BASE)
      with ((n mod BASE * a1) mod BASE + (b1 + b2 + BASE - n mod BASE)) by lia.
    rewrite Zplus_mod_idemp_l.
    replace (n mod BASE * a1 + (b1 + b2 + BASE - n mod BASE))
      with (b1 + b2 + n mod BASE * (a1 - 1) + 1 * BASE) by lia.
    rewrite Z.mod_add by done. by rewrite <- Zplus_mod_idemp_r, Zmult_mod_idemp_l, Zplus_mod_idemp_r.
Qed.

(** C32. Checksums combine: the Adler-32 of a concatenation is
    [adler32_combine] of the two parts' checksums and the second length. *)
Theorem adler32_combine_correct buf1 buf2 :
  adler32_combine (adler_spec (1, 0) buf1) (adler_spec (1, 0) buf2) (Z.of_nat (length buf2))
  = adler_spec (1, 0) (buf1 ++ buf2).
Proof.
  assert (H0 : adler_ok (1, 0)) by (split; cbn; unfold BASE; lia).
  pose proof (adler_run_ok _ buf1 H0) as H1. pose proof (adler_run_ok _ buf2 H0) as H2.
  unfold adler_spec, adler32_combine. rewrite adler_run_app.
  destruct (adler_run (1, 0) buf1) as [a1 b1]. destruct (adler_run (1, 0) buf2) as [a2 b2] eqn:E.
  rewrite adler32_combine_sums by (done || lia). by rewrite (adler_run_concat a1 b1 buf2 a2 b2).
Qed.

(** C34. NMAX is exact: over one block of at most [NMAX] bytes the deferred
    sums fit in 32 bits, and one more byte of 255 overflows them. *)
Theorem nmax_exact :
  (forall a s buf, adler_ok (a, s) -> bytes_ok buf -> Z.of_nat (length buf) <= NMAX ->
     (raw_run (a, s) buf).1 < 2 ^ 32 /\ (raw_run (a, s) buf).2 < 2 ^ 32) /\
  (raw_run (BASE - 1, BASE - 1) (repeat 255 (Z.to_nat (NMAX + 1)))).2 >= 2 ^ 32.
Proof.
  split.
  - intros a s buf [Ha Hs] Hb Hn. cbn in Ha, Hs. unfold BASE, NMAX in *.
    pose proof (raw_run_bound a s buf Hb) as H.
    destruct (raw_run _ _) as [a' s']. destruct H as (H1 & H2 & H3); [lia..|]. cbn. nia.
  - vm_compute. discriminate.
Qed.

Lemma nmax_exact_witness :
  (raw_run (1, 0) [255; 255]).1 < 2 ^ 32 /\ (raw_run (1, 0) [255; 255]).2 < 2 ^ 32.
Proof.
  apply (proj1 nmax_exact); [split; cbn; unfold BASE; lia
    | repeat constructor; unfold is_byte; lia | cbn; unfold NMAX; lia].
Defined.
