(* ===== verification/Crc32.v ===== *)
(** * CRC-32 (partial/libz_j/crc32.c)

    [crc32_z] as the x86-64 build compiles it ([W] = 8, [N] = 5, little-endian; here [Wbytes] and [Nbraids]):
    bytes up to a word boundary, [N] braids of words, the rest bytewise; the
    polynomial arithmetic [multmodp]/[x2nmodp] behind [crc32_combine]; the table
    generator.  The specification is the bit-at-a-time shift register. *)
From S2P Require Import Prelude Crc32Tables.

(** ** The code *)

Definition POLY : Z := 0xedb88320.
Definition Nbraids : nat := 5.
Definition Wbytes : nat := 8.

(** [p & 1 ? (p >> 1) ^ POLY : p >> 1] *)
Definition crc_shift (p : Z) : Z :=
  if Z.odd p then Z.lxor (Z.shiftr p 1) POLY else Z.shiftr p 1.

(** the [for (;;)] of [multmodp]: [None] when [fuel] runs out *)
Fixpoint multmodp_loop (fuel : nat) (a b m p : Z) : option Z :=
  match fuel with
  | O => None
  | S fuel =>
      let p' := if Z.land a m =? 0 then p else Z.lxor p b in
      if negb (Z.land a m =? 0) && (Z.land a (m - 1) =? 0) then Some p'
      else multmodp_loop fuel a (crc_shift b) (Z.shiftr m 1) p'
  end.
Definition multmodp (a b : Z) : option Z := multmodp_loop 32 a b (2 ^ 31) 0.

(** the [while (n)] of [x2nmodp]; [n] is halved, so 64 rounds are enough *)
Fixpoint x2nmodp_loop (fuel : nat) (n k p : Z) : option Z :=
  if n =? 0 then Some p else
  match fuel with
  | O => None
  | S fuel =>
      let p' := if Z.odd n then multmodp (tget 0 x2n_table (Z.land k 31)) p else Some p in
      match p' with
      | Some p' => x2nmodp_loop fuel (Z.shiftr n 1) (u32 (k + 1)) p'
      | None => None
      end
  end.
Definition x2nmodp (n k : Z) : option Z := x2nmodp_loop 64 n k (2 ^ 31).

(** one table-driven byte: [(crc >> 8) ^ crc_table[(crc ^ b) & 0xff]] *)
Definition crc_byte (crc b : Z) : Z :=
  Z.lxor (Z.shiftr crc 8) (tget 0 crc_table (Z.land (Z.lxor crc b) 255)).

Definition crc_word (data : Z) : Z :=
  u32 (Nat.iter Wbytes (fun data => Z.lxor (Z.shiftr data 8) (tget 0 crc_table (Z.land data 255))) data).

(** a word loaded from memory, least significant byte first *)
Fixpoint load_word (bytes : list Z) : Z :=
  match bytes with [] => 0 | b :: l => b + 256 * load_word l end.

(** [while (len && ((z_size_t)buf & (Wbytes - 1)) != 0)]; [addr] is the address of the buffer *)
Fixpoint align_loop (addr crc : Z) (buf : list Z) : Z * list Z :=
  match buf with
  | [] => (crc, [])
  | b :: buf' =>
      if Z.land addr (Z.of_nat Wbytes - 1) =? 0 then (crc, buf)
      else align_loop (addr + 1) (crc_byte crc b) buf'
  end.

(** the [N] words of one block *)
Definition block_words (buf : list Z) : list Z :=
  map (fun k => load_word (take Wbytes (drop (Wbytes * k) buf))) (seq 0 Nbraids).

(** [crc = crc_braid_table[0][word & 0xff]], then the [k = 1 .. Wbytes-1] loop *)
Definition braid_word (word : Z) : Z :=
  foldl (fun crc k =>
           Z.lxor crc (tget 0 (nth k crc_braid_table [])
                            (Z.land (Z.shiftr word (8 * Z.of_nat k)) 255)))
        (tget 0 (nth 0 crc_braid_table []) (Z.land word 255)) (seq 1 (Wbytes - 1)).

(** [while (--blks)]: the first blks - 1 blocks, the braids [crc0 .. crc4] in a list *)
Fixpoint braid_loop (blks : nat) (crcs buf : list Z) : list Z * list Z :=
  match blks with
  | S (S _ as blks) =>
      let words := zip_with Z.lxor crcs (block_words buf) in
      braid_loop blks (map braid_word words) (drop (Nbraids * Wbytes) buf)
  | _ => (crcs, buf)
  end.

(** the last block: [crc = crc_word(crck ^ words[k] ^ crc)] in turn *)
Definition braid_last (crcs buf : list Z) : Z :=
  foldl (fun crc word => crc_word (Z.lxor word crc)) 0
        (zip_with Z.lxor crcs (block_words buf)).

Definition crc32_z (addr crc : Z) (buf : option (list Z)) : Z :=
  match buf with
  | None => 0
  | Some buf =>
      let crc := Z.land (Z.lnot crc) 0xffffffff in
      let '(crc, buf) :=
        if Z.of_nat (length buf) >=? Z.of_nat (Nbraids * Wbytes + Wbytes - 1) then
          let '(crc, buf) := align_loop addr crc buf in
          let blks := (length buf / (Nbraids * Wbytes))%nat in
          let '(crcs, rest) := braid_loop blks (crc :: repeat 0 (Nbraids - 1)) buf in
          (braid_last crcs rest, drop (Nbraids * Wbytes) rest)
        else (crc, buf) in
      let crc := foldl crc_byte crc buf in
      Z.lxor crc 0xffffffff
  end.
Definition crc32 := crc32_z.

Definition crc32_combine_op (crc1 crc2 op : Z) : option Z :=
  (fun m => Z.lxor m (Z.land crc2 0xffffffff)) <$> multmodp op crc1.
Definition crc32_combine_gen64 (len2 : Z) : option Z := x2nmodp len2 3.
Definition crc32_combine_gen := crc32_combine_gen64.
Definition crc32_combine64 (crc1 crc2 len2 : Z) : option Z :=
  op ← x2nmodp len2 3;
  (fun m => Z.lxor m (Z.land crc2 0xffffffff)) <$> multmodp op crc1.
Definition crc32_combine := crc32_combine64.

(** [make_crc_table], [byte_swap] and [braid], the generator of the tables *)
Definition make_crc_entry (i : Z) : Z := Nat.iter 8 crc_shift i.
Definition make_crc_table : list Z := map (fun i => make_crc_entry (Z.of_nat i)) (seq 0 256).
Fixpoint make_x2n_table (n : nat) (p : Z) : list Z :=
  match n with
  | O => []
  | S n => p :: make_x2n_table n (default 0 (multmodp p p))
  end.
Definition braid (n w : Z) : list (list Z) :=
  map (fun k =>
         let p := default 0 (x2nmodp (Z.shiftl (n * w + 3 - Z.of_nat k) 3) 0) in
         map (fun i => if (i =? 0)%nat then 0
                       else default 0 (multmodp (Z.shiftl (Z.of_nat i) 24) p))
             (seq 0 256))
      (seq 0 (Z.to_nat w)).

(** ** The specification: a 32-bit shift register fed one bit at a time *)

Definition crc_spec_byte (crc b : Z) : Z := Nat.iter 8 crc_shift (Z.lxor crc b).
Definition crc_run (crc : Z) (buf : list Z) : Z := foldl crc_spec_byte crc buf.
Definition crc32_spec (crc : Z) (buf : list Z) : Z :=
  Z.lxor (crc_run (Z.lxor crc 0xffffffff) buf) 0xffffffff.

(** ** The shift register is linear over xor *)

Lemma crc_shift_lxor a b : crc_shift (Z.lxor a b) = Z.lxor (crc_shift a) (crc_shift b).
Proof.
  unfold crc_shift.
  assert (Ho : Z.odd (Z.lxor a b) = xorb (Z.odd a) (Z.odd b)) by
    (rewrite <- !Z.bit0_odd; apply Z.lxor_spec).
  rewrite Ho, Z.shiftr_lxor. destruct (Z.odd a), (Z.odd b); cbn [xorb];
    apply Z.bits_inj'; intros i Hi; rewrite !Z.lxor_spec;
    destruct (Z.testbit (Z.shiftr a 1) i), (Z.testbit (Z.shiftr b 1) i), (Z.testbit POLY i);
    reflexivity.
Qed.
Lemma crc_shift_nonneg a : 0 <= a -> 0 <= crc_shift a.
Proof.
  intros H. unfold crc_shift. destruct (Z.odd a);
    [apply Z.lxor_nonneg; split; intros _; [done|]|]; by apply Z.shiftr_nonneg.
Qed.

(** [n] zero bits *)
Definition shifts (n : nat) (x : Z) : Z := Nat.iter n crc_shift x.

Lemma shifts_S n x : shifts (S n) x = crc_shift (shifts n x).
Proof. done. Qed.
Lemma shifts_add n m x : shifts (n + m) x = shifts n (shifts m x).
Proof. apply Nat.iter_add. Qed.
Lemma shifts_lxor n a b : shifts n (Z.lxor a b) = Z.lxor (shifts n a) (shifts n b).
Proof.
  induction n as [|n IH]; [done|].
  change (crc_shift (shifts n (Z.lxor a b)) =
          Z.lxor (crc_shift (shifts n a)) (crc_shift (shifts n b))).
  by rewrite IH, crc_shift_lxor.
Qed.
Lemma shifts_0 n : shifts n 0 = 0.
Proof.
  induction n as [|n IH]; [done|].
  change (shifts (S n) 0) with (crc_shift (shifts n 0)). by rewrite IH.
Qed.
(** shifting out zero bits *)
Lemma shifts_shiftl n x : shifts n (Z.shiftl x (Z.of_nat n)) = x.
Proof.
  revert x. induction n as [|n IH]; intros x; [apply Z.shiftl_0_r|].
  replace (S n) with (n + 1)%nat by lia. rewrite shifts_add.
  replace (shifts 1 (Z.shiftl x (Z.of_nat (n + 1)))) with (Z.shiftl x (Z.of_nat n)); [apply IH|].
  cbn [shifts Nat.iter nat_rect]. unfold crc_shift.
  replace (Z.of_nat (n + 1)) with (Z.of_nat n + 1) by lia.
  rewrite <- Z.shiftl_shiftl by lia.
  replace (Z.odd _) with false.
  - rewrite Z.shiftr_shiftl_l by lia. by rewrite Z.sub_diag, Z.shiftl_0_r.
  - by rewrite <- Z.bit0_odd, Z.shiftl_spec_low by lia.
Qed.
Lemma crc_shift_range k x :
  32 <= k -> 0 <= x < 2 ^ (k + 1) -> 0 <= crc_shift x < 2 ^ k.
Proof.
  intros Hk Hx. rewrite Z.pow_add_r in Hx by lia. unfold crc_shift.
  assert (Hs : 0 <= Z.shiftr x 1 < 2 ^ k).
  { rewrite Z.shiftr_div_pow2 by lia. change (2 ^ 1) with 2 in *.
    Z.div_mod_to_equations; lia. }
  destruct (Z.odd x); [|done]. apply lxor_range; [lia|done|].
  split; [done|]. apply Z.lt_le_trans with (2 ^ 32); [done|]. by apply Z.pow_le_mono_r.
Qed.
Lemma shifts_range n x : 0 <= x < 2 ^ 32 -> 0 <= shifts n x < 2 ^ 32.
Proof.
  intros H. induction n as [|n IH]; [done|].
  apply (crc_shift_range 32 (shifts n x)); [done|].
  change (2 ^ (32 + 1)) with (2 * 2 ^ 32). lia.
Qed.
Lemma shifts_reduce n x :
  0 <= x < 2 ^ (32 + Z.of_nat n) -> 0 <= shifts n x < 2 ^ 32.
Proof.
  revert x. induction n as [|n IH]; intros x H; [done|].
  replace (S n) with (n + 1)%nat by lia. rewrite shifts_add. apply IH.
  apply crc_shift_range; [lia|].
  by replace (32 + Z.of_nat n + 1) with (32 + Z.of_nat (S n)) by lia.
Qed.

(** a value split into its low byte and the rest *)
Lemma lxor_low_byte x :
  Z.lxor (Z.land x 255) (Z.shiftl (Z.shiftr x 8) 8) = x.
Proof.
  apply Z.bits_inj'; intros i Hi. rewrite Z.lxor_spec, Z.land_spec.
  change 255 with (Z.ones 8). destruct (Z.lt_ge_cases i 8).
  - rewrite Z.ones_spec_low, Z.shiftl_spec_low by lia. by rewrite andb_true_r, xorb_false_r.
  - rewrite Z.ones_spec_high, Z.shiftl_spec, Z.shiftr_spec by lia.
    rewrite andb_false_r, xorb_false_l. f_equal. lia.
Qed.
Lemma land_255 x : 0 <= Z.land x 255 < 256.
Proof. change 255 with (2 ^ 8 - 1). rewrite land_ones_mod by lia. apply Z.mod_pos_bound; lia. Qed.

(** [shifts 8] of a value that is [x] in bytes: drop the low byte, fold it in *)
Lemma shifts_8 x : shifts 8 x = Z.lxor (Z.shiftr x 8) (shifts 8 (Z.land x 255)).
Proof.
  rewrite <- (lxor_low_byte x) at 1. rewrite shifts_lxor, Z.lxor_comm. f_equal.
  apply (shifts_shiftl 8).
Qed.

(** ** The tables *)


Lemma tget_map_seq (f : nat -> Z) n i :
  0 <= i < Z.of_nat n -> tget 0 (map f (seq 0 n)) i = f (Z.to_nat i).
Proof.
  intros H. unfold tget. destruct (Z.ltb_spec i 0); [lia|].
  rewrite (nth_indep _ 0 (f 0%nat)) by (rewrite length_map, length_seq; lia).
  by rewrite map_nth, seq_nth by lia.
Qed.
Lemma crc_table_spec i : 0 <= i < 256 -> tget 0 crc_table i = shifts 8 i.
Proof.
  intros H. replace crc_table with make_crc_table by (vm_compute; reflexivity).
  unfold make_crc_table. rewrite tget_map_seq by lia. unfold make_crc_entry, shifts.
  by rewrite Z2Nat.id by lia.
Qed.
(** row [k] advances a byte by the zero bytes that follow it in the block *)
Lemma crc_braid_table_spec k i :
  (k < Wbytes)%nat -> 0 <= i < 256 ->
  tget 0 (nth k crc_braid_table []) i = shifts (8 * (Nbraids * Wbytes - k)) i.
Proof.
  intros Hk Hi.
  assert (Hall : forallb (fun k => bool_decide (nth k crc_braid_table [] =
     map (fun i => shifts (8 * (Nbraids * Wbytes - k)) (Z.of_nat i)) (seq 0 256)))
     (seq 0 Wbytes) = true) by (vm_compute; reflexivity).
  rewrite forallb_forall in Hall. specialize (Hall k ltac:(apply in_seq; lia)).
  apply bool_decide_eq_true in Hall. rewrite Hall.
  rewrite tget_map_seq by lia. by rewrite Z2Nat.id by lia.
Qed.

(** ** Bytes and words *)

Lemma crc_byte_spec crc b :
  0 <= b < 256 -> crc_byte crc b = crc_spec_byte crc b.
Proof.
  intros Hb. unfold crc_byte, crc_spec_byte. change (Nat.iter 8 crc_shift) with (shifts 8).
  rewrite crc_table_spec by apply land_255. rewrite (shifts_8 (Z.lxor crc b)). f_equal.
  rewrite Z.shiftr_lxor, (Z.shiftr_div_pow2 b) by lia. rewrite Z.div_small by lia.
  by rewrite Z.lxor_0_r.
Qed.
Lemma crc_run_byte crc buf : bytes_ok buf -> foldl crc_byte crc buf = crc_run crc buf.
Proof.
  intros H. revert crc. induction H as [|b buf Hb _ IH]; intros crc; [done|].
  cbn [foldl crc_run]. rewrite crc_byte_spec by done. apply IH.
Qed.
Lemma crc_run_app crc l l' : crc_run crc (l ++ l') = crc_run (crc_run crc l) l'.
Proof. apply foldl_app. Qed.
Lemma crc_run_range crc buf :
  0 <= crc < 2 ^ 32 -> bytes_ok buf -> 0 <= crc_run crc buf < 2 ^ 32.
Proof.
  intros Hc H. revert crc Hc. induction H as [|b buf Hb _ IH]; intros crc Hc; [done|].
  apply IH. apply (shifts_range 8). unfold is_byte in Hb. apply lxor_range; lia.
Qed.

Lemma load_word_nonneg l : bytes_ok l -> 0 <= load_word l.
Proof. induction 1 as [|b l Hb _ IH]; cbn; unfold is_byte in *; lia. Qed.
Lemma load_word_cons b l :
  0 <= b < 256 -> load_word (b :: l) = Z.lxor b (Z.shiftl (load_word l) 8).
Proof.
  intros Hb. cbn [load_word]. rewrite <- Z.add_nocarry_lxor.
  - rewrite Z.shiftl_mul_pow2 by lia. lia.
  - apply Z.bits_inj'; intros i Hi. rewrite Z.land_spec, Z.bits_0.
    destruct (Z.lt_ge_cases i 8); [rewrite Z.shiftl_spec_low by lia; apply andb_false_r|].
    rewrite <- (Z.mod_small b (2 ^ 8)), Z.mod_pow2_bits_high by lia. done.
Qed.
(** running over bytes is running over the word they make *)
Lemma crc_run_load crc l :
  bytes_ok l -> crc_run crc l = shifts (8 * length l) (Z.lxor crc (load_word l)).
Proof.
  intros H. revert crc. induction H as [|b l Hb _ IH]; intros crc.
  { cbn. by rewrite Z.lxor_0_r. }
  cbn [crc_run foldl length]. change (foldl crc_spec_byte ?c l) with (crc_run c l).
  rewrite IH, load_word_cons by done. unfold crc_spec_byte.
  change (Nat.iter 8 crc_shift) with (shifts 8).
  replace (8 * S (length l))%nat with (8 * length l + 8)%nat by lia.
  rewrite shifts_add. f_equal.
  rewrite <- (Z.lxor_assoc crc b), (shifts_lxor 8 (Z.lxor crc b)). f_equal. symmetry. apply (shifts_shiftl 8).
Qed.

Lemma crc_word_shifts x : 0 <= x < 2 ^ 64 -> crc_word x = shifts 64 x.
Proof.
  intros Hx. unfold crc_word.
  replace (Nat.iter Wbytes _ x) with (shifts 64 x).
  { apply u32_small, (shifts_reduce 64). change (2 ^ 64) with 18446744073709551616 in *.
    change (2 ^ (32 + Z.of_nat 64)) with 79228162514264337593543950336. lia. }
  change (shifts 64 x) with (shifts (8 * Wbytes) x). generalize Wbytes. intros n.
  induction n as [|n IH]; [done|].
  replace (8 * S n)%nat with (8 + 8 * n)%nat by lia. rewrite shifts_add, IH.
  cbn [Nat.iter nat_rect]. change (nat_rect _ x _ n) with (Nat.iter n (fun data =>
    Z.lxor (Z.shiftr data 8) (tget 0 crc_table (Z.land data 255))) x).
  by rewrite crc_table_spec by apply land_255; rewrite <- shifts_8.
Qed.

Lemma load_word_range l : bytes_ok l -> 0 <= load_word l < 2 ^ (8 * Z.of_nat (length l)).
Proof.
  induction 1 as [|b l Hb _ IH]; [done|]. cbn [load_word length]. unfold is_byte in Hb.
  rewrite Nat2Z.inj_succ, Z.mul_succ_r, Z.add_comm, Z.pow_add_r by lia.
  change (2 ^ 8) with 256. lia.
Qed.

(** the braid tables advance a whole word by one block *)
Lemma braid_word_shifts x :
  0 <= x < 2 ^ 64 -> braid_word x = shifts (8 * (Nbraids * Wbytes)) x.
Proof.
  intros Hx. unfold braid_word.
  set (byte k := Z.land (Z.shiftr x (8 * Z.of_nat k)) 255).
  assert (Hfold : forall n, (n <= 7)%nat ->
    foldl (fun crc k => Z.lxor crc (tget 0 (nth k crc_braid_table []) (byte k)))
      (tget 0 (nth 0 crc_braid_table []) (Z.land x 255)) (seq 1 n)
    = shifts (8 * (Nbraids * Wbytes)) (x mod 2 ^ (8 * (Z.of_nat n + 1)))).
  { induction n as [|n IH]; intros Hn.
    - cbn [seq foldl]. rewrite crc_braid_table_spec by (apply land_255 || (unfold Wbytes; lia)).
      rewrite Nat.sub_0_r. f_equal. change 255 with (2 ^ 8 - 1). by rewrite land_ones_mod.
    - rewrite seq_S, foldl_app, IH by lia. cbn [foldl]. rewrite crc_braid_table_spec
        by (apply land_255 || (unfold Wbytes; lia)).
      rewrite <- (shifts_shiftl (8 * S n) (byte (1 + n)%nat)), <- shifts_add.
      replace (8 * (Nbraids * Wbytes - (1 + n)) + 8 * S n)%nat with (8 * (Nbraids * Wbytes))%nat
        by (unfold Nbraids, Wbytes; lia).
      rewrite <- shifts_lxor. f_equal.
      replace (Z.of_nat (8 * S n)) with (8 * (Z.of_nat n + 1)) by lia.
      unfold byte. change 255 with (2 ^ 8 - 1). rewrite land_ones_mod by lia.
      replace (8 * Z.of_nat (1 + n)) with (8 * (Z.of_nat n + 1)) by lia.
      apply Z.bits_inj'; intros i Hi. rewrite Z.lxor_spec.
      set (m := 8 * (Z.of_nat n + 1)). replace (8 * (Z.of_nat (S n) + 1)) with (m + 8) by lia.
      destruct (Z.lt_ge_cases i m).
      + rewrite Z.shiftl_spec_low, !Z.mod_pow2_bits_low by lia. by rewrite xorb_false_r.
      + rewrite Z.mod_pow2_bits_high, Z.shiftl_spec, xorb_false_l by lia.
        destruct (Z.lt_ge_cases i (m + 8)).
        * rewrite !Z.mod_pow2_bits_low, Z.shiftr_spec by lia. f_equal. lia.
        * by rewrite !Z.mod_pow2_bits_high by lia. }
  unfold Wbytes at 1. rewrite Hfold by lia. f_equal. by apply Z.mod_small.
Qed.

(** ** The braided loop *)

#[local] Opaque shifts.

Lemma lxor_swap a b c d :
  Z.lxor (Z.lxor a b) (Z.lxor c d) = Z.lxor (Z.lxor a c) (Z.lxor b d).
Proof.
  apply Z.bits_inj'; intros i _. rewrite !Z.lxor_spec.
  destruct (Z.testbit a i), (Z.testbit b i), (Z.testbit c i), (Z.testbit d i); reflexivity.
Qed.

Definition fold_word (acc x : Z) : Z := shifts 64 (Z.lxor x acc).
Definition fold_words (acc : Z) (l : list Z) : Z := foldl fold_word acc l.
Definition w64 (x : Z) : Prop := 0 <= x < 2 ^ 64.

Fixpoint words (n : nat) (buf : list Z) : list Z :=
  match n with
  | O => []
  | S n => load_word (take Wbytes buf) :: words n (drop Wbytes buf)
  end.
Lemma block_words_eq buf : block_words buf = words Nbraids buf.
Proof. unfold block_words, Nbraids. cbn [seq map words]. by rewrite !drop_drop. Qed.
Lemma length_words n buf : length (words n buf) = n.
Proof. revert buf. induction n; intros buf; cbn; [done|by f_equal]. Qed.
Lemma words_w64 n buf : bytes_ok buf -> Forall w64 (words n buf).
Proof.
  revert buf. induction n as [|n IH]; intros buf H; constructor.
  - pose proof (load_word_range (take Wbytes buf) (Forall_take _ _ _ H)) as Hr.
    rewrite length_take in Hr. split; [lia|]. eapply Z.lt_le_trans; [apply Hr|].
    apply Z.pow_le_mono_r; unfold Wbytes; lia.
  - by apply IH, Forall_drop.
Qed.
Lemma zip_lxor_w64 l l' : Forall w64 l -> Forall w64 l' -> Forall w64 (zip_with Z.lxor l l').
Proof.
  intros H. revert l'. induction H as [|x l Hx _ IH]; intros [|y l'] H'; try constructor;
    inversion H'; subst.
  - unfold w64 in *. apply lxor_range; lia.
  - by apply IH.
Qed.

Lemma fold_words_lxor a b l l' :
  length l = length l' ->
  fold_words (Z.lxor a b) (zip_with Z.lxor l l') = Z.lxor (fold_words a l) (fold_words b l').
Proof.
  revert a b l'. induction l as [|x l IH]; intros a b [|y l'] H; try done.
  cbn [zip_with fold_words foldl]. injection H as H. unfold fold_words in IH.
  rewrite <- IH by done. f_equal. unfold fold_word. rewrite <- shifts_lxor.
  apply (f_equal (shifts 64)), lxor_swap.
Qed.
Lemma fold_words_shifts m a l :
  fold_words (shifts m a) (map (shifts m) l) = shifts m (fold_words a l).
Proof.
  revert a. induction l as [|x l IH]; intros a; [done|].
  cbn [map fold_words foldl]. unfold fold_words in IH. rewrite <- IH. f_equal.
  unfold fold_word. by rewrite <- shifts_lxor, <- !shifts_add, Nat.add_comm.
Qed.
Lemma fold_words_zeros a n : fold_words a (repeat 0 n) = shifts (64 * n) a.
Proof.
  revert a. induction n as [|n IH]; intros a; [done|].
  cbn [repeat fold_words foldl]. unfold fold_words in IH. rewrite IH.
  unfold fold_word. rewrite Z.lxor_0_l, <- shifts_add. f_equal. lia.
Qed.
Lemma zip_lxor_zeros l : zip_with Z.lxor (repeat 0 (length l)) l = l.
Proof. induction l as [|x l IH]; [done|]. cbn. by rewrite IH. Qed.
(** folding words from [c]: the carry-in of the first braid *)
Lemma fold_words_start c l :
  fold_words c l = Z.lxor (shifts (64 * length l) c) (fold_words 0 l).
Proof.
  rewrite <- (zip_lxor_zeros l) at 1. rewrite <- (Z.lxor_0_r c) at 1.
  rewrite fold_words_lxor by apply repeat_length. by rewrite fold_words_zeros.
Qed.
Lemma fold_words_seed c w ws :
  fold_words 0 (zip_with Z.lxor (c :: repeat 0 (length ws)) (w :: ws)) = fold_words c (w :: ws).
Proof.
  cbn [zip_with fold_words foldl]. rewrite zip_lxor_zeros. unfold fold_word.
  by rewrite Z.lxor_0_r, Z.lxor_comm.
Qed.
Lemma fold_words_run c n buf :
  bytes_ok buf -> (Wbytes * n <= length buf)%nat ->
  fold_words c (words n buf) = crc_run c (take (Wbytes * n) buf).
Proof.
  revert c buf. induction n as [|n IH]; intros c buf Hb Hn; [by rewrite Nat.mul_0_r|].
  cbn [words fold_words foldl]. unfold fold_words in IH.
  rewrite IH by (rewrite ?length_drop; first [by apply Forall_drop|lia]).
  replace (Wbytes * S n)%nat with (Wbytes + Wbytes * n)%nat by lia.
  rewrite <- take_take_drop, crc_run_app. unfold fold_word.
  rewrite (crc_run_load c (take Wbytes buf)) by (by apply Forall_take).
  rewrite length_take_le by lia. by rewrite (Z.lxor_comm c).
Qed.

Lemma braid_last_fold crcs buf :
  Forall w64 crcs -> bytes_ok buf ->
  braid_last crcs buf = fold_words 0 (zip_with Z.lxor crcs (words Nbraids buf)).
Proof.
  intros Hc Hb. unfold braid_last. rewrite block_words_eq.
  assert (Hz : Forall w64 (zip_with Z.lxor crcs (words Nbraids buf)))
    by (apply zip_lxor_w64; [done|by apply words_w64]).
  assert (H0 : w64 0) by done. revert H0. generalize 0 as a.
  induction Hz as [|x l Hx _ IH]; intros a Ha; [done|].
  cbn [foldl fold_words]. unfold fold_words in IH.
  assert (w64 (Z.lxor x a)) by (unfold w64 in *; apply lxor_range; lia).
  rewrite crc_word_shifts by done. fold (fold_word a x). apply IH.
  pose proof (shifts_reduce 64 (Z.lxor x a)) as Hs. unfold w64, fold_word in *.
  change (2 ^ (32 + Z.of_nat 64)) with (2 ^ 32 * 2 ^ 64) in Hs. lia.
Qed.

Lemma braid_step crcs buf :
  Forall w64 crcs -> bytes_ok buf ->
  map braid_word (zip_with Z.lxor crcs (block_words buf))
  = map (shifts (8 * (Nbraids * Wbytes))) (zip_with Z.lxor crcs (words Nbraids buf)) /\
  Forall w64 (map braid_word (zip_with Z.lxor crcs (block_words buf))).
Proof.
  intros Hc Hb. rewrite block_words_eq.
  assert (Hz : Forall w64 (zip_with Z.lxor crcs (words Nbraids buf)))
    by (apply zip_lxor_w64; [done|by apply words_w64]).
  induction Hz as [|x l Hx _ [IH1 IH2]]; [done|]. cbn [map].
  rewrite braid_word_shifts by done. split; [by f_equal|]. constructor; [|done].
  pose proof (shifts_reduce (8 * (Nbraids * Wbytes)) x) as Hs. unfold w64 in *.
  assert (2 ^ 64 <= 2 ^ (32 + Z.of_nat (8 * (Nbraids * Wbytes)))) by done.
  assert (2 ^ 32 < 2 ^ 64) by done. lia.
Qed.

Lemma shifts_block c : shifts (8 * (Nbraids * Wbytes)) c = shifts (64 * Nbraids) c.
Proof. done. Qed.

Lemma braid_loop_spec blks c crcs buf :
  (1 <= blks)%nat -> bytes_ok buf -> (Nbraids * Wbytes * blks <= length buf)%nat ->
  Forall w64 crcs -> length crcs = Nbraids ->
  fold_words 0 (zip_with Z.lxor crcs (words Nbraids buf)) = fold_words c (words Nbraids buf) ->
  let '(crcs', rest) := braid_loop blks crcs buf in
  braid_last crcs' rest = crc_run c (take (Nbraids * Wbytes * blks) buf) /\
  drop (Nbraids * Wbytes) rest = drop (Nbraids * Wbytes * blks) buf.
Proof.
  revert c crcs buf. induction blks as [|[|blks] IH]; intros c crcs buf H1 Hb Hlen Hc Hl Hz.
  - lia.
  - cbn [braid_loop]. rewrite braid_last_fold, Hz, Nat.mul_1_r by done. split; [|done].
    rewrite Nat.mul_comm. apply fold_words_run; [done|lia].
  - cbn [braid_loop]. destruct (braid_step crcs buf Hc Hb) as [Hstep Hw].
    assert (Hlen' : (Nbraids * Wbytes * S blks <= length (drop (Nbraids * Wbytes) buf))%nat)
      by (rewrite length_drop; lia).
    specialize (IH (fold_words c (words Nbraids buf))
      (map braid_word (zip_with Z.lxor crcs (block_words buf))) (drop (Nbraids * Wbytes) buf)).
    cbn [braid_loop] in IH.
    destruct (match blks with O => _ | S _ => _ end) as [crcs' rest].
    destruct IH as [IH1 IH2]; [lia|by apply Forall_drop|done|done| | |].
    + rewrite length_map, length_zip_with, block_words_eq, length_words, Hl. done.
    + rewrite Hstep, (fold_words_start (fold_words c _)), length_words, <- shifts_block, <- Hz,
        <- fold_words_shifts, shifts_0.
      rewrite <- fold_words_lxor; [by rewrite Z.lxor_0_l|].
      rewrite length_map, length_zip_with, !length_words, Hl. done.
    + replace (Nbraids * Wbytes * S (S blks))%nat
        with (Nbraids * Wbytes + Nbraids * Wbytes * S blks)%nat by lia.
      rewrite <- take_take_drop, crc_run_app, <- drop_drop. split; [|done].
      rewrite IH1. f_equal. rewrite (Nat.mul_comm Nbraids Wbytes). apply fold_words_run; [done|lia].
Qed.

Lemma align_loop_spec addr crc buf :
  bytes_ok buf ->
  let '(crc', rest) := align_loop addr crc buf in
  exists pre, buf = pre ++ rest /\ crc' = crc_run crc pre /\ (length pre <= 7)%nat.
Proof.
  intros Hb.
  enough (let '(crc', rest) := align_loop addr crc buf in
    exists pre, buf = pre ++ rest /\ crc' = crc_run crc pre /\
                Z.of_nat (length pre) <= (- addr) mod 8) as H.
  { destruct (align_loop _ _ _). destruct H as (pre & ? & ? & ?). exists pre.
    split_and!; try done. pose proof (Z.mod_pos_bound (- addr) 8 eq_refl). lia. }
  revert addr crc. induction Hb as [|b buf Hb _ IH]; intros addr crc; cbn [align_loop].
  { exists []. split_and!; try done. apply Z.mod_pos_bound; done. }
  change (Z.of_nat Wbytes - 1) with (2 ^ 3 - 1). rewrite land_ones_mod by lia.
  change (2 ^ 3) with 8. destruct (Z.eqb_spec (addr mod 8) 0) as [E|E].
  { exists []. split_and!; try done. apply Z.mod_pos_bound; done. }
  specialize (IH (addr + 1) (crc_byte crc b)). destruct (align_loop _ _ _) as [c' rest].
  destruct IH as (pre & -> & -> & Hl). exists (b :: pre). split_and!; [done| |].
  - cbn [crc_run foldl]. by rewrite crc_byte_spec.
  - cbn [length]. rewrite Nat2Z.inj_succ. revert Hl E. Z.div_mod_to_equations. lia.
Qed.

Lemma land_lnot_mask x : 0 <= x < 2 ^ 32 -> Z.land (Z.lnot x) 0xffffffff = Z.lxor x 0xffffffff.
Proof.
  intros Hx. apply Z.bits_inj'; intros i Hi.
  rewrite Z.land_spec, Z.lnot_spec, Z.lxor_spec by done.
  change 0xffffffff with (Z.ones 32). destruct (Z.lt_ge_cases i 32).
  - rewrite Z.ones_spec_low by lia. by destruct (Z.testbit x i).
  - rewrite Z.ones_spec_high by lia.
    rewrite <- (Z.mod_small x (2 ^ 32)), Z.mod_pow2_bits_high by lia. done.
Qed.

(** C28. The braided, word-at-a-time [crc32_z] computes the bit-at-a-time
    CRC-32 for every buffer, whatever its length and its alignment. *)
Theorem crc32_z_correct addr crc buf :
  0 <= crc < 2 ^ 32 -> bytes_ok buf -> crc32_z addr crc (Some buf) = crc32_spec crc buf.
Proof.
  intros Hc Hb. unfold crc32_z, crc32_spec. rewrite land_lnot_mask by done.
  assert (Hx : 0 <= Z.lxor crc 0xffffffff < 2 ^ 32) by (apply lxor_range; [done|done|done]).
  set (c := Z.lxor crc 0xffffffff) in *. clearbody c.
  destruct (Z.geb_spec (Z.of_nat (length buf)) (Z.of_nat (Nbraids * Wbytes + Wbytes - 1)))
    as [Hlen|_]; [|by rewrite crc_run_byte].
  pose proof (align_loop_spec addr c buf Hb) as Ha.
  destruct (align_loop addr c buf) as [c1 buf1]. destruct Ha as (pre & -> & -> & Hpre).
  rewrite length_app in Hlen. apply Forall_app in Hb as [Hbp Hb1]. rewrite crc_run_app.
  pose proof (crc_run_range c pre Hx Hbp) as Hc1. set (c1 := crc_run c pre) in *. clearbody c1.
  set (blks := (length buf1 / (Nbraids * Wbytes))%nat).
  assert (Hm : (Nbraids * Wbytes * blks <= length buf1)%nat) by apply Nat.Div0.mul_div_le.
  assert (H1 : (1 <= blks)%nat).
  { unfold blks, Nbraids, Wbytes in *. apply Nat.div_le_lower_bound; lia. }
  pose proof (braid_loop_spec blks c1 (c1 :: repeat 0 (Nbraids - 1)) buf1 H1 Hb1 Hm) as Hl.
  destruct (braid_loop _ _ _) as [crcs rest]. destruct Hl as [-> ->].
  - constructor; [unfold w64; lia|]. do 4 (constructor; [done|]). constructor.
  - done.
  - apply (fold_words_seed c1 _ (words (Nbraids - 1) (drop Wbytes buf1))).
  - rewrite crc_run_byte by (by apply Forall_drop). by rewrite <- crc_run_app, take_drop.
Qed.

Lemma crc32_z_correct_witness :
  bytes_ok (map Z.of_nat (seq 0 100)) /\
  crc32_z 3 0 (Some (map Z.of_nat (seq 0 100))) = crc32_spec 0 (map Z.of_nat (seq 0 100)).
Proof.
  assert (H : bytes_ok (map Z.of_nat (seq 0 100))).
  { apply Forall_forall. intros x. rewrite in_map_iff.
    intros (n & <- & Hn). apply in_seq in Hn. unfold is_byte. lia. }
  split; [done|]. apply crc32_z_correct; [lia|done].
Defined.

(** ** Polynomials modulo p(x): bit 31 - j is the coefficient of x^j *)

Fixpoint poly_mul (n : nat) (a b : Z) : Z :=
  match n with
  | O => 0
  | S n => Z.lxor (if Z.testbit a (31 - Z.of_nat n) then shifts n b else 0) (poly_mul n a b)
  end.
Definition pmul (a b : Z) : Z := poly_mul 32 a b.
Definition one : Z := 2 ^ 31.

Lemma poly_mul_lxor_l n a a' b :
  poly_mul n (Z.lxor a a') b = Z.lxor (poly_mul n a b) (poly_mul n a' b).
Proof.
  induction n as [|n IH]; [done|]. cbn [poly_mul]. rewrite IH, Z.lxor_spec, (lxor_swap _ _ (if Z.testbit a' _ then _ else _)).
  f_equal. destruct (Z.testbit a _), (Z.testbit a' _); cbn [xorb];
    by rewrite ?Z.lxor_0_r, ?Z.lxor_0_l, ?Z.lxor_nilpotent.
Qed.
Lemma poly_mul_lxor_r n a b b' :
  poly_mul n a (Z.lxor b b') = Z.lxor (poly_mul n a b) (poly_mul n a b').
Proof.
  induction n as [|n IH]; [done|].
  cbn [poly_mul]. rewrite IH, (lxor_swap _ (poly_mul n a b)). f_equal.
  destruct (Z.testbit a _); [apply shifts_lxor|done].
Qed.
Lemma poly_mul_0_r n a : poly_mul n a 0 = 0.
Proof.
  induction n as [|n IH]; [done|]. cbn [poly_mul]. rewrite IH, Z.lxor_0_r, shifts_0.
  by destruct (Z.testbit a _).
Qed.
Lemma poly_mul_0_l n b : poly_mul n 0 b = 0.
Proof. induction n as [|n IH]; [done|]. cbn [poly_mul]. by rewrite IH, Z.testbit_0_l. Qed.

(** xor-linear functions that agree on the powers of two agree *)
Lemma linear_ext (f g : Z -> Z) (n : nat) :
  (forall a b, f (Z.lxor a b) = Z.lxor (f a) (f b)) ->
  (forall a b, g (Z.lxor a b) = Z.lxor (g a) (g b)) ->
  (forall i, (i < n)%nat -> f (2 ^ Z.of_nat i) = g (2 ^ Z.of_nat i)) ->
  forall x, 0 <= x < 2 ^ Z.of_nat n -> f x = g x.
Proof.
  intros Hf Hg H.
  assert (H0 : f 0 = g 0).
  { rewrite <- (Z.lxor_nilpotent 0), Hf, Hg. by rewrite !Z.lxor_nilpotent. }
  induction n as [|n IH]; intros x Hx.
  { replace x with 0 by (cbn in Hx; lia). done. }
  rewrite Nat2Z.inj_succ, Z.pow_succ_r in Hx by lia.
  destruct (Z.lt_ge_cases x (2 ^ Z.of_nat n)) as [Hlt|Hge].
  - apply IH; [|lia]. intros i Hi. apply H. lia.
  - replace x with (Z.lxor (x - 2 ^ Z.of_nat n) (2 ^ Z.of_nat n)).
    + rewrite Hf, Hg, (H n) by lia. f_equal. apply IH; [|lia]. intros i Hi. apply H. lia.
    + rewrite <- Z.add_nocarry_lxor; [lia|].
      apply Z.bits_inj'; intros i Hi. rewrite Z.land_spec, Z.bits_0, Z.pow2_bits_eqb by lia.
      destruct (Z.eqb_spec (Z.of_nat n) i); [subst|apply andb_false_r].
      rewrite <- (Z.mod_small (x - _) (2 ^ Z.of_nat n)), Z.mod_pow2_bits_high by lia. done.
Qed.

Lemma in_range_check n (P : nat -> bool) :
  forallb P (seq 0 n) = true -> forall i, (i < n)%nat -> P i = true.
Proof. rewrite forallb_forall. intros H i Hi. apply H, in_seq. lia. Qed.

(** multiplying by x on the left: [x^32] reduces to [POLY] *)
Lemma pmul_shift a b :
  0 <= a < 2 ^ 32 -> 0 <= b < 2 ^ 32 -> pmul (crc_shift a) b = crc_shift (pmul a b).
Proof.
  intros Ha Hb.
  apply (linear_ext (fun a => pmul (crc_shift a) b) (fun a => crc_shift (pmul a b)) 32); try done.
  1,2: intros; unfold pmul; rewrite ?crc_shift_lxor, ?poly_mul_lxor_l, ?crc_shift_lxor; done.
  clear a Ha. intros i Hi.
  apply (linear_ext (fun b => pmul (crc_shift (2 ^ Z.of_nat i)) b)
           (fun b => crc_shift (pmul (2 ^ Z.of_nat i) b)) 32); try done.
  1,2: intros; unfold pmul; rewrite ?crc_shift_lxor, ?poly_mul_lxor_r, ?crc_shift_lxor; done.
  clear b Hb. intros j Hj.
  assert (Hall : forallb (fun i => forallb (fun j =>
     pmul (crc_shift (2 ^ Z.of_nat i)) (2 ^ Z.of_nat j)
     =? crc_shift (pmul (2 ^ Z.of_nat i) (2 ^ Z.of_nat j))) (seq 0 32)) (seq 0 32) = true)
    by (vm_compute; reflexivity).
  by apply Z.eqb_eq, (in_range_check _ _ (in_range_check _ _ Hall i Hi) j Hj).
Qed.
Lemma pmul_one b : 0 <= b < 2 ^ 32 -> pmul one b = b.
Proof.
  intros Hb. apply (linear_ext (pmul one) (fun b => b) 32); try done.
  { intros; apply poly_mul_lxor_r. }
  assert (Hall : forallb (fun i => pmul one (2 ^ Z.of_nat i) =? 2 ^ Z.of_nat i) (seq 0 32) = true)
    by (vm_compute; reflexivity).
  intros i Hi. by apply Z.eqb_eq, (in_range_check _ _ Hall i Hi).
Qed.
(** multiplying by x^n is shifting by [n] *)
Lemma pmul_pow n b : 0 <= b < 2 ^ 32 -> pmul (shifts n one) b = shifts n b.
Proof.
  intros Hb. induction n as [|n IH]; [by apply pmul_one|].
  rewrite !shifts_S, pmul_shift; [by rewrite IH| |done]. by apply shifts_range.
Qed.

Lemma poly_mul_tail n m a b :
  (n <= m)%nat -> (forall i, (n <= i < m)%nat -> Z.testbit a (31 - Z.of_nat i) = false) ->
  poly_mul m a b = poly_mul n a b.
Proof.
  intros Hle H. induction Hle as [|m Hle IH]; [done|].
  cbn [poly_mul]. rewrite H by lia. rewrite Z.lxor_0_l. apply IH. intros i Hi. apply H. lia.
Qed.

Lemma land_pow2 a k : 0 <= k -> (Z.land a (2 ^ k) =? 0) = negb (Z.testbit a k).
Proof.
  intros Hk. destruct (Z.testbit a k) eqn:E; cbn.
  - apply Z.eqb_neq. intros H. apply (f_equal (fun z => Z.testbit z k)) in H.
    rewrite Z.land_spec, Z.pow2_bits_true, Z.bits_0, andb_true_r in H by done. congruence.
  - apply Z.eqb_eq, Z.bits_inj'. intros i Hi. rewrite Z.land_spec, Z.bits_0, Z.pow2_bits_eqb by done.
    destruct (Z.eqb_spec k i); subst; [by rewrite E|apply andb_false_r].
Qed.

(** the [for (;;)] stops by its own test within 32 rounds when [a] is not zero *)
Lemma multmodp_loop_spec fuel a b :
  (fuel <= 32)%nat -> a mod 2 ^ Z.of_nat fuel <> 0 ->
  multmodp_loop fuel a (shifts (32 - fuel) b) (2 ^ (Z.of_nat fuel - 1)) (poly_mul (32 - fuel) a b)
  = Some (pmul a b).
Proof.
  induction fuel as [|f IH]; intros Hf Ha; [by rewrite Z.mod_1_r in Ha|].
  cbn [multmodp_loop].
  replace (Z.of_nat (S f) - 1) with (Z.of_nat f) in * by lia.
  rewrite land_pow2, negb_involutive, land_ones_mod by lia.
  assert (Hp : (if negb (Z.testbit a (Z.of_nat f)) then poly_mul (32 - S f) a b
           else Z.lxor (poly_mul (32 - S f) a b) (shifts (32 - S f) b)) = poly_mul (32 - f) a b).
  { replace (32 - f)%nat with (S (32 - S f)) by lia. cbn [poly_mul].
    replace (31 - Z.of_nat (32 - S f)) with (Z.of_nat f) by lia.
    destruct (Z.testbit a _); cbn [negb]; [apply Z.lxor_comm|done]. }
  rewrite Hp. destruct (Z.testbit a (Z.of_nat f) && (a mod 2 ^ Z.of_nat f =? 0)) eqn:E.
  - apply andb_true_iff in E as [_ E]. apply Z.eqb_eq in E. f_equal. symmetry.
    apply poly_mul_tail; [lia|]. intros i Hi.
    rewrite <- (Z.mod_pow2_bits_low a (Z.of_nat f)) by lia. by rewrite E, Z.bits_0.
  - rewrite <- IH; [|lia|].
    + f_equal.
      * rewrite <- shifts_S. f_equal. lia.
      * rewrite Z.shiftr_div_pow2 by lia. destruct f as [|f]; [|].
        -- exfalso. change (2 ^ Z.of_nat 0) with 1 in E. change (2 ^ Z.of_nat 1) with 2 in Ha.
           rewrite Z.mod_1_r, andb_true_r in E. rewrite <- Z.bit0_mod in Ha.
           change (Z.of_nat 0) with 0 in E. by rewrite E in Ha.
        -- rewrite <- Z.pow_sub_r by lia. f_equal.
    + intros H0. apply Ha. rewrite H0, andb_true_r in E.
      rewrite Nat2Z.inj_succ, Z.pow_succ_r, Z.mul_comm, Z.rem_mul_r by lia.
      rewrite H0, <- Z.testbit_spec' by lia. by rewrite E, Z.mul_0_r.
Qed.
Lemma multmodp_spec a b :
  0 < a < 2 ^ 32 -> multmodp a b = Some (pmul a b).
Proof.
  intros Ha. unfold multmodp. rewrite <- (multmodp_loop_spec 32 a b); [done|done|].
  rewrite Z.mod_small; lia.
Qed.

Lemma crc_shift_nonzero a : 0 < a < 2 ^ 32 -> 0 < crc_shift a < 2 ^ 32.
Proof.
  intros Ha. pose proof (crc_shift_range 32 a) as Hr.
  enough (crc_shift a <> 0) by (change (2 ^ (32 + 1)) with (2 * 2 ^ 32) in Hr; lia).
  unfold crc_shift. destruct (Z.odd a) eqn:E.
  - rewrite Z.lxor_eq_0_iff, Z.shiftr_div_pow2 by lia. unfold POLY. change (2 ^ 1) with 2.
    change (2 ^ 32) with 4294967296 in Ha. Z.div_mod_to_equations. lia.
  - rewrite Z.shiftr_div_pow2 by lia. change (2 ^ 1) with 2. intros H0.
    assert (a = 1) by (Z.div_mod_to_equations; lia). by subst a.
Qed.
Lemma pow_nonzero n : 0 < shifts n one < 2 ^ 32.
Proof. induction n as [|n IH]; [done|]. rewrite shifts_S. by apply crc_shift_nonzero. Qed.

(** [x2n_table] holds x^(2^k), and x has order dividing 2^32 - 1 *)
Lemma x2n_table_spec k :
  tget 0 x2n_table (Z.of_nat k mod 32) = shifts (2 ^ k) one.
Proof.
  assert (Hall : forallb (fun i => bool_decide (
     multmodp (tget 0 x2n_table (Z.of_nat i)) (tget 0 x2n_table (Z.of_nat i))
     = Some (tget 0 x2n_table (Z.of_nat (S i) mod 32)))) (seq 0 32) = true)
    by (vm_compute; reflexivity).
  induction k as [|k IH].
  { change (2 ^ 0)%nat with 1%nat. rewrite shifts_S. vm_compute. reflexivity. }
  set (i := Z.to_nat (Z.of_nat k mod 32)).
  assert (Hi : Z.of_nat i = Z.of_nat k mod 32)
    by (unfold i; pose proof (Z.mod_pos_bound (Z.of_nat k) 32 eq_refl); lia).
  pose proof (in_range_check _ _ Hall i) as Hc. cbv beta in Hc.
  rewrite bool_decide_eq_true, Hi, IH in Hc.
  replace (Z.of_nat (S i) mod 32) with (Z.of_nat (S k) mod 32) in Hc
    by (rewrite !Nat2Z.inj_succ, Hi, <- !Z.add_1_r, Zplus_mod_idemp_l; done).
  rewrite multmodp_spec in Hc by apply pow_nonzero.
  specialize (Hc ltac:(pose proof (Z.mod_pos_bound (Z.of_nat k) 32 eq_refl); lia)).
  injection Hc as Hc. rewrite <- Hc, pmul_pow, <- shifts_add
    by (pose proof (pow_nonzero (2 ^ k)); lia).
  f_equal. cbn [Nat.pow]. lia.
Qed.

Lemma x2nmodp_loop_spec fuel n k e :
  0 <= n < 2 ^ Z.of_nat fuel -> Z.of_nat k + Z.of_nat fuel < 2 ^ 32 ->
  x2nmodp_loop fuel n (Z.of_nat k) (shifts e one) = Some (shifts (e + Z.to_nat n * 2 ^ k) one).
Proof.
  revert n k e. induction fuel as [|f IH]; intros n k e Hn Hk; cbn [x2nmodp_loop].
  { replace n with 0 by (cbn in Hn; lia). cbn. by rewrite Nat.add_0_r. }
  destruct (Z.eqb_spec n 0) as [->|Hn0]; [by rewrite Nat.add_0_r|].
  change 31 with (2 ^ 5 - 1). rewrite land_ones_mod by lia. change (2 ^ 5) with 32.
  rewrite x2n_table_spec.
  set (d := if Z.odd n then (2 ^ k)%nat else 0%nat).
  replace (if Z.odd n then _ else _) with (Some (shifts (e + d) one)); unfold d.
  2:{ destruct (Z.odd n); [|by rewrite Nat.add_0_r].
      rewrite multmodp_spec, pmul_pow, <- shifts_add by
        (try apply pow_nonzero; pose proof (pow_nonzero e); lia).
      by rewrite Nat.add_comm. }
  rewrite u32_small by lia. replace (Z.of_nat k + 1) with (Z.of_nat (S k)) by lia.
  rewrite Nat2Z.inj_succ, Z.pow_succ_r in Hn by lia.
  rewrite Z.shiftr_div_pow2 by lia. change (2 ^ 1) with 2.
  rewrite IH by (Z.div_mod_to_equations; lia). do 2 f_equal. cbn [Nat.pow].
  pose proof (Zmod_odd n) as Ho.
  assert (Hd : Z.to_nat n = (2 * Z.to_nat (n / 2) + if Z.odd n then 1 else 0)%nat).
  { destruct (Z.odd n); Z.div_mod_to_equations; lia. }
  rewrite Hd. destruct (Z.odd n); nia.
Qed.

Lemma x2nmodp_bytes len :
  0 <= len < 2 ^ 63 -> x2nmodp len 3 = Some (shifts (8 * Z.to_nat len) one).
Proof.
  intros H. pose proof (x2nmodp_loop_spec 64 len 3 0) as Hs.
  change (2 ^ 3)%nat with 8%nat in Hs. rewrite Nat.add_0_l, Nat.mul_comm in Hs.
  apply Hs; [|done]. split; [lia|]. apply Z.lt_trans with (2 ^ 63); [lia|done].
Qed.

(** C30. CRCs combine: from the CRC of a first part and that of a second part
    of [len2] bytes, [crc32_combine] terminates with the CRC of the whole. *)
Theorem crc32_combine_correct crc1 buf2 :
  0 <= crc1 < 2 ^ 32 -> bytes_ok buf2 -> Z.of_nat (length buf2) < 2 ^ 63 ->
  crc32_combine crc1 (crc32_spec 0 buf2) (Z.of_nat (length buf2)) = Some (crc32_spec crc1 buf2).
Proof.
  intros Hc Hb Hlen. unfold crc32_combine, crc32_combine64.
  rewrite x2nmodp_bytes by lia. cbn [mbind option_bind].
  rewrite multmodp_spec, pmul_pow by (apply pow_nonzero || done).
  rewrite Nat2Z.id. cbn [fmap option_fmap option_map]. f_equal.
  change (4294967295) with (2 ^ 32 - 1). rewrite land_ones_mod by lia.
  assert (Hr : 0 <= crc32_spec 0 buf2 < 2 ^ 32).
  { apply lxor_range; [done| |done]. apply crc_run_range; [|done]. done. }
  rewrite Z.mod_small by done. unfold crc32_spec. rewrite Z.lxor_0_l.
  rewrite !crc_run_load, <- Z.lxor_assoc by done. f_equal.
  by rewrite (Z.lxor_assoc crc1), (shifts_lxor _ crc1).
Qed.
Lemma crc32_combine_correct_witness :
  bytes_ok [97; 98; 99] /\
  crc32_combine 305419896 (crc32_spec 0 [97; 98; 99]) 3 = Some (crc32_spec 305419896 [97; 98; 99]).
Proof.
  assert (H : bytes_ok [97; 98; 99]) by (repeat constructor; unfold is_byte; lia).
  split; [done|]. apply (crc32_combine_correct 305419896 [97; 98; 99]); [lia|done|cbn; lia].
Defined.
