(* ===== verification/DeflateTables.v ===== *)
(** * Constant tables of the deflate format

    trees.h (static trees, length and distance codes), the extra-bit tables and
    [bl_order] of trees.c, and the fixed decoding tables of inffixed.h, as the
    sources list them. *)
From S2P Require Import Prelude.

(** [struct ct_data_s]: both members are unions.  [fc] is [Freq] or [Code],
    [dl] is [Dad] or [Len]. *)
Record ct_data := mk_ct { fc : Z; dl : Z }.
#[export] Instance eta_ct_data : Settable ct_data := fun r => mk_ct (fc r) (dl r).
Definition ct_zero : ct_data := mk_ct 0 0.
Definition mk_tree (l : list (Z * Z)) : list ct_data := map (fun p => mk_ct p.1 p.2) l.

(** [code] of inftrees.h: one entry of a decoding table *)
Record code := mk_code { op : Z; cbits : Z; val : Z }.
#[export] Instance eta_code : Settable code := fun r => mk_code (op r) (cbits r) (val r).
#[export] Instance code_eq_dec : EqDecision code.
Proof. solve_decision. Defined.
#[export] Instance ct_data_eq_dec : EqDecision ct_data.
Proof. solve_decision. Defined.
Definition code_zero : code := mk_code 0 0 0.
Definition mk_codes (l : list (Z * Z * Z)) : list code := map (fun p => mk_code p.1.1 p.1.2 p.2) l.

Definition LENGTH_CODES : Z := 29.
Definition LITERALS : Z := 256.
Definition L_CODES : Z := 286.
Definition D_CODES : Z := 30.
Definition BL_CODES : Z := 19.
Definition HEAP_SIZE : Z := 573.
Definition MAX_BITS : Z := 15.
Definition Buf_size : Z := 16.
Definition END_BLOCK : Z := 256.
Definition REP_3_6 : Z := 16.
Definition REPZ_3_10 : Z := 17.
Definition REPZ_11_138 : Z := 18.
Definition STORED_BLOCK : Z := 0.
Definition STATIC_TREES : Z := 1.
Definition DYN_TREES : Z := 2.

Definition extra_lbits : list Z :=
  [0;0;0;0;0;0;0;0;1;1;1;1;2;2;2;2;3;3;3;3;4;4;4;4;5;5;5;5;0].
Definition extra_dbits : list Z :=
  [0;0;0;0;1;1;2;2;3;3;4;4;5;5;6;6;7;7;8;8;9;9;10;10;11;11;12;12;13;13].
Definition bl_order : list Z :=
  [16;17;18;0;8;7;9;6;10;5;11;4;12;3;13;2;14;1;15].
(** the local [order] of inflate.c and deflate.c, the same permutation *)
Definition order : list Z :=
  [16;17;18;0;8;7;9;6;10;5;11;4;12;3;13;2;14;1;15].

Definition static_ltree : list ct_data := mk_tree [
   (12, 8); (140, 8); (76, 8); (204, 8); (44, 8); (172, 8);
   (108, 8); (236, 8); (28, 8); (156, 8); (92, 8); (220, 8);
   (60, 8); (188, 8); (124, 8); (252, 8); (2, 8); (130, 8);
   (66, 8); (194, 8); (34, 8); (162, 8); (98, 8); (226, 8);
   (18, 8); (146, 8); (82, 8); (210, 8); (50, 8); (178, 8);
   (114, 8); (242, 8); (10, 8); (138, 8); (74, 8); (202, 8);
   (42, 8); (170, 8); (106, 8); (234, 8); (26, 8); (154, 8);
   (90, 8); (218, 8); (58, 8); (186, 8); (122, 8); (250, 8);
   (6, 8); (134, 8); (70, 8); (198, 8); (38, 8); (166, 8);
   (102, 8); (230, 8); (22, 8); (150, 8); (86, 8); (214, 8);
   (54, 8); (182, 8); (118, 8); (246, 8); (14, 8); (142, 8);
   (78, 8); (206, 8); (46, 8); (174, 8); (110, 8); (238, 8);
   (30, 8); (158, 8); (94, 8); (222, 8); (62, 8); (190, 8);
   (126, 8); (254, 8); (1, 8); (129, 8); (65, 8); (193, 8);
   (33, 8); (161, 8); (97, 8); (225, 8); (17, 8); (145, 8);
   (81, 8); (209, 8); (49, 8); (177, 8); (113, 8); (241, 8);
   (9, 8); (137, 8); (73, 8); (201, 8); (41, 8); (169, 8);
   (105, 8); (233, 8); (25, 8); (153, 8); (89, 8); (217, 8);
   (57, 8); (185, 8); (121, 8); (249, 8); (5, 8); (133, 8);
   (69, 8); (197, 8); (37, 8); (165, 8); (101, 8); (229, 8);
   (21, 8); (149, 8); (85, 8); (213, 8); (53, 8); (181, 8);
   (117, 8); (245, 8); (13, 8); (141, 8); (77, 8); (205, 8);
   (45, 8); (173, 8); (109, 8); (237, 8); (29, 8); (157, 8);
   (93, 8); (221, 8); (61, 8); (189, 8); (125, 8); (253, 8);
   (19, 9); (275, 9); (147, 9); (403, 9); (83, 9); (339, 9);
   (211, 9); (467, 9); (51, 9); (307, 9); (179, 9); (435, 9);
   (115, 9); (371, 9); (243, 9); (499, 9); (11, 9); (267, 9);
   (139, 9); (395, 9); (75, 9); (331, 9); (203, 9); (459, 9);
   (43, 9); (299, 9); (171, 9); (427, 9); (107, 9); (363, 9);
   (235, 9); (491, 9); (27, 9); (283, 9); (155, 9); (411, 9);
   (91, 9); (347, 9); (219, 9); (475, 9); (59, 9); (315, 9);
   (187, 9); (443, 9); (123, 9); (379, 9); (251, 9); (507, 9);
   (7, 9); (263, 9); (135, 9); (391, 9); (71, 9); (327, 9);
   (199, 9); (455, 9); (39, 9); (295, 9); (167, 9); (423, 9);
   (103, 9); (359, 9); (231, 9); (487, 9); (23, 9); (279, 9);
   (151, 9); (407, 9); (87, 9); (343, 9); (215, 9); (471, 9);
   (55, 9); (311, 9); (183, 9); (439, 9); (119, 9); (375, 9);
   (247, 9); (503, 9); (15, 9); (271, 9); (143, 9); (399, 9);
   (79, 9); (335, 9); (207, 9); (463, 9); (47, 9); (303, 9);
   (175, 9); (431, 9); (111, 9); (367, 9); (239, 9); (495, 9);
   (31, 9); (287, 9); (159, 9); (415, 9); (95, 9); (351, 9);
   (223, 9); (479, 9); (63, 9); (319, 9); (191, 9); (447, 9);
   (127, 9); (383, 9); (255, 9); (511, 9); (0, 7); (64, 7);
   (32, 7); (96, 7); (16, 7); (80, 7); (48, 7); (112, 7);
   (8, 7); (72, 7); (40, 7); (104, 7); (24, 7); (88, 7);
   (56, 7); (120, 7); (4, 7); (68, 7); (36, 7); (100, 7);
   (20, 7); (84, 7); (52, 7); (116, 7); (3, 8); (131, 8);
   (67, 8); (195, 8); (35, 8); (163, 8); (99, 8); (227, 8)].

Definition static_dtree : list ct_data := mk_tree [
   (0, 5); (16, 5); (8, 5); (24, 5); (4, 5); (20, 5);
   (12, 5); (28, 5); (2, 5); (18, 5); (10, 5); (26, 5);
   (6, 5); (22, 5); (14, 5); (30, 5); (1, 5); (17, 5);
   (9, 5); (25, 5); (5, 5); (21, 5); (13, 5); (29, 5);
   (3, 5); (19, 5); (11, 5); (27, 5); (7, 5); (23, 5)].

Definition j_dist_code : list Z := [
   0; 1; 2; 3; 4; 4; 5; 5; 6; 6; 6; 6; 7; 7; 7; 7; 8; 8; 8; 8;
   8; 8; 8; 8; 9; 9; 9; 9; 9; 9; 9; 9; 10; 10; 10; 10; 10; 10; 10; 10;
   10; 10; 10; 10; 10; 10; 10; 10; 11; 11; 11; 11; 11; 11; 11; 11; 11; 11; 11; 11;
   11; 11; 11; 11; 12; 12; 12; 12; 12; 12; 12; 12; 12; 12; 12; 12; 12; 12; 12; 12;
   12; 12; 12; 12; 12; 12; 12; 12; 12; 12; 12; 12; 12; 12; 12; 12; 13; 13; 13; 13;
   13; 13; 13; 13; 13; 13; 13; 13; 13; 13; 13; 13; 13; 13; 13; 13; 13; 13; 13; 13;
   13; 13; 13; 13; 13; 13; 13; 13; 14; 14; 14; 14; 14; 14; 14; 14; 14; 14; 14; 14;
   14; 14; 14; 14; 14; 14; 14; 14; 14; 14; 14; 14; 14; 14; 14; 14; 14; 14; 14; 14;
   14; 14; 14; 14; 14; 14; 14; 14; 14; 14; 14; 14; 14; 14; 14; 14; 14; 14; 14; 14;
   14; 14; 14; 14; 14; 14; 14; 14; 14; 14; 14; 14; 15; 15; 15; 15; 15; 15; 15; 15;
   15; 15; 15; 15; 15; 15; 15; 15; 15; 15; 15; 15; 15; 15; 15; 15; 15; 15; 15; 15;
   15; 15; 15; 15; 15; 15; 15; 15; 15; 15; 15; 15; 15; 15; 15; 15; 15; 15; 15; 15;
   15; 15; 15; 15; 15; 15; 15; 15; 15; 15; 15; 15; 15; 15; 15; 15; 0; 0; 16; 17;
   18; 18; 19; 19; 20; 20; 20; 20; 21; 21; 21; 21; 22; 22; 22; 22; 22; 22; 22; 22;
   23; 23; 23; 23; 23; 23; 23; 23; 24; 24; 24; 24; 24; 24; 24; 24; 24; 24; 24; 24;
   24; 24; 24; 24; 25; 25; 25; 25; 25; 25; 25; 25; 25; 25; 25; 25; 25; 25; 25; 25;
   26; 26; 26; 26; 26; 26; 26; 26; 26; 26; 26; 26; 26; 26; 26; 26; 26; 26; 26; 26;
   26; 26; 26; 26; 26; 26; 26; 26; 26; 26; 26; 26; 27; 27; 27; 27; 27; 27; 27; 27;
   27; 27; 27; 27; 27; 27; 27; 27; 27; 27; 27; 27; 27; 27; 27; 27; 27; 27; 27; 27;
   27; 27; 27; 27; 28; 28; 28; 28; 28; 28; 28; 28; 28; 28; 28; 28; 28; 28; 28; 28;
   28; 28; 28; 28; 28; 28; 28; 28; 28; 28; 28; 28; 28; 28; 28; 28; 28; 28; 28; 28;
   28; 28; 28; 28; 28; 28; 28; 28; 28; 28; 28; 28; 28; 28; 28; 28; 28; 28; 28; 28;
   28; 28; 28; 28; 28; 28; 28; 28; 29; 29; 29; 29; 29; 29; 29; 29; 29; 29; 29; 29;
   29; 29; 29; 29; 29; 29; 29; 29; 29; 29; 29; 29; 29; 29; 29; 29; 29; 29; 29; 29;
   29; 29; 29; 29; 29; 29; 29; 29; 29; 29; 29; 29; 29; 29; 29; 29; 29; 29; 29; 29;
   29; 29; 29; 29; 29; 29; 29; 29; 29; 29; 29; 29].

Definition j_length_code : list Z := [
   0; 1; 2; 3; 4; 5; 6; 7; 8; 8; 9; 9; 10; 10; 11; 11; 12; 12; 12; 12;
   13; 13; 13; 13; 14; 14; 14; 14; 15; 15; 15; 15; 16; 16; 16; 16; 16; 16; 16; 16;
   17; 17; 17; 17; 17; 17; 17; 17; 18; 18; 18; 18; 18; 18; 18; 18; 19; 19; 19; 19;
   19; 19; 19; 19; 20; 20; 20; 20; 20; 20; 20; 20; 20; 20; 20; 20; 20; 20; 20; 20;
   21; 21; 21; 21; 21; 21; 21; 21; 21; 21; 21; 21; 21; 21; 21; 21; 22; 22; 22; 22;
   22; 22; 22; 22; 22; 22; 22; 22; 22; 22; 22; 22; 23; 23; 23; 23; 23; 23; 23; 23;
   23; 23; 23; 23; 23; 23; 23; 23; 24; 24; 24; 24; 24; 24; 24; 24; 24; 24; 24; 24;
   24; 24; 24; 24; 24; 24; 24; 24; 24; 24; 24; 24; 24; 24; 24; 24; 24; 24; 24; 24;
   25; 25; 25; 25; 25; 25; 25; 25; 25; 25; 25; 25; 25; 25; 25; 25; 25; 25; 25; 25;
   25; 25; 25; 25; 25; 25; 25; 25; 25; 25; 25; 25; 26; 26; 26; 26; 26; 26; 26; 26;
   26; 26; 26; 26; 26; 26; 26; 26; 26; 26; 26; 26; 26; 26; 26; 26; 26; 26; 26; 26;
   26; 26; 26; 26; 27; 27; 27; 27; 27; 27; 27; 27; 27; 27; 27; 27; 27; 27; 27; 27;
   27; 27; 27; 27; 27; 27; 27; 27; 27; 27; 27; 27; 27; 27; 27; 28].

Definition base_length : list Z := [
   0; 1; 2; 3; 4; 5; 6; 7; 8; 10; 12; 14; 16; 20; 24; 28; 32; 40; 48; 56;
   64; 80; 96; 112; 128; 160; 192; 224; 0].

Definition base_dist : list Z := [
   0; 1; 2; 3; 4; 6; 8; 12; 16; 24;
   32; 48; 64; 96; 128; 192; 256; 384; 512; 768;
   1024; 1536; 2048; 3072; 4096; 6144; 8192; 12288; 16384; 24576].

Definition lenfix : list code := mk_codes [
   (96, 7, 0); (0, 8, 80); (0, 8, 16); (20, 8, 115); (18, 7, 31); (0, 8, 112);
   (0, 8, 48); (0, 9, 192); (16, 7, 10); (0, 8, 96); (0, 8, 32); (0, 9, 160);
   (0, 8, 0); (0, 8, 128); (0, 8, 64); (0, 9, 224); (16, 7, 6); (0, 8, 88);
   (0, 8, 24); (0, 9, 144); (19, 7, 59); (0, 8, 120); (0, 8, 56); (0, 9, 208);
   (17, 7, 17); (0, 8, 104); (0, 8, 40); (0, 9, 176); (0, 8, 8); (0, 8, 136);
   (0, 8, 72); (0, 9, 240); (16, 7, 4); (0, 8, 84); (0, 8, 20); (21, 8, 227);
   (19, 7, 43); (0, 8, 116); (0, 8, 52); (0, 9, 200); (17, 7, 13); (0, 8, 100);
   (0, 8, 36); (0, 9, 168); (0, 8, 4); (0, 8, 132); (0, 8, 68); (0, 9, 232);
   (16, 7, 8); (0, 8, 92); (0, 8, 28); (0, 9, 152); (20, 7, 83); (0, 8, 124);
   (0, 8, 60); (0, 9, 216); (18, 7, 23); (0, 8, 108); (0, 8, 44); (0, 9, 184);
   (0, 8, 12); (0, 8, 140); (0, 8, 76); (0, 9, 248); (16, 7, 3); (0, 8, 82);
   (0, 8, 18); (21, 8, 163); (19, 7, 35); (0, 8, 114); (0, 8, 50); (0, 9, 196);
   (17, 7, 11); (0, 8, 98); (0, 8, 34); (0, 9, 164); (0, 8, 2); (0, 8, 130);
   (0, 8, 66); (0, 9, 228); (16, 7, 7); (0, 8, 90); (0, 8, 26); (0, 9, 148);
   (20, 7, 67); (0, 8, 122); (0, 8, 58); (0, 9, 212); (18, 7, 19); (0, 8, 106);
   (0, 8, 42); (0, 9, 180); (0, 8, 10); (0, 8, 138); (0, 8, 74); (0, 9, 244);
   (16, 7, 5); (0, 8, 86); (0, 8, 22); (64, 8, 0); (19, 7, 51); (0, 8, 118);
   (0, 8, 54); (0, 9, 204); (17, 7, 15); (0, 8, 102); (0, 8, 38); (0, 9, 172);
   (0, 8, 6); (0, 8, 134); (0, 8, 70); (0, 9, 236); (16, 7, 9); (0, 8, 94);
   (0, 8, 30); (0, 9, 156); (20, 7, 99); (0, 8, 126); (0, 8, 62); (0, 9, 220);
   (18, 7, 27); (0, 8, 110); (0, 8, 46); (0, 9, 188); (0, 8, 14); (0, 8, 142);
   (0, 8, 78); (0, 9, 252); (96, 7, 0); (0, 8, 81); (0, 8, 17); (21, 8, 131);
   (18, 7, 31); (0, 8, 113); (0, 8, 49); (0, 9, 194); (16, 7, 10); (0, 8, 97);
   (0, 8, 33); (0, 9, 162); (0, 8, 1); (0, 8, 129); (0, 8, 65); (0, 9, 226);
   (16, 7, 6); (0, 8, 89); (0, 8, 25); (0, 9, 146); (19, 7, 59); (0, 8, 121);
   (0, 8, 57); (0, 9, 210); (17, 7, 17); (0, 8, 105); (0, 8, 41); (0, 9, 178);
   (0, 8, 9); (0, 8, 137); (0, 8, 73); (0, 9, 242); (16, 7, 4); (0, 8, 85);
   (0, 8, 21); (16, 8, 258); (19, 7, 43); (0, 8, 117); (0, 8, 53); (0, 9, 202);
   (17, 7, 13); (0, 8, 101); (0, 8, 37); (0, 9, 170); (0, 8, 5); (0, 8, 133);
   (0, 8, 69); (0, 9, 234); (16, 7, 8); (0, 8, 93); (0, 8, 29); (0, 9, 154);
   (20, 7, 83); (0, 8, 125); (0, 8, 61); (0, 9, 218); (18, 7, 23); (0, 8, 109);
   (0, 8, 45); (0, 9, 186); (0, 8, 13); (0, 8, 141); (0, 8, 77); (0, 9, 250);
   (16, 7, 3); (0, 8, 83); (0, 8, 19); (21, 8, 195); (19, 7, 35); (0, 8, 115);
   (0, 8, 51); (0, 9, 198); (17, 7, 11); (0, 8, 99); (0, 8, 35); (0, 9, 166);
   (0, 8, 3); (0, 8, 131); (0, 8, 67); (0, 9, 230); (16, 7, 7); (0, 8, 91);
   (0, 8, 27); (0, 9, 150); (20, 7, 67); (0, 8, 123); (0, 8, 59); (0, 9, 214);
   (18, 7, 19); (0, 8, 107); (0, 8, 43); (0, 9, 182); (0, 8, 11); (0, 8, 139);
   (0, 8, 75); (0, 9, 246); (16, 7, 5); (0, 8, 87); (0, 8, 23); (64, 8, 0);
   (19, 7, 51); (0, 8, 119); (0, 8, 55); (0, 9, 206); (17, 7, 15); (0, 8, 103);
   (0, 8, 39); (0, 9, 174); (0, 8, 7); (0, 8, 135); (0, 8, 71); (0, 9, 238);
   (16, 7, 9); (0, 8, 95); (0, 8, 31); (0, 9, 158); (20, 7, 99); (0, 8, 127);
   (0, 8, 63); (0, 9, 222); (18, 7, 27); (0, 8, 111); (0, 8, 47); (0, 9, 190);
   (0, 8, 15); (0, 8, 143); (0, 8, 79); (0, 9, 254); (96, 7, 0); (0, 8, 80);
   (0, 8, 16); (20, 8, 115); (18, 7, 31); (0, 8, 112); (0, 8, 48); (0, 9, 193);
   (16, 7, 10); (0, 8, 96); (0, 8, 32); (0, 9, 161); (0, 8, 0); (0, 8, 128);
   (0, 8, 64); (0, 9, 225); (16, 7, 6); (0, 8, 88); (0, 8, 24); (0, 9, 145);
   (19, 7, 59); (0, 8, 120); (0, 8, 56); (0, 9, 209); (17, 7, 17); (0, 8, 104);
   (0, 8, 40); (0, 9, 177); (0, 8, 8); (0, 8, 136); (0, 8, 72); (0, 9, 241);
   (16, 7, 4); (0, 8, 84); (0, 8, 20); (21, 8, 227); (19, 7, 43); (0, 8, 116);
   (0, 8, 52); (0, 9, 201); (17, 7, 13); (0, 8, 100); (0, 8, 36); (0, 9, 169);
   (0, 8, 4); (0, 8, 132); (0, 8, 68); (0, 9, 233); (16, 7, 8); (0, 8, 92);
   (0, 8, 28); (0, 9, 153); (20, 7, 83); (0, 8, 124); (0, 8, 60); (0, 9, 217);
   (18, 7, 23); (0, 8, 108); (0, 8, 44); (0, 9, 185); (0, 8, 12); (0, 8, 140);
   (0, 8, 76); (0, 9, 249); (16, 7, 3); (0, 8, 82); (0, 8, 18); (21, 8, 163);
   (19, 7, 35); (0, 8, 114); (0, 8, 50); (0, 9, 197); (17, 7, 11); (0, 8, 98);
   (0, 8, 34); (0, 9, 165); (0, 8, 2); (0, 8, 130); (0, 8, 66); (0, 9, 229);
   (16, 7, 7); (0, 8, 90); (0, 8, 26); (0, 9, 149); (20, 7, 67); (0, 8, 122);
   (0, 8, 58); (0, 9, 213); (18, 7, 19); (0, 8, 106); (0, 8, 42); (0, 9, 181);
   (0, 8, 10); (0, 8, 138); (0, 8, 74); (0, 9, 245); (16, 7, 5); (0, 8, 86);
   (0, 8, 22); (64, 8, 0); (19, 7, 51); (0, 8, 118); (0, 8, 54); (0, 9, 205);
   (17, 7, 15); (0, 8, 102); (0, 8, 38); (0, 9, 173); (0, 8, 6); (0, 8, 134);
   (0, 8, 70); (0, 9, 237); (16, 7, 9); (0, 8, 94); (0, 8, 30); (0, 9, 157);
   (20, 7, 99); (0, 8, 126); (0, 8, 62); (0, 9, 221); (18, 7, 27); (0, 8, 110);
   (0, 8, 46); (0, 9, 189); (0, 8, 14); (0, 8, 142); (0, 8, 78); (0, 9, 253);
   (96, 7, 0); (0, 8, 81); (0, 8, 17); (21, 8, 131); (18, 7, 31); (0, 8, 113);
   (0, 8, 49); (0, 9, 195); (16, 7, 10); (0, 8, 97); (0, 8, 33); (0, 9, 163);
   (0, 8, 1); (0, 8, 129); (0, 8, 65); (0, 9, 227); (16, 7, 6); (0, 8, 89);
   (0, 8, 25); (0, 9, 147); (19, 7, 59); (0, 8, 121); (0, 8, 57); (0, 9, 211);
   (17, 7, 17); (0, 8, 105); (0, 8, 41); (0, 9, 179); (0, 8, 9); (0, 8, 137);
   (0, 8, 73); (0, 9, 243); (16, 7, 4); (0, 8, 85); (0, 8, 21); (16, 8, 258);
   (19, 7, 43); (0, 8, 117); (0, 8, 53); (0, 9, 203); (17, 7, 13); (0, 8, 101);
   (0, 8, 37); (0, 9, 171); (0, 8, 5); (0, 8, 133); (0, 8, 69); (0, 9, 235);
   (16, 7, 8); (0, 8, 93); (0, 8, 29); (0, 9, 155); (20, 7, 83); (0, 8, 125);
   (0, 8, 61); (0, 9, 219); (18, 7, 23); (0, 8, 109); (0, 8, 45); (0, 9, 187);
   (0, 8, 13); (0, 8, 141); (0, 8, 77); (0, 9, 251); (16, 7, 3); (0, 8, 83);
   (0, 8, 19); (21, 8, 195); (19, 7, 35); (0, 8, 115); (0, 8, 51); (0, 9, 199);
   (17, 7, 11); (0, 8, 99); (0, 8, 35); (0, 9, 167); (0, 8, 3); (0, 8, 131);
   (0, 8, 67); (0, 9, 231); (16, 7, 7); (0, 8, 91); (0, 8, 27); (0, 9, 151);
   (20, 7, 67); (0, 8, 123); (0, 8, 59); (0, 9, 215); (18, 7, 19); (0, 8, 107);
   (0, 8, 43); (0, 9, 183); (0, 8, 11); (0, 8, 139); (0, 8, 75); (0, 9, 247);
   (16, 7, 5); (0, 8, 87); (0, 8, 23); (64, 8, 0); (19, 7, 51); (0, 8, 119);
   (0, 8, 55); (0, 9, 207); (17, 7, 15); (0, 8, 103); (0, 8, 39); (0, 9, 175);
   (0, 8, 7); (0, 8, 135); (0, 8, 71); (0, 9, 239); (16, 7, 9); (0, 8, 95);
   (0, 8, 31); (0, 9, 159); (20, 7, 99); (0, 8, 127); (0, 8, 63); (0, 9, 223);
   (18, 7, 27); (0, 8, 111); (0, 8, 47); (0, 9, 191); (0, 8, 15); (0, 8, 143);
   (0, 8, 79); (0, 9, 255)].

Definition distfix : list code := mk_codes [
   (16, 5, 1); (23, 5, 257); (19, 5, 17); (27, 5, 4097); (17, 5, 5); (25, 5, 1025);
   (21, 5, 65); (29, 5, 16385); (16, 5, 3); (24, 5, 513); (20, 5, 33); (28, 5, 8193);
   (18, 5, 9); (26, 5, 2049); (22, 5, 129); (64, 5, 0); (16, 5, 2); (23, 5, 385);
   (19, 5, 25); (27, 5, 6145); (17, 5, 7); (25, 5, 1537); (21, 5, 97); (29, 5, 24577);
   (16, 5, 4); (24, 5, 769); (20, 5, 49); (28, 5, 12289); (18, 5, 13); (26, 5, 3073);
   (22, 5, 193); (64, 5, 0)].

(** [d_code(dist)] *)
Definition d_code (dist : Z) : Z :=
  if dist <? 256 then tget 0 j_dist_code dist
  else tget 0 j_dist_code (256 + Z.shiftr dist 7).
