(* ===== verification/Inftrees.v ===== *)
(** * Decoding tables (partial/libz_j/inftrees.c, inftrees.h and
    [inflate_table_my] of deflate.c)

    Both routines build the two-level decoding table of a canonical Huffman
    code; the deflate variant also records each symbol's code and length in a
    tree.  They share every other line, so one body carries a flag [my]. *)
From S2P Require Import Prelude DeflateTables.

Definition MAXBITS : Z := 15.
Definition ENOUGH_LENS : Z := 852.
Definition ENOUGH_DISTS : Z := 592.
Definition ENOUGH : Z := ENOUGH_LENS + ENOUGH_DISTS.

Inductive codetype := CODES | LENS | DISTS.
#[export] Instance codetype_eq_dec : EqDecision codetype.
Proof. solve_decision. Defined.

Definition lbase : list Z :=
  [3; 4; 5; 6; 7; 8; 9; 10; 11; 13; 15; 17; 19; 23; 27; 31;
   35; 43; 51; 59; 67; 83; 99; 115; 131; 163; 195; 227; 258; 0; 0].
Definition lext : list Z :=
  [16; 16; 16; 16; 16; 16; 16; 16; 17; 17; 17; 17; 18; 18; 18; 18;
   19; 19; 19; 19; 20; 20; 20; 20; 21; 21; 21; 21; 16; 194; 65].
Definition dbase : list Z :=
  [1; 2; 3; 4; 5; 7; 9; 13; 17; 25; 33; 49; 65; 97; 129; 193;
   257; 385; 513; 769; 1025; 1537; 2049; 3073; 4097; 6145;
   8193; 12289; 16385; 24577; 0; 0].
Definition dext : list Z :=
  [16; 16; 16; 16; 17; 17; 18; 18; 19; 19; 20; 20; 21; 21; 22; 22;
   23; 23; 24; 24; 25; 25; 26; 26; 27; 27;
   28; 28; 29; 29; 64; 64].

(** ** Counting and sorting the code lengths *)

(** [for (sym = 0; sym < codes; sym++) count[lens[sym]]++] *)
Definition count_lens (lens : Z -> Z) (codes : nat) : arr Z :=
  foldl (fun count sym => let l := lens (Z.of_nat sym) in
                          aset count l (u16 (aget 0 count l + 1))) ∅ (seq 0 codes).
(** [for (max = MAXBITS; max >= 1; max--) if (count[max] != 0) break] *)
Fixpoint find_max (max : nat) (count : arr Z) : Z :=
  match max with
  | O => 0
  | S m => if aget 0 count (Z.of_nat max) =? 0 then find_max m count else Z.of_nat max
  end.
(** [for (min = 1; min < max; min++) if (count[min] != 0) break] *)
Fixpoint find_min (fuel : nat) (min max : Z) (count : arr Z) : Z :=
  match fuel with
  | O => min
  | S f => if min <? max
           then if aget 0 count min =? 0 then find_min f (min + 1) max count else min
           else min
  end.
(** the over-subscription loop: [None] is its early [return -1] *)
Fixpoint check_left (fuel : nat) (len left : Z) (count : arr Z) : option Z :=
  match fuel with
  | O => Some left
  | S f => let left := Z.shiftl left 1 - aget 0 count len in
           if left <? 0 then None else check_left f (len + 1) left count
  end.
(** [offs[len + 1] = offs[len] + count[len]] for [len] from 1 *)
Fixpoint gen_offs (fuel : nat) (len : Z) (offs count : arr Z) : arr Z :=
  match fuel with
  | O => offs
  | S f => gen_offs f (len + 1)
             (aset offs (len + 1) (u16 (aget 0 offs len + aget 0 count len))) count
  end.
(** [if (lens[sym] != 0) work[offs[lens[sym]]++] = sym] *)
Definition sort_symbols (lens : Z -> Z) (codes : nat) (offs work : arr Z) : arr Z * arr Z :=
  foldl (fun '(offs, work) sym =>
           let l := lens (Z.of_nat sym) in
           if l =? 0 then (offs, work)
           else (aset offs l (u16 (aget 0 offs l + 1)),
                 aset work (aget 0 offs l) (Z.of_nat sym)))
        (offs, work) (seq 0 codes).

(** ** The table-filling loop *)

Definition table_match (type : codetype) : Z :=
  match type with CODES => 20 | LENS => 257 | DISTS => 0 end.
Definition table_base (type : codetype) (i : Z) : Z :=
  match type with CODES => 0 | LENS => tget 0 lbase i | DISTS => tget 0 dbase i end.
Definition table_extra (type : codetype) (i : Z) : Z :=
  match type with CODES => 0 | LENS => tget 0 lext i | DISTS => tget 0 dext i end.

(** the table entry [here] for symbol [s], [bits] being [len - drop] *)
Definition table_entry (type : codetype) (s bits : Z) : code :=
  let m := table_match type in
  if s + 1 <? m then mk_code 0 (u8 bits) s
  else if s >=? m then mk_code (u8 (table_extra type (s - m))) (u8 bits) (table_base type (s - m))
  else mk_code (32 + 64) (u8 bits) 0.

(** [do { fill -= incr; next[(huff >> drop) + fill] = here; } while (fill != 0)];
    [base] is [next + (huff >> drop)] *)
Fixpoint fill_loop (fuel : nat) (base fill incr : Z) (here : code) (mem : arr code) : arr code :=
  match fuel with
  | O => mem
  | S f => let fill := u32 (fill - incr) in
           let mem := aset mem (base + fill) here in
           if fill =? 0 then mem else fill_loop f base fill incr here mem
  end.

(** [while (huff & incr) incr >>= 1] *)
Fixpoint incr_loop (fuel : nat) (huff incr : Z) : Z :=
  match fuel with
  | O => incr
  | S f => if Z.land huff incr =? 0 then incr else incr_loop f huff (Z.shiftr incr 1)
  end.
(** backwards increment of the len-bit code [huff] *)
Definition next_huff (huff len : Z) : Z :=
  let incr := incr_loop 33 huff (Z.shiftl 1 (len - 1)) in
  if incr =? 0 then 0 else Z.land huff (incr - 1) + incr.

(** index bits of the next sub-table: grow [curr] until the counts fill it *)
Fixpoint grow_curr (fuel : nat) (count : arr Z) (curr drop max left : Z) : Z :=
  match fuel with
  | O => curr
  | S f => if curr + drop <? max then
             let left := left - aget 0 count (curr + drop) in
             if left <=? 0 then curr
             else grow_curr f count (curr + 1) drop max (Z.shiftl left 1)
           else curr
  end.

Definition not_enough (type : codetype) (used : Z) : bool :=
  match type with
  | LENS => used >? ENOUGH_LENS
  | DISTS => used >? ENOUGH_DISTS
  | CODES => false
  end.

(** the variables of the main loop *)
Record tbl := mk_tbl {
  t_huff : Z; t_sym : Z; t_len : Z; t_next : Z; t_curr : Z; t_drop : Z; t_low : Z;
  t_used : Z; t_min : Z; t_count : arr Z; t_mem : arr code; t_tree : arr ct_data }.
#[export] Instance eta_tbl : Settable tbl := fun r =>
  mk_tbl (t_huff r) (t_sym r) (t_len r) (t_next r) (t_curr r) (t_drop r) (t_low r)
         (t_used r) (t_min r) (t_count r) (t_mem r) (t_tree r).

Section MainLoop.
Context (my : bool) (type : codetype) (lens : Z -> Z) (work : arr Z) (table root max mask : Z).

(** fill the entries of symbol [work[sym]] and, in the deflate variant, record its code *)
Definition place_code (s : tbl) : tbl :=
  let w := aget 0 work (t_sym s) in
  let here := table_entry type w (t_len s - t_drop s) in
  let incr := Z.shiftl 1 (t_len s - t_drop s) in
  let fill := Z.shiftl 1 (t_curr s) in
  let mem := fill_loop (Z.to_nat fill) (t_next s + Z.shiftr (t_huff s) (t_drop s))
                       fill incr here (t_mem s) in
  let tree := if my then aset (t_tree s) w (mk_ct (u16 (t_huff s)) (u16 (t_len s)))
              else t_tree s in
  s <| t_min := fill |> <| t_mem := mem |> <| t_tree := tree |>
    <| t_huff := next_huff (t_huff s) (t_len s) |>.

(** start a sub-table; [inr] is the [return 1] of the space check *)
Definition sub_table (s : tbl) : tbl + tbl :=
  let drop := if t_drop s =? 0 then root else t_drop s in
  let next := t_next s + t_min s in
  let curr := t_len s - drop in
  let curr := grow_curr 16 (t_count s) curr drop max (Z.shiftl 1 curr) in
  let used := t_used s + Z.shiftl 1 curr in
  if not_enough type used then inr s
  else
    let low := Z.land (t_huff s) mask in
    inl (s <| t_drop := drop |> <| t_next := next |> <| t_curr := curr |>
           <| t_used := used |> <| t_low := low |>
           <| t_mem := aset (t_mem s) (table + low)
                            (mk_code (u8 curr) (u8 root) (u16 (next - table))) |>).

(** one round of [for (;;)]: [inl] goes on, [inr (true, s)] is the [break] at
    [len == max], [inr (false, s)] the [return 1] *)
Definition table_step (s : tbl) : tbl + (bool * tbl) :=
  let s := place_code s in
  let s := s <| t_sym := t_sym s + 1 |> in
  let c := u16 (aget 0 (t_count s) (t_len s) - 1) in
  let s := s <| t_count := aset (t_count s) (t_len s) c |> in
  if (c =? 0) && (t_len s =? max) then inr (true, s)
  else
    let s := if c =? 0 then s <| t_len := lens (aget 0 work (t_sym s)) |> else s in
    if (t_len s >? root) && negb (Z.land (t_huff s) mask =? t_low s) then
      match sub_table s with inl s => inl s | inr s => inr (false, s) end
    else inl s.
End MainLoop.

(** ** The routine *)

(** what a call leaves: return value, [*table], [*bits] and the arrays it writes *)
Record table_result := mk_res {
  r_ret : Z; r_table : Z; r_bits : Z; r_mem : arr code; r_work : arr Z; r_tree : arr ct_data }.

Definition inflate_table_gen (my : bool) (type : codetype) (lens : Z -> Z) (codes : Z)
    (table bits : Z) (mem : arr code) (work : arr Z) (tree : arr ct_data) : option table_result :=
  let n := Z.to_nat codes in
  let count := count_lens lens n in
  let max := find_max 15 count in
  let root := if bits >? max then max else bits in
  if max =? 0 then
    let here := mk_code 64 1 0 in
    Some (mk_res 0 (table + 2) 1 (aset (aset mem table here) (table + 1) here) work tree)
  else
  let min := find_min 15 1 max count in
  let root := if root <? min then min else root in
  match check_left 15 1 1 count with
  | None => Some (mk_res (-1) table bits mem work tree)
  | Some avail =>
    if (avail >? 0) && (bool_decide (type = CODES) || negb (max =? 1))
    then Some (mk_res (-1) table bits mem work tree)
    else
      let offs := gen_offs 14 1 (aset ∅ 1 0) count in
      let work := (sort_symbols lens n offs work).2 in
      let used := Z.shiftl 1 root in
      let mask := used - 1 in
      if not_enough type used then Some (mk_res 1 table bits mem work tree)
      else
        match loop (table_step my type lens work table root max mask) (S n)
                (mk_tbl 0 0 min table root 0 (u32 (-1)) used min count mem tree) with
        | None => None
        | Some (false, s) => Some (mk_res 1 table bits (t_mem s) work (t_tree s))
        | Some (true, s) =>
            let mem := if t_huff s =? 0 then t_mem s
                       else aset (t_mem s) (t_next s + t_huff s)
                                 (mk_code 64 (u8 (t_len s - t_drop s)) 0) in
            Some (mk_res 0 (table + t_used s) root mem work (t_tree s))
        end
  end.

(** inftrees.c *)
Definition inflate_table (type : codetype) (lens : Z -> Z) (codes table bits : Z)
    (mem : arr code) (work : arr Z) : option table_result :=
  inflate_table_gen false type lens codes table bits mem work ∅.
(** deflate.c *)
Definition inflate_table_my (type : codetype) (lens : Z -> Z) (codes table bits : Z)
    (mem : arr code) (work : arr Z) (tree : arr ct_data) : option table_result :=
  inflate_table_gen true type lens codes table bits mem work tree.
