(* ===== verification/Codes.v ===== *)
(** * Canonical prefix codes

    Bit reversal, the intervals of 15-bit values that begin with a code, and the
    canonical code of a sorted sequence of code lengths: symbol [k] of [m] has length
    [ln k], [first k] is where its interval begins and [huff k] its code as a
    decoder sees it, first bit lowest. *)
From S2P Require Import Prelude.

(** ** Bit reversal *)

Fixpoint rev_bits (n : nat) (x : Z) : Z :=
  match n with O => 0 | S n => rev_bits n (x / 2) + 2 ^ Z.of_nat n * (x mod 2) end.

Lemma pow2_S n : 2 ^ Z.of_nat (S n) = 2 * 2 ^ Z.of_nat n.
Proof. rewrite Nat2Z.inj_succ, Z.pow_succ_r by lia. done. Qed.
Lemma mod2_range x : 0 <= x mod 2 < 2.
Proof. apply Z.mod_pos_bound. lia. Qed.
Lemma rev_range n x : 0 <= rev_bits n x < 2 ^ Z.of_nat n.
Proof.
  revert x. induction n as [|n IH]; intros x; [done|]. cbn [rev_bits]. rewrite pow2_S.
  specialize (IH (x / 2)). pose proof (mod2_range x). nia.
Qed.
Lemma mod_pow_S n x : x mod 2 ^ Z.of_nat (S n) = x mod 2 + 2 * ((x / 2) mod 2 ^ Z.of_nat n).
Proof. rewrite pow2_S, Z.rem_mul_r by lia. done. Qed.
Lemma rev_mod n x : rev_bits n (x mod 2 ^ Z.of_nat n) = rev_bits n x.
Proof.
  revert x. induction n as [|n IH]; intros x; [done|]. rewrite mod_pow_S. cbn [rev_bits].
  rewrite (Z.add_comm (x mod 2)), (Z.mul_comm 2), Z.div_add_l, (Z.div_small (x mod 2)) by (lia || apply mod2_range).
  rewrite Z.add_0_r, IH, (Z.add_comm (_ * 2)), Z.mod_add, Z.mod_mod by lia. done.
Qed.
(** the top bit becomes the lowest *)
Lemma rev_top n x : rev_bits (S n) x = (x / 2 ^ Z.of_nat n) mod 2 + 2 * rev_bits n x.
Proof.
  revert x. induction n as [|n IH]; intros x.
  { cbn. rewrite Z.div_1_r. destruct (x mod 2); done. }
  change (rev_bits (S (S n)) x) with (rev_bits (S n) (x / 2) + 2 ^ Z.of_nat (S n) * (x mod 2)).
  rewrite IH. cbn [rev_bits]. rewrite Z.div_div, <- pow2_S, pow2_S by lia. ring.
Qed.
Lemma rev_rev n x : rev_bits n (rev_bits n x) = x mod 2 ^ Z.of_nat n.
Proof.
  revert x. induction n as [|n IH]; intros x; [by rewrite Z.mod_1_r|].
  rewrite rev_top. cbn [rev_bits]. pose proof (rev_range n (x / 2)) as R. pose proof (mod2_range x) as P.
  rewrite (Z.mul_comm (2 ^ _)), Z.div_add, (Z.div_small (rev_bits n _)), Z.add_0_l, Z.mod_mod by lia.
  rewrite <- (rev_mod n (_ + _)), Z.mod_add, rev_mod, IH, mod_pow_S by lia. done.
Qed.
Lemma rev_low d l x : rev_bits (d + l) x mod 2 ^ Z.of_nat l = rev_bits l (x / 2 ^ Z.of_nat d).
Proof.
  revert x. induction d as [|d IH]; intros x.
  { cbn [Nat.add]. rewrite Z.div_1_r. apply Z.mod_small, rev_range. }
  cbn [Nat.add rev_bits]. rewrite Nat2Z.inj_add, Z.pow_add_r by lia.
  replace (2 ^ Z.of_nat d * 2 ^ Z.of_nat l * (x mod 2)) with (2 ^ Z.of_nat d * (x mod 2) * 2 ^ Z.of_nat l) by ring.
  rewrite Z.mod_add, IH, Z.div_div, pow2_S by lia. done.
Qed.
Lemma rev_high d l x : rev_bits (d + l) x / 2 ^ Z.of_nat d = rev_bits l x.
Proof.
  induction d as [|d IH]; [apply Z.div_1_r|].
  cbn [Nat.add]. rewrite rev_top, pow2_S, <- Z.div_div by lia.
  rewrite Z.add_comm, (Z.mul_comm 2), Z.div_add_l, (Z.div_small (_ mod 2)), Z.add_0_r by (lia || apply mod2_range). done.
Qed.
Lemma rev_shift d l c : rev_bits (d + l) (2 ^ Z.of_nat d * c) = rev_bits l c.
Proof.
  revert c. induction d as [|d IH]; intros c; [cbn [Nat.add]; f_equal; lia|].
  cbn [Nat.add rev_bits]. rewrite pow2_S. replace (2 * 2 ^ Z.of_nat d * c) with (2 ^ Z.of_nat d * c * 2) by ring.
  rewrite Z.div_mul, IH, Z.mod_mul by lia. lia.
Qed.

(** ** Codes as intervals *)

(** a code is a prefix of [v] exactly when [v] is in the code's interval *)
Lemma code_interval (d l : nat) c v :
  0 <= c < 2 ^ Z.of_nat l ->
  (v mod 2 ^ Z.of_nat l = rev_bits l c
   <-> 2 ^ Z.of_nat d * c <= rev_bits (d + l) v < 2 ^ Z.of_nat d * (c + 1)).
Proof.
  intros Hc. pose proof (rev_high d l v) as H. pose proof (Z.div_mod (rev_bits (d + l) v) (2 ^ Z.of_nat d) ltac:(lia)) as D.
  pose proof (Z.mod_pos_bound (rev_bits (d + l) v) (2 ^ Z.of_nat d) ltac:(lia)) as B. rewrite H in D.
  assert (A : v mod 2 ^ Z.of_nat l = rev_bits l c <-> rev_bits l v = c); [|rewrite A; nia].
  split; intros E.
  - rewrite <- rev_mod, E, rev_rev. by apply Z.mod_small.
  - rewrite <- E, rev_rev. done.
Qed.

(** ** The canonical code of a sequence of lengths *)

Section Canon.
Context (ln : nat -> Z) (m : nat).

Definition width (k : nat) : Z := 2 ^ (15 - ln k).
Fixpoint first (k : nat) : Z := match k with O => 0 | S k => first k + width k end.
Definition huff (k : nat) : Z := rev_bits 15 (first k).
(** [v] begins with the code of [k] *)
Definition begins (k : nat) (v : Z) : Prop := v mod 2 ^ ln k = huff k.

Context (Hln : forall k, (k < m)%nat -> 1 <= ln k <= 15).
Context (Hsort : forall i j, (i <= j < m)%nat -> ln i <= ln j).
Context (Hfit : first m <= 2 ^ 15).

Lemma width_pos k : (k < m)%nat -> 0 < width k.
Proof. intros H. pose proof (Hln k H) as Hlk. unfold width. lia. Qed.
Lemma first_le i j : (i <= j <= m)%nat -> first i <= first j.
Proof.
  intros [H Hj]. induction H as [|j H IH]; [lia|]. cbn [first]. pose proof (width_pos j ltac:(lia)). specialize (IH ltac:(lia)). lia.
Qed.
Lemma first_lt i j : (i < j <= m)%nat -> first i + width i <= first j.
Proof. intros H. apply (first_le (S i) j). lia. Qed.
Lemma first_nonneg k : (k <= m)%nat -> 0 <= first k.
Proof. intros H. apply (first_le 0 k). lia. Qed.
Lemma first_bound k : (k < m)%nat -> 0 <= first k /\ first k + width k <= 2 ^ 15.
Proof. intros H. split; [apply first_nonneg; lia|]. etransitivity; [apply (first_lt k m); lia|done]. Qed.

Lemma width_divide l k : ln k <= l <= 15 -> (2 ^ (15 - l) | width k).
Proof. intros H. exists (2 ^ (l - ln k)). unfold width. rewrite <- Z.pow_add_r by lia. f_equal. lia. Qed.
(** the code of a symbol starts at a multiple of its width *)
Lemma first_divide l k : l <= 15 -> (k <= m)%nat -> (forall j, (j < k)%nat -> ln j <= l) -> (2 ^ (15 - l) | first k).
Proof.
  intros Hl Hk. induction k as [|k IH]; intros H; [apply Z.divide_0_r|]. cbn [first]. apply Z.divide_add_r.
  - apply IH; [lia|]. intros j Hj. apply H. lia.
  - apply width_divide. split; [apply H; lia|done].
Qed.
Lemma first_aligned k : (k < m)%nat -> exists c, first k = 2 ^ (15 - ln k) * c /\ 0 <= c < 2 ^ ln k.
Proof.
  intros H. destruct (first_divide (ln k) k) as [c Hc]; [apply Hln, H|lia|intros j Hj; apply Hsort; lia|].
  exists c. pose proof (Hln k H) as Hlk. pose proof (first_bound k H) as B. unfold width in B. rewrite Hc in *.
  assert (2 ^ 15 = 2 ^ (15 - ln k) * 2 ^ ln k) by (rewrite <- Z.pow_add_r by lia; f_equal; lia). nia.
Qed.
Lemma huff_code k : (k < m)%nat ->
  huff k = rev_bits (Z.to_nat (ln k)) (first k / 2 ^ (15 - ln k)) /\ 0 <= first k / 2 ^ (15 - ln k) < 2 ^ ln k.
Proof.
  intros H. destruct (first_aligned k H) as (c & E & Hc). pose proof (Hln k H) as Hlk. unfold huff.
  rewrite E, (Z.mul_comm _ c), Z.div_mul, (Z.mul_comm c) by lia. split; [|done].
  replace (15 - ln k) with (Z.of_nat (Z.to_nat (15 - ln k))) by lia.
  replace 15%nat with (Z.to_nat (15 - ln k) + Z.to_nat (ln k))%nat by lia. apply rev_shift.
Qed.
Lemma huff_range k : (k < m)%nat -> 0 <= huff k < 2 ^ ln k.
Proof.
  intros H. destruct (huff_code k H) as [-> _]. pose proof (Hln k H) as Hlk.
  pose proof (rev_range (Z.to_nat (ln k)) (first k / 2 ^ (15 - ln k))) as R. by rewrite Z2Nat.id in R by lia.
Qed.

Lemma begins_iff k v : (k < m)%nat -> begins k v <-> first k <= rev_bits 15 v < first k + width k.
Proof.
  intros H. destruct (huff_code k H) as [E Hc]. destruct (first_aligned k H) as (c & Ef & _). pose proof (Hln k H) as Hlk.
  unfold begins. rewrite E. set (d := Z.to_nat (15 - ln k)). set (l := Z.to_nat (ln k)).
  assert (Hd : 15 - ln k = Z.of_nat d) by lia. assert (Hl : ln k = Z.of_nat l) by lia.
  assert (Hw : width k = 2 ^ Z.of_nat d) by (unfold width; by rewrite Hd).
  rewrite Hd in *. rewrite Hl at 1. rewrite (code_interval d) by (rewrite <- Hl; done).
  replace (d + l)%nat with 15%nat by lia. rewrite Hw, Ef, (Z.mul_comm _ c), Z.div_mul by lia.
  split; intros; nia.
Qed.
Lemma begins_huff k : (k < m)%nat -> begins k (huff k).
Proof. intros H. unfold begins. apply Z.mod_small, huff_range, H. Qed.
(** no two codes begin the same bits *)
Lemma begins_inj i j v : (i < m)%nat -> (j < m)%nat -> begins i v -> begins j v -> i = j.
Proof.
  intros Hi Hj A B. apply begins_iff in A, B; try done.
  destruct (Nat.lt_trichotomy i j) as [L|[L|L]]; [|done|].
  - pose proof (first_lt i j ltac:(lia)). lia.
  - pose proof (first_lt j i ltac:(lia)). lia.
Qed.
Lemma first_find x k : (k <= m)%nat -> 0 <= x < first k -> exists j, (j < k)%nat /\ first j <= x < first j + width j.
Proof.
  induction k as [|k IH]; intros Hk Hx; cbn [first] in Hx; [lia|].
  destruct (Z.ltb_spec x (first k)) as [L|L]; [destruct (IH ltac:(lia) ltac:(lia)) as (j & ? & ?); exists j; by split; [lia|]|].
  exists k. split; [lia|]. lia.
Qed.
(** a complete code begins every bit string *)
Lemma begins_total v : first m = 2 ^ 15 -> exists k, (k < m)%nat /\ begins k v.
Proof.
  intros E. destruct (first_find (rev_bits 15 v) m) as (k & Hk & H); [lia|rewrite E; apply (rev_range 15)|].
  exists k. split; [done|]. by apply begins_iff.
Qed.
Lemma begins_mod k v n : (k < m)%nat -> ln k <= n -> begins k (v mod 2 ^ n) <-> begins k v.
Proof.
  intros H Hn. pose proof (Hln k H) as Hlk. unfold begins. rewrite Z.mod_mod_divide; [done|].
  exists (2 ^ (n - ln k)). rewrite <- Z.pow_add_r by lia. f_equal. lia.
Qed.

(** *** The first [root] bits of a code *)

Context (root : Z) (Hroot : 0 <= root <= 15).

Definition stem (k : nat) : Z := first k / 2 ^ (15 - root).
Definition low (k : nat) : Z := huff k mod 2 ^ root.
Lemma low_stem k : low k = rev_bits (Z.to_nat root) (stem k).
Proof.
  unfold low, huff, stem. pose proof (rev_low (Z.to_nat (15 - root)) (Z.to_nat root) (first k)) as E.
  rewrite !Z2Nat.id in E by lia. rewrite <- E. do 2 f_equal. lia.
Qed.
Lemma stem_range k : (k < m)%nat -> 0 <= stem k < 2 ^ root.
Proof.
  intros H. pose proof (first_bound k H). pose proof (width_pos k H). unfold stem.
  split; [apply Z.div_pos; lia|]. apply Z.div_lt_upper_bound; [lia|]. rewrite <- Z.pow_add_r by lia. replace (15 - root + root) with 15 by lia. lia.
Qed.
Lemma low_range k : 0 <= low k < 2 ^ root.
Proof. apply Z.mod_pos_bound. lia. Qed.
Lemma low_inj i j : (i < m)%nat -> (j < m)%nat -> low i = low j <-> stem i = stem j.
Proof.
  intros Hi Hj. rewrite !low_stem. split; [|congruence]. intros E. apply (f_equal (rev_bits (Z.to_nat root))) in E.
  rewrite !rev_rev, !Z2Nat.id in E by lia. rewrite !Z.mod_small in E by (by apply stem_range). done.
Qed.
Lemma stem_le i j : (i <= j < m)%nat -> stem i <= stem j.
Proof. intros H. unfold stem. apply Z.div_le_mono; [lia|]. apply first_le. lia. Qed.
(** a short code determines [root] bits that no longer code has *)
Lemma short_low i j : (i < j < m)%nat -> ln i <= root -> ~ begins i (low j).
Proof.
  unfold low. intros H Hi B. assert (B' : begins i (huff j)).
  { apply (begins_mod i (huff j) root); [lia|done|exact B]. }
  assert (i = j); [|lia]. apply (begins_inj i j (huff j)); [lia..|done|]. apply begins_huff. lia.
Qed.
(** where the first [root] bits change, a code with these bits begins *)
Lemma stem_new k : (S k < m)%nat -> (ln k <= root \/ stem k <> stem (S k)) -> (2 ^ (15 - root) | first (S k)).
Proof.
  intros H [Hk|Hk].
  - apply first_divide; [lia..|]. intros j Hj. etransitivity; [apply (Hsort j k); lia|done].
  - destruct (Z.leb_spec (ln k) root) as [L|L].
    { apply first_divide; [lia..|]. intros j Hj. etransitivity; [apply (Hsort j k); lia|done]. }
    destruct (first_aligned k ltac:(lia)) as (c & E & Hc). unfold stem in Hk. cbn [first] in *. unfold width in *.
    pose proof (Hln k ltac:(lia)). rewrite E in *.
    assert (P : 2 ^ (15 - root) = 2 ^ (15 - ln k) * 2 ^ (ln k - root)) by (rewrite <- Z.pow_add_r by lia; f_equal; lia).
    replace (2 ^ (15 - ln k) * c + 2 ^ (15 - ln k)) with (2 ^ (15 - ln k) * (c + 1)) in * by ring.
    rewrite P in *. rewrite !Z.div_mul_cancel_l in Hk by lia.
    exists ((c + 1) / 2 ^ (ln k - root)). set (w := 2 ^ (ln k - root)) in *. assert (0 < w) by lia. set (q := 2 ^ (15 - ln k)).
    assert (Ec : c + 1 = w * ((c + 1) / w)); [|rewrite Ec at 1; ring].
    pose proof (Z.div_mod c w ltac:(lia)). pose proof (Z.div_mod (c + 1) w ltac:(lia)).
    pose proof (Z.mod_pos_bound c w ltac:(lia)). pose proof (Z.mod_pos_bound (c + 1) w ltac:(lia)).
    assert (c / w + 1 <= (c + 1) / w) by (assert (c / w <= (c + 1) / w) by (apply Z.div_le_mono; lia); lia).
    assert (w * (c / w + 1) <= w * ((c + 1) / w)) by (apply Z.mul_le_mono_nonneg_l; lia). lia.
Qed.
Lemma stem_first k : (2 ^ (15 - root) | first k) -> first k = 2 ^ (15 - root) * stem k.
Proof. intros [c E]. unfold stem. rewrite E, Z.div_mul by lia. ring. Qed.

(** *** The codes still to come *)

(** among the symbols [k], ..., [k + d - 1]: those of length [l], and the widths of those of length at most [l] *)
Fixpoint count_from (d k : nat) (l : Z) : Z :=
  match d with O => 0 | S d => (if ln k =? l then 1 else 0) + count_from d (S k) l end.
Fixpoint mass_from (d k : nat) (l : Z) : Z :=
  match d with O => 0 | S d => (if ln k <=? l then width k else 0) + mass_from d (S k) l end.
Definition remaining (k : nat) : Z -> Z := count_from (m - k) k.
Definition mass (k : nat) : Z -> Z := mass_from (m - k) k.

Lemma count_from_bound d k l : 0 <= count_from d k l <= Z.of_nat d.
Proof. revert k. induction d as [|d IH]; intros k; cbn [count_from]; [lia|]. specialize (IH (S k)). destruct (_ =? _); lia. Qed.
Lemma remaining_S k l : (k < m)%nat -> remaining k l = (if ln k =? l then 1 else 0) + remaining (S k) l.
Proof. intros H. unfold remaining. replace (m - k)%nat with (S (m - S k)) by lia. done. Qed.
Lemma mass_S k l : (k < m)%nat -> mass k l = (if ln k <=? l then width k else 0) + mass (S k) l.
Proof. intros H. unfold mass. replace (m - k)%nat with (S (m - S k)) by lia. done. Qed.
Lemma mass_from_step d k l : mass_from d k l = mass_from d k (l - 1) + count_from d k l * 2 ^ (15 - l).
Proof.
  revert k. induction d as [|d IH]; intros k; cbn [mass_from count_from]; [lia|]. rewrite IH. unfold width.
  destruct (Z.leb_spec (ln k) l), (Z.leb_spec (ln k) (l - 1)), (Z.eqb_spec (ln k) l) as [<-|]; lia.
Qed.
Lemma mass_step k l : mass k l = mass k (l - 1) + remaining k l * 2 ^ (15 - l).
Proof. apply mass_from_step. Qed.
Lemma mass_below d k l : (k + d <= m)%nat -> (forall j, (k <= j < k + d)%nat -> l < ln j) -> mass_from d k l = 0.
Proof.
  revert k. induction d as [|d IH]; intros k Hd H; cbn [mass_from]; [done|]. rewrite IH; [|lia|intros j Hj; apply H; lia].
  destruct (Z.leb_spec (ln k) l); [|done]. specialize (H k ltac:(lia)). lia.
Qed.
Lemma mass_zero k l : (k < m)%nat -> l < ln k -> mass k l = 0.
Proof.
  intros Hk H. apply mass_below; [lia|]. intros j Hj. eapply Z.lt_le_trans; [exact H|]. apply Hsort. lia.
Qed.
(** the codes of length at most [l] come first *)
Lemma mass_first d k j l : (j = k + d)%nat -> (j < m)%nat -> l < ln j -> first k + mass k l <= first j.
Proof.
  revert k. induction d as [|d IH]; intros k -> Hj Hl.
  - rewrite Nat.add_0_r in *. rewrite mass_zero by done. lia.
  - rewrite mass_S by lia. specialize (IH (S k) ltac:(lia)). cbn [first] in IH.
    pose proof (width_pos k ltac:(lia)). specialize (IH ltac:(lia) Hl). destruct (_ <=? _); lia.
Qed.
(** when the codes of length at most [l] fill the codes with the first [root] bits of [k], no longer one has these bits *)
Lemma mass_full k j l :
  (k <= j < m)%nat -> first k = 2 ^ (15 - root) * stem k -> 2 ^ (15 - root) <= mass k l -> stem j = stem k -> ln j <= l.
Proof.
  intros Hj Hk Hm E. destruct (Z.leb_spec (ln j) l) as [|L]; [done|exfalso].
  pose proof (mass_first (j - k) k j l ltac:(lia) ltac:(lia) L) as B.
  unfold stem in E at 1. assert (first j < 2 ^ (15 - root) * (stem k + 1)); [|lia].
  rewrite <- E. pose proof (Z.div_mod (first j) (2 ^ (15 - root)) ltac:(lia)).
  pose proof (Z.mod_pos_bound (first j) (2 ^ (15 - root)) ltac:(lia)). lia.
Qed.
Lemma count_from_none d k l : count_from d k l = 0 -> forall j, (k <= j < k + d)%nat -> ln j <> l.
Proof.
  revert k. induction d as [|d IH]; intros k E j Hj; [lia|]. cbn [count_from] in E. pose proof (count_from_bound d (S k) l).
  destruct (Z.eqb_spec (ln k) l) as [Q|Q]; [lia|]. destruct (decide (j = k)) as [->|]; [done|]. apply (IH (S k)); lia.
Qed.
Lemma count_from_some d k l : count_from d k l <> 0 -> exists j, (k <= j < k + d)%nat /\ ln j = l.
Proof.
  revert k. induction d as [|d IH]; intros k E; [done|]. cbn [count_from] in E.
  destruct (Z.eqb_spec (ln k) l) as [Q|Q]; [exists k; split; [lia|done]|].
  destruct (IH (S k) E) as (j & Hj & Ej). exists j. split; [lia|done].
Qed.
Lemma remaining_none k l : remaining k l = 0 -> forall j, (k <= j < m)%nat -> ln j <> l.
Proof. intros E j Hj. apply (count_from_none _ _ _ E). lia. Qed.
Lemma remaining_some k l : remaining k l <> 0 -> exists j, (k <= j < m)%nat /\ ln j = l.
Proof. intros E. destruct (count_from_some _ _ _ E) as (j & Hj & Ej). exists j. split; [lia|done]. Qed.
(** the last of its length *)
Lemma remaining_next k : (S k < m)%nat -> (remaining (S k) (ln k) = 0 <-> ln (S k) <> ln k).
Proof.
  intros H. split.
  - intros E. apply (remaining_none _ _ E). lia.
  - intros N. destruct (Z.eq_dec (remaining (S k) (ln k)) 0) as [|E]; [done|].
    destruct (remaining_some _ _ E) as (j & Hj & Ej). pose proof (Hsort k (S k) ltac:(lia)). pose proof (Hsort (S k) j ltac:(lia)). lia.
Qed.
Lemma remaining_last k : remaining m k = 0.
Proof. unfold remaining. by rewrite Nat.sub_diag. Qed.
End Canon.
