(* ===== verification/Sorting.v ===== *)
(** * Counting and sorting the code lengths (inftrees.c)

    The first half of [inflate_table]: the symbols in the order of their codes, and
    the canonical code of RFC 1951, 3.2.2, whose intervals are those of [Codes]. *)
From S2P Require Import Prelude DeflateTables Inftrees Codes.

Section Lengths.
Context (lens : Z -> Z).

(** the symbols below [k] of length [l], in order *)
Definition syms (l : Z) (k : nat) : list Z := filter (fun s => lens s = l) (map Z.of_nat (seq 0 k)).
Definition cnt (k : nat) (l : Z) : Z := Z.of_nat (length (syms l k)).

Lemma syms_S l k : syms l (S k) = syms l k ++ (if decide (lens (Z.of_nat k) = l) then [Z.of_nat k] else []).
Proof. unfold syms. rewrite seq_S, map_app, list.filter_app. cbn [map]. rewrite filter_cons, filter_nil. done. Qed.
Lemma cnt_S l k : cnt (S k) l = cnt k l + (if lens (Z.of_nat k) =? l then 1 else 0).
Proof.
  unfold cnt. rewrite syms_S, length_app. destruct (decide _) as [E|E], (Z.eqb_spec (lens (Z.of_nat k)) l); cbn [length]; lia || done.
Qed.
Lemma cnt_bound k l : 0 <= cnt k l <= Z.of_nat k.
Proof. induction k as [|k IH]; [done|]. rewrite cnt_S. destruct (_ =? _); lia. Qed.
Lemma syms_elem l k s : s ∈ syms l k <-> lens s = l /\ 0 <= s < Z.of_nat k.
Proof.
  unfold syms. rewrite list_elem_of_filter, list_elem_of_In, in_map_iff. split; (intros [H1 H2]; split; [done|]).
  - destruct H2 as (i & <- & Hi). apply in_seq in Hi. clear H1. lia.
  - exists (Z.to_nat s). split; [lia|]. apply in_seq. clear H1. lia.
Qed.
Lemma syms_nodup l k : NoDup (syms l k).
Proof. apply list.NoDup_filter, NoDup_fmap_2; [apply _|]. apply NoDup_seq. Qed.
Lemma cnt_mono l k k' : (k <= k')%nat -> cnt k l <= cnt k' l.
Proof. induction 1 as [|k' _ IH]; [done|]. rewrite cnt_S. destruct (_ =? _); lia. Qed.
(** a symbol comes behind those below it *)
Lemma syms_index s k : 0 <= s < Z.of_nat k -> syms (lens s) k !! length (syms (lens s) (Z.to_nat s)) = Some s.
Proof.
  induction k as [|k IH]; intros H; [lia|]. rewrite syms_S. destruct (decide (s = Z.of_nat k)) as [->|Hs].
  - rewrite Nat2Z.id, decide_True by done. by rewrite list_lookup_middle.
  - rewrite lookup_app_l; [apply IH; lia|]. apply lookup_lt_Some in IH; [done|lia].
Qed.

Lemma count_lens_spec k l : Z.of_nat k < 65536 -> aget 0 (count_lens lens k) l = cnt k l.
Proof.
  induction k as [|k IH]; intros H; [done|]. unfold count_lens in *. rewrite seq_S, foldl_app. cbn [foldl]. cbv zeta.
  rewrite cnt_S, aget_aset, Nat.add_0_l. destruct (Z.eqb_spec (lens (Z.of_nat k)) l) as [->|]; [|rewrite IH; lia].
  rewrite IH by lia. pose proof (cnt_bound k l). rewrite u16_small; lia.
Qed.

Context (n : nat) (Hn : Z.of_nat n < 65536) (Hlens : forall s, 0 <= s < Z.of_nat n -> 0 <= lens s <= 15).

(** the symbols of length 1, then 2, up to [k] *)
Fixpoint by_length (k : nat) : list Z :=
  match k with O => [] | S k => by_length k ++ syms (Z.of_nat (S k)) n end.
Definition offset_of (l : Z) : nat := length (by_length (Z.to_nat (l - 1))).
Lemma by_length_elem k s : s ∈ by_length k <-> 1 <= lens s <= Z.of_nat k /\ 0 <= s < Z.of_nat n.
Proof.
  induction k as [|k IH]; cbn [by_length]; [split; [inversion 1|lia]|]. rewrite elem_of_app, IH, syms_elem. lia.
Qed.
Lemma by_length_nodup k : NoDup (by_length k).
Proof.
  induction k as [|k IH]; cbn [by_length]; [constructor|]. apply list.NoDup_app. split; [done|]. split; [|apply syms_nodup].
  intros s. rewrite by_length_elem, syms_elem. lia.
Qed.
Lemma by_length_sorted k i j s t :
  by_length k !! i = Some s -> by_length k !! j = Some t -> (i <= j)%nat -> lens s <= lens t.
Proof.
  induction k as [|k IH]; cbn [by_length]; [done|]. intros Hi Hj Hij.
  destruct (decide (j < length (by_length k))%nat) as [L|L].
  - rewrite lookup_app_l in Hi, Hj by lia. by apply IH.
  - rewrite lookup_app_r in Hj by lia. apply list_elem_of_lookup_2, syms_elem in Hj as [Hj _].
    apply list_elem_of_lookup_2, elem_of_app in Hi as [Hi|Hi]; [apply by_length_elem in Hi|apply syms_elem in Hi]; lia.
Qed.
Lemma offset_of_S l : 1 <= l -> Z.of_nat (offset_of (l + 1)) = Z.of_nat (offset_of l) + cnt n l.
Proof.
  intros H. unfold offset_of, cnt. replace (Z.to_nat (l + 1 - 1)) with (S (Z.to_nat (l - 1))) by lia. cbn [by_length].
  rewrite length_app. replace (Z.of_nat (S (Z.to_nat (l - 1)))) with l by lia. lia.
Qed.
Lemma offset_of_le l l' : 1 <= l -> l <= l' -> (offset_of l <= offset_of l')%nat.
Proof.
  intros H Hl. replace l' with (l + Z.of_nat (Z.to_nat (l' - l))) by lia. generalize (Z.to_nat (l' - l)). intros d.
  induction d as [|d IH]; [by rewrite Z.add_0_r|]. rewrite Nat2Z.inj_succ. pose proof (offset_of_S (l + Z.of_nat d) ltac:(lia)) as E.
  pose proof (cnt_bound n (l + Z.of_nat d)). replace (l + Z.succ (Z.of_nat d)) with (l + Z.of_nat d + 1) by lia. lia.
Qed.
Lemma by_length_total : (length (by_length 15) <= n)%nat.
Proof.
  rewrite <- (length_seq n 0), <- (length_map Z.of_nat (seq 0 n)). apply submseteq_length, NoDup_submseteq; [apply by_length_nodup|].
  intros s. rewrite by_length_elem, list_elem_of_In, in_map_iff. intros [_ H]. exists (Z.to_nat s). split; [lia|]. apply in_seq. lia.
Qed.

Lemma offset_of_bound l : 1 <= l <= 16 -> Z.of_nat (offset_of l) < 65536.
Proof.
  intros H. pose proof (offset_of_le l 16 ltac:(lia) ltac:(lia)) as C. pose proof by_length_total as B.
  unfold offset_of in C at 2. change (Z.to_nat (16 - 1)) with 15%nat in C. lia.
Qed.

(** *** Sorting *)

Lemma gen_offs_spec fuel len offs count :
  1 <= len -> len + Z.of_nat fuel <= 15 -> (forall l, 1 <= l <= 15 -> aget 0 count l = cnt n l) ->
  (forall l, 1 <= l <= len -> aget 0 offs l = Z.of_nat (offset_of l)) ->
  forall l, 1 <= l <= len + Z.of_nat fuel -> aget 0 (gen_offs fuel len offs count) l = Z.of_nat (offset_of l).
Proof.
  revert len offs. induction fuel as [|fuel IH]; intros len offs Hl Hf Hc Ho l Hr; cbn [gen_offs]; [apply Ho; lia|].
  apply IH; try lia; [done|]. intros l' Hl'. rewrite aget_aset. destruct (Z.eqb_spec (len + 1) l') as [<-|]; [|apply Ho; lia].
  rewrite Ho, Hc, <- offset_of_S by lia. pose proof (offset_of_bound (len + 1) ltac:(lia)). rewrite u16_small; lia.
Qed.

(** the cells of different symbols differ *)
Lemma slot_inj l i l' i' :
  1 <= l -> 1 <= l' -> Z.of_nat i < cnt n l -> Z.of_nat i' < cnt n l' ->
  Z.of_nat (offset_of l) + Z.of_nat i = Z.of_nat (offset_of l') + Z.of_nat i' -> l = l' /\ i = i'.
Proof.
  intros Hl Hl' Hi Hi' E. pose proof (offset_of_S l Hl). pose proof (offset_of_S l' Hl').
  destruct (Z.lt_trichotomy l l') as [B|[<-|B]]; [|lia|].
  - pose proof (offset_of_le (l + 1) l' ltac:(lia) ltac:(lia)). lia.
  - pose proof (offset_of_le (l' + 1) l ltac:(lia) ltac:(lia)). lia.
Qed.

(** after the symbols below [k]: where the next of each length goes, and what has been placed *)
Definition sorted_below (k : nat) (offs work : arr Z) : Prop :=
  (forall l, 1 <= l <= 15 -> aget 0 offs l = Z.of_nat (offset_of l) + cnt k l)
  /\ (forall l i s, 1 <= l <= 15 -> syms l k !! i = Some s -> aget 0 work (Z.of_nat (offset_of l) + Z.of_nat i) = s).
Lemma sort_step k offs work (l := lens (Z.of_nat k)) :
  (k < n)%nat -> sorted_below k offs work -> 1 <= l ->
  sorted_below (S k) (aset offs l (u16 (aget 0 offs l + 1))) (aset work (aget 0 offs l) (Z.of_nat k)).
Proof.
  intros Hk [H1 H2] Hl. pose proof (Hlens (Z.of_nat k) ltac:(lia)) as Hlk. fold l in Hlk. rewrite H1 by lia.
  assert (Hroom : cnt k l < cnt n l).
  { pose proof (cnt_S l k) as E. fold l in E. rewrite Z.eqb_refl in E. pose proof (cnt_mono l (S k) n ltac:(lia)). lia. }
  split.
  - intros l' Hl'. rewrite cnt_S, aget_aset. fold l. destruct (Z.eqb_spec l l') as [<-|]; [|rewrite H1; lia].
    pose proof (offset_of_S l ltac:(lia)). pose proof (offset_of_bound (l + 1) ltac:(lia)). pose proof (cnt_bound k l).
    rewrite u16_small; lia.
  - intros l' i s Hl'. rewrite syms_S. fold l. intros Hs. destruct (decide (i < length (syms l' k))%nat) as [L|L].
    + rewrite lookup_app_l in Hs by done. rewrite aget_aset_ne; [by apply H2|]. intros Q. unfold cnt in Q, Hroom.
      assert (A : cnt k l' <= cnt n l') by (apply cnt_mono; lia). unfold cnt in A.
      destruct (slot_inj l (length (syms l k)) l' i); unfold cnt; try lia. subst l'. lia.
    + rewrite lookup_app_r in Hs by lia. destruct (decide (l = l')) as [<-|]; [|done].
      destruct (i - length (syms l k))%nat as [|d] eqn:Ed; [|done]. injection Hs as <-.
      replace (Z.of_nat i) with (cnt k l) by (unfold cnt; lia). by rewrite aget_aset_eq.
Qed.
Lemma sort_symbols_spec offs work k :
  (k <= n)%nat -> (forall l, 1 <= l <= 15 -> aget 0 offs l = Z.of_nat (offset_of l)) ->
  sorted_below k (sort_symbols lens k offs work).1 (sort_symbols lens k offs work).2.
Proof.
  intros Hk Ho. induction k as [|k IH].
  { split; [intros l Hl; rewrite <- Ho by done; cbn; unfold cnt, syms; cbn; lia|done]. }
  specialize (IH ltac:(lia)). unfold sort_symbols in *. rewrite seq_S, foldl_app. cbn [foldl]. rewrite Nat.add_0_l.
  destruct (foldl _ _ _) as [offs' work']. cbv zeta. pose proof (Hlens (Z.of_nat k) ltac:(lia)) as Hlk.
  destruct (Z.eqb_spec (lens (Z.of_nat k)) 0) as [E|E]; [|by apply sort_step; [| |lia]].
  destruct IH as [IH1 IH2]. cbn [fst snd] in *. split.
  - intros l Hl. rewrite cnt_S. destruct (Z.eqb_spec (lens (Z.of_nat k)) l); [lia|]. rewrite IH1; lia.
  - intros l i s Hl. rewrite syms_S, decide_False, app_nil_r by lia. by apply IH2.
Qed.

(** the whole list, in the cells from 0 *)
Lemma sort_symbols_list offs work i s :
  (forall l, 1 <= l <= 15 -> aget 0 offs l = Z.of_nat (offset_of l)) ->
  by_length 15 !! i = Some s -> aget 0 (sort_symbols lens n offs work).2 (Z.of_nat i) = s.
Proof.
  intros Ho. destruct (sort_symbols_spec offs work n ltac:(lia) Ho) as [_ H].
  assert (A : forall k, (k <= 15)%nat -> by_length k !! i = Some s -> aget 0 (sort_symbols lens n offs work).2 (Z.of_nat i) = s); [|apply A; lia].
  induction k as [|k IH]; intros Hk; cbn [by_length]; [done|].
  destruct (decide (i < length (by_length k))%nat) as [L|L]; [rewrite lookup_app_l by lia; apply IH; lia|].
  rewrite lookup_app_r by lia. intros Hs. rewrite <- (H (Z.of_nat (S k)) _ s ltac:(lia) Hs). f_equal.
  unfold offset_of. replace (Z.to_nat (Z.of_nat (S k) - 1)) with k by lia. lia.
Qed.

(** *** The sorted symbols as a sequence of lengths *)

Definition coded : nat := length (by_length 15).
Definition nth_sym (k : nat) : Z := nth k (by_length 15) 0.
Definition nth_len (k : nat) : Z := lens (nth_sym k).

Lemma nth_sym_lookup k : (k < coded)%nat -> by_length 15 !! k = Some (nth_sym k).
Proof. intros H. destruct (nth_lookup_or_length (by_length 15) k 0) as [E|E]; [done|]. unfold coded in H. lia. Qed.
Lemma nth_sym_Some k s : by_length 15 !! k = Some s -> (k < coded)%nat /\ nth_sym k = s.
Proof. intros H. split; [by apply lookup_lt_Some in H|by apply nth_lookup_Some]. Qed.
Lemma nth_sym_range k : (k < coded)%nat -> 0 <= nth_sym k < Z.of_nat n.
Proof. intros H. apply nth_sym_lookup, list_elem_of_lookup_2, by_length_elem in H as [_ H]. done. Qed.
Lemma nth_len_range k : (k < coded)%nat -> 1 <= nth_len k <= 15.
Proof. intros H. apply nth_sym_lookup, list_elem_of_lookup_2, by_length_elem in H as [H _]. done. Qed.
Lemma nth_len_sorted i j : (i <= j < coded)%nat -> nth_len i <= nth_len j.
Proof. intros H. eapply by_length_sorted; [apply nth_sym_lookup; lia..|lia]. Qed.
Lemma nth_sym_inj i j : (i < coded)%nat -> (j < coded)%nat -> nth_sym i = nth_sym j -> i = j.
Proof.
  intros Hi Hj E. apply nth_sym_lookup in Hi, Hj. rewrite E in Hi. by eapply NoDup_lookup; [apply (by_length_nodup 15)|..].
Qed.

Lemma count_list l L k : (forall i x, L !! i = Some x -> nth_len (k + i) = lens x) ->
  count_from nth_len (length L) k l = Z.of_nat (length (filter (fun s => lens s = l) L)).
Proof.
  revert k. induction L as [|x L IH]; intros k H; [done|]. cbn [length count_from]. rewrite (IH (S k)).
  - rewrite filter_cons. pose proof (H 0%nat x eq_refl) as E. rewrite Nat.add_0_r in E. rewrite E.
    destruct (decide (lens x = l)) as [->|]; [rewrite Z.eqb_refl; cbn [length]; lia|]. destruct (Z.eqb_spec (lens x) l); [done|lia].
  - intros i y Hy. rewrite <- (H (S i) y Hy). f_equal. lia.
Qed.
Lemma syms_filter l l' k : filter (fun s => lens s = l) (syms l' k) = if decide (l' = l) then syms l k else [].
Proof.
  destruct (decide (l' = l)) as [->|N]; [by apply list_filter_filter_l|].
  destruct (filter (fun s => lens s = l) (syms l' k)) as [|x L] eqn:E; [done|]. assert (H : x ∈ x :: L) by left. exfalso.
  rewrite <- E, list_elem_of_filter, syms_elem in H. destruct H as (A & B & _). by rewrite A in B.
Qed.
Lemma by_length_filter k l : 1 <= l -> filter (fun s => lens s = l) (by_length k) = if l <=? Z.of_nat k then syms l n else [].
Proof.
  intros Hl. induction k as [|k IH]; cbn [by_length]; [destruct (Z.leb_spec l (Z.of_nat 0)); [lia|done]|].
  rewrite list.filter_app, IH, syms_filter.
  destruct (Z.leb_spec l (Z.of_nat k)), (Z.leb_spec l (Z.of_nat (S k))), (decide (Z.of_nat (S k) = l)); try lia; by rewrite ?app_nil_r.
Qed.
Lemma remaining_all l : 1 <= l <= 15 -> remaining nth_len coded 0 l = cnt n l.
Proof.
  intros Hl. unfold remaining, coded. rewrite Nat.sub_0_r, (count_list l (by_length 15)).
  - rewrite by_length_filter by lia. destruct (Z.leb_spec l (Z.of_nat 15)); [done|lia].
  - intros i x H. rewrite Nat.add_0_l. unfold nth_len. by rewrite (proj2 (nth_sym_Some _ _ H)).
Qed.

(** *** The Kraft sum, in units of [2 ^ -15] *)

Fixpoint kraft (k : nat) : Z :=
  match k with
  | O => 0
  | S k => kraft k + (if lens (Z.of_nat k) =? 0 then 0 else 2 ^ (15 - lens (Z.of_nat k)))
  end.
(** the codes of length at most [l] *)
Fixpoint kraft_upto (l k : nat) : Z :=
  match l with O => 0 | S l => kraft_upto l k + cnt k (Z.of_nat (S l)) * 2 ^ (15 - Z.of_nat (S l)) end.
Lemma kraft_upto_S l k : 0 <= lens (Z.of_nat k) ->
  kraft_upto l (S k) = kraft_upto l k
    + (if (1 <=? lens (Z.of_nat k)) && (lens (Z.of_nat k) <=? Z.of_nat l) then 2 ^ (15 - lens (Z.of_nat k)) else 0).
Proof.
  intros H. induction l as [|l IH]; cbn [kraft_upto].
  { destruct (Z.leb_spec 1 (lens (Z.of_nat k))), (Z.leb_spec (lens (Z.of_nat k)) (Z.of_nat 0)); cbn [andb]; lia. }
  rewrite IH, cnt_S. destruct (Z.eqb_spec (lens (Z.of_nat k)) (Z.of_nat (S l))) as [E|E];
    destruct (Z.leb_spec 1 (lens (Z.of_nat k))), (Z.leb_spec (lens (Z.of_nat k)) (Z.of_nat l)), (Z.leb_spec (lens (Z.of_nat k)) (Z.of_nat (S l)));
    cbn [andb]; rewrite ?E; lia.
Qed.
Lemma kraft_upto_all k : (k <= n)%nat -> kraft_upto 15 k = kraft k.
Proof.
  intros Hk. induction k as [|k IH]; [done|]. pose proof (Hlens (Z.of_nat k) ltac:(lia)).
  rewrite kraft_upto_S, IH by lia. cbn [kraft].
  destruct (Z.eqb_spec (lens (Z.of_nat k)) 0), (Z.leb_spec 1 (lens (Z.of_nat k))), (Z.leb_spec (lens (Z.of_nat k)) (Z.of_nat 15)); cbn [andb]; lia.
Qed.
Lemma mass_kraft l : (l <= 15)%nat -> mass nth_len coded 0 (Z.of_nat l) = kraft_upto l n.
Proof.
  intros Hl. induction l as [|l IH].
  - unfold mass. apply (mass_below nth_len coded); [lia|]. intros j Hj. pose proof (nth_len_range j ltac:(lia)). lia.
  - rewrite mass_step, remaining_all by lia. replace (Z.of_nat (S l) - 1) with (Z.of_nat l) by lia. rewrite IH by lia. done.
Qed.
Lemma first_kraft : first nth_len coded = kraft n.
Proof.
  rewrite <- kraft_upto_all, <- (mass_kraft 15) by lia. unfold mass. rewrite Nat.sub_0_r.
  assert (A : forall d k, (k + d = coded)%nat -> first nth_len coded = first nth_len k + mass_from nth_len d k (Z.of_nat 15)); [|by rewrite (A coded 0%nat)].
  induction d as [|d IH]; intros k Hk; cbn [mass_from]; [replace k with coded by lia; lia|].
  rewrite (IH (S k)) by lia. cbn [first]. pose proof (nth_len_range k ltac:(lia)). destruct (Z.leb_spec (nth_len k) (Z.of_nat 15)); lia.
Qed.

(** *** The canonical code of RFC 1951, 3.2.2 *)

(** [next_code]: the first code of length [l] *)
Fixpoint next_code (l : nat) : Z :=
  match l with
  | O => 0
  | S l => 2 * (next_code l + (if (l =? 0)%nat then 0 else cnt n (Z.of_nat l)))
  end.
(** the code of [s], first bit lowest: codes of one length are consecutive *)
Definition canon (s : Z) : Z :=
  rev_bits (Z.to_nat (lens s)) (next_code (Z.to_nat (lens s)) + cnt (Z.to_nat s) (lens s)).

Lemma by_length_at l i s : 1 <= l <= 15 -> syms l n !! i = Some s -> by_length 15 !! (offset_of l + i)%nat = Some s.
Proof.
  intros Hl Hs.
  assert (A : forall k, Z.of_nat k = l -> (k <= 15)%nat -> by_length k !! (offset_of l + i)%nat = Some s).
  { intros [|k] Ek Hk; [lia|]. cbn [by_length]. unfold offset_of. replace (Z.to_nat (l - 1)) with k by lia.
    rewrite lookup_app_r, Ek by lia. by replace (length (by_length k) + i - length (by_length k))%nat with i by lia. }
  specialize (A (Z.to_nat l) ltac:(lia) ltac:(lia)). revert A. generalize (offset_of l + i)%nat. intros j A.
  assert (B : forall d k, by_length k !! j = Some s -> by_length (k + d) !! j = Some s).
  { induction d as [|d IHd]; intros k Hk; [by rewrite Nat.add_0_r|]. rewrite Nat.add_succ_r. cbn [by_length]. by apply lookup_app_l_Some, IHd. }
  specialize (B (15 - Z.to_nat l)%nat _ A). by replace (Z.to_nat l + (15 - Z.to_nat l))%nat with 15%nat in B by lia.
Qed.
Lemma first_run l i : 1 <= l <= 15 -> Z.of_nat i <= cnt n l ->
  first nth_len (offset_of l + i) = first nth_len (offset_of l) + Z.of_nat i * 2 ^ (15 - l).
Proof.
  intros Hl. induction i as [|i IH]; intros Hi; [rewrite Nat.add_0_r; lia|].
  rewrite Nat.add_succ_r. cbn [first]. rewrite IH by lia.
  assert (E : nth_len (offset_of l + i) = l); [|unfold width; rewrite E; lia].
  destruct (lookup_lt_is_Some_2 (syms l n) i ltac:(unfold cnt in Hi; lia)) as [s Hs].
  unfold nth_len. rewrite (proj2 (nth_sym_Some _ _ (by_length_at _ _ _ Hl Hs))).
  apply list_elem_of_lookup_2, syms_elem in Hs. apply Hs.
Qed.
Lemma first_offset l : (1 <= l <= 15)%nat -> first nth_len (offset_of (Z.of_nat l)) = next_code l * 2 ^ (15 - Z.of_nat l).
Proof.
  induction l as [|l IH]; intros Hl; [lia|]. destruct (decide (l = 0)%nat) as [->|N]; [done|].
  pose proof (offset_of_S (Z.of_nat l) ltac:(lia)) as E. replace (Z.of_nat (S l)) with (Z.of_nat l + 1) by lia.
  replace (offset_of (Z.of_nat l + 1)) with (offset_of (Z.of_nat l) + length (syms (Z.of_nat l) n))%nat by (unfold cnt in E; lia).
  rewrite first_run, IH by (unfold cnt; lia). cbn [next_code]. destruct (Nat.eqb_spec l 0); [lia|]. fold (cnt n (Z.of_nat l)).
  replace (15 - Z.of_nat l) with (Z.succ (15 - (Z.of_nat l + 1))) by lia. rewrite Z.pow_succ_r by lia. lia.
Qed.
(** it is the code of the symbol's place in the sorted order *)
Lemma canon_huff s : 0 <= s < Z.of_nat n -> 0 < lens s ->
  exists k, (k < coded)%nat /\ nth_sym k = s /\ huff nth_len k = canon s.
Proof.
  intros Hs Hl. pose proof (Hlens s Hs) as Hr. pose proof (syms_index s n Hs) as E.
  assert (Hr1 : 1 <= lens s <= 15) by lia. pose proof (by_length_at _ _ _ Hr1 E) as B. apply nth_sym_Some in B as [B1 B2].
  set (i := length (syms (lens s) (Z.to_nat s))) in *. exists (offset_of (lens s) + i)%nat. split; [done|]. split; [done|].
  pose proof (lookup_lt_Some _ _ _ E) as Hi. unfold huff, canon. rewrite first_run by (unfold cnt; lia).
  pose proof (first_offset (Z.to_nat (lens s)) ltac:(lia)) as F. rewrite !Z2Nat.id in F by lia. rewrite F. unfold cnt. fold i.
  rewrite <- Z.mul_add_distr_r, Z.mul_comm. replace (15 - lens s) with (Z.of_nat (15 - Z.to_nat (lens s))) by lia.
  replace 15%nat with ((15 - Z.to_nat (lens s)) + Z.to_nat (lens s))%nat at 1 by lia. apply rev_shift.
Qed.

(** *** The first passes over the counts *)

Section Counts.
Context (count : arr Z) (Hc : forall l, 1 <= l <= 15 -> aget 0 count l = cnt n l).
Lemma find_max_spec : find_max 15 count = match coded with O => 0 | S k => nth_len k end.
Proof.
  assert (A : forall k, (k <= 15)%nat -> (forall j, (j < coded)%nat -> nth_len j <= Z.of_nat k) ->
    find_max k count = match coded with O => 0 | S k => nth_len k end).
  { induction k as [|k IH]; intros Hk H; cbn [find_max].
    - destruct coded as [|t] eqn:Et; [done|]. pose proof (H t ltac:(lia)). pose proof (nth_len_range t ltac:(lia)). lia.
    - rewrite Hc, <- remaining_all by lia. destruct (Z.eqb_spec (remaining nth_len coded 0 (Z.of_nat (S k))) 0) as [E|E].
      + apply IH; [lia|]. intros j Hj. pose proof (H j Hj). assert (nth_len j <> Z.of_nat (S k)); [|lia]. intros Q.
        by apply (remaining_none nth_len coded 0 (Z.of_nat (S k)) E j ltac:(lia)).
      + destruct (remaining_some nth_len coded 0 (Z.of_nat (S k)) E) as (j & Hj & Ej).
        destruct coded as [|t] eqn:Et; [lia|]. pose proof (H t ltac:(lia)). pose proof (nth_len_sorted j t ltac:(lia)). lia. }
  apply A; [lia|]. intros j Hj. apply nth_len_range, Hj.
Qed.
Lemma find_min_spec fuel mn max : 1 <= mn -> max <= 15 -> max - mn < Z.of_nat fuel ->
  (0 < coded)%nat -> mn <= nth_len 0 <= max -> find_min fuel mn max count = nth_len 0.
Proof.
  revert mn. induction fuel as [|fuel IH]; intros mn H1 Hm Hf Ht H; cbn [find_min]; [lia|].
  destruct (Z.ltb_spec mn max); [|lia]. rewrite Hc, <- remaining_all by lia.
  destruct (Z.eqb_spec (remaining nth_len coded 0 mn) 0) as [E|E].
  - apply IH; try lia. pose proof (remaining_none nth_len coded 0 mn E 0 ltac:(lia)). lia.
  - destruct (remaining_some nth_len coded 0 mn E) as (j & Hj & Ej). pose proof (nth_len_sorted 0 j ltac:(lia)). lia.
Qed.
(** the loop over the lengths computes what the code leaves, or finds it over-subscribed *)
Lemma check_left_spec : check_left 15 1 1 count = if kraft n >? 2 ^ 15 then None else Some (2 ^ 15 - kraft n).
Proof.
  rewrite <- kraft_upto_all by lia.
  assert (Hmono : forall d l, kraft_upto l n <= kraft_upto (l + d) n).
  { induction d as [|d IH]; intros l; [by rewrite Nat.add_0_r|]. rewrite Nat.add_succ_r. cbn [kraft_upto].
    specialize (IH l). pose proof (cnt_bound n (Z.of_nat (S (l + d)))). nia. }
  assert (A : forall fuel l left, (l + fuel = 15)%nat -> left * 2 ^ (15 - Z.of_nat l) = 2 ^ 15 - kraft_upto l n -> 0 <= left ->
    check_left fuel (Z.of_nat (S l)) left count = if kraft_upto 15 n >? 2 ^ 15 then None else Some (2 ^ 15 - kraft_upto 15 n)).
  { induction fuel as [|fuel IH]; intros l left Hl E Hp; cbn [check_left].
    - assert (l = 15%nat) as -> by lia. change (2 ^ (15 - Z.of_nat 15)) with 1 in E. rewrite Z.mul_1_r in E. destruct (Z.gtb_spec (kraft_upto 15 n) (2 ^ 15)); [lia|]. f_equal. lia.
    - cbv zeta. rewrite Z.shiftl_mul_pow2, Hc by lia.
      assert (E' : (left * 2 ^ 1 - cnt n (Z.of_nat (S l))) * 2 ^ (15 - Z.of_nat (S l)) = 2 ^ 15 - kraft_upto (S l) n).
      { cbn [kraft_upto]. replace (15 - Z.of_nat l) with (Z.succ (15 - Z.of_nat (S l))) in E by lia.
        rewrite Z.pow_succ_r in E by lia. lia. }
      destruct (Z.ltb_spec (left * 2 ^ 1 - cnt n (Z.of_nat (S l))) 0) as [L|L].
      + pose proof (Hmono (15 - S l)%nat (S l)) as M. replace (S l + (15 - S l))%nat with 15%nat in M by lia.
        destruct (Z.gtb_spec (kraft_upto 15 n) (2 ^ 15)); [done|].
        assert (0 < 2 ^ (15 - Z.of_nat (S l))) by (apply Z.pow_pos_nonneg; lia). nia.
      + replace (Z.of_nat (S l) + 1) with (Z.of_nat (S (S l))) by lia. apply IH; [lia|done|done]. }
  apply (A 15%nat 0%nat); [done|done|lia].
Qed.
End Counts.
End Lengths.
