(* ===== verification/Tables.v ===== *)
(** * The decoding tables are right (inftrees.c)

    The main loop of [inflate_table] places the code of each symbol, in sorted order:
    [placed] is what that means for the memory, [inv] the loop's invariant. *)
From S2P Require Import Prelude DeflateTables Inftrees Codes Sorting.

(** ** The backwards increment *)

Lemma land_top h j : 0 <= j -> Z.land h (2 ^ j) = if Z.testbit h j then 2 ^ j else 0.
Proof.
  intros Hj. apply Z.bits_inj'. intros i Hi. rewrite Z.land_spec, Z.pow2_bits_eqb by lia.
  destruct (Z.eqb_spec j i) as [<-|N]; [rewrite andb_true_r|rewrite andb_false_r].
  - destruct (Z.testbit h j); [by rewrite Z.pow2_bits_true|by rewrite Z.bits_0].
  - destruct (Z.testbit h j); [|by rewrite Z.bits_0]. rewrite Z.pow2_bits_eqb by lia. by destruct (Z.eqb_spec j i).
Qed.
Lemma testbit_top a b l : 0 <= l -> 0 <= a < 2 ^ l -> 0 <= b < 2 -> Z.testbit (a + 2 ^ l * b) l = (b =? 1).
Proof.
  intros Hl Ha Hb. rewrite Z.testbit_spec' || idtac. apply Z.b2z_inj. rewrite Z.testbit_spec' by lia.
  rewrite Z.add_comm, (Z.mul_comm (2 ^ l)), Z.div_add_l, (Z.div_small a), Z.add_0_r, Z.mod_small by lia.
  assert (b = 0 \/ b = 1) as [-> | ->] by lia; done.
Qed.
Lemma testbit_low a b l j : 0 <= j < l -> Z.testbit (a + 2 ^ l * b) j = Z.testbit a j.
Proof.
  intros Hj. rewrite <- (Z.mod_pow2_bits_low _ l) by lia. rewrite (Z.mul_comm (2 ^ l)), Z.mod_add by lia.
  by rewrite Z.mod_pow2_bits_low by lia.
Qed.

(** only the bits below the starting one matter, and the result is one of them *)
Lemma incr_loop_low fuel a b l j :
  0 <= j < l -> incr_loop fuel (a + 2 ^ l * b) (2 ^ j) = incr_loop fuel a (2 ^ j).
Proof.
  revert j. induction fuel as [|fuel IH]; intros j Hj; cbn [incr_loop]; [done|].
  rewrite !land_top, testbit_low by lia. destruct (Z.testbit a j); [|done].
  destruct (Z.eqb_spec (2 ^ j) 0); [lia|]. destruct (decide (j = 0)) as [->|].
  - change (Z.shiftr (2 ^ 0) 1) with 0. destruct fuel; cbn [incr_loop]; [done|]. by rewrite !Z.land_0_r.
  - rewrite Z.shiftr_div_pow2, <- Z.pow_sub_r by lia. apply IH. lia.
Qed.
Lemma incr_loop_pow fuel a j :
  0 <= j -> j < Z.of_nat fuel -> incr_loop fuel a (2 ^ j) = 0 \/ exists i, 0 <= i <= j /\ incr_loop fuel a (2 ^ j) = 2 ^ i.
Proof.
  revert j. induction fuel as [|fuel IH]; intros j Hj Hf; [lia|]. cbn [incr_loop]. rewrite land_top by lia.
  destruct (Z.testbit a j); [|right; by exists j]. destruct (Z.eqb_spec (2 ^ j) 0); [lia|]. destruct (decide (j = 0)) as [->|].
  - left. change (Z.shiftr (2 ^ 0) 1) with 0. destruct fuel; cbn [incr_loop]; [done|]. by rewrite Z.land_0_r.
  - rewrite Z.shiftr_div_pow2, <- Z.pow_sub_r by lia. change (2 ^ 1) with (2 ^ 1).
    destruct (IH (j - 1) ltac:(lia) ltac:(lia)) as [E|(i & Hi & E)]; [by left|right; exists i; split; [lia|done]].
Qed.
Lemma incr_result fuel l (c : Z) (h := rev_bits l c) (incr := incr_loop fuel h (Z.shiftl 1 (Z.of_nat l - 1))) :
  (0 < l)%nat -> (l < fuel)%nat -> (if incr =? 0 then 0 else Z.land h (incr - 1) + incr) = rev_bits l (c + 1).
Proof.
  subst h incr. revert fuel c. induction l as [|l IH]; intros fuel c Hl Hf; [lia|].
  destruct fuel as [|fuel]; [lia|]. rewrite Z.shiftl_1_l. replace (Z.of_nat (S l) - 1) with (Z.of_nat l) by lia.
  pose proof (rev_range l (c / 2)) as R. pose proof (mod2_range c) as P. cbn [rev_bits incr_loop]. rewrite land_top, testbit_top by lia.
  pose proof (Z.div_mod c 2 ltac:(lia)) as D.
  assert (c mod 2 = 0 \/ c mod 2 = 1) as [E|E] by lia; rewrite E in *.
  - change (0 =? 1) with false. cbv iota. change (0 =? 0) with true. cbv iota. destruct (Z.eqb_spec (2 ^ Z.of_nat l) 0); [lia|].
    rewrite land_ones_mod, Z.mul_0_r, Z.add_0_r, Z.mod_small by lia.
    replace ((c + 1) / 2) with (c / 2) by (apply (Z.div_unique _ _ _ 1); lia).
    replace ((c + 1) mod 2) with 1 by (apply (Z.mod_unique _ _ (c / 2)); lia). lia.
  - change (1 =? 1) with true. cbv iota. destruct (Z.eqb_spec (2 ^ Z.of_nat l) 0); [lia|].
    replace ((c + 1) mod 2) with 0 by (apply (Z.mod_unique _ _ (c / 2 + 1)); lia).
    replace ((c + 1) / 2) with (c / 2 + 1) by (apply (Z.div_unique _ _ _ 0); lia). rewrite Z.mul_0_r, Z.add_0_r.
    destruct l as [|l]; [by destruct fuel|].
    rewrite Z.shiftr_div_pow2, <- Z.pow_sub_r by lia. replace (Z.of_nat (S l) - 1) with (Z.of_nat l) by lia.
    rewrite incr_loop_low by lia. rewrite <- (IH fuel (c / 2)) by lia.
    rewrite Z.shiftl_1_l. replace (Z.of_nat (S l) - 1) with (Z.of_nat l) by lia.
    destruct (incr_loop_pow fuel (rev_bits (S l) (c / 2)) (Z.of_nat l) ltac:(lia) ltac:(lia)) as [-> | (i & Hi & ->)]; [done|].
    destruct (2 ^ i =? 0); [done|]. f_equal. rewrite !land_ones_mod by lia.
    replace (2 ^ Z.of_nat (S l)) with (2 ^ (Z.of_nat (S l) - i) * 2 ^ i) by (rewrite <- Z.pow_add_r by lia; f_equal; lia).
    rewrite <- Z.mul_assoc, (Z.mul_comm (2 ^ i)), Z.mul_assoc, Z.mod_add by lia. done.
Qed.
Lemma next_huff_spec l c : 1 <= l <= 15 -> next_huff (rev_bits (Z.to_nat l) c) l = rev_bits (Z.to_nat l) (c + 1).
Proof.
  intros Hl. unfold next_huff. rewrite <- (incr_result 33) by lia. by rewrite Z2Nat.id by lia.
Qed.

(** ** Filling in the repeated entries *)

Lemma fill_loop_spec fuel q base incr here mem p :
  1 <= q <= Z.of_nat fuel -> 0 < incr -> q * incr < 2 ^ 32 ->
  aget code_zero (fill_loop fuel base (q * incr) incr here mem) p
  = if (base <=? p) && (p <? base + q * incr) && ((p - base) mod incr =? 0) then here else aget code_zero mem p.
Proof.
  revert q mem. induction fuel as [|fuel IH]; intros q mem Hq Hi Hb; [lia|]. cbn [fill_loop]. cbv zeta.
  replace (q * incr - incr) with ((q - 1) * incr) by ring. rewrite u32_small by nia.
  assert (Hc : forall b : bool, (base <=? p) && (p <? base + q * incr) && ((p - base) mod incr =? 0) = b ->
    b = (p =? base + (q - 1) * incr) || (base <=? p) && (p <? base + (q - 1) * incr) && ((p - base) mod incr =? 0)).
  { intros b <-. destruct (Z.eqb_spec p (base + (q - 1) * incr)) as [->|N]; cbn [orb].
    - replace (base + (q - 1) * incr - base) with ((q - 1) * incr) by ring. rewrite Z.mod_mul, Z.eqb_refl by lia.
      destruct (Z.leb_spec base (base + (q - 1) * incr)), (Z.ltb_spec (base + (q - 1) * incr) (base + q * incr)); try done; nia.
    - destruct (Z.eqb_spec ((p - base) mod incr) 0) as [E|E]; [|by rewrite !andb_false_r].
      rewrite !andb_true_r. destruct (Z.leb_spec base p); [|done]. cbn [andb].
      apply Z.mod_divide in E as [z E]; [|lia]. destruct (Z.ltb_spec p (base + q * incr)), (Z.ltb_spec p (base + (q - 1) * incr)); try done; exfalso; [|nia].
      assert (z = q - 1) by nia. nia. }
  rewrite (Hc _ eq_refl). destruct (Z.eqb_spec ((q - 1) * incr) 0) as [E|E].
  - rewrite aget_aset, E, Z.add_0_r, Z.eqb_sym. destruct (Z.eqb_spec p base) as [->|]; [done|]. cbn [orb].
    destruct (Z.leb_spec base p), (Z.ltb_spec p base); try done; lia.
  - rewrite IH by nia. rewrite aget_aset, (Z.eqb_sym _ p). destruct (Z.eqb_spec p (base + (q - 1) * incr)) as [->|]; cbn [orb]; [|done].
    rewrite ?Z.eqb_refl. match goal with |- (if ?b then _ else _) = _ => by destruct b end.
Qed.
(** the entries of a table of [2 ^ curr] whose index ends in the [b] bits of [h] *)
Lemma fill_table next curr b h here mem p :
  0 <= b <= curr -> curr <= 15 -> 0 <= h < 2 ^ b ->
  aget code_zero (fill_loop (Z.to_nat (2 ^ curr)) (next + h) (2 ^ curr) (2 ^ b) here mem) p
  = if (next <=? p) && (p <? next + 2 ^ curr) && ((p - next) mod 2 ^ b =? h) then here else aget code_zero mem p.
Proof.
  intros Hb Hc Hh. assert (E : 2 ^ curr = 2 ^ (curr - b) * 2 ^ b) by (rewrite <- Z.pow_add_r by lia; f_equal; lia).
  assert (2 ^ curr <= 2 ^ 15) by (apply Z.pow_le_mono_r; lia).
  rewrite E at 2. rewrite fill_loop_spec by nia. rewrite <- E. set (w := 2 ^ b) in *.
  assert (Hm : ((next + h <=? p) && (p <? next + h + 2 ^ curr) && ((p - (next + h)) mod w =? 0))
               = ((next <=? p) && (p <? next + 2 ^ curr) && ((p - next) mod w =? h))); [|by rewrite Hm].
  assert (0 < w) by lia. pose proof (Z.div_mod (p - next) w ltac:(lia)) as D. pose proof (Z.mod_pos_bound (p - next) w ltac:(lia)) as B.
  assert (Hq : ((p - (next + h)) mod w =? 0) = ((p - next) mod w =? h)).
  { destruct (Z.eqb_spec ((p - next) mod w) h) as [Q|Q].
    - rewrite Q in D. replace (p - (next + h)) with (((p - next) / w) * w) by lia. rewrite Z.mod_mul by lia. done.
    - destruct (Z.eqb_spec ((p - (next + h)) mod w) 0) as [Z0|]; [|done]. exfalso. apply Q.
      apply Z.mod_divide in Z0 as [z Z0]; [|lia]. symmetry. apply (Z.mod_unique _ _ z); lia. }
  rewrite Hq. destruct (Z.eqb_spec ((p - next) mod w) h) as [Q|Q]; [|by rewrite !andb_false_r]. rewrite !andb_true_r.
  set (z := (p - next) / w) in *. set (n := 2 ^ (curr - b)) in *. rewrite Q in D.
  destruct (Z.leb_spec (next + h) p), (Z.leb_spec next p), (Z.ltb_spec p (next + h + 2 ^ curr)), (Z.ltb_spec p (next + 2 ^ curr));
    cbn [andb]; try done; exfalso; rewrite E in *.
  all: first [lia | assert (n <= z) by nia; nia | assert (z < 0) by nia; nia | nia].
Qed.

(** ** The size of a sub-table *)

Section Grow.
Context (ln : nat -> Z) (m : nat) (Hln : forall k, (k < m)%nat -> 1 <= ln k <= 15)
  (Hsort : forall i j, (i <= j < m)%nat -> ln i <= ln j) (root : Z) (Hroot : 0 <= root <= 15).

Lemma grow_curr_spec fuel count k curr max left :
  (forall l, 1 <= l <= 15 -> aget 0 count l = remaining ln m k l) ->
  0 <= curr -> 1 <= root + curr <= max -> max <= 15 -> max - root - curr < Z.of_nat fuel ->
  left * 2 ^ (15 - root - curr) = 2 ^ (15 - root) - mass ln m k (root + curr - 1) ->
  let c := grow_curr fuel count curr root max left in
  curr <= c /\ root + c <= max /\ (root + c = max \/ 2 ^ (15 - root) <= mass ln m k (root + c)).
Proof.
  intros Hc. revert curr left. induction fuel as [|fuel IH]; intros curr left H0 Hcr Hm Hf E; cbn [grow_curr]; [lia|].
  destruct (Z.ltb_spec (curr + root) max) as [L|L]; [|split_and!; [lia|lia|left; lia]]. cbv zeta. rewrite Hc by lia.
  assert (E' : (left - remaining ln m k (curr + root)) * 2 ^ (15 - root - curr) = 2 ^ (15 - root) - mass ln m k (root + curr)).
  { rewrite mass_step. rewrite (Z.add_comm curr root). replace (15 - (root + curr)) with (15 - root - curr) by lia. lia. }
  assert (0 < 2 ^ (15 - root - curr)) by lia. destruct (Z.leb_spec (left - remaining ln m k (curr + root)) 0) as [G|G].
  - split_and!; [lia|lia|right]. nia.
  - destruct (IH (curr + 1) (Z.shiftl (left - remaining ln m k (curr + root)) 1)) as (A & B & C); try lia.
    rewrite Z.shiftl_mul_pow2 by lia. replace (root + (curr + 1) - 1) with (root + curr) by lia. rewrite <- E'.
      replace (15 - root - curr) with (Z.succ (15 - root - (curr + 1))) by lia. rewrite Z.pow_succ_r by lia. ring.
Qed.
End Grow.

(** ** The main loop *)

(** the cells a call may use *)
Definition space (type : codetype) : Z :=
  match type with CODES => 128 | LENS => ENOUGH_LENS | DISTS => ENOUGH_DISTS end.
Lemma space_bound type : space type <= 852.
Proof. destruct type; cbn; unfold ENOUGH_LENS, ENOUGH_DISTS; lia. Qed.

(** the space check keeps the offsets within 16 bits *)
Lemma enough_bound type used : type <> CODES -> not_enough type used = false -> used <= space type.
Proof.
  unfold not_enough, space, ENOUGH_LENS, ENOUGH_DISTS. intros H E. destruct type; [done| |].
  - destruct (Z.gtb_spec used 852); [done|lia].
  - destruct (Z.gtb_spec used 592); [done|lia].
Qed.

Section Main.
Context (my : bool) (type : codetype) (lens : Z -> Z) (work : arr Z) (table root : Z) (mem0 : arr code) (tree0 : arr ct_data).
Context (ln ws : nat -> Z) (m : nat).
Context (Hln : forall k, (k < m)%nat -> 1 <= ln k <= 15).
Context (Hsort : forall i j, (i <= j < m)%nat -> ln i <= ln j).
Context (Hfit : first ln m <= 2 ^ 15).
Context (Hwork : forall k, (k < m)%nat -> aget 0 work (Z.of_nat k) = ws k /\ lens (ws k) = ln k).
Context (Hws : forall i j, (i < m)%nat -> (j < m)%nat -> ws i = ws j -> i = j).
Context (Hroot : 1 <= root <= 15) (Hsub : type = CODES -> forall k, (k < m)%nat -> ln k <= root).
Context (Hspace : 2 ^ root <= space type).
Abbreviation max := (ln (pred m)).
Abbreviation huff := (huff ln).
Abbreviation low := (low ln root).
Abbreviation begins := (begins ln).
Abbreviation T mem i := (aget code_zero mem (table + i)).

Definition entry (k : nat) (bits : Z) : code := table_entry type (ws k) bits.

Record placed_long (mem : arr code) (used : Z) (j : nat) : Prop := {
  pl_bits : cbits (T mem (low j)) = root;
  pl_op : ln j - root <= op (T mem (low j)) /\ root + op (T mem (low j)) <= 15;
  pl_val : 2 ^ root <= val (T mem (low j)) /\ val (T mem (low j)) + 2 ^ op (T mem (low j)) <= used;
  pl_entry : forall x, 0 <= x < 2 ^ op (T mem (low j)) -> begins j (low j + 2 ^ root * x) ->
             T mem (val (T mem (low j)) + x) = entry j (ln j - root) }.
(** the table decodes symbol [j], with the space below [used] *)
Definition placed (mem : arr code) (used : Z) (j : nat) : Prop :=
  if ln j <=? root then forall i, 0 <= i < 2 ^ root -> begins j i -> T mem i = entry j (ln j)
  else placed_long mem used j.

(** the codes of the symbols below [k] are in the tree, the others as before *)
Definition tree_of (k : nat) (tree : arr ct_data) : Prop :=
  (forall j, (j < k)%nat -> aget ct_zero tree (ws j) = mk_ct (huff j) (ln j))
  /\ (forall x, (forall j, (j < k)%nat -> ws j <> x) -> aget ct_zero tree x = aget ct_zero tree0 x).

(** the cells below the table and from [used] on are as before *)
Definition framed (used : Z) (mem : arr code) : Prop := forall i, i < 0 \/ used <= i -> T mem i = T mem0 i.

(** the sub-table being filled *)
Record level (k : nat) (s : tbl) : Prop := {
  lv_len : root < ln k;
  lv_drop : t_drop s = root;
  lv_low : t_low s = low k;
  lv_curr : ln k - root <= t_curr s /\ root + t_curr s <= 15;
  lv_link : T (t_mem s) (low k) = mk_code (t_curr s) root (t_next s - table);
  lv_next : 2 ^ root <= t_next s - table;
  lv_fits : forall j, (k <= j < m)%nat -> low j = low k -> ln j <= root + t_curr s;
  lv_old : forall j, (j < k)%nat -> root < ln j -> low j <> low k ->
    val (T (t_mem s) (low j)) + 2 ^ op (T (t_mem s) (low j)) <= t_next s - table }.
Record top (k : nat) (s : tbl) : Prop := {
  tp_len : ln k <= root;
  tp_drop : t_drop s = 0;
  tp_curr : t_curr s = root;
  tp_next : t_next s = table;
  tp_low : t_low s = u32 (-1) }.
Record inv (k : nat) (s : tbl) : Prop := {
  iv_sym : t_sym s = Z.of_nat k;
  iv_len : t_len s = ln k;
  iv_huff : t_huff s = huff k;
  iv_count : forall l, 1 <= l <= 15 -> aget 0 (t_count s) l = remaining ln m k l;
  iv_level : top k s \/ level k s;
  iv_used : t_next s - table + 2 ^ t_curr s = t_used s /\ 2 ^ root <= t_used s <= space type;
  iv_placed : forall j, (j < k)%nat -> placed (t_mem s) (t_used s) j;
  iv_frame : framed (t_used s) (t_mem s);
  iv_tree : my = true -> tree_of k (t_tree s) }.

(** the bits of a long code behind the first [root] *)
Lemma begins_rest k x : (k < m)%nat -> root < ln k -> 0 <= x ->
  begins k (low k + 2 ^ root * x) <-> x mod 2 ^ (ln k - root) = huff k / 2 ^ root.
Proof.
  intros Hk Hl Hx. pose proof (Hln k Hk). pose proof (huff_range ln m Hln Hsort Hfit k Hk) as R. unfold Codes.begins, Codes.low.
  pose proof (Z.div_mod (huff k) (2 ^ root) ltac:(lia)) as D. set (a := huff k mod 2 ^ root) in *.
  assert (Ha : 0 <= a < 2 ^ root) by (apply Z.mod_pos_bound; lia).
  replace (2 ^ ln k) with (2 ^ root * 2 ^ (ln k - root)) by (rewrite <- Z.pow_add_r by lia; f_equal; lia).
  rewrite Z.rem_mul_r by lia.
  replace ((a + 2 ^ root * x) mod 2 ^ root) with a by (rewrite (Z.mul_comm _ x), Z.mod_add, Z.mod_small by lia; done).
  replace ((a + 2 ^ root * x) / 2 ^ root) with x by (rewrite (Z.mul_comm _ x), Z.div_add, Z.div_small by lia; lia).
  split; intros E; [|nia]. assert (2 ^ root * (x mod 2 ^ (ln k - root)) = 2 ^ root * (huff k / 2 ^ root)) by lia. nia.
Qed.
Lemma rest_range k : (k < m)%nat -> root < ln k -> 0 <= huff k / 2 ^ root < 2 ^ (ln k - root).
Proof.
  intros Hk Hl. pose proof (Hln k Hk). pose proof (huff_range ln m Hln Hsort Hfit k Hk) as R.
  split; [apply Z.div_pos; lia|]. apply Z.div_lt_upper_bound; [lia|]. rewrite <- Z.pow_add_r by lia. replace (root + (ln k - root)) with (ln k) by lia. lia.
Qed.

(** *** Placing a code *)

Lemma place_top k s : (k < m)%nat -> inv k s -> top k s -> forall i,
  T (t_mem (place_code my type work s)) i
  = if (0 <=? i) && (i <? 2 ^ root) && (i mod 2 ^ ln k =? huff k) then entry k (ln k) else T (t_mem s) i.
Proof.
  intros Hk I [L Hd Hcu Hnx _] i. pose proof (Hln k Hk). pose proof (huff_range ln m Hln Hsort Hfit k Hk) as R.
  unfold place_code. cbn [t_mem set_field]. cbv zeta. rewrite (iv_sym _ _ I), (iv_len _ _ I), (iv_huff _ _ I), Hd, Hcu, Hnx.
  rewrite Z.sub_0_r, Z.shiftr_0_r, !Z.shiftl_1_l, fill_table, (proj1 (Hwork k Hk)) by lia. fold (entry k (ln k)).
  replace (table + i - table) with i by lia.
  destruct (Z.leb_spec table (table + i)), (Z.leb_spec 0 i); try lia; [|done].
  destruct (Z.ltb_spec (table + i) (table + 2 ^ root)), (Z.ltb_spec i (2 ^ root)); try lia; done.
Qed.
Lemma place_level k s : (k < m)%nat -> inv k s -> level k s -> forall i,
  T (t_mem (place_code my type work s)) i
  = if (t_next s - table <=? i) && (i <? t_used s) && ((i - (t_next s - table)) mod 2 ^ (ln k - root) =? huff k / 2 ^ root)
    then entry k (ln k - root) else T (t_mem s) i.
Proof.
  intros Hk I V i. pose proof (Hln k Hk). pose proof (rest_range k Hk (lv_len _ _ V)) as R. pose proof (lv_curr _ _ V). pose proof (lv_len _ _ V).
  unfold place_code. cbn [t_mem set_field]. cbv zeta. rewrite (iv_sym _ _ I), (iv_len _ _ I), (iv_huff _ _ I), (lv_drop _ _ V).
  rewrite Z.shiftr_div_pow2, !Z.shiftl_1_l, fill_table, (proj1 (Hwork k Hk)) by lia. fold (entry k (ln k - root)).
  replace (table + i - t_next s) with (i - (t_next s - table)) by lia. pose proof (proj1 (iv_used _ _ I)) as U.
  destruct (Z.leb_spec (t_next s) (table + i)), (Z.leb_spec (t_next s - table) i); try lia; [|done].
  destruct (Z.ltb_spec (table + i) (t_next s + 2 ^ t_curr s)), (Z.ltb_spec i (t_used s)); try lia; done.
Qed.

(** the first level of the long codes before *)
Lemma place_low k s : (k < m)%nat -> inv k s -> forall j, (j <= k)%nat -> root < ln j ->
  T (t_mem (place_code my type work s)) (low j) = T (t_mem s) (low j).
Proof.
  intros Hk I j Hj Hl. pose proof (Hsort j k ltac:(lia)). pose proof (low_range ln root ltac:(lia) j).
  destruct (iv_level _ _ I) as [V|V]; [destruct V; lia|]. pose proof (lv_next _ _ V). rewrite (place_level k s) by done.
  destruct (Z.leb_spec (t_next s - table) (low j)); [lia|done].
Qed.
Lemma place_framed k s : (k < m)%nat -> inv k s -> framed (t_used s) (t_mem (place_code my type work s)).
Proof.
  intros Hk I i Hi. pose proof (iv_used _ _ I) as U. rewrite <- (iv_frame _ _ I i Hi). destruct (iv_level _ _ I) as [V|V].
  - rewrite (place_top k s) by done. destruct (Z.leb_spec 0 i), (Z.ltb_spec i (2 ^ root)); try done. lia.
  - rewrite (place_level k s) by done. pose proof (lv_next _ _ V).
    destruct (Z.leb_spec (t_next s - table) i), (Z.ltb_spec i (t_used s)); try done. lia.
Qed.
Lemma place_placed k s : (k < m)%nat -> inv k s -> forall j, (j <= k)%nat ->
  placed (t_mem (place_code my type work s)) (t_used s) j.
Proof.
  intros Hk I j Hj. pose proof (Hsort j k ltac:(lia)) as Hs. pose proof (Hln j ltac:(lia)) as Hlj. pose proof (Hln k Hk).
  unfold placed. destruct (Z.leb_spec (ln j) root) as [L|L].
  - (* a short code *)
    intros i Hi B. destruct (decide (j = k)) as [->|N].
    + destruct (iv_level _ _ I) as [V|V]; [|destruct V; lia]. rewrite (place_top k s) by done.
      unfold Codes.begins in B. rewrite B, Z.eqb_refl. destruct (Z.leb_spec 0 i), (Z.ltb_spec i (2 ^ root)); done || lia.
    + pose proof (iv_placed _ _ I j ltac:(lia)) as P. unfold placed in P. destruct (Z.leb_spec (ln j) root); [|lia].
      destruct (iv_level _ _ I) as [V|V].
      * rewrite (place_top k s) by done. destruct (Z.eqb_spec (i mod 2 ^ ln k) (huff k)) as [Q|Q]; [|rewrite andb_false_r; by apply P].
        exfalso. apply N. by apply (begins_inj ln m Hln Hsort Hfit j k i); [lia|lia| |].
      * rewrite (place_level k s) by done. pose proof (lv_next _ _ V). destruct (Z.leb_spec (t_next s - table) i); [lia|]. by apply P.
  - destruct (iv_level _ _ I) as [V|V]; [destruct V; lia|]. pose proof (place_low k s Hk I j ltac:(lia) L) as El.
    destruct (decide (low j = low k)) as [E|E].
    + (* in the current sub-table *)
      pose proof (lv_link _ _ V) as K. pose proof (lv_curr _ _ V). pose proof (lv_next _ _ V). pose proof (iv_used _ _ I) as U.
      rewrite E in El. rewrite K in El.
      split; rewrite E, El; cbn [cbits op val]; [done|lia|lia|]. intros x Hx B.
      rewrite (place_level k s) by done. replace (t_next s - table + x - (t_next s - table)) with x by lia.
      destruct (Z.leb_spec (t_next s - table) (t_next s - table + x)), (Z.ltb_spec (t_next s - table + x) (t_used s)); try lia. cbn [andb].
      destruct (Z.eqb_spec (x mod 2 ^ (ln k - root)) (huff k / 2 ^ root)) as [Q|Q].
      * apply (begins_rest k x) in Q; [|lia..]. rewrite (begins_inj ln m Hln Hsort Hfit j k _ ltac:(lia) Hk B Q). done.
      * assert (N : j <> k). { intros ->. apply Q. apply (begins_rest k x) in B; [done|lia..]. }
        pose proof (iv_placed _ _ I j ltac:(lia)) as P. unfold placed in P. destruct (Z.leb_spec (ln j) root); [lia|].
        pose proof (pl_entry _ _ _ P) as P1. rewrite E, K in P1. cbn [op val] in P1. by apply P1.
    + (* in an earlier one *)
      assert (N : j <> k) by (by intros ->).
      pose proof (iv_placed _ _ I j ltac:(lia)) as P. unfold placed in P. destruct (Z.leb_spec (ln j) root); [lia|].
      destruct P as [P1 P2 P3 P4]. pose proof (lv_old _ _ V j ltac:(lia) L E) as O. split; rewrite El; [done|done|done|].
      intros x Hx B. rewrite (place_level k s) by done. destruct (Z.leb_spec (t_next s - table) (val (T (t_mem s) (low j)) + x)); [lia|]. by apply P4.
Qed.

(** *** Going on to the next code *)

(** the state between placing [k] and choosing the table of [S k] *)
Record mid (k : nat) (s : tbl) : Prop := {
  md_sym : t_sym s = Z.of_nat (S k);
  md_len : t_len s = ln (S k);
  md_huff : t_huff s = huff (S k);
  md_count : forall l, 1 <= l <= 15 -> aget 0 (t_count s) l = remaining ln m (S k) l;
  md_level : top k s \/ level k s;
  md_min : t_min s = 2 ^ t_curr s;
  md_used : t_next s - table + 2 ^ t_curr s = t_used s /\ 2 ^ root <= t_used s <= space type;
  md_placed : forall j, (j <= k)%nat -> placed (t_mem s) (t_used s) j;
  md_frame : framed (t_used s) (t_mem s);
  md_tree : my = true -> tree_of (S k) (t_tree s) }.

Lemma huff_next k : (k < m)%nat -> next_huff (huff k) (ln k) = huff (S k).
Proof.
  intros Hk. pose proof (Hln k Hk). destruct (huff_code ln m Hln Hsort Hfit k Hk) as [-> _].
  destruct (first_aligned ln m Hln Hsort Hfit k Hk) as (c & E & _). rewrite next_huff_spec by done.
  unfold Codes.huff. cbn [first]. unfold width. rewrite E, (Z.mul_comm _ c), Z.div_mul, (Z.mul_comm c) by lia.
  replace (2 ^ (15 - ln k) * c + 2 ^ (15 - ln k)) with (2 ^ (15 - ln k) * (c + 1)) by ring.
  replace (15 - ln k) with (Z.of_nat (Z.to_nat (15 - ln k))) by lia.
  replace 15%nat with (Z.to_nat (15 - ln k) + Z.to_nat (ln k))%nat at 1 by lia. symmetry. apply rev_shift.
Qed.
Lemma tree_next k s : (k < m)%nat -> inv k s -> my = true -> tree_of (S k) (t_tree (place_code my type work s)).
Proof.
  intros Hk I E. destruct (iv_tree _ _ I E) as [I1 I2]. unfold place_code, tree_of. cbn [t_tree set_field]. cbv zeta.
  rewrite E, (iv_sym _ _ I), (iv_len _ _ I), (iv_huff _ _ I), (proj1 (Hwork k Hk)).
  pose proof (huff_range ln m Hln Hsort Hfit k Hk). pose proof (Hln k Hk).
  assert (2 ^ ln k <= 2 ^ 15) by (apply Z.pow_le_mono_r; lia).
  split; intros j Hj; rewrite aget_aset.
  - destruct (Z.eqb_spec (ws k) (ws j)) as [Q|Q].
    + apply Hws in Q; [|lia..]. subst j. by rewrite !u16_small by lia.
    + apply I1. assert (j <> k) by (by intros ->). lia.
  - destruct (Z.eqb_spec (ws k) j) as [Q|Q]; [by apply Hj in Q; [|lia]|]. apply I2. intros i Hi. apply Hj. lia.
Qed.

(** the state a round has reached before it looks at the next length *)
Definition advanced (s : tbl) : tbl :=
  let s1 := place_code my type work s in
  s1 <| t_sym := t_sym s1 + 1 |> <| t_count := aset (t_count s1) (t_len s1) (u16 (aget 0 (t_count s1) (t_len s1) - 1)) |>.
Lemma advanced_count k s : (k < m)%nat -> Z.of_nat m < 65536 -> inv k s -> forall l, 1 <= l <= 15 ->
  aget 0 (t_count (advanced s)) l = remaining ln m (S k) l.
Proof.
  intros Hk Hm I l Hl. unfold advanced, place_code. cbn [t_count t_len set_field]. cbv zeta. pose proof (Hln k Hk).
  rewrite (iv_len _ _ I), aget_aset, !(iv_count _ _ I) by lia. rewrite !(remaining_S ln m k) by done.
  rewrite Z.eqb_refl. pose proof (count_from_bound ln (m - S k) (S k) (ln k)) as B. unfold remaining.
  destruct (Z.eqb_spec (ln k) l) as [<-|]; [|lia].
  rewrite u16_small; lia.
Qed.
Lemma advanced_mid k s : (S k < m)%nat -> Z.of_nat m < 65536 -> inv k s -> mid k (advanced s <| t_len := ln (S k) |>).
Proof.
  intros Hk Hm I. assert (Hk' : (k < m)%nat) by lia. pose proof (advanced_count k s Hk' Hm I) as Hcnt.
  pose proof (place_low k s Hk' I) as Hlow. pose proof (place_placed k s Hk' I) as Hpl. pose proof (tree_next k s Hk' I) as Htr.
  pose proof (place_framed k s Hk' I) as Hfr.
  assert (Hh : t_huff (place_code my type work s) = huff (S k)).
  { unfold place_code. cbn [t_huff set_field]. rewrite (iv_huff _ _ I), (iv_len _ _ I). by apply huff_next. }
  assert (Hmin : t_min (place_code my type work s) = 2 ^ t_curr s).
  { unfold place_code. cbn [t_min set_field]. by rewrite Z.shiftl_1_l. }
  split; cbn [t_sym t_len t_huff t_count t_min t_curr t_next t_used t_mem t_tree advanced set_field].
  - unfold place_code. cbn [t_sym set_field]. rewrite (iv_sym _ _ I). lia.
  - done.
  - exact Hh.
  - exact Hcnt.
  - destruct (iv_level _ _ I) as [V|V]; [left; by destruct V|right]. destruct V as [V1 V2 V3 V4 V5 V6 V7 V8].
    split; try done; cbn [t_mem t_next t_curr advanced set_field].
    + rewrite (Hlow k) by lia. exact V5.
    + intros j Hj Hl N. rewrite (Hlow j) by lia. by apply V8.
  - exact Hmin.
  - exact (iv_used _ _ I).
  - exact Hpl.
  - exact Hfr.
  - exact Htr.
Qed.

Lemma low_of_top k s : top k s -> forall j, low j <> t_low s.
Proof.
  intros V j. rewrite (tp_low _ _ V). pose proof (low_range ln root ltac:(lia) j). assert (2 ^ root <= 2 ^ 15) by (apply Z.pow_le_mono_r; lia).
  change (u32 (-1)) with (2 ^ 32 - 1). lia.
Qed.
(** the next code goes to the same table *)
Lemma mid_same k s : (S k < m)%nat -> mid k s -> (ln (S k) <= root \/ low (S k) = t_low s) -> inv (S k) s.
Proof.
  intros Hk D H. pose proof (Hsort k (S k) ltac:(lia)) as Hs. destruct D as [D1 D2 D3 D4 D5 D6 D7 D8 D9 D10].
  split; try done; [|intros j Hj; apply D8; lia].
  destruct D5 as [V|V].
  - left. destruct H as [H|H]; [by destruct V|]. by apply (low_of_top k s V) in H.
  - right. assert (E : low (S k) = low k) by (destruct H as [H|H]; [destruct V; lia|by rewrite H, (lv_low _ _ V)]).
    destruct V as [V1 V2 V3 V4 V5 V6 V7 V8]. pose proof (V7 (S k) ltac:(lia) E). split; rewrite ?E; try done; try lia.
    + intros j Hj. apply V7. lia.
    + intros j Hj Hl N. assert (j <> k) by (by intros ->). apply V8; [lia|done|done].
Qed.
Lemma low_huff k : huff k mod 2 ^ root = low k.
Proof. unfold Codes.low. reflexivity. Qed.
(** the table of [S k] starts where nothing has been placed *)
Lemma mid_new k s : (S k < m)%nat -> mid k s -> root < ln (S k) -> low (S k) <> t_low s ->
  (forall j, (j <= k)%nat -> root < ln j -> low j <> low (S k))
  /\ (2 ^ (15 - root) | first ln (S k)).
Proof.
  intros Hk D Hl N. destruct (md_level _ _ D) as [V|V].
  - split; [|apply (stem_new ln m Hln Hsort Hfit root ltac:(lia)); [done|left; apply V]].
    intros j Hj Hj'. pose proof (Hsort j k ltac:(lia)). destruct V; lia.
  - rewrite (lv_low _ _ V) in N. rewrite (low_inj ln m Hln Hfit root ltac:(lia)) in N by lia.
    split; [|apply (stem_new ln m Hln Hsort Hfit root ltac:(lia)); [done|right; congruence]].
    intros j Hj Hj'. rewrite (low_inj ln m Hln Hfit root ltac:(lia)) by lia.
    pose proof (stem_le ln m Hln root ltac:(lia) j k ltac:(lia)). pose proof (stem_le ln m Hln root ltac:(lia) k (S k) ltac:(lia)). lia.
Qed.
(** what has been placed survives the new link *)
Lemma link_placed k s h used : (S k < m)%nat -> mid k s -> root < ln (S k) -> low (S k) <> t_low s -> t_used s <= used ->
  forall j, (j <= k)%nat -> placed (aset (t_mem s) (table + low (S k)) h) used j.
Proof.
  intros Hk D Hl N Hu j Hj. destruct (mid_new k s Hk D Hl N) as [Hnew _]. pose proof (md_placed _ _ D j Hj) as P.
  pose proof (low_range ln root ltac:(lia) (S k)) as R. unfold placed in *. destruct (Z.leb_spec (ln j) root) as [L|L].
  - intros i Hi B. rewrite aget_aset_ne; [by apply P|]. intros Q. assert (i = low (S k)) as -> by lia.
    by apply (short_low ln m Hln Hsort Hfit root ltac:(lia) j (S k) ltac:(lia) L).
  - pose proof (Hnew j Hj L) as Q. destruct P as [P1 P2 P3 P4].
    assert (E : T (aset (t_mem s) (table + low (S k)) h) (low j) = T (t_mem s) (low j)) by (apply aget_aset_ne; lia).
    split; rewrite E; [done|done|lia|]. intros x Hx B. rewrite aget_aset_ne by lia. by apply P4.
Qed.

Lemma sub_table_spec k s : (S k < m)%nat -> mid k s -> root < ln (S k) -> low (S k) <> t_low s ->
  (exists s', sub_table type table root max (2 ^ root - 1) s = inl s' /\ inv (S k) s')
  \/ (sub_table type table root max (2 ^ root - 1) s = inr s).
Proof.
  intros Hk D Hl N. destruct (mid_new k s Hk D Hl N) as [Hnew Hdiv]. pose proof (link_placed k s) as Hlink.
  pose proof (Hln (S k) Hk) as Hlk. pose proof (Hsort (S k) (pred m) ltac:(lia)) as Hmax. pose proof (Hln (pred m) ltac:(lia)) as Hmax'.
  unfold sub_table. cbv zeta. rewrite (md_len _ _ D), (md_huff _ _ D).
  replace (if t_drop s =? 0 then root else t_drop s) with root.
  2: { destruct (md_level _ _ D) as [V|V]; [by rewrite (tp_drop _ _ V)|rewrite (lv_drop _ _ V); destruct (Z.eqb_spec root 0); lia]. }
  set (c := grow_curr _ _ _ _ _ _).
  assert (Hc : ln (S k) - root <= c /\ root + c <= max /\ (root + c = max \/ 2 ^ (15 - root) <= mass ln m (S k) (root + c))).
  { apply (grow_curr_spec ln m root ltac:(lia)); [apply D|lia..|]. rewrite Z.shiftl_1_l, <- Z.pow_add_r by lia.
    rewrite (mass_zero ln m Hsort), Z.sub_0_r by lia. f_equal. lia. }
  destruct Hc as (C1 & C2 & C3). clearbody c. rewrite Z.shiftl_1_l.
  assert (Hc15 : 0 <= c <= 15) by lia. assert (Hp : 0 < 2 ^ c <= 2 ^ 15) by (split; [lia|apply Z.pow_le_mono_r; lia]).
  destruct (not_enough type (t_used s + 2 ^ c)) eqn:En; [by right|left]. eexists. split; [reflexivity|].
  rewrite land_ones_mod, low_huff by lia.
  assert (Hty : type <> CODES) by (intros Q; pose proof (Hsub Q (S k) Hk); lia).
  pose proof (enough_bound type _ Hty En) as Hen. pose proof (space_bound type). pose proof (md_used _ _ D) as [U1 U2]. rewrite (md_min _ _ D).
  replace (t_next s + 2 ^ t_curr s - table) with (t_used s) by lia.
  rewrite (u16_small (t_used s)), (u8_small c), (u8_small root) by lia.
  split; cbn [t_sym t_len t_huff t_count t_next t_used t_mem t_tree t_drop t_curr t_low set_field].
  - apply D.
  - apply D.
  - apply D.
  - apply D.
  - right. split; cbn [t_drop t_low t_curr t_mem t_next set_field].
    + done.
    + done.
    + done.
    + lia.
    + replace (t_next s + 2 ^ t_curr s - table) with (t_used s) by lia. apply aget_aset_eq.
    + lia.
    + intros j Hj E. rewrite (low_inj ln m Hln Hfit root ltac:(lia)) in E by lia. destruct C3 as [C3|C3].
      * rewrite C3. apply Hsort. lia.
      * apply (mass_full ln m Hln Hsort root ltac:(lia) (S k) j); [lia| |done|done]. by apply stem_first; [lia|].
    + intros j Hj L Q. rewrite aget_aset_ne by lia. replace (t_next s + 2 ^ t_curr s - table) with (t_used s) by lia.
      pose proof (md_placed _ _ D j ltac:(lia)) as P. unfold placed in P. destruct (Z.leb_spec (ln j) root); [lia|]. apply (pl_val _ _ _ P).
  - lia.
  - intros j Hj. apply Hlink; [done|done|done|done|lia|lia].
  - intros i Hi. pose proof (low_range ln root ltac:(lia) (S k)). rewrite aget_aset_ne by lia. apply (md_frame _ _ D). lia.
  - exact (md_tree _ _ D).
Qed.

(** the state behind the last code *)
Record complete (s : tbl) : Prop := {
  cm_len : t_len s = max;
  cm_huff : t_huff s = huff m;
  cm_level : top (pred m) s \/ level (pred m) s;
  cm_used : t_next s - table + 2 ^ t_curr s = t_used s /\ 2 ^ root <= t_used s <= space type;
  cm_placed : forall j, (j < m)%nat -> placed (t_mem s) (t_used s) j;
  cm_frame : framed (t_used s) (t_mem s);
  cm_tree : my = true -> tree_of m (t_tree s) }.

Abbreviation step := (table_step my type lens work table root max (2 ^ root - 1)).
Lemma table_step_eq s (s1 := advanced s) : step s =
  let c := aget 0 (t_count s1) (t_len s) in
  if (c =? 0) && (t_len s =? max) then inr (true, s1)
  else let s2 := if c =? 0 then s1 <| t_len := lens (aget 0 work (t_sym s1)) |> else s1 in
  if (t_len s2 >? root) && negb (Z.land (t_huff s2) (2 ^ root - 1) =? t_low s2) then
    match sub_table type table root max (2 ^ root - 1) s2 with inl s => inl s | inr s => inr (false, s) end
  else inl s2.
Proof. unfold s1, advanced, table_step. cbv zeta. cbn [t_count t_len set_field]. rewrite aget_aset_eq. reflexivity. Qed.

(** the loop's test for a new sub-table *)
Lemma choose_spec k s : (S k < m)%nat -> mid k s ->
  let r := if (t_len s >? root) && negb (Z.land (t_huff s) (2 ^ root - 1) =? t_low s)
           then match sub_table type table root max (2 ^ root - 1) s with inl s => inl s | inr s => inr (false, s) end
           else inl s in
  (exists s', r = inl s' /\ inv (S k) s') \/ (exists s', r = inr (false, s') /\ type <> CODES /\ framed (space type) (t_mem s')).
Proof.
  intros Hk D. cbv zeta. rewrite land_ones_mod, (md_huff _ _ D), low_huff, (md_len _ _ D) by lia.
  destruct (Z.gtb_spec (ln (S k)) root) as [L|L]; cbn [andb].
  - destruct (Z.eqb_spec (low (S k)) (t_low s)) as [E|E]; cbn [negb].
    + left. exists s. split; [done|]. apply (mid_same k s Hk D). by right.
    + destruct (sub_table_spec k s Hk D ltac:(lia) E) as [(s' & E' & I)|E']; rewrite E'; [left; by exists s'|right]. exists s. split; [done|].
      split; [intros Q; pose proof (Hsub Q (S k) Hk); lia|]. intros i Hi. apply (md_frame _ _ D). pose proof (md_used _ _ D). lia.
  - left. exists s. split; [done|]. apply (mid_same k s Hk D). left. lia.
Qed.
Lemma set_len_same s : s <| t_len := t_len s |> = s.
Proof. by destruct s. Qed.
Lemma advanced_len s : t_len (advanced s) = t_len s /\ t_sym (advanced s) = t_sym s + 1.
Proof. done. Qed.
Lemma table_step_next k s : (S k < m)%nat -> Z.of_nat m < 65536 -> inv k s ->
  (exists s', step s = inl s' /\ inv (S k) s') \/ (exists s', step s = inr (false, s') /\ type <> CODES /\ framed (space type) (t_mem s')).
Proof.
  intros Hk Hm I. pose proof (advanced_mid k s Hk Hm I) as D. pose proof (Hln k ltac:(lia)).
  pose proof (advanced_count k s ltac:(lia) Hm I (ln k) ltac:(lia)) as C.
  pose proof (remaining_next ln m Hsort k Hk) as Hrem. pose proof (Hsort (S k) (pred m) ltac:(lia)). pose proof (Hsort k (S k) ltac:(lia)).
  rewrite table_step_eq. cbv zeta. rewrite (iv_len _ _ I), C. destruct (advanced_len s) as [El Es].
  destruct (Hwork (S k) Hk) as [Ew El'].
  destruct (Z.eqb_spec (remaining ln m (S k) (ln k)) 0) as [E|E]; cbn [andb].
  - apply Hrem in E. destruct (Z.eqb_spec (ln k) max); [lia|].
    rewrite Es, (iv_sym _ _ I). replace (Z.of_nat k + 1) with (Z.of_nat (S k)) by lia. rewrite Ew, El'.
    exact (choose_spec k _ Hk D).
  - assert (Eq : ln (S k) = ln k) by (destruct (Z.eq_dec (ln (S k)) (ln k)); [done|tauto]).
    rewrite Eq, <- (iv_len _ _ I), <- El, set_len_same in D. exact (choose_spec k _ Hk D).
Qed.
Lemma table_step_last s : (0 < m)%nat -> Z.of_nat m < 65536 -> inv (pred m) s -> exists s', step s = inr (true, s') /\ complete s'.
Proof.
  intros Hk Hm I. assert (Hk' : (pred m < m)%nat) by lia. pose proof (Hln (pred m) Hk').
  pose proof (advanced_count _ s Hk' Hm I (ln (pred m)) ltac:(lia)) as C. rewrite (Nat.succ_pred m), remaining_last in C by lia.
  rewrite table_step_eq. cbv zeta. rewrite (iv_len _ _ I), C, !Z.eqb_refl. cbn [andb]. eexists. split; [reflexivity|].
  pose proof (place_low _ s Hk' I) as Hlow. pose proof (place_placed _ s Hk' I) as Hpl. pose proof (tree_next _ s Hk' I) as Htr.
  assert (Hh : t_huff (place_code my type work s) = huff m).
  { unfold place_code. cbn [t_huff set_field]. rewrite (iv_huff _ _ I), (iv_len _ _ I), huff_next by done. by rewrite Nat.succ_pred by lia. }
  split; cbn [t_len t_huff t_next t_curr t_used t_mem t_tree advanced set_field].
  - exact (iv_len _ _ I).
  - exact Hh.
  - destruct (iv_level _ _ I) as [V|V]; [left; by destruct V|right]. destruct V as [V1 V2 V3 V4 V5 V6 V7 V8].
    split; try done; cbn [t_mem t_next t_curr advanced set_field].
    + rewrite (Hlow (pred m)) by lia. exact V5.
    + intros j Hj Hl N. rewrite (Hlow j) by lia. by apply V8.
  - exact (iv_used _ _ I).
  - intros j Hj. apply Hpl. lia.
  - exact (place_framed _ s Hk' I).
  - intros E. specialize (Htr E). by rewrite Nat.succ_pred in Htr by lia.
Qed.
(** the loop ends, with the table complete or with the space used up *)
Lemma main_loop_spec d k s fuel : (k + d = pred m)%nat -> (d < fuel)%nat -> (0 < m)%nat -> Z.of_nat m < 65536 -> inv k s ->
  exists b s', loop step fuel s = Some (b, s') /\ (if b : bool then complete s' else type <> CODES /\ framed (space type) (t_mem s')).
Proof.
  revert k s fuel. induction d as [|d IH]; intros k s fuel Hd Hf Hm Hm' I; (destruct fuel as [|fuel]; [lia|]); cbn [loop].
  - rewrite Nat.add_0_r in Hd. subst k. destruct (table_step_last s Hm Hm' I) as (s' & -> & C). by exists true, s'.
  - destruct (table_step_next k s ltac:(lia) Hm' I) as [(s' & -> & I')|(s' & -> & F)]; [|by exists false, s'].
    apply (IH (S k)); [lia|lia|lia|done|done].
Qed.
Lemma inv_start count used :
  (0 < m)%nat -> ln 0%nat <= root -> used = 2 ^ root ->
  (forall l, 1 <= l <= 15 -> aget 0 count l = remaining ln m 0 l) ->
  inv 0 (mk_tbl 0 0 (ln 0%nat) table root 0 (u32 (-1)) used (ln 0%nat) count mem0 tree0).
Proof.
  intros Hm Hr -> Hc. assert (2 ^ root <= 2 ^ 15) by (apply Z.pow_le_mono_r; lia).
  split; cbn [t_sym t_len t_huff t_count t_next t_curr t_used t_mem t_tree]; try done; try lia.
  - left. by split.
  - intros _. split; [intros j Hj; lia|done].
Qed.

End Main.

(** ** Entries *)

(** no entry of a symbol looks like a link to a sub-table *)
Definition no_link (e : Z) : bool := negb ((1 <=? u8 e) && (u8 e <=? 15)).
Lemma tget_no_link l i : forallb no_link (0 :: l) = true -> ~ (1 <= u8 (tget 0 l i) <= 15).
Proof.
  rewrite forallb_forall. intros H. assert (A : no_link (tget 0 l i) = true).
  { unfold tget. destruct (i <? 0); [apply H; by left|].
    destruct (nth_in_or_default (Z.to_nat i) l 0) as [I | ->]; [apply H; by right|apply H; by left]. }
  unfold no_link in A. destruct (Z.leb_spec 1 (u8 (tget 0 l i))), (Z.leb_spec (u8 (tget 0 l i)) 15); (done || lia).
Qed.
Lemma table_entry_op type s bits : ~ (1 <= op (table_entry type s bits) <= 15).
Proof.
  unfold table_entry. cbv zeta. destruct (_ <? _); [cbn [op]; lia|]. destruct (_ >=? _); [|cbn [op]; lia].
  cbn [op]. unfold table_extra. destruct type; [rewrite u8_small by lia; lia|by apply tget_no_link|by apply tget_no_link].
Qed.
Lemma table_entry_bits type s bits : 0 <= bits <= 15 -> cbits (table_entry type s bits) = bits.
Proof. intros H. unfold table_entry. cbv zeta. destruct (_ <? _); [|destruct (_ >=? _)]; cbn [cbits]; apply u8_small; lia. Qed.
Lemma table_entry_set type s b b' : 0 <= b' <= 15 -> table_entry type s b <| cbits := b' |> = table_entry type s b'.
Proof.
  intros H. unfold table_entry. cbv zeta. destruct (_ <? _); [|destruct (_ >=? _)]; cbn [set_field op val cbits]; by rewrite (u8_small b') by lia.
Qed.
