(* ===== verification/Zlib.v ===== *)
(** * Shared zlib definitions (partial/libz_j/zfunc.h, zutil.h, zutil.c)

    Return codes, flush values, the stream record [z_stream], the error
    messages and the byte-copy helpers. *)
From Stdlib Require Import String.
From S2P Require Import Prelude.
#[local] Open Scope string_scope.
#[local] Open Scope Z_scope.

Definition Z_NO_FLUSH : Z := 0.
Definition Z_PARTIAL_FLUSH : Z := 1.
Definition Z_SYNC_FLUSH : Z := 2.
Definition Z_FULL_FLUSH : Z := 3.
Definition Z_FINISH : Z := 4.
Definition Z_BLOCK : Z := 5.
Definition Z_TREES : Z := 6.

Definition Z_OK : Z := 0.
Definition Z_STREAM_END : Z := 1.
Definition Z_NEED_DICT : Z := 2.
Definition Z_ERRNO : Z := -1.
Definition Z_STREAM_ERROR : Z := -2.
Definition Z_DATA_ERROR : Z := -3.
Definition Z_MEM_ERROR : Z := -4.
Definition Z_BUF_ERROR : Z := -5.
Definition Z_VERSION_ERROR : Z := -6.

Definition Z_FIXED : Z := 4.
Definition Z_UNKNOWN : Z := 2.
Definition Z_DEFLATED : Z := 8.
Definition Z_DEFAULT_COMPRESSION : Z := -1.
Definition Z_DEFAULT_STRATEGY : Z := 0.
Definition MAX_WBITS : Z := 15.
Definition DEF_WBITS : Z := MAX_WBITS.
Definition MAX_MEM_LEVEL : Z := 9.
Definition DEF_MEM_LEVEL : Z := 8.
Definition MIN_MATCH : Z := 3.
Definition MAX_MATCH : Z := 258.

(** ** zutil.c *)

Definition z_errmsg : list string :=
  ["need dictionary"; "stream end"; ""; "file error"; "stream error"; "data error";
   "insufficient memory"; "buffer error"; "incompatible version"; ""].
(** [ERR_MSG(err) = z_errmsg[Z_NEED_DICT-(err)]] *)
Definition ERR_MSG (err : Z) : string := tget "" z_errmsg (Z_NEED_DICT - err).
Definition zError (err : Z) : string := ERR_MSG err.

(** [*dest++ = *source++] for [len] bytes, [dest] and [source] being offsets
    into the same memory; the order of the byte copies is the code's *)
Fixpoint zmemcpy (mem : arr Z) (dest source : Z) (len : nat) : arr Z :=
  match len with
  | O => mem
  | S len => zmemcpy (aset mem dest (aget 0 mem source)) (dest + 1) (source + 1) len
  end.
Fixpoint zmemcmp (s1 s2 : list Z) (len : nat) : Z :=
  match len, s1, s2 with
  | S len, x :: s1, y :: s2 =>
      if x =? y then zmemcmp s1 s2 len else if x >? y then 1 else -1
  | _, _, _ => 0
  end.
Fixpoint zmemzero (mem : arr Z) (dest : Z) (len : nat) : arr Z :=
  match len with
  | O => mem
  | S len => zmemzero (aset mem dest 0) (dest + 1) len
  end.
(** the size [zcalloc] asks [malloc] for: an unsigned product, [sizeof(uInt) > 2] *)
Definition zcalloc_size (items size : Z) : Z := u32 (items * size).

(** [zlibCompileFlags]: the code of a C type's size, and the word for LP64
    (sizeof uInt = 4, uLong = voidpf = z_off_t = 8) *)
Definition size_code (size : Z) : Z :=
  if size =? 2 then 0 else if size =? 4 then 1 else if size =? 8 then 2 else 3.
Definition zlibCompileFlags (uint ulong voidpf z_off_t : Z) : Z :=
  size_code uint + Z.shiftl (size_code ulong) 2 + Z.shiftl (size_code voidpf) 4
  + Z.shiftl (size_code z_off_t) 6.

(** ** [z_stream]

    [next_in] is the list of the [avail_in] bytes at [next_in]; [next_out] is
    the list of the bytes written since the caller last set [next_out].  The
    pointers themselves appear as null flags, [zs_addr] is the address of the
    record, which the internal states point back to. *)
Record z_stream := mk_stream {
  next_in : list Z; total_in : Z;
  next_out : list Z; avail_out : Z; total_out : Z;
  msg : option string; data_type : Z; adler : Z;
  next_in_null : bool; next_out_null : bool;
  zalloc_set : bool; zfree_set : bool; zs_addr : Z }.
#[export] Instance eta_z_stream : Settable z_stream := fun r =>
  mk_stream (next_in r) (total_in r) (next_out r) (avail_out r) (total_out r)
    (msg r) (data_type r) (adler r) (next_in_null r) (next_out_null r)
    (zalloc_set r) (zfree_set r) (zs_addr r).
Definition avail_in (s : z_stream) : Z := Z.of_nat (length (next_in s)).

(** [ERR_RETURN(strm, err)] *)
Definition ERR_RETURN (s : z_stream) (err : Z) : z_stream := s <| msg := Some (ERR_MSG err) |>.

(** ** Properties *)

(** every documented return code has its message, and no message is out of the table *)
Lemma zError_in_table err : Z_VERSION_ERROR <= err <= Z_NEED_DICT -> In (zError err) z_errmsg.
Proof.
  unfold zError, ERR_MSG, Z_VERSION_ERROR, Z_NEED_DICT, tget. intros H.
  destruct (Z.ltb_spec (2 - err) 0); [lia|].
  apply nth_In. cbn. lia.
Qed.

(** outside the destination nothing changes *)
Lemma zmemcpy_out (mem : arr Z) dest source len i :
  i < dest \/ dest + Z.of_nat len <= i -> aget 0 (zmemcpy mem dest source len) i = aget 0 mem i.
Proof.
  revert mem dest source. induction len as [|len IH]; intros m dest source H; [done|].
  cbn [zmemcpy]. rewrite IH by lia. apply aget_aset_ne. lia.
Qed.
(** a forward copy towards lower addresses is right even when the ranges overlap *)
Lemma zmemcpy_forward (mem : arr Z) dest source len :
  dest <= source ->
  aread 0 (zmemcpy mem dest source len) dest len = aread 0 mem source len.
Proof.
  revert mem dest source. induction len as [|len IH]; intros m dest source H; [done|].
  cbn [zmemcpy]. rewrite !aread_cons, IH by lia. f_equal.
  - rewrite zmemcpy_out by lia. apply aget_aset_eq.
  - apply aread_aset_out. lia.
Qed.
Lemma zmemcpy_out_read (mem : arr Z) dest source len off n :
  off + Z.of_nat n <= dest \/ dest + Z.of_nat len <= off ->
  aread 0 (zmemcpy mem dest source len) off n = aread 0 mem off n.
Proof.
  intros H. apply aread_ext. intros i Hi. apply zmemcpy_out. clear mem. lia.
Qed.
