(* ===== verification/DeflateState.v ===== *)
(** * The deflate state (partial/libz_j/deflate.h)

    [deflate_state] with the fields the re-encoder uses, the modes of its state
    machine and the buffer macros.  Pointers into the state's own arrays are
    offsets: [pending_out] and [sym_buf] into [pending_buf], [lencode],
    [distcode] and [next] into [codes].  In particular [sym_buf] is a window of
    [pending_buf], as in the code. *)
From S2P Require Import Prelude DeflateTables.

Definition INIT_STATE : Z := 42.
Definition EXTRA_STATE : Z := 69.
Definition NAME_STATE : Z := 73.
Definition COMMENT_STATE : Z := 91.
Definition HCRC_STATE : Z := 103.
Definition BUSY_STATE : Z := 113.
Definition FINISH_STATE : Z := 666.

Module DM.
Inductive deflate_mode :=
| HEAD | FLAGS | TIME | OS | EXLEN | EXTRA | NAME | COMMENT | HCRC | DICTID | DICT
| TYPE | TYPEDO | STORED | COPY_ | COPY | TABLE | LENLENS | CODELENS
| LEN_ | LEN | INS0 | INS1 | INS2 | LENEXT | DIST | DISTEXT | MATCH | LIT
| CHECK | LENGTH | DONE | SENDINS | BAD | MEM | ENDOFBLOCK | SKPI_HEADER_END | SYNC.
End DM.
#[export] Instance deflate_mode_eq_dec : EqDecision DM.deflate_mode.
Proof. solve_decision. Defined.

Inductive tree_type := STORE | FIXED | DYNAMIC.

(** The descriptors [l_desc] and [d_desc] are reduced to their [max_code]; the unused LZ77
    window, hash chains and heap have only the sizes the initialisation computes. *)
Record deflate_state := mk_ds {
  ds_strm : Z; status : Z; pending_buf : arr Z; pending_buf_size : Z; pending_out : Z;
  pending : Z; wrap : Z; gzhead : Z; method : Z; last_flush : Z; w_size : Z; w_bits : Z;
  w_mask : Z; hash_size : Z; hash_bits : Z; hash_mask : Z; hash_shift : Z; level : Z;
  strategy : Z; dyn_ltree : arr ct_data; dyn_dtree : arr ct_data; bl_tree : arr ct_data;
  l_max_code : Z; d_max_code : Z; sym_buf : Z; lit_bufsize : Z; sym_next : Z; sym_end : Z;
  opt_len : Z; static_len : Z; matches : Z; bi_buf : Z; bi_valid : Z; high_water : Z;
  last_ : Z; ttype : tree_type; ncode : Z; nlen : Z; ndist : Z; have : Z; lencode : Z;
  distcode : Z; lenbits : Z; distbits : Z; next : Z; codes : arr code; length_ : Z;
  offset : Z; hold : Z; bits : Z; lens : arr Z; work : arr Z; mode : DM.deflate_mode }.
#[export] Instance eta_deflate_state : Settable deflate_state := fun r =>
  mk_ds (ds_strm r) (status r) (pending_buf r) (pending_buf_size r) (pending_out r)
    (pending r) (wrap r) (gzhead r) (method r) (last_flush r) (w_size r) (w_bits r) (w_mask r)
    (hash_size r) (hash_bits r) (hash_mask r) (hash_shift r) (level r) (strategy r)
    (dyn_ltree r) (dyn_dtree r) (bl_tree r) (l_max_code r) (d_max_code r) (sym_buf r)
    (lit_bufsize r) (sym_next r) (sym_end r) (opt_len r) (static_len r) (matches r) (bi_buf r)
    (bi_valid r) (high_water r) (last_ r) (ttype r) (ncode r) (nlen r) (ndist r) (have r)
    (lencode r) (distcode r) (lenbits r) (distbits r) (next r) (codes r) (length_ r)
    (offset r) (hold r) (bits r) (lens r) (work r) (mode r).

(** [d_code], [put_byte] and the tally macros *)
Definition put_byte (s : deflate_state) (c : Z) : deflate_state :=
  s <| pending_buf := aset (pending_buf s) (pending s) (u8 c) |> <| pending := pending s + 1 |>.
(** [s->sym_buf[i]] *)
Definition sym_get (s : deflate_state) (i : Z) : Z := aget 0 (pending_buf s) (sym_buf s + i).
(** [s->sym_buf[s->sym_next++] = c] *)
Definition sym_put (s : deflate_state) (c : Z) : deflate_state :=
  s <| pending_buf := aset (pending_buf s) (sym_buf s + sym_next s) (u8 c) |>
    <| sym_next := u32 (sym_next s + 1) |>.
(** [_tr_tally_lit_my] and [_tr_tally_dist_my]; the flag is [flush] *)
Definition tr_tally_lit_my (s : deflate_state) (c : Z) : deflate_state * bool :=
  let s := sym_put (sym_put (sym_put s 0) 0) c in (s, sym_next s =? sym_end s).
Definition tr_tally_dist_my (s : deflate_state) (distance length : Z) : deflate_state * bool :=
  let len := u8 length in
  let dist := u16 distance in
  let s := sym_put (sym_put (sym_put s dist) (Z.shiftr dist 8)) len in
  (s, sym_next s =? sym_end s).
