(* ===== verification/Trees.v ===== *)
(** * Bit output and block encoding (partial/libz_j/trees.c)

    The bit buffer, the block encoders and the re-encoding of the Huffman
    trees.  [out_bits] reads a state's output as one bit string; every routine
    is shown to append a given bit string to it. *)
From S2P Require Import Prelude DeflateTables Zlib DeflateState.

(** ** The code *)

Definition put_short (s : deflate_state) (w : Z) : deflate_state :=
  put_byte (put_byte s (Z.land w 255)) (Z.shiftr (u16 w) 8).

Definition send_bits (s : deflate_state) (value len : Z) : deflate_state :=
  if bi_valid s >? Buf_size - len then
    let val := value in
    let s := s <| bi_buf := u16 (Z.lor (bi_buf s) (Z.shiftl (u16 val) (bi_valid s))) |> in
    let s := put_short s (bi_buf s) in
    let s := s <| bi_buf := u16 (Z.shiftr (u16 val) (Buf_size - bi_valid s)) |> in
    s <| bi_valid := bi_valid s + (len - Buf_size) |>
  else
    let s := s <| bi_buf := u16 (Z.lor (bi_buf s) (Z.shiftl (u16 value) (bi_valid s))) |> in
    s <| bi_valid := bi_valid s + len |>.

Definition send_code (s : deflate_state) (c : Z) (tree : Z -> ct_data) : deflate_state :=
  send_bits s (fc (tree c)) (dl (tree c)).

Definition bi_flush (s : deflate_state) : deflate_state :=
  if bi_valid s =? 16 then
    let s := put_short s (bi_buf s) in
    s <| bi_buf := 0 |> <| bi_valid := 0 |>
  else if bi_valid s >=? 8 then
    let s := put_byte s (bi_buf s) in
    s <| bi_buf := Z.shiftr (bi_buf s) 8 |> <| bi_valid := bi_valid s - 8 |>
  else s.
Definition j_tr_flush_bits := bi_flush.

Definition bi_windup (s : deflate_state) : deflate_state :=
  let s := if bi_valid s >? 8 then put_short s (bi_buf s)
           else if bi_valid s >? 0 then put_byte s (bi_buf s) else s in
  s <| bi_buf := 0 |> <| bi_valid := 0 |>.

(** [for (n = 0; n < ...; n++) tree[n].Freq = 0] *)
Definition clear_freq (n : Z) (tree : arr ct_data) : arr ct_data :=
  foldl (fun tree i => aset tree (Z.of_nat i)
           (aget ct_zero tree (Z.of_nat i) <| fc := 0 |>)) tree (seq 0 (Z.to_nat n)).
Definition init_block (s : deflate_state) : deflate_state :=
  let s := s <| dyn_ltree := clear_freq L_CODES (dyn_ltree s) |> in
  let s := s <| dyn_dtree := clear_freq D_CODES (dyn_dtree s) |> in
  let s := s <| bl_tree := clear_freq BL_CODES (bl_tree s) |> in
  let s := s <| dyn_ltree := aset (dyn_ltree s) END_BLOCK
                (aget ct_zero (dyn_ltree s) END_BLOCK <| fc := 1 |>) |> in
  s <| opt_len := 0 |> <| static_len := 0 |> <| sym_next := 0 |> <| matches := 0 |>.

Definition j_tr_init (s : deflate_state) : deflate_state :=
  init_block (s <| bi_buf := 0 |> <| bi_valid := 0 |>).

(** the loop variables of [send_tree] *)
Record st_loop := mk_stl {
  st_s : deflate_state; st_prevlen : Z; st_nextlen : Z; st_count : Z; st_max : Z; st_min : Z }.

(** [do { send_code(s, curlen, s->bl_tree); } while (--count != 0)] *)
Fixpoint send_repeat (n : nat) (s : deflate_state) (curlen : Z) : deflate_state :=
  match n with
  | O => s
  | S n => send_repeat n (send_code s curlen (aget ct_zero (bl_tree s))) curlen
  end.
Definition send_tree_step (tree : Z -> ct_data) (v : st_loop) (n : Z) : st_loop :=
  let s := st_s v in
  let curlen := st_nextlen v in
  let nextlen := dl (tree (n + 1)) in
  let count := st_count v + 1 in
  let bl := aget ct_zero (bl_tree s) in
  if (count <? st_max v) && (curlen =? nextlen) then
    mk_stl s (st_prevlen v) nextlen count (st_max v) (st_min v)
  else
    let s :=
      if count <? st_min v then send_repeat (Z.to_nat count) s curlen
      else if negb (curlen =? 0) then
        let '(s, count) := if negb (curlen =? st_prevlen v)
                           then (send_code s curlen bl, count - 1) else (s, count) in
        send_bits (send_code s REP_3_6 bl) (count - 3) 2
      else if count <=? 10 then send_bits (send_code s REPZ_3_10 bl) (count - 3) 3
      else send_bits (send_code s REPZ_11_138 bl) (count - 11) 7 in
    let '(mx, mn) := if nextlen =? 0 then (138, 3)
                     else if curlen =? nextlen then (6, 3) else (7, 4) in
    mk_stl s curlen nextlen 0 mx mn.
Definition send_tree (s : deflate_state) (tree : Z -> ct_data) (max_code : Z) : deflate_state :=
  let nextlen := dl (tree 0) in
  let '(mx, mn) := if nextlen =? 0 then (138, 3) else (7, 4) in
  st_s (foldl (fun v n => send_tree_step tree v (Z.of_nat n))
              (mk_stl s (-1) nextlen 0 mx mn) (seq 0 (Z.to_nat (max_code + 1)))).

Definition send_all_trees (s : deflate_state) (lcodes dcodes blcodes : Z) : deflate_state :=
  let s := send_bits s (lcodes - 257) 5 in
  let s := send_bits s (dcodes - 1) 5 in
  let s := send_bits s (blcodes - 4) 4 in
  let s := foldl (fun s rank =>
             send_bits s (dl (aget ct_zero (bl_tree s) (tget 0 bl_order (Z.of_nat rank)))) 3)
             s (seq 0 (Z.to_nat blcodes)) in
  let s := send_tree s (aget ct_zero (dyn_ltree s)) (lcodes - 1) in
  send_tree s (aget ct_zero (dyn_dtree s)) (dcodes - 1).

Definition j_tr_stored_block (s : deflate_state) (buf stored_len last : Z) : deflate_state :=
  let s := send_bits s (Z.shiftl STORED_BLOCK 1 + last) 3 in
  let s := bi_windup s in
  let s := put_short s (u16 stored_len) in
  let s := put_short s (u16 (Z.lnot stored_len)) in
  let s := s <| pending_buf := zmemcpy (pending_buf s) (pending s) buf (Z.to_nat stored_len) |> in
  s <| pending := pending s + stored_len |>.

(** one turn of the [do ... while (sx < s->sym_next)] of [compress_block] *)
Definition compress_sym (s : deflate_state) (sx : Z) (ltree dtree : Z -> ct_data) : deflate_state :=
  let dist := Z.land (sym_get s sx) 255 in
  let dist := dist + Z.shiftl (Z.land (sym_get s (sx + 1)) 255) 8 in
  let lc := sym_get s (sx + 2) in
  if dist =? 0 then send_code s lc ltree
  else
    let code := tget 0 j_length_code lc in
    let s := send_code s (code + LITERALS + 1) ltree in
    let extra := tget 0 extra_lbits code in
    let s := if negb (extra =? 0) then send_bits s (lc - tget 0 base_length code) extra else s in
    let dist := dist - 1 in
    let code := d_code dist in
    let s := send_code s code dtree in
    let extra := tget 0 extra_dbits code in
    if negb (extra =? 0) then send_bits s (dist - tget 0 base_dist code) extra else s.
Fixpoint compress_loop (fuel : nat) (s : deflate_state) (sx : Z) (ltree dtree : Z -> ct_data)
    : deflate_state :=
  match fuel with
  | O => s
  | S f =>
      let s := compress_sym s sx ltree dtree in
      let sx := sx + 3 in
      if sx <? sym_next s then compress_loop f s sx ltree dtree else s
  end.
Definition compress_block (s : deflate_state) (ltree dtree : Z -> ct_data) : deflate_state :=
  let s := if negb (sym_next s =? 0)
           then compress_loop (Z.to_nat (sym_next s)) s 0 ltree dtree else s in
  send_code s END_BLOCK ltree.

Definition static_l (c : Z) : ct_data := tget ct_zero static_ltree c.
Definition static_d (c : Z) : ct_data := tget ct_zero static_dtree c.

Definition j_tr_align (s : deflate_state) : deflate_state :=
  bi_flush (send_code (send_bits s (Z.shiftl STATIC_TREES 1) 3) END_BLOCK static_l).

Definition tr_flush_block_my (s : deflate_state) (buf stored_len : Z) (type : tree_type) (last : Z)
    : deflate_state :=
  let s :=
    match type with
    | STORE => j_tr_stored_block s buf stored_len last
    | FIXED => compress_block (send_bits s (Z.shiftl STATIC_TREES 1 + last) 3) static_l static_d
    | DYNAMIC =>
        let s := send_bits s (Z.shiftl DYN_TREES 1 + last) 3 in
        let s := send_all_trees s (l_max_code s) (d_max_code s) (ncode s) in
        compress_block s (aget ct_zero (dyn_ltree s)) (aget ct_zero (dyn_dtree s))
    end in
  let s := init_block s in
  if last =? 0 then s else bi_windup s.

(** [bi_reverse]: the first [len] bits of a code in reverse order *)
Fixpoint bi_reverse_loop (len : nat) (code res : Z) : Z :=
  match len with
  | O => res
  | S len => bi_reverse_loop len (Z.shiftr code 1) (u32 (Z.shiftl (Z.lor res (Z.land code 1)) 1))
  end.
Definition bi_reverse (code : Z) (len : nat) : Z := Z.shiftr (bi_reverse_loop len code 0) 1.

(** ** The output of a state as a bit string *)

Definition pend_bytes (s : deflate_state) : list Z :=
  aread 0 (pending_buf s) 0 (Z.to_nat (pending s)).
Definition out_bits (s : deflate_state) : list bool :=
  bytes_bits (pend_bytes s) ++ bits_of (Z.to_nat (bi_valid s)) (bi_buf s).

(** the bit buffer holds at most 16 bits, and nothing above them *)
Definition bits_ok (s : deflate_state) : Prop :=
  0 <= pending s /\ 0 <= bi_valid s <= 16 /\ 0 <= bi_buf s < 2 ^ bi_valid s.

(** everything but the output *)
Definition frame (s : deflate_state) : deflate_state :=
  s <| pending_buf := ∅ |> <| pending := 0 |> <| bi_buf := 0 |> <| bi_valid := 0 |>.

(** [s'] is [s] after appending the bits [l] to its output: nothing else
    changed, in memory nothing above the bytes written *)
Record emits (s s' : deflate_state) (l : list bool) : Prop := {
  em_bits : out_bits s' = out_bits s ++ l;
  em_ok : bits_ok s';
  em_le : pending s <= pending s';
  em_mem : forall i, pending s' <= i ->
           aget 0 (pending_buf s') i = aget 0 (pending_buf s) i;
  em_frame : frame s' = frame s }.

Lemma emits_refl s : bits_ok s -> emits s s [].
Proof. intros H. split; [by rewrite app_nil_r|done|lia|done|done]. Qed.
Lemma emits_trans s1 s2 s3 l l' :
  emits s1 s2 l -> emits s2 s3 l' -> emits s1 s3 (l ++ l').
Proof.
  intros [B1 O1 L1 M1 F1] [B2 O2 L2 M2 F2]. split; [|done|lia| |congruence].
  - by rewrite B2, B1, app_assoc.
  - intros i Hi. rewrite M2 by done. apply M1. lia.
Qed.
Lemma emits_field {A} (f : deflate_state -> A) s s' l :
  (forall s, f (frame s) = f s) -> emits s s' l -> f s' = f s.
Proof. intros Hf H. by rewrite <- (Hf s'), (em_frame _ _ _ H). Qed.

Lemma length_pend_bytes s : 0 <= pending s -> Z.of_nat (length (pend_bytes s)) = pending s.
Proof. intros H. unfold pend_bytes. rewrite length_aread. lia. Qed.
Lemma length_out_bits s :
  bits_ok s -> Z.of_nat (length (out_bits s)) = 8 * pending s + bi_valid s.
Proof.
  intros (H1 & H2 & _). unfold out_bits. rewrite length_app, length_bytes_bits, length_bits_of.
  unfold pend_bytes. rewrite length_aread. lia.
Qed.
(** the position in the output advances by the bits sent *)
Lemma emits_length s s' l :
  bits_ok s -> emits s s' l ->
  8 * pending s' + bi_valid s' = 8 * pending s + bi_valid s + Z.of_nat (length l).
Proof.
  intros Hs H. pose proof (length_out_bits s Hs) as E1.
  pose proof (length_out_bits s' (em_ok _ _ _ H)) as E2.
  rewrite (em_bits _ _ _ H), length_app in E2. lia.
Qed.

Lemma pend_bytes_put s c :
  0 <= pending s -> pend_bytes (put_byte s c) = pend_bytes s ++ [u8 c].
Proof.
  intros H. unfold pend_bytes, put_byte; cbn.
  replace (Z.to_nat (pending s + 1)) with (S (Z.to_nat (pending s))) by lia.
  rewrite aread_S, aread_aset_out by lia. f_equal. f_equal.
  rewrite Z.add_0_l, Z2Nat.id by done. apply aget_aset_eq.
Qed.
Lemma bits_of_u8 n c : (n <= 8)%nat -> bits_of n (u8 c) = bits_of n c.
Proof.
  intros H. apply bits_of_ext. unfold u8.
  rewrite <- (Z.mod_mod_divide c (2 ^ 8) (2 ^ Z.of_nat n)); [done|].
  exists (2 ^ (8 - Z.of_nat n)). rewrite <- Z.pow_add_r by lia. f_equal. lia.
Qed.
Lemma bits_of_u16 n c : (n <= 16)%nat -> bits_of n (u16 c) = bits_of n c.
Proof.
  intros H. apply bits_of_ext. unfold u16.
  rewrite <- (Z.mod_mod_divide c (2 ^ 16) (2 ^ Z.of_nat n)); [done|].
  exists (2 ^ (16 - Z.of_nat n)). rewrite <- Z.pow_add_r by lia. f_equal. lia.
Qed.
Lemma pend_bits_short s w :
  0 <= pending s ->
  bytes_bits (pend_bytes (put_short s w)) = bytes_bits (pend_bytes s) ++ bits_of 16 w.
Proof.
  intros H. unfold put_short. rewrite !pend_bytes_put by (cbn; lia).
  rewrite !bytes_bits_app. rewrite <- app_assoc. f_equal.
  cbn [bytes_bits flat_map]. rewrite !app_nil_r, !bits_of_u8 by lia.
  rewrite <- (bits_of_u16 16) by lia. change 16%nat with (8 + 8)%nat.
  rewrite bits_of_add. f_equal. rewrite bits_of_u16 by lia.
  change 255 with (2 ^ 8 - 1). rewrite land_ones_mod by lia. apply (bits_of_mod 8).
Qed.
Lemma put_short_mem s w i :
  0 <= pending s -> pending s + 2 <= i ->
  aget 0 (pending_buf (put_short s w)) i = aget 0 (pending_buf s) i.
Proof. intros H Hi. unfold put_short, put_byte; cbn. by rewrite !aget_aset_ne by lia. Qed.

Lemma send_bits_emits s value len :
  bits_ok s -> 0 <= len <= 16 -> 0 <= value < 2 ^ len ->
  emits s (send_bits s value len) (bits_of (Z.to_nat len) value).
Proof.
  intros (Hp & Hv & Hb) Hl Hval. unfold send_bits, Buf_size.
  assert (H16 : 2 ^ len <= 2 ^ 16) by (apply Z.pow_le_mono_r; lia).
  set (v := bi_valid s) in *. set (b := bi_buf s) in *.
  assert (Hx : bits_of (Z.to_nat v) b ++ bits_of (Z.to_nat len) value
               = bits_of (Z.to_nat v + Z.to_nat len) (b + 2 ^ v * value)).
  { rewrite <- (bits_of_app (Z.to_nat v)) by (rewrite Z2Nat.id by lia; done).
    by rewrite Z2Nat.id by lia. }
  assert (Hlor : Z.lor b (Z.shiftl (u16 value) v) = b + 2 ^ v * value).
  { rewrite u16_small by (change 65536 with (2 ^ 16); lia). apply lor_shiftl_add; lia. }
  destruct (Z.gtb_spec v (16 - len)) as [Hgt|Hle].
  - rewrite Hlor. set (x := b + 2 ^ v * value) in *.
    set (s1 := s <| bi_buf := u16 x |>).
    assert (Hsh : Z.shiftr (u16 value) (16 - v) = Z.shiftr x 16).
    { rewrite u16_small by (change 65536 with (2 ^ 16); lia).
      replace 16 with (v + (16 - v)) at 2 by lia. rewrite <- Z.shiftr_shiftr by lia. f_equal.
      unfold x. rewrite (Z.shiftr_div_pow2 _ v), Z.mul_comm, Z.div_add by lia.
      rewrite Z.div_small by lia. lia. }
    assert (Hxr : 0 <= x < 2 ^ (v + len)).
    { unfold x. rewrite Z.pow_add_r by lia. nia. }
    assert (Hsr : 0 <= Z.shiftr x 16 < 2 ^ (v + len - 16)).
    { rewrite Z.shiftr_div_pow2 by lia. split; [apply Z.div_pos; lia|].
      apply Z.div_lt_upper_bound; [lia|]. rewrite <- Z.pow_add_r by lia.
      replace (16 + (v + len - 16)) with (v + len) by lia. lia. }
    assert (Hs16 : Z.shiftr x 16 < 2 ^ 16).
    { eapply Z.lt_le_trans; [apply Hsr|]. apply Z.pow_le_mono_r; lia. }
    split.
    + transitivity (bytes_bits (pend_bytes (put_short s1 (u16 x))) ++
        bits_of (Z.to_nat (v + (len - 16))) (u16 (Z.shiftr (u16 value) (16 - v))));
        [reflexivity|].
      rewrite pend_bits_short by done. change (pend_bytes s1) with (pend_bytes s).
      unfold out_bits. rewrite <- !app_assoc. f_equal. fold v b. rewrite Hx.
      rewrite Hsh, (u16_small (Z.shiftr x 16)) by (change 65536 with (2 ^ 16); lia).
      replace (Z.to_nat v + Z.to_nat len)%nat with (16 + Z.to_nat (v + (len - 16)))%nat by lia.
      rewrite bits_of_add, bits_of_u16 by lia. done.
    + unfold bits_ok. cbn. fold v. rewrite Hsh, u16_small by (change 65536 with (2 ^ 16); lia).
      replace (v + (len - 16)) with (v + len - 16) by lia. lia.
    + cbn. lia.
    + intros i Hi. cbn in Hi. cbn. rewrite !aget_aset_ne by lia. done.
    + done.
  - rewrite Hlor. set (x := b + 2 ^ v * value) in *.
    assert (Hxr : 0 <= x < 2 ^ (v + len)) by (unfold x; rewrite Z.pow_add_r by lia; nia).
    assert (Hx16 : x < 2 ^ 16).
    { eapply Z.lt_le_trans; [apply Hxr|]. apply Z.pow_le_mono_r; lia. }
    split.
    + transitivity (bytes_bits (pend_bytes s) ++ bits_of (Z.to_nat (v + len)) (u16 x));
        [reflexivity|].
      unfold out_bits. fold v b. rewrite <- app_assoc, Hx. f_equal.
      rewrite u16_small by (change 65536 with (2 ^ 16); lia).
      by rewrite Z2Nat.inj_add by lia.
    + unfold bits_ok; cbn. fold v. rewrite u16_small by (change 65536 with (2 ^ 16); lia). lia.
    + cbn. lia.
    + done.
    + done.
Qed.
