(* ===== verification/Bitstream.v ===== *)
(** * State machines over a bit stream

    [j_inflate] and [deflate_my] are both a [for (;;) switch (state->mode)] over
    local copies of the stream and state fields, left by [goto inf_leave] or by
    [return].  [M] is the state monad with those exits that their handlers are
    written in; [BitReader] is what they share: the locals [next], [have],
    [hold] and [bits] and the macros PULLBYTE, NEEDBITS, BITS, DROPBITS,
    BYTEBITS and INITBITS over them. *)
From S2P Require Import Prelude.

(** ** The monad *)

(** [goto inf_leave], [return ret], or a loop that used up its fuel *)
Inductive exit := Leave | Return (ret : Z) | Diverge.

Definition M (S A : Type) : Type := S -> S * (exit + A).
#[export] Instance M_ret S : MRet (M S) := fun A x s => (s, inr x).
#[export] Instance M_bind S : MBind (M S) := fun A B k m s =>
  match m s with (s, inl e) => (s, inl e) | (s, inr x) => k x s end.
Definition gets {S A} (f : S -> A) : M S A := fun s => (s, inr (f s)).
Definition modify {S} (f : S -> S) : M S unit := fun s => (f s, inr tt).
Definition exit_with {S A} (e : exit) : M S A := fun s => (s, inl e).
Definition leave {S A} : M S A := exit_with Leave.
Definition skip {S} : M S unit := mret tt.
Definition when {S} (b : bool) (m : M S unit) : M S unit := if b then m else skip.

(** [while]/[for (;;)] loops: [body] answers whether to go on *)
Fixpoint repeat_m {S A} (fuel : nat) (body : M S (option A)) : M S A :=
  match fuel with
  | O => exit_with Diverge
  | S f => x ← body; match x with Some a => mret a | None => repeat_m f body end
  end.

Section Monad.
Context {S : Type}.
Implicit Types s : S.
Lemma bind_inr {A B} (m : M S A) (k : A -> M S B) s s' x :
  m s = (s', inr x) -> (m ≫= k) s = k x s'.
Proof. intros E. unfold mbind, M_bind. by rewrite E. Qed.
Lemma bind_inl {A B} (m : M S A) (k : A -> M S B) s s' e :
  m s = (s', inl e) -> (m ≫= k) s = (s', inl e).
Proof. intros E. unfold mbind, M_bind. by rewrite E. Qed.
Lemma bind_gets {A B} (f : S -> A) (k : A -> M S B) s : (gets f ≫= k) s = k (f s) s.
Proof. done. Qed.
Lemma bind_modify {B} (f : S -> S) (k : unit -> M S B) s : (modify f ≫= k) s = k tt (f s).
Proof. done. Qed.
Lemma bind_ret {A B} (x : A) (k : A -> M S B) s : ((mret x : M S A) ≫= k) s = k x s.
Proof. done. Qed.
Lemma bind_bind {A B C} (m : M S A) (k : A -> M S B) (h : B -> M S C) s :
  ((m ≫= k) ≫= h) s = (m ≫= (fun x => k x ≫= h)) s.
Proof. unfold mbind, M_bind. by destruct (m s) as [? [?|?]]. Qed.
Lemma repeat_go {A} fuel (body : M S (option A)) s s' :
  body s = (s', inr None) -> repeat_m (Datatypes.S fuel) body s = repeat_m fuel body s'.
Proof. intros E. cbn [repeat_m]. by rewrite (bind_inr _ _ _ _ _ E). Qed.
Lemma repeat_stop {A} fuel (body : M S (option A)) s s' x :
  body s = (s', inr (Some x)) -> repeat_m (Datatypes.S fuel) body s = (s', inr x).
Proof. intros E. cbn [repeat_m]. by rewrite (bind_inr _ _ _ _ _ E). Qed.
End Monad.

(** ** The loop [for (;;) switch (mode)] *)

Section Forever.
Context {S : Type} (step : M S unit).

Fixpoint forever (fuel : nat) (s : S) : S * exit :=
  match fuel with
  | O => (s, Diverge)
  | Datatypes.S f => match step s with
                     | (s, inr _) => forever f s
                     | (s, inl e) => (s, e)
                     end
  end.
(** [n] turns that do not leave the loop *)
Inductive steps : nat -> S -> S -> Prop :=
| steps_O s : steps 0 s s
| steps_S n s s1 s2 : step s = (s1, inr tt) -> steps n s1 s2 -> steps (Datatypes.S n) s s2.

Lemma steps_trans n m s1 s2 s3 : steps n s1 s2 -> steps m s2 s3 -> steps (n + m) s1 s3.
Proof. induction 1; intros; [done|]. cbn. econstructor; eauto. Qed.
Lemma steps_1 s s' : step s = (s', inr tt) -> steps 1 s s'.
Proof. intros. by econstructor; [|constructor]. Qed.
Lemma forever_steps n s s' f : steps n s s' -> forever (n + f) s = forever f s'.
Proof. induction 1 as [|n s s1 s2 E H IH]; [done|]. cbn [Nat.add forever]. by rewrite E, IH. Qed.
Lemma forever_leave n s s' s'' e f :
  steps n s s' -> step s' = (s'', inl e) -> (n < f)%nat -> forever f s = (s'', e).
Proof.
  intros H E Hf. replace f with (n + Datatypes.S (f - n - 1))%nat by lia. rewrite (forever_steps _ _ _ _ H).
  cbn [forever]. by rewrite E.
Qed.
End Forever.

(** ** Invariants of programs in the monad *)

(** [m] started where [I] holds ends where [I] holds, however it ends *)
Definition keeps {S A} (I : S -> Prop) (m : M S A) : Prop := forall s, I s -> I (m s).1.

Section Keeps.
Context {S : Type} (I : S -> Prop).
Lemma keeps_ret {A} (x : A) : keeps I (mret x).
Proof. by intros s Hs. Qed.
Lemma keeps_exit {A} e : keeps I (exit_with e : M S A).
Proof. by intros s Hs. Qed.
Lemma keeps_leave {A} : keeps I (leave : M S A).
Proof. by intros s Hs. Qed.
Lemma keeps_skip : keeps I skip.
Proof. by intros s Hs. Qed.
Lemma keeps_gets {A} (f : S -> A) : keeps I (gets f).
Proof. by intros s Hs. Qed.
Lemma keeps_modify f : (forall s, I s -> I (f s)) -> keeps I (modify f).
Proof. intros H s Hs. by apply H. Qed.
Lemma keeps_bind {A B} (m : M S A) (k : A -> M S B) : keeps I m -> (forall x, keeps I (k x)) -> keeps I (m ≫= k).
Proof.
  intros Hm Hk s Hs. specialize (Hm s Hs). unfold mbind, M_bind. destruct (m s) as [s1 [e|x]]; [done|]. by apply Hk.
Qed.
(** what the continuation reads is a value of the state it continues from *)
Lemma keeps_bind_gets {A B} (f : S -> A) (k : A -> M S B) :
  (forall s, I s -> I (k (f s) s).1) -> keeps I (gets f ≫= k).
Proof. intros H s Hs. rewrite bind_gets. by apply H. Qed.
Lemma keeps_when b m : keeps I m -> keeps I (when b m).
Proof. intros H. destruct b; [done|apply keeps_ret]. Qed.
Lemma keeps_if {A} (b : bool) (m1 m2 : M S A) : keeps I m1 -> keeps I m2 -> keeps I (if b then m1 else m2).
Proof. by destruct b. Qed.
Lemma keeps_repeat {A} fuel (body : M S (option A)) : keeps I body -> keeps I (repeat_m fuel body).
Proof.
  intros H. induction fuel as [|fuel IH]; cbn [repeat_m]; [apply keeps_exit|].
  apply keeps_bind; [done|]. intros [x|]; [apply keeps_ret|done].
Qed.
Lemma keeps_forever step fuel s : keeps I step -> I s -> I (forever step fuel s).1.
Proof.
  intros H. revert s. induction fuel as [|fuel IH]; intros s Hs; cbn [forever]; [done|].
  specialize (H s Hs). destruct (step s) as [s1 [e|[]]]; [done|by apply IH].
Qed.
End Keeps.

Create HintDb keeps discriminated.
#[export] Hint Constants Opaque : keeps.
#[export] Hint Resolve keeps_ret keeps_exit keeps_leave keeps_skip keeps_gets : keeps.
(** the rules that do not look at the state *)
Ltac keeps_step := first
  [ solve [auto with keeps]
  | lazymatch goal with
    | |- keeps _ (mbind _ _) => apply keeps_bind; [|intros ?]
    | |- keeps _ (when _ _) => apply keeps_when
    | |- keeps _ (if _ then _ else _) => apply keeps_if
    | |- keeps _ (repeat_m _ _) => apply keeps_repeat
    end ].

(** ** The bit reader *)

Class BitReader (S : Type) := {
  rd_next : S -> list Z;
  rd_hold : S -> Z;
  rd_bits : S -> Z;
  rd_set : list Z -> Z -> Z -> S -> S;
  rd_next_set l h b s : rd_next (rd_set l h b s) = l;
  rd_hold_set l h b s : rd_hold (rd_set l h b s) = h;
  rd_bits_set l h b s : rd_bits (rd_set l h b s) = b;
  rd_set_set l h b l' h' b' s : rd_set l h b (rd_set l' h' b' s) = rd_set l h b s;
  rd_set_get s : rd_set (rd_next s) (rd_hold s) (rd_bits s) s = s }.

Section Macros.
Context {S : Type} `{BitReader S}.

(** [BITS(n)] is [(unsigned)hold & ((1U << n) - 1)] *)
Definition low_bits (hold n : Z) : Z := Z.land (u32 hold) (2 ^ n - 1).
Definition BITS (n : Z) (s : S) : Z := low_bits (rd_hold s) n.
Definition have_in (s : S) : Z := Z.of_nat (length (rd_next s)).
Definition INITBITS : M S unit := modify (fun s => rd_set (rd_next s) 0 0 s).
Definition PULLBYTE : M S unit := fun s =>
  match rd_next s with
  | [] => (s, inl Leave)
  | b :: next =>
      (rd_set next (u64 (rd_hold s + u64 (Z.shiftl b (rd_bits s)))) (u32 (rd_bits s + 8)) s, inr tt)
  end.
(** [while (bits < n) PULLBYTE()]: at most [n] bytes *)
Fixpoint needbits_loop (fuel : nat) (n : Z) : M S unit :=
  match fuel with
  | O => exit_with Diverge
  | Datatypes.S f => b ← gets rd_bits; if b <? n then PULLBYTE;; needbits_loop f n else skip
  end.
Definition NEEDBITS (n : Z) : M S unit := needbits_loop (Datatypes.S (Z.to_nat n)) n.
Definition drop_bits (n : Z) : M S unit :=
  modify (fun s => rd_set (rd_next s) (Z.shiftr (rd_hold s) n) (u32 (rd_bits s - n)) s).
Definition BYTEBITS : M S unit := modify (fun s =>
  rd_set (rd_next s) (Z.shiftr (rd_hold s) (Z.land (rd_bits s) 7))
         (rd_bits s - Z.land (rd_bits s) 7) s).
(** [for (;;) { here = f(state); if (here.bits <= bits) break; PULLBYTE(); }] *)
Fixpoint lookup_loop {A} (fuel : nat) (f : S -> A) (need : A -> Z) : M S A :=
  match fuel with
  | O => exit_with Diverge
  | Datatypes.S k =>
      here ← gets f; b ← gets rd_bits;
      if need here <=? b then mret here else PULLBYTE;; lookup_loop k f need
  end.
End Macros.

(** an invariant that survives when the reader moves on *)
Section ReaderKeeps.
Context {S : Type} `{BitReader S} (I : S -> Prop).
Context (HI : forall s h b n, I s -> I (rd_set (drop n (rd_next s)) h b s)).
Lemma keeps_moved s h b : I s -> I (rd_set (rd_next s) h b s).
Proof. exact (HI s h b 0). Qed.
Lemma keeps_INITBITS : keeps I INITBITS.
Proof. intros s Hs. by apply keeps_moved. Qed.
Lemma keeps_PULLBYTE : keeps I PULLBYTE.
Proof.
  intros s Hs. unfold PULLBYTE. pose proof (HI s) as H1. destruct (rd_next s) as [|x next]; [done|]. by apply (H1 _ _ 1%nat).
Qed.
Lemma keeps_NEEDBITS n : keeps I (NEEDBITS n).
Proof.
  unfold NEEDBITS. generalize (Datatypes.S (Z.to_nat n)). intros fuel. induction fuel as [|fuel IH]; cbn [needbits_loop]; [apply keeps_exit|].
  apply keeps_bind; [apply keeps_gets|]. intros b. apply keeps_if; [|apply keeps_ret]. apply keeps_bind; [apply keeps_PULLBYTE|done].
Qed.
Lemma keeps_drop_bits n : keeps I (drop_bits n).
Proof. intros s Hs. by apply keeps_moved. Qed.
Lemma keeps_BYTEBITS : keeps I BYTEBITS.
Proof. intros s Hs. by apply keeps_moved. Qed.
Lemma keeps_lookup {A} fuel (f : S -> A) need : keeps I (lookup_loop fuel f need).
Proof.
  induction fuel as [|fuel IH]; cbn [lookup_loop]; [apply keeps_exit|].
  apply keeps_bind; [apply keeps_gets|]. intros x. apply keeps_bind; [apply keeps_gets|]. intros b. apply keeps_if; [apply keeps_ret|].
  apply keeps_bind; [apply keeps_PULLBYTE|done].
Qed.
End ReaderKeeps.

(** ** Reading is reading a bit string *)

Section Stream.
Context {S : Type} `{BitReader S}.
Implicit Types s : S.

(** [hold] has no bits above the [bits] valid ones, and fits its 64-bit variable *)
Record reader_ok (s : S) : Prop := {
  ro_bits : 0 <= rd_bits s <= 64;
  ro_hold : 0 <= rd_hold s < 2 ^ rd_bits s;
  ro_next : bytes_ok (rd_next s) }.
(** the bits still to be read *)
Definition stream (s : S) : list bool :=
  bits_of (Z.to_nat (rd_bits s)) (rd_hold s) ++ bytes_bits (rd_next s).
(** the state apart from the reader *)
Definition rest_of (s : S) : S := rd_set [] 0 0 s.

Lemma rest_of_set l h b s : rest_of (rd_set l h b s) = rest_of s.
Proof. apply rd_set_set. Qed.
Lemma reader_ext s s' :
  rest_of s = rest_of s' -> rd_next s = rd_next s' -> rd_hold s = rd_hold s' ->
  rd_bits s = rd_bits s' -> s = s'.
Proof.
  intros Hr Hn Hh Hb. rewrite <- (rd_set_get s), <- (rd_set_get s'), <- Hn, <- Hh, <- Hb.
  rewrite <- (rd_set_set (rd_next s) (rd_hold s) (rd_bits s) [] 0 0 s).
  rewrite <- (rd_set_set (rd_next s) (rd_hold s) (rd_bits s) [] 0 0 s').
  unfold rest_of in Hr. by rewrite Hr.
Qed.
Lemma length_stream s :
  0 <= rd_bits s -> Z.of_nat (length (stream s)) = rd_bits s + 8 * have_in s.
Proof.
  intros Hb. unfold stream, have_in. rewrite length_app, length_bits_of, length_bytes_bits. lia.
Qed.

Lemma pull_value s b :
  reader_ok s -> rd_bits s <= 56 -> is_byte b ->
  u64 (rd_hold s + u64 (Z.shiftl b (rd_bits s))) = rd_hold s + 2 ^ rd_bits s * b
  /\ 0 <= rd_hold s + 2 ^ rd_bits s * b < 2 ^ (rd_bits s + 8).
Proof.
  intros [Hb Hh _] H56 Hy. unfold is_byte in Hy.
  assert (2 ^ (rd_bits s + 8) = 2 ^ rd_bits s * 256) by (rewrite Z.pow_add_r; lia).
  assert (2 ^ (rd_bits s + 8) <= 2 ^ 64) by (apply Z.pow_le_mono_r; lia).
  rewrite Z.shiftl_mul_pow2 by lia. rewrite (u64_small (b * _)) by nia.
  rewrite u64_small by nia. nia.
Qed.

(** one PULLBYTE: the byte moves into [hold], the bits to read stay the same *)
Lemma pullbyte_spec s b next :
  reader_ok s -> rd_bits s <= 56 -> rd_next s = b :: next ->
  exists s', PULLBYTE s = (s', inr tt) /\ reader_ok s' /\ stream s' = stream s
    /\ rest_of s' = rest_of s /\ rd_next s' = next /\ rd_bits s' = rd_bits s + 8.
Proof.
  intros Hok H56 Hn. pose proof Hok as [Hb Hh Hby]. rewrite Hn in Hby.
  apply Forall_cons_1 in Hby as [Hy Hby]. destruct (pull_value s b Hok H56 Hy) as [E R].
  unfold PULLBYTE. rewrite Hn. eexists. split; [reflexivity|].
  rewrite rd_next_set, rd_bits_set, rest_of_set, E, u32_small by lia.
  split; [|split; [|done]].
  - split; rewrite ?rd_next_set, ?rd_bits_set, ?rd_hold_set; [lia|lia|done].
  - unfold stream. rewrite rd_next_set, rd_bits_set, rd_hold_set, Hn, bytes_bits_cons.
    replace (Z.to_nat (rd_bits s + 8)) with (Z.to_nat (rd_bits s) + 8)%nat by lia.
    replace (2 ^ rd_bits s) with (2 ^ Z.of_nat (Z.to_nat (rd_bits s))) by (f_equal; lia).
    rewrite bits_of_app by (rewrite Z2Nat.id; lia). by rewrite app_assoc.
Qed.

(** what a read leaves: the same bits to read, nothing else changed *)
Record pulled (s s' : S) : Prop := {
  pu_ok : reader_ok s';
  pu_stream : stream s' = stream s;
  pu_rest : rest_of s' = rest_of s }.
Lemma pulled_refl s : reader_ok s -> pulled s s.
Proof. by split. Qed.
Lemma pulled_trans s1 s2 s3 : pulled s1 s2 -> pulled s2 s3 -> pulled s1 s3.
Proof. intros [A B C] [D E F]. split; [done|congruence|congruence]. Qed.

Lemma needbits_loop_spec fuel n s :
  reader_ok s -> n <= 57 -> n - rd_bits s <= Z.of_nat fuel ->
  exists s', pulled s s' /\
    ((needbits_loop (Datatypes.S fuel) n s = (s', inr tt) /\ n <= rd_bits s'
      /\ rd_bits s' <= Z.max (rd_bits s) (n + 7))
     \/ (needbits_loop (Datatypes.S fuel) n s = (s', inl Leave) /\ rd_next s' = []
         /\ rd_bits s' < n)).
Proof.
  revert s. induction fuel as [|fuel IH]; intros s Hok Hn Hf.
  all: cbn [needbits_loop]; rewrite bind_gets; destruct (Z.ltb_spec (rd_bits s) n) as [Hlt|Hge];
    [|exists s; split; [by apply pulled_refl|left; split_and!; [done|lia|lia]]].
  { lia. }
  destruct (rd_next s) as [|b next] eqn:En.
  - exists s. split; [by apply pulled_refl|right]. split_and!; [|done|done].
    apply bind_inl. unfold PULLBYTE. by rewrite En.
  - destruct (pullbyte_spec s b next Hok ltac:(lia) En) as (s1 & E1 & Hok1 & Hs1 & Hr1 & Hn1 & Hb1).
    rewrite (bind_inr _ _ _ _ _ E1).
    destruct (IH s1 Hok1 Hn ltac:(lia)) as (s' & Hp & [(E & A & B)|(E & A & B)]);
      exists s'; (split; [by apply (pulled_trans _ s1); [split|]|]).
    + left. rewrite Hb1 in B. split_and!; [exact E|done|lia].
    + right. by split_and!.
Qed.

(** NEEDBITS either makes [n] bits available or takes all the input and leaves *)
Lemma needbits_spec n s :
  reader_ok s -> 0 <= n <= 57 ->
  exists s', pulled s s' /\
    ((NEEDBITS n s = (s', inr tt) /\ n <= rd_bits s' /\ rd_bits s' <= Z.max (rd_bits s) (n + 7))
     \/ (NEEDBITS n s = (s', inl Leave) /\ rd_next s' = [] /\ rd_bits s' < n)).
Proof. intros Hok Hn. apply needbits_loop_spec; [done|lia|]. pose proof (ro_bits s Hok). lia. Qed.
Lemma needbits_enough n s :
  reader_ok s -> 0 <= n <= 57 -> n <= Z.of_nat (length (stream s)) ->
  exists s', pulled s s' /\ NEEDBITS n s = (s', inr tt) /\ n <= rd_bits s'
    /\ rd_bits s' <= Z.max (rd_bits s) (n + 7).
Proof.
  intros Hok Hn Hl. destruct (needbits_spec n s Hok Hn) as (s' & Hp & [?|(_ & E & Hlt)]); [by exists s'|].
  exfalso. rewrite <- (pu_stream _ _ Hp) in Hl. pose proof (ro_bits s' (pu_ok _ _ Hp)).
  rewrite length_stream in Hl by lia. unfold have_in in Hl. rewrite E in Hl. cbn in Hl. lia.
Qed.

(** [BITS(n)] is the value of the next [n] bits *)
Lemma BITS_spec n s :
  reader_ok s -> 0 <= n <= 31 -> n <= rd_bits s ->
  BITS n s = val_of (take (Z.to_nat n) (stream s)).
Proof.
  intros [Hb Hh _] Hn Hle. unfold BITS, low_bits, stream.
  rewrite land_ones_mod by lia. rewrite take_app_le by (rewrite length_bits_of; lia).
  rewrite bits_of_take, val_of_bits_of, Z2Nat.id by lia. unfold u32.
  apply Z.mod_mod_divide. exists (2 ^ (32 - n)). rewrite <- Z.pow_add_r by lia. f_equal. lia.
Qed.
Lemma BITS_range n s : 0 <= n -> 0 <= BITS n s < 2 ^ n.
Proof. intros Hn. unfold BITS, low_bits. rewrite land_ones_mod by lia. apply Z.mod_pos_bound. lia. Qed.

(** dropping [n] bits drops them from the stream *)
Lemma drop_bits_spec n s :
  reader_ok s -> 0 <= n <= rd_bits s ->
  exists s', drop_bits n s = (s', inr tt) /\ reader_ok s' /\ stream s' = drop (Z.to_nat n) (stream s)
    /\ rest_of s' = rest_of s /\ rd_next s' = rd_next s /\ rd_bits s' = rd_bits s - n.
Proof.
  intros [Hb Hh Hby] Hn. unfold drop_bits, modify. eexists. split; [done|].
  rewrite rd_next_set, rd_bits_set, rest_of_set, u32_small by lia. split_and!; try done.
  - split; rewrite ?rd_next_set, ?rd_bits_set, ?rd_hold_set; [lia| |done].
    rewrite Z.shiftr_div_pow2 by lia. split; [apply Z.div_pos; lia|].
    apply Z.div_lt_upper_bound; [lia|]. rewrite <- Z.pow_add_r by lia.
    replace (n + (rd_bits s - n)) with (rd_bits s) by lia. lia.
  - unfold stream. rewrite rd_next_set, rd_bits_set, rd_hold_set.
    rewrite drop_app_le by (rewrite length_bits_of; lia). f_equal.
    rewrite bits_of_drop by lia. f_equal; [lia|]. f_equal. lia.
Qed.

(** BYTEBITS drops the bits up to the next byte boundary of the input *)
Lemma bytebits_spec s :
  reader_ok s ->
  exists s', BYTEBITS s = (s', inr tt) /\ reader_ok s'
    /\ stream s' = drop (Z.to_nat (rd_bits s mod 8)) (stream s) /\ rest_of s' = rest_of s
    /\ rd_next s' = rd_next s /\ rd_bits s' = 8 * (rd_bits s / 8).
Proof.
  intros Hok. pose proof (ro_bits s Hok) as Hb.
  assert (E : Z.land (rd_bits s) 7 = rd_bits s mod 8) by (apply (land_ones_mod 3); lia).
  assert (Hm : 0 <= rd_bits s mod 8 < 8) by (by apply Z.mod_pos_bound).
  assert (Hd : rd_bits s = 8 * (rd_bits s / 8) + rd_bits s mod 8) by (apply Z.div_mod; lia).
  assert (0 <= rd_bits s / 8) by (apply Z.div_pos; [apply Hb|done]).
  destruct (drop_bits_spec (rd_bits s mod 8) s Hok) as (s' & E' & A & B & C & D & F); [lia|].
  exists s'. unfold BYTEBITS, drop_bits, modify in *. rewrite u32_small in E' by lia.
  rewrite E, E'. split_and!; try done. lia.
Qed.

(** the common sequence [NEEDBITS(n); x = BITS(n); DROPBITS(n)] *)
Definition read_bits (n : Z) : M S Z := NEEDBITS n;; v ← gets (BITS n); drop_bits n;; mret v.

(** C24. The bit reader reads the little-endian bit string of the input: when [n] more bits exist,
    NEEDBITS, BITS and DROPBITS return the value of the next [n] bits and remove exactly these,
    however the bits are spread over [hold] and the input bytes; nothing else changes. *)
Theorem read_bits_spec n s :
  reader_ok s -> 0 <= n <= 31 -> n <= Z.of_nat (length (stream s)) ->
  exists s', read_bits n s = (s', inr (val_of (take (Z.to_nat n) (stream s))))
    /\ stream s' = drop (Z.to_nat n) (stream s) /\ rest_of s' = rest_of s /\ reader_ok s'.
Proof.
  intros Hok Hn Hl. destruct (needbits_enough n s Hok ltac:(lia) Hl) as (s1 & [Hok1 Hs1 Hr1] & E1 & Hb & _).
  destruct (drop_bits_spec n s1 Hok1 ltac:(lia)) as (s2 & E2 & Hok2 & Hs2 & Hr2 & _).
  exists s2. unfold read_bits. rewrite (bind_inr _ _ _ _ _ E1), bind_gets, (bind_inr _ _ _ _ _ E2).
  rewrite (BITS_spec n s1), Hs1 by done. split_and!; [done|congruence|congruence|done].
Qed.

(** running out of input loses nothing: the bits already read stay in [hold] *)
Lemma read_bits_short n s :
  reader_ok s -> 0 <= n <= 31 -> Z.of_nat (length (stream s)) < n ->
  exists s', read_bits n s = (s', inl Leave) /\ pulled s s' /\ rd_next s' = [].
Proof.
  intros Hok Hn Hl. destruct (needbits_spec n s Hok ltac:(lia)) as (s' & Hp & [(_ & Hge & _)|(E & En & _)]).
  - exfalso. rewrite <- (pu_stream _ _ Hp) in Hl. pose proof (ro_bits _ (pu_ok _ _ Hp)).
    rewrite length_stream in Hl by lia. unfold have_in in Hl. lia.
  - exists s'. split_and!; [by apply bind_inl|done|done].
Qed.
End Stream.

(** a reader by itself *)
Record reader := mk_reader { rdr_next : list Z; rdr_hold : Z; rdr_bits : Z }.
#[export] Program Instance reader_reader : BitReader reader := {
  rd_next := rdr_next; rd_hold := rdr_hold; rd_bits := rdr_bits;
  rd_set l h b s := mk_reader l h b }.
Solve All Obligations with by intros; repeat match goal with x : reader |- _ => destruct x end.

(** ten bits across [hold] and two bytes *)
Lemma read_bits_spec_witness :
  let s := mk_reader [0xa5; 0x3c] 2 3 in
  exists s', read_bits 10 s = (s', inr 0x12a) /\ stream s' = drop 10 (stream s)
    /\ rest_of s' = rest_of s /\ reader_ok s'.
Proof.
  cbv zeta.
  destruct (read_bits_spec 10 (mk_reader [0xa5; 0x3c] 2 3)) as (s' & E & R).
  - split; cbn; [lia|lia|]. repeat constructor; lia.
  - lia.
  - vm_compute. discriminate.
  - exists s'. split; [rewrite E; reflexivity|exact R].
Defined.
