(* ===== verification/InflateState.v ===== *)
(** * The inflate state (partial/libz_j/inflate.h and the globals of inflate.c)

    The modes of the decoder, its state, and the machine the handlers of
    [j_inflate] run on: the stream, the state, the instruction-buffer globals and
    the function's local variables. *)
From Stdlib Require String.
From S2P Require Import Prelude DeflateTables Zlib Bitstream.

Module IM.
Inductive inflate_mode :=
| HEAD | FLAGS | TIME | OS | EXLEN | EXTRA | NAME | COMMENT | HCRC | DICTID | DICT
| TYPE | TYPEDO | STORED | COPY_ | COPY | TABLE | LENLENS | CODELENS
| LEN_ | LEN | LENEXT | DIST | DISTEXT | MATCH | LIT
| CHECK | LENGTH | DONE | BAD | MEM | SENDINS | SETENDOFBLOCK | SEND_HEADER | SYNC.
End IM.
#[export] Instance inflate_mode_eq_dec : EqDecision IM.inflate_mode.
Proof. solve_decision. Defined.

(** [code const *]: an offset into [state->codes], or one of the fixed tables *)
Inductive code_ptr := Codes (off : Z) | Lenfix | Distfix.

(** [gz_header]; a null [extra], [name] or [comment] is [None] *)
Record gz_header := mk_gz {
  gz_text : Z; gz_time : Z; gz_xflags : Z; gz_os : Z; gz_extra : option (arr Z);
  gz_extra_len : Z; gz_extra_max : Z; gz_name : option (arr Z); gz_name_max : Z;
  gz_comment : option (arr Z); gz_comm_max : Z; gz_hcrc : Z; gz_done : Z }.
#[export] Instance eta_gz_header : Settable gz_header := fun r =>
  mk_gz (gz_text r) (gz_time r) (gz_xflags r) (gz_os r) (gz_extra r) (gz_extra_len r)
    (gz_extra_max r) (gz_name r) (gz_name_max r) (gz_comment r) (gz_comm_max r) (gz_hcrc r)
    (gz_done r).

(** The sliding window is never used in this variant; only its pointer is tested.
    [next] is an offset into [codes]. *)
Record inflate_state := mk_is {
  is_strm : Z; mode : IM.inflate_mode; last_ : Z; wrap : Z; havedict : Z; flags : Z; dmax : Z;
  check : Z; total : Z; head : option gz_header; wbits : Z; wsize : Z; whave : Z; wnext : Z;
  window_null : bool; hold : Z; bits : Z; length_ : Z; offset : Z; extra : Z;
  lencode : code_ptr; distcode : code_ptr; lenbits : Z; distbits : Z; ncode : Z; nlen : Z;
  ndist : Z; have : Z; next : Z; lens : arr Z; work : arr Z; codes : arr code; sane : Z;
  back : Z; was : Z; header_buf : arr Z; header_index : Z; header_have : Z; header_flag : Z;
  my_bi_buf : Z; my_bi_valid : Z; itree_type : Z }.
#[export] Instance eta_inflate_state : Settable inflate_state := fun r =>
  mk_is (is_strm r) (mode r) (last_ r) (wrap r) (havedict r) (flags r) (dmax r) (check r)
    (total r) (head r) (wbits r) (wsize r) (whave r) (wnext r) (window_null r) (hold r)
    (bits r) (length_ r) (offset r) (extra r) (lencode r) (distcode r) (lenbits r)
    (distbits r) (ncode r) (nlen r) (ndist r) (have r) (next r) (lens r) (work r) (codes r)
    (sane r) (back r) (was r) (header_buf r) (header_index r) (header_have r) (header_flag r)
    (my_bi_buf r) (my_bi_valid r) (itree_type r).

(** [p[i]] *)
Definition code_at (s : inflate_state) (p : code_ptr) (i : Z) : code :=
  match p with
  | Codes off => aget code_zero (codes s) (off + i)
  | Lenfix => tget code_zero lenfix i
  | Distfix => tget code_zero distfix i
  end.

(** The file-scope variables of inflate.c.  [ins_buffer] is declared as an array
    of pointers that are only used as bytes. *)
Record inf_globals := mk_ig {
  ins_buffer : arr Z; ins_buffer_index : Z; ins_buffer_have : Z; ins_type : Z;
  HEADER_BITS_CNT : Z }.
#[export] Instance eta_inf_globals : Settable inf_globals := fun r =>
  mk_ig (ins_buffer r) (ins_buffer_index r) (ins_buffer_have r) (ins_type r)
    (HEADER_BITS_CNT r).

(** What [j_inflate] runs on: [l_put] .. [l_bits] are its register copies ([have]
    is the length of [l_next]), [l_in], [l_out] and [l_ret] its other locals. *)
Record im := mk_im {
  strm : z_stream; state : inflate_state; glob : inf_globals; l_put : list Z; l_left : Z;
  l_next : list Z; l_hold : Z; l_bits : Z; l_in : Z; l_out : Z; l_ret : Z }.
#[export] Instance eta_im : Settable im := fun r =>
  mk_im (strm r) (state r) (glob r) (l_put r) (l_left r) (l_next r) (l_hold r) (l_bits r)
    (l_in r) (l_out r) (l_ret r).

#[export] Program Instance im_reader : BitReader im := {
  rd_next := l_next; rd_hold := l_hold; rd_bits := l_bits;
  rd_set l h b s := s <| l_next := l |> <| l_hold := h |> <| l_bits := b |> }.
Solve All Obligations with by intros; repeat match goal with x : im |- _ => destruct x end.

(** ** Access and the macros LOAD and RESTORE *)

Abbreviation get f := (gets (fun s : im => f (state s))).
Definition upd (g : inflate_state -> inflate_state) : M im unit :=
  modify (fun s => s <| state := g (state s) |>).
Definition upd_strm (g : z_stream -> z_stream) : M im unit :=
  modify (fun s => s <| strm := g (strm s) |>).
Definition upd_glob (g : inf_globals -> inf_globals) : M im unit :=
  modify (fun s => s <| glob := g (glob s) |>).
Definition set_mode (x : IM.inflate_mode) : M im unit := upd (fun st => st <| mode := x |>).
(** [strm->msg = text; state->mode = BAD] *)
Definition bad (text : String.string) : M im unit :=
  upd_strm (fun z => z <| msg := Some text |>);; set_mode IM.BAD.

Definition LOAD (s : im) : im :=
  s <| l_put := next_out (strm s) |> <| l_left := avail_out (strm s) |>
    <| l_next := next_in (strm s) |> <| l_hold := hold (state s) |> <| l_bits := bits (state s) |>.
Definition RESTORE (s : im) : im :=
  s <| strm := (strm s) <| next_out := l_put s |> <| avail_out := l_left s |>
                        <| next_in := l_next s |> |>
    <| state := (state s) <| hold := l_hold s |> <| bits := l_bits s |> |>.
