(* ===== verification/Inffast.v ===== *)
(** * The fast decoding loop (partial/libz_j/inffast.c)

    [inflate_fast] decodes whole literal/length/distance codes while at least
    six input bytes and 258 output bytes remain, and writes the instruction of
    each.  [in] is an index into the bytes at [next_in], [out] the list of bytes
    written since the call. *)
From Stdlib Require Import String.
From S2P Require Import Prelude DeflateTables Zlib Bitstream InflateState.
#[local] Open Scope string_scope.
#[local] Open Scope Z_scope.
#[local] Open Scope list_scope.

(** the instructions written for the caller, as inflate.c and inffast.c write them *)
Definition ins_literal (v : Z) : list Z := if v =? 0xaa then [u8 v; u8 v] else [u8 v].
Definition ins_match (dist len : Z) : list Z :=
  [0xaa; u8 (Z.shiftr dist 8); u8 dist; u8 (len - 3)].
Definition ins_end : list Z := [0xaa; 0xff].

(** the local variables; [f_mode] and [f_msg] are what the loop sets before a [break] *)
Record fast := mk_fast {
  f_in : Z; f_put : list Z; f_hold : Z; f_bits : Z;
  f_mode : option IM.inflate_mode; f_msg : option string }.
#[export] Instance eta_fast : Settable fast := fun r =>
  mk_fast (f_in r) (f_put r) (f_hold r) (f_bits r) (f_mode r) (f_msg r).

Section Fast.
Context (input : list Z) (lcode dcode : Z -> code) (lmask dmask : Z).

(** [hold += ( *in++) << bits; bits += 8] *)
Definition fast_pull (s : fast) : fast :=
  s <| f_hold := u64 (f_hold s + u64 (Z.shiftl (tget 0 input (f_in s)) (f_bits s))) |>
    <| f_in := f_in s + 1 |> <| f_bits := u32 (f_bits s + 8) |>.
Definition pull_below (n : Z) (s : fast) : fast := if f_bits s <? n then fast_pull s else s.
Definition pull15 (s : fast) : fast := if f_bits s <? 15 then fast_pull (fast_pull s) else s.
(** [hold >>= op; bits -= op] *)
Definition fast_drop (op : Z) (s : fast) : fast :=
  s <| f_hold := Z.shiftr (f_hold s) op |> <| f_bits := u32 (f_bits s - op) |>.
Definition fast_write (l : list Z) (s : fast) : fast := s <| f_put := f_put s ++ l |>.
Definition fast_bad (text : string) (s : fast) : fast :=
  s <| f_msg := Some text |> <| f_mode := Some IM.BAD |>.
(** index of a second-level entry: [here->val + (hold & ((1U << op) - 1))] *)
Definition fast_link (here : code) (s : fast) : Z :=
  val here + Z.land (f_hold s) (2 ^ op here - 1).

(** [dodist:] [true] is a [break], [None] a chain of links longer than the fuel *)
Fixpoint dodist (fuel : nat) (here : code) (len : Z) (s : fast) : option (bool * fast) :=
  match fuel with
  | O => None
  | S k =>
      let s := fast_drop (cbits here) s in
      if negb (Z.land (op here) 16 =? 0) then
        let n := Z.land (op here) 15 in
        let s := if f_bits s <? n then pull_below n (fast_pull s) else s in
        let dist := val here + low_bits (f_hold s) n in
        Some (false, fast_write (ins_match dist len) (fast_drop n s))
      else if Z.land (op here) 64 =? 0 then dodist k (dcode (fast_link here s)) len s
      else Some (true, fast_bad "invalid distance code" s)
  end.

(** [dolen:] *)
Fixpoint dolen (fuel : nat) (here : code) (s : fast) : option (bool * fast) :=
  match fuel with
  | O => None
  | S k =>
      let s := fast_drop (cbits here) s in
      if op here =? 0 then Some (false, fast_write (ins_literal (val here)) s)
      else if negb (Z.land (op here) 16 =? 0) then
        let n := Z.land (op here) 15 in
        let '(len, s) := if negb (n =? 0)
          then let s := pull_below n s in
               (val here + low_bits (f_hold s) n, fast_drop n s)
          else (val here, s) in
        let s := pull15 s in
        dodist 16 (dcode (Z.land (f_hold s) dmask)) len s
      else if Z.land (op here) 64 =? 0 then dolen k (lcode (fast_link here s)) s
      else if negb (Z.land (op here) 32 =? 0) then
        Some (true, fast_write ins_end (s <| f_mode := Some IM.TYPE |>))
      else Some (true, fast_bad "invalid literal/length code" s)
  end.

(** [do { ... } while (in < last && out < end)] *)
Fixpoint fast_loop (fuel : nat) (avail_out : Z) (s : fast) : option fast :=
  match fuel with
  | O => None
  | S k =>
      let s := pull15 s in
      match dolen 16 (lcode (Z.land (f_hold s) lmask)) s with
      | None => None
      | Some (true, s) => Some s
      | Some (false, s) =>
          if (f_in s <? Z.of_nat (length input) - 5)
             && (Z.of_nat (length (f_put s)) <? avail_out - 257)
          then fast_loop k avail_out s else Some s
      end
  end.

(** return unused bytes *)
Definition fast_unused (s : fast) : fast :=
  let len := Z.shiftr (f_bits s) 3 in
  let bits := f_bits s - Z.shiftl len 3 in
  s <| f_in := f_in s - len |> <| f_bits := bits |>
    <| f_hold := Z.land (f_hold s) (2 ^ bits - 1) |>.
End Fast.

(** Every turn writes at least one byte or breaks, so [avail_out] turns are enough.  The argument
    [start] of the C function only bounds match copies, which this variant does not make. *)
Definition inflate_fast (zs : z_stream) (st : inflate_state) : option (z_stream * inflate_state) :=
  let lmask := 2 ^ lenbits st - 1 in
  let dmask := 2 ^ distbits st - 1 in
  let s0 := mk_fast 0 [] (hold st) (bits st) None None in
  match fast_loop (next_in zs) (code_at st (lencode st)) (code_at st (distcode st)) lmask dmask
          (Z.to_nat (avail_out zs)) (avail_out zs) s0 with
  | None => None
  | Some s =>
      let s := fast_unused s in
      let st := match f_mode s with Some m => st <| mode := m |> | None => st end in
      let zs := match f_msg s with Some t => zs <| msg := Some t |> | None => zs end in
      Some (zs <| next_in := drop (Z.to_nat (f_in s)) (next_in zs) |>
               <| next_out := next_out zs ++ f_put s |>
               <| avail_out := u32 (avail_out zs - Z.of_nat (length (f_put s))) |>,
            st <| hold := f_hold s |> <| bits := f_bits s |>)
  end.
