(* ===== verification/Inflate.v ===== *)
(** * The instruction-emitting decoder (partial/libz_j/inflate.c)

    [j_inflate] decodes a deflate stream but, instead of the decompressed bytes,
    writes each block's header bits (captured by DROPBITS into [header_buf])
    followed by one instruction per decoded symbol.  One definition per [case]
    of its [switch]; a handler that returns normally is a [break]. *)
From Stdlib Require Import String.
From S2P Require Import Prelude Adler32 Crc32 DeflateTables Inftrees Zlib Bitstream.
From S2P Require Import InflateState Inffast.
#[local] Open Scope string_scope.
#[local] Open Scope Z_scope.
#[local] Open Scope list_scope.

(** ** Initialisation *)

(** [strm->state] is [None] for a null pointer *)
Definition inflateStateCheck (zs : z_stream) (state : option inflate_state) : bool :=
  if negb (zalloc_set zs) || negb (zfree_set zs) then true
  else match state with
       | None => true
       | Some st => negb (is_strm st =? zs_addr zs)
       end.

Definition j_inflateResetKeep (zs : z_stream) (state : option inflate_state)
    : z_stream * option inflate_state * Z :=
  match state with
  | Some st =>
      if inflateStateCheck zs state then (zs, state, Z_STREAM_ERROR)
      else
        let zs := zs <| total_in := 0 |> <| total_out := 0 |> <| msg := None |> in
        let zs := if negb (wrap st =? 0) then zs <| adler := Z.land (wrap st) 1 |> else zs in
        (zs, Some (st <| total := 0 |> <| mode := IM.HEAD |> <| last_ := 0 |> <| havedict := 0 |>
                      <| flags := -1 |> <| dmax := 32768 |> <| head := None |>
                      <| hold := 0 |> <| bits := 0 |> <| lencode := Codes 0 |>
                      <| distcode := Codes 0 |> <| next := 0 |> <| sane := 1 |> <| back := -1 |>),
         Z_OK)
  | None => (zs, state, Z_STREAM_ERROR)
  end.

Definition j_inflateReset (zs : z_stream) (state : option inflate_state)
    : z_stream * option inflate_state * Z :=
  match state with
  | Some st =>
      if inflateStateCheck zs state then (zs, state, Z_STREAM_ERROR)
      else j_inflateResetKeep zs (Some (st <| wsize := 0 |> <| whave := 0 |> <| wnext := 0 |>))
  | None => (zs, state, Z_STREAM_ERROR)
  end.

(** the wrap request and window bits read from the parameter; [None] is the early return *)
Definition window_request (windowBits : Z) : option (Z * Z) :=
  if windowBits <? 0 then
    if windowBits <? -15 then None else Some (0, - windowBits)
  else
    let wrap := Z.shiftr windowBits 4 + 5 in
    Some (wrap, if windowBits <? 48 then Z.land windowBits 15 else windowBits).

Definition j_inflateReset2 (zs : z_stream) (state : option inflate_state) (windowBits : Z)
    : z_stream * option inflate_state * Z :=
  match state with
  | Some st =>
      if inflateStateCheck zs state then (zs, state, Z_STREAM_ERROR)
      else match window_request windowBits with
      | None => (zs, state, Z_STREAM_ERROR)
      | Some (w, windowBits) =>
          if negb (windowBits =? 0) && ((windowBits <? 8) || (windowBits >? 15))
          then (zs, state, Z_STREAM_ERROR)
          else
            let st := if negb (window_null st) && negb (wbits st =? windowBits)
                      then st <| window_null := true |> else st in
            j_inflateReset zs (Some (st <| wrap := w |> <| wbits := windowBits |>))
      end
  | None => (zs, state, Z_STREAM_ERROR)
  end.

(** [mem] is what [ZALLOC] returns: [None], or a state of arbitrary contents *)
Definition j_inflateInit2_ (zs : z_stream) (state mem : option inflate_state) (windowBits : Z)
    : z_stream * option inflate_state * Z :=
  let zs := zs <| msg := None |> <| zalloc_set := true |> <| zfree_set := true |> in
  match mem with
  | None => (zs, state, Z_MEM_ERROR)
  | Some st =>
      let st := st <| is_strm := zs_addr zs |> <| window_null := true |> <| mode := IM.HEAD |> in
      let '(zs, state, ret) := j_inflateReset2 zs (Some st) windowBits in
      let state := match state with
                   | Some st => Some (st <| header_flag := 1 |>) | None => None end in
      if negb (ret =? Z_OK) then (zs, None, ret) else (zs, state, ret)
  end.
Definition j_inflateInit_ (zs : z_stream) (state mem : option inflate_state) :=
  j_inflateInit2_ zs state mem DEF_WBITS.

Definition fixedtables (st : inflate_state) : inflate_state :=
  st <| lencode := Lenfix |> <| lenbits := 9 |> <| distcode := Distfix |> <| distbits := 5 |>.

(** ** Capturing the header bits *)

Definition my_Buf_size : Z := 16.
Definition my_put_byte (st : inflate_state) (c : Z) : inflate_state :=
  st <| header_buf := aset (header_buf st) (header_have st) (u8 c) |>
     <| header_have := header_have st + 1 |>.
Definition my_put_short (st : inflate_state) (w : Z) : inflate_state :=
  my_put_byte (my_put_byte st (u8 (Z.land w 255))) (Z.shiftr (u16 w) 8).
Definition my_send_bits (st : inflate_state) (value len : Z) : inflate_state :=
  if my_bi_valid st >? my_Buf_size - len then
    let val := value in
    let st := st <| my_bi_buf :=
      u16 (Z.lor (my_bi_buf st) (Z.shiftl (u16 val) (my_bi_valid st))) |> in
    let st := my_put_short st (my_bi_buf st) in
    let st := st <| my_bi_buf := u16 (Z.shiftr (u16 val) (my_Buf_size - my_bi_valid st)) |> in
    st <| my_bi_valid := my_bi_valid st + (len - my_Buf_size) |>
  else
    let st := st <| my_bi_buf :=
      u16 (Z.lor (my_bi_buf st) (Z.shiftl (u16 value) (my_bi_valid st))) |> in
    st <| my_bi_valid := my_bi_valid st + len |>.
Definition my_bi_windup (st : inflate_state) : inflate_state :=
  let st := if my_bi_valid st >? 8 then my_put_short st (my_bi_buf st)
            else if my_bi_valid st >? 0 then my_put_byte st (my_bi_buf st) else st in
  st <| my_bi_buf := 0 |> <| my_bi_valid := 0 |>.

Definition DROP_HEADER_BITS (n : Z) : M im unit := modify (fun s =>
  if negb (header_flag (state s) =? 0) then
    s <| state := my_send_bits (state s) (BITS n s) n |>
      <| glob := (glob s) <| HEADER_BITS_CNT := u64 (HEADER_BITS_CNT (glob s) + n) |> |>
  else s).
Definition DROPBITS (n : Z) : M im unit := DROP_HEADER_BITS n;; drop_bits n.

(** ** Check values of the gzip header *)

Definition byte_of (word k : Z) : Z := u8 (Z.shiftr word (8 * k)).
(** [crc32] is called on the four-byte local [hbuf] *)
Definition CRC2 (check word : Z) : Z := crc32 0 check (Some [byte_of word 0; byte_of word 1]).
Definition CRC4 (check word : Z) : Z :=
  crc32 0 check (Some [byte_of word 0; byte_of word 1; byte_of word 2; byte_of word 3]).
(** [(state->flags & 0x0200) && (state->wrap & 4)] *)
Definition header_crc (st : inflate_state) : bool :=
  negb (Z.land (flags st) 0x200 =? 0) && negb (Z.land (wrap st) 4 =? 0).
Definition upd_crc (f : Z -> Z) : M im unit :=
  upd (fun st => if header_crc st then st <| check := f (check st) |> else st).
(** [if (state->head != Z_NULL) ...] *)
Definition upd_head (f : gz_header -> gz_header) : M im unit :=
  upd (fun st => st <| head := option_map f (head st) |>).
Definition ZSWAP32 (q : Z) : Z :=
  Z.land (Z.shiftr q 24) 0xff + Z.land (Z.shiftr q 8) 0xff00
  + Z.shiftl (Z.land q 0xff00) 8 + Z.shiftl (Z.land q 0xff) 24.
Definition UPDATE_CHECK (st : inflate_state) (check : Z) (buf : list Z) : Z :=
  if negb (flags st =? 0) then crc32 0 check (Some buf) else adler32 check (Some buf).

(** ** Output *)

(** set up the instruction buffer: [ins_type] 0 literal, 1 match, 2 end of block, 3 trailer, 4 zlib header *)
Definition set_ins (type : Z) (l : list Z) : M im unit :=
  upd_glob (fun g => g <| ins_buffer_index := 0 |> <| ins_buffer_have := Z.of_nat (length l) |>
                       <| ins_type := type |> <| ins_buffer := awrite (ins_buffer g) 0 l |>).
(** [left -= copy; while (copy--) *put++ = buf[index++]], [l] the bytes copied *)
Definition put_bytes (l : list Z) : M im unit :=
  modify (fun s => s <| l_left := u32 (l_left s - Z.of_nat (length l)) |>
                     <| l_put := l_put s ++ l |>).
(** [n] bytes leave the input *)
Definition skip_in (n : Z) : M im unit :=
  modify (fun s => s <| l_next := drop (Z.to_nat n) (l_next s) |>).
Definition h_SENDINS : M im unit :=
  left ← gets l_left;
  if left =? 0 then leave else
  g ← gets glob;
  let avail := ins_buffer_have g - ins_buffer_index g in
  let copy := if avail >? left then left else u32 avail in
  put_bytes (map u8 (aread 0 (ins_buffer g) (ins_buffer_index g) (Z.to_nat copy)));;
  upd_glob (fun g => g <| ins_buffer_index := ins_buffer_index g + copy |>);;
  g ← gets glob;
  when (ins_buffer_index g =? ins_buffer_have g)
    (set_mode (if ins_type g =? 4 then IM.TYPE
               else if ins_type g =? 3 then IM.LENGTH
               else if negb (ins_type g =? 2) then IM.LEN else IM.TYPE)).
Definition h_SETENDOFBLOCK : M im unit :=
  set_ins 2 ins_end;; set_mode IM.SENDINS;; h_SENDINS.

(** ** The trailer *)

Definition set_ret (r : Z) : M im unit := modify (fun s => s <| l_ret := r |>).
Definition h_DONE : M im unit := set_ret Z_STREAM_END;; leave.
Definition h_BAD : M im unit := set_ret Z_DATA_ERROR;; leave.
Definition h_LENGTH : M im unit :=
  st ← gets state;
  if negb (wrap st =? 0) && negb (flags st =? 0) then
    NEEDBITS 32;;
    h ← gets l_hold;
    st ← gets state;
    if negb (Z.land (wrap st) 4 =? 0) && negb (h =? Z.land (total st) 0xffffffff)
    then bad "incorrect length check"
    else INITBITS;; set_mode IM.DONE;; h_DONE
  else set_mode IM.DONE;; h_DONE.
Definition h_CHECK : M im unit :=
  w ← get wrap;
  if negb (w =? 0) then
    NEEDBITS 32;;
    modify (fun s => s <| l_out := u32 (l_out s - l_left s) |>);;
    modify (fun s => s <| strm := (strm s) <| total_out := u64 (total_out (strm s) + l_out s) |> |>
                       <| state := (state s) <| total := u64 (total (state s) + l_out s) |> |>
                       <| l_out := l_left s |>);;
    b0 ← gets (BITS 8); DROPBITS 8;;
    b1 ← gets (BITS 8); DROPBITS 8;;
    b2 ← gets (BITS 8); DROPBITS 8;;
    b3 ← gets (BITS 8); DROPBITS 8;;
    set_ins 3 [b0; b1; b2; b3];;
    INITBITS;;
    set_mode IM.SENDINS
  else set_mode IM.LENGTH;; h_LENGTH.

(** ** Codes *)

Definition h_LIT : M im unit := set_mode IM.SENDINS.
Definition h_MATCH : M im unit := set_mode IM.SENDINS.

(** [BITS(state->extra)], then drop them *)
Definition h_DISTEXT : M im unit :=
  e ← get extra;
  when (negb (e =? 0))
    (NEEDBITS e;; v ← gets (BITS e);
     upd (fun st => st <| offset := u32 (offset st + v) |>);; DROPBITS e;;
     upd (fun st => st <| back := back st + e |>));;
  set_mode IM.MATCH;;
  st ← gets state;
  set_ins 1 (ins_match (offset st) (length_ st));;
  h_MATCH.

(** the two-level table lookup of LEN and DIST; [link] tells a second-level entry from the others *)
Definition look (tab : inflate_state -> code_ptr) (nbits : inflate_state -> Z) : M im code :=
  lookup_loop 40 (fun s => code_at (state s) (tab (state s)) (BITS (nbits (state s)) s)) cbits.
Definition look2 (tab : inflate_state -> code_ptr) (last : code) : M im code :=
  lookup_loop 80 (fun s => code_at (state s) (tab (state s))
                   (val last + Z.shiftr (BITS (cbits last + op last) s) (cbits last)))
              (fun here => cbits last + cbits here).
Definition drop_code (n : Z) : M im unit :=
  DROPBITS n;; upd (fun st => st <| back := back st + n |>).

(** the rest of DIST, with the entry of a distance *)
Definition dist_found (here : code) : M im unit :=
  if negb (Z.land (op here) 64 =? 0) then bad "invalid distance code"
  else
    upd (fun st => st <| offset := val here |> <| extra := Z.land (op here) 15 |>);;
    set_mode IM.DISTEXT;; h_DISTEXT.
Definition h_DIST : M im unit :=
  here ← look distcode distbits;
  here ← (if Z.land (op here) 0xf0 =? 0
          then h2 ← look2 distcode here; drop_code (cbits here);; mret h2
          else mret here);
  drop_code (cbits here);; dist_found here.

Definition h_LENEXT : M im unit :=
  e ← get extra;
  when (negb (e =? 0))
    (NEEDBITS e;; v ← gets (BITS e);
     upd (fun st => st <| length_ := u32 (length_ st + v) |>);; DROPBITS e;;
     upd (fun st => st <| back := back st + e |>));;
  upd (fun st => st <| was := length_ st |>);;
  set_mode IM.DIST;; h_DIST.

(** the rest of LEN, with the entry of a literal, a length or the end of the block *)
Definition len_found (here : code) : M im unit :=
  upd (fun st => st <| length_ := val here |>);;
  if op here =? 0 then
    set_mode IM.LIT;;
    set_ins 0 (if val here =? 0xaa then [val here; val here] else [val here])
  else if negb (Z.land (op here) 32 =? 0) then
    upd (fun st => st <| back := -1 |>);; set_mode IM.SETENDOFBLOCK
  else if negb (Z.land (op here) 64 =? 0) then bad "invalid literal/length code"
  else
    upd (fun st => st <| extra := Z.land (op here) 15 |>);;
    set_mode IM.LENEXT;; h_LENEXT.
Definition h_LEN : M im unit :=
  s ← gets id;
  if (have_in s >=? 6) && (l_left s >=? 258) then
    modify RESTORE;;
    s ← gets id;
    match inflate_fast (strm s) (state s) with
    | None => exit_with Diverge
    | Some (zs, st) =>
        modify (fun s => LOAD (s <| strm := zs |> <| state := st |>));;
        upd (fun st => if bool_decide (mode st = IM.TYPE) then st <| back := -1 |> else st)
    end
  else
    upd (fun st => st <| back := 0 |>);;
    here ← look lencode lenbits;
    here ← (if negb (op here =? 0) && (Z.land (op here) 0xf0 =? 0)
            then h2 ← look2 lencode here; drop_code (cbits here);; mret h2
            else mret here);
    drop_code (cbits here);; len_found here.
Definition h_LEN_ : M im unit := set_mode IM.LEN;; h_LEN.

(** ** Block headers *)

Definition h_SEND_HEADER : M im unit :=
  upd (fun st => if header_flag st =? 1
    then my_put_byte (my_put_byte (my_bi_windup st) 0xaa) 0xff <| header_flag := 0 |> else st);;
  left ← gets l_left;
  if left =? 0 then leave else
  st ← gets state;
  let avail := header_have st - header_index st in
  let copy := if avail >? left then left else u32 avail in
  put_bytes (aread 0 (header_buf st) (header_index st) (Z.to_nat copy));;
  upd (fun st => st <| header_index := header_index st + copy |>);;
  upd (fun st => if header_have st =? header_index st
    then st <| mode := if itree_type st =? 0 then IM.COPY_ else IM.LEN_ |> else st).

(** [while (copy--) state->lens[state->have++] = len] *)
Fixpoint put_lens (n : nat) (len : Z) (st : inflate_state) : inflate_state :=
  match n with
  | O => st
  | S n => put_lens n len
      (st <| lens := aset (lens st) (have st) (u16 len) |> <| have := u32 (have st + 1) |>)
  end.

(** one turn of [while (state->have < state->nlen + state->ndist)]; [Some tt] leaves it *)
Definition codelens_turn : M im (option unit) :=
  st ← gets state;
  if have st <? nlen st + ndist st then
    here ← look lencode lenbits;
    if val here <? 16 then
      DROPBITS (cbits here);; upd (put_lens 1 (val here));; mret None
    else
      st ← gets state;
      lc ← (if val here =? 16 then
              NEEDBITS (cbits here + 2);; DROPBITS (cbits here);;
              if have st =? 0 then bad "invalid bit length repeat";; mret None
              else v ← gets (BITS 2); DROPBITS 2;;
                   mret (Some (aget 0 (lens st) (have st - 1), 3 + v))
            else if val here =? 17 then
              NEEDBITS (cbits here + 3);; DROPBITS (cbits here);;
              v ← gets (BITS 3); DROPBITS 3;; mret (Some (0, 3 + v))
            else
              NEEDBITS (cbits here + 7);; DROPBITS (cbits here);;
              v ← gets (BITS 7); DROPBITS 7;; mret (Some (0, 11 + v)));
      match lc with
      | None => mret (Some tt)
      | Some (len, copy) =>
          if have st + copy >? nlen st + ndist st then
            bad "invalid bit length repeat";; mret (Some tt)
          else upd (put_lens (Z.to_nat copy) len);; mret None
      end
  else mret (Some tt).

(** [ret = inflate_table(type, lens + off, codes, &state->next, bits, state->work)] *)
Definition build_table (type : codetype) (off : inflate_state -> Z) (n : inflate_state -> Z)
    (nbits : inflate_state -> Z) (set_bits : Z -> inflate_state -> inflate_state) : M im Z :=
  st ← gets state;
  match inflate_table type (fun i => aget 0 (lens st) (off st + i)) (n st) (next st) (nbits st)
          (codes st) (work st) with
  | None => exit_with Diverge
  | Some r =>
      upd (fun st => set_bits (r_bits r)
             (st <| codes := r_mem r |> <| work := r_work r |> <| next := r_table r |>));;
      set_ret (r_ret r);; mret (r_ret r)
  end.

Definition h_CODELENS (flush : Z) : M im unit :=
  repeat_m 400 codelens_turn;;
  st ← gets state;
  if bool_decide (mode st = IM.BAD) then skip
  else if aget 0 (lens st) 256 =? 0 then bad "invalid code -- missing end-of-block"
  else
    upd (fun st => st <| next := 0 |> <| lencode := Codes 0 |> <| lenbits := 9 |>);;
    ret ← build_table LENS (fun _ => 0) nlen lenbits (fun b st => st <| lenbits := b |>);
    if negb (ret =? 0) then bad "invalid literal/lengths set"
    else
      upd (fun st => st <| distcode := Codes (next st) |> <| distbits := 6 |>);;
      ret ← build_table DISTS nlen ndist distbits (fun b st => st <| distbits := b |>);
      if negb (ret =? 0) then bad "invalid distances set"
      else
        set_mode IM.SEND_HEADER;;
        when (flush =? Z_TREES) leave.

(** the two loops of LENLENS *)
Definition lenlens_turn : M im (option unit) :=
  st ← gets state;
  if have st <? ncode st then
    NEEDBITS 3;; v ← gets (BITS 3);
    upd (fun st => st <| lens := aset (lens st) (tget 0 order (have st)) v |>
                      <| have := have st + 1 |>);;
    DROPBITS 3;; mret None
  else mret (Some tt).
Fixpoint zero_lens (n : nat) (st : inflate_state) : inflate_state :=
  match n with
  | O => st
  | S n => if have st <? 19
           then zero_lens n (st <| lens := aset (lens st) (tget 0 order (have st)) 0 |>
                                <| have := have st + 1 |>)
           else st
  end.
Definition h_LENLENS (flush : Z) : M im unit :=
  repeat_m 20 lenlens_turn;;
  upd (zero_lens 19);;
  upd (fun st => st <| next := 0 |> <| lencode := Codes 0 |> <| lenbits := 7 |>);;
  ret ← build_table CODES (fun _ => 0) (fun _ => 19) lenbits (fun b st => st <| lenbits := b |>);
  if negb (ret =? 0) then bad "invalid code lengths set"
  else upd (fun st => st <| have := 0 |>);; set_mode IM.CODELENS;; h_CODELENS flush.

Definition h_TABLE (flush : Z) : M im unit :=
  NEEDBITS 14;;
  v ← gets (BITS 5); upd (fun st => st <| nlen := v + 257 |>);; DROPBITS 5;;
  v ← gets (BITS 5); upd (fun st => st <| ndist := v + 1 |>);; DROPBITS 5;;
  v ← gets (BITS 4); upd (fun st => st <| ncode := v + 4 |>);; DROPBITS 4;;
  st ← gets state;
  if (nlen st >? 286) || (ndist st >? 30) then bad "too many length or distance symbols"
  else upd (fun st => st <| have := 0 |>);; set_mode IM.LENLENS;; h_LENLENS flush.

(** ** Stored blocks *)

Definition h_COPY : M im unit :=
  st ← gets state;
  let copy := length_ st in
  if negb (copy =? 0) then
    s ← gets id;
    let copy := if copy >? have_in s then have_in s else copy in
    let copy := if copy >? l_left s then l_left s else copy in
    if copy =? 0 then leave
    else
      put_bytes (take (Z.to_nat copy) (l_next s));;
      skip_in copy;;
      upd (fun st => st <| length_ := length_ st - copy |>)
  else set_mode IM.SETENDOFBLOCK.
Definition h_COPY_ : M im unit := set_mode IM.COPY;; h_COPY.
Definition h_STORED : M im unit :=
  BYTEBITS;;
  upd my_bi_windup;;
  NEEDBITS 32;;
  h ← gets l_hold;
  if negb (Z.land h 0xffff =? Z.lxor (Z.shiftr h 16) 0xffff)
  then bad "invalid stored block lengths"
  else
    upd (fun st => st <| length_ := Z.land (u32 h) 0xffff |>);;
    DROPBITS 16;; DROPBITS 16;;
    set_mode IM.SEND_HEADER.

(** ** Block types *)

Definition h_TYPEDO (flush : Z) : M im unit :=
  upd (fun st => st <| header_flag := 1 |> <| header_index := 0 |> <| header_have := 0 |>
                    <| my_bi_buf := 0 |> <| my_bi_valid := 0 |>);;
  l ← get last_;
  if negb (l =? 0) then BYTEBITS;; set_mode IM.CHECK
  else
    NEEDBITS 3;;
    v ← gets (BITS 1); upd (fun st => st <| last_ := v |>);; DROPBITS 1;;
    v ← gets (BITS 2);
    (if v =? 0 then
       set_mode IM.STORED;; upd (fun st => st <| itree_type := 0 |>)
     else if v =? 1 then
       upd fixedtables;; upd (fun st => st <| itree_type := 1 |>);; set_mode IM.SEND_HEADER;;
       when (flush =? Z_TREES) (DROPBITS 2;; leave)
     else if v =? 2 then
       set_mode IM.TABLE;; upd (fun st => st <| itree_type := 2 |>)
     else bad "invalid block type");;
    DROPBITS 2.
Definition h_TYPE (flush : Z) : M im unit :=
  if (flush =? Z_BLOCK) || (flush =? Z_TREES) then leave else h_TYPEDO flush.

(** ** Preset dictionaries and stream headers *)

Definition set_check (v : Z) : M im unit :=
  upd_strm (fun z => z <| adler := v |>);; upd (fun st => st <| check := v |>).
Definition h_DICT (flush : Z) : M im unit :=
  d ← get havedict;
  if d =? 0 then modify RESTORE;; exit_with (Return Z_NEED_DICT)
  else set_check (adler32 0 None);; set_mode IM.TYPE;; h_TYPE flush.
Definition h_DICTID (flush : Z) : M im unit :=
  NEEDBITS 32;;
  h ← gets l_hold; set_check (ZSWAP32 h);;
  INITBITS;; set_mode IM.DICT;; h_DICT flush.

Definition h_HCRC : M im unit :=
  st ← gets state;
  let finish :=
    upd_head (fun g => g <| gz_hcrc := Z.land (Z.shiftr (flags st) 9) 1 |> <| gz_done := 1 |>);;
    set_check (crc32 0 0 None);; set_mode IM.TYPE in
  if negb (Z.land (flags st) 0x200 =? 0) then
    NEEDBITS 16;;
    h ← gets l_hold;
    if negb (Z.land (wrap st) 4 =? 0) && negb (h =? Z.land (check st) 0xffff)
    then bad "header crc mismatch"
    else INITBITS;; finish
  else finish.

(** the [do ... while (len && copy < have)] of NAME and COMMENT: bytes up to and including the
    first zero, each saved by [save]; the result is the last byte [len] and the count [copy] *)
Fixpoint scan_string (l : list Z) (copy : Z) (save : Z -> inflate_state -> inflate_state)
    (st : inflate_state) : Z * Z * inflate_state :=
  match l with
  | [] => (0, copy, st)
  | len :: l =>
      let st := save len st in
      if negb (len =? 0) && negb (length l =? 0)%nat then scan_string l (copy + 1) save st
      else (len, copy + 1, st)
  end.
Definition string_field (save : Z -> inflate_state -> inflate_state) (rest : M im unit) : M im unit :=
  s ← gets id;
  if have_in s =? 0 then leave
  else
    let '(len, copy, st) := scan_string (l_next s) 0 save (state s) in
    upd (fun _ => st);;
    upd_crc (fun c => crc32 0 c (Some (take (Z.to_nat copy) (l_next s))));;
    skip_in copy;;
    if negb (len =? 0) then leave else rest.
Definition save_name (len : Z) (st : inflate_state) : inflate_state :=
  match head st with
  | Some g => match gz_name g with
      | Some a => if length_ st <? gz_name_max g
                  then st <| head := Some (g <| gz_name := Some (aset a (length_ st) (u8 len)) |>) |>
                          <| length_ := length_ st + 1 |> else st
      | None => st end
  | None => st
  end.
Definition save_comment (len : Z) (st : inflate_state) : inflate_state :=
  match head st with
  | Some g => match gz_comment g with
      | Some a => if length_ st <? gz_comm_max g
                  then st <| head := Some (g <| gz_comment := Some (aset a (length_ st) (u8 len)) |>) |>
                          <| length_ := length_ st + 1 |> else st
      | None => st end
  | None => st
  end.
Definition h_COMMENT : M im unit :=
  f ← get flags;
  let rest := set_mode IM.HCRC;; h_HCRC in
  if negb (Z.land f 0x1000 =? 0) then string_field save_comment rest
  else upd_head (fun g => g <| gz_comment := None |>);; rest.
Definition h_NAME : M im unit :=
  f ← get flags;
  let rest := upd (fun st => st <| length_ := 0 |>);; set_mode IM.COMMENT;; h_COMMENT in
  if negb (Z.land f 0x800 =? 0) then string_field save_name rest
  else upd_head (fun g => g <| gz_name := None |>);; rest.

(** the copy into [head->extra] *)
Definition save_extra (l : list Z) (st : inflate_state) : inflate_state :=
  match head st with
  | Some g => match gz_extra g with
      | Some a =>
          let len := u32 (gz_extra_len g - length_ st) in
          if len <? gz_extra_max g
          then let n := if len + Z.of_nat (length l) >? gz_extra_max g
                        then gz_extra_max g - len else Z.of_nat (length l) in
               st <| head := Some (g <| gz_extra := Some (awrite a len (take (Z.to_nat n) l)) |>) |>
          else st
      | None => st end
  | None => st
  end.
Definition h_EXTRA : M im unit :=
  st ← gets state;
  let rest := upd (fun st => st <| length_ := 0 |>);; set_mode IM.NAME;; h_NAME in
  if negb (Z.land (flags st) 0x400 =? 0) then
    s ← gets id;
    let copy := if length_ st >? have_in s then have_in s else length_ st in
    when (negb (copy =? 0))
      (let l := take (Z.to_nat copy) (l_next s) in
       upd (save_extra l);;
       upd_crc (fun c => crc32 0 c (Some l));;
       skip_in copy;;
       upd (fun st => st <| length_ := length_ st - copy |>));;
    n ← get length_;
    if negb (n =? 0) then leave else rest
  else rest.
Definition h_EXLEN : M im unit :=
  f ← get flags;
  (if negb (Z.land f 0x400 =? 0) then
     NEEDBITS 16;;
     h ← gets l_hold;
     upd (fun st => st <| length_ := u32 h |>);;
     upd_head (fun g => g <| gz_extra_len := u32 h |>);;
     upd_crc (fun c => CRC2 c h);;
     INITBITS
   else upd_head (fun g => g <| gz_extra := None |>));;
  set_mode IM.EXTRA;; h_EXTRA.
Definition h_OS : M im unit :=
  NEEDBITS 16;;
  h ← gets l_hold;
  upd_head (fun g => g <| gz_xflags := Z.land h 0xff |> <| gz_os := Z.shiftr h 8 |>);;
  upd_crc (fun c => CRC2 c h);;
  INITBITS;; set_mode IM.EXLEN;; h_EXLEN.
Definition h_TIME : M im unit :=
  NEEDBITS 32;;
  h ← gets l_hold;
  upd_head (fun g => g <| gz_time := h |>);;
  upd_crc (fun c => CRC4 c h);;
  INITBITS;; set_mode IM.OS;; h_OS.
Definition h_FLAGS : M im unit :=
  NEEDBITS 16;;
  h ← gets l_hold;
  upd (fun st => st <| flags := s32 h |>);;
  f ← get flags;
  if negb (Z.land f 0xff =? Z_DEFLATED) then bad "unknown compression method"
  else if negb (Z.land f 0xe000 =? 0) then bad "unknown header flags set"
  else
    upd_head (fun g => g <| gz_text := Z.land (Z.shiftr h 8) 1 |>);;
    upd_crc (fun c => CRC2 c h);;
    INITBITS;; set_mode IM.TIME;; h_TIME.

Definition h_HEAD : M im unit :=
  w ← get wrap;
  if w =? 0 then set_mode IM.TYPEDO
  else
    NEEDBITS 16;;
    h ← gets l_hold;
    set_ins 4 [Z.land h 0xff; Z.land (Z.shiftr h 8) 0xff];;
    if negb (Z.land w 2 =? 0) && (h =? 0x8b1f) then
      upd (fun st => if wbits st =? 0 then st <| wbits := 15 |> else st);;
      upd (fun st => st <| check := CRC2 (crc32 0 0 None) h |>);;
      INITBITS;; set_mode IM.FLAGS
    else
      upd_head (fun g => g <| gz_done := -1 |>);;
      b8 ← gets (BITS 8); b4 ← gets (BITS 4);
      if (Z.land w 1 =? 0) || negb ((Z.shiftl b8 8 + Z.shiftr h 8) mod 31 =? 0)
      then bad "incorrect header check"
      else if negb (b4 =? Z_DEFLATED) then bad "unknown compression method"
      else
        DROPBITS 4;;
        b4 ← gets (BITS 4);
        let len := b4 + 8 in
        upd (fun st => if wbits st =? 0 then st <| wbits := len |> else st);;
        wb ← get wbits;
        if (len >? 15) || (len >? wb) then bad "invalid window size"
        else
          upd (fun st => st <| dmax := Z.shiftl 1 len |> <| flags := 0 |>);;
          set_check (adler32 0 None);;
          set_mode IM.SENDINS;; INITBITS.

(** ** The state machine *)

(** one turn of [for (;;) switch (state->mode)] *)
Definition dispatch (flush : Z) : M im unit :=
  m ← get mode;
  match m with
  | IM.HEAD => h_HEAD | IM.FLAGS => h_FLAGS | IM.TIME => h_TIME | IM.OS => h_OS
  | IM.EXLEN => h_EXLEN | IM.EXTRA => h_EXTRA | IM.NAME => h_NAME | IM.COMMENT => h_COMMENT
  | IM.HCRC => h_HCRC | IM.DICTID => h_DICTID flush | IM.DICT => h_DICT flush
  | IM.TYPE => h_TYPE flush | IM.TYPEDO => h_TYPEDO flush | IM.STORED => h_STORED
  | IM.COPY_ => h_COPY_ | IM.COPY => h_COPY | IM.TABLE => h_TABLE flush
  | IM.LENLENS => h_LENLENS flush | IM.CODELENS => h_CODELENS flush
  | IM.SEND_HEADER => h_SEND_HEADER | IM.LEN_ => h_LEN_ | IM.LEN => h_LEN
  | IM.LENEXT => h_LENEXT | IM.DIST => h_DIST | IM.DISTEXT => h_DISTEXT
  | IM.MATCH => h_MATCH | IM.LIT => h_LIT | IM.CHECK => h_CHECK | IM.LENGTH => h_LENGTH
  | IM.DONE => h_DONE | IM.BAD => h_BAD | IM.MEM => exit_with (Return Z_MEM_ERROR)
  | IM.SETENDOFBLOCK => h_SETENDOFBLOCK | IM.SENDINS => h_SENDINS
  | IM.SYNC => exit_with (Return Z_STREAM_ERROR)
  end.

(** [for (;;)] *)
Definition run (fuel : nat) (flush : Z) (s : im) : im * exit := forever (dispatch flush) fuel s.

(** [inf_leave:] and below *)
Definition inf_leave (flush : Z) (s : im) : im * Z :=
  let s := RESTORE s in
  let in_ := u32 (l_in s - avail_in (strm s)) in
  let out := u32 (l_out s - avail_out (strm s)) in
  let s := s <| strm := (strm s) <| total_in := u64 (total_in (strm s) + in_) |>
                                 <| total_out := u64 (total_out (strm s) + out) |> |>
             <| state := (state s) <| total := u64 (total (state s) + out) |> |> in
  let s :=
    if negb (Z.land (wrap (state s)) 4 =? 0) && negb (out =? 0) then
      let l := next_out (strm s) in
      let v := UPDATE_CHECK (state s) (check (state s)) (drop (length l - Z.to_nat out) l) in
      s <| strm := (strm s) <| adler := v |> |> <| state := (state s) <| check := v |> |>
    else s in
  let ret := l_ret s in
  (s, if (((in_ =? 0) && (out =? 0)) || (flush =? Z_FINISH)) && (ret =? Z_OK)
      then Z_BUF_ERROR else ret).

(** turns one call can take: every cycle through the modes reads or writes a bit (see
    Progress) *)
Definition inflate_fuel (s : im) : nat :=
  (64 * (8 * length (l_next s) + Z.to_nat (l_bits s) + Z.to_nat (l_left s) + 4))%nat.

(** the result is [None] when the loop did not end within its fuel *)
Definition j_inflate (zs : z_stream) (state_ : option inflate_state) (g : inf_globals) (flush : Z)
    : option (z_stream * option inflate_state * inf_globals * Z) :=
  match state_ with
  | None => Some (zs, state_, g, Z_STREAM_ERROR)
  | Some st =>
      if inflateStateCheck zs state_ || next_out_null zs
         || (next_in_null zs && negb (avail_in zs =? 0))
      then Some (zs, state_, g, Z_STREAM_ERROR)
      else
        let st := if bool_decide (mode st = IM.TYPE) then st <| mode := IM.TYPEDO |> else st in
        let s := LOAD (mk_im zs st g [] 0 [] 0 0 0 0 Z_OK) in
        let s := s <| l_in := have_in s |> <| l_out := l_left s |> in
        let '(s, e) := run (inflate_fuel s) flush s in
        match e with
        | Leave => let '(s, r) := inf_leave flush s in Some (strm s, Some (state s), glob s, r)
        | Return r => Some (strm s, Some (state s), glob s, r)
        | Diverge => None
        end
  end.

Definition j_inflateEnd (zs : z_stream) (state : option inflate_state)
    : z_stream * option inflate_state * Z :=
  if inflateStateCheck zs state then (zs, state, Z_STREAM_ERROR) else (zs, None, Z_OK).
