(* ===== verification/Deflate.v ===== *)
(** * The re-encoder (partial/libz_j/deflate.c)

    [j_deflate] reads the instruction stream [j_inflate] writes, decodes each
    captured block header with [inflate_table_my], collects the symbols of the
    block in [sym_buf] and encodes it again with trees.c. *)
From Stdlib Require Import String.
From S2P Require Import Prelude Adler32 DeflateTables Inftrees Zlib Bitstream DeflateState Trees.
#[local] Open Scope string_scope.
#[local] Open Scope Z_scope.
#[local] Open Scope list_scope.

(** ** Initialisation and the stream interface *)

(** [strm->state] is [None] for a null pointer *)
Definition deflateStateCheck (zs : z_stream) (state : option deflate_state) : bool :=
  if negb (zalloc_set zs) || negb (zfree_set zs) then true
  else match state with
       | None => true
       | Some s =>
           negb (ds_strm s =? zs_addr zs)
           || negb (bool_decide (status s ∈ [INIT_STATE; EXTRA_STATE; NAME_STATE; COMMENT_STATE;
                                             HCRC_STATE; BUSY_STATE; FINISH_STATE]))
       end.

Definition j_deflateResetKeep (zs : z_stream) (state : option deflate_state)
    : z_stream * option deflate_state * Z :=
  match state with
  | Some s =>
      if deflateStateCheck zs state then (zs, state, Z_STREAM_ERROR)
      else
        let zs := zs <| total_in := 0 |> <| total_out := 0 |> <| msg := None |>
                     <| data_type := Z_UNKNOWN |> in
        let s := s <| pending := 0 |> <| pending_out := 0 |> in
        let s := if wrap s <? 0 then s <| wrap := - wrap s |> else s in
        let s := s <| status := INIT_STATE |> in
        let zs := zs <| adler := adler32 0 None |> in
        let s := s <| last_flush := -2 |> in
        (zs, Some (j_tr_init s), Z_OK)
  | None => (zs, state, Z_STREAM_ERROR)
  end.
Definition j_deflateReset := j_deflateResetKeep.

Definition j_deflateEnd (zs : z_stream) (state : option deflate_state)
    : z_stream * option deflate_state * Z :=
  if deflateStateCheck zs state then (zs, state, Z_STREAM_ERROR)
  else match state with
       | Some s => (zs, None, if status s =? BUSY_STATE then Z_DATA_ERROR else Z_OK)
       | None => (zs, None, Z_STREAM_ERROR)
       end.

(** [mem] is what [ZALLOC] returns for the state: [None], or memory of arbitrary contents;
    [bufs] tells whether the four buffers were allocated *)
Definition j_deflateInit2_ (zs : z_stream) (state mem : option deflate_state) (bufs : bool)
    (level_ method_ windowBits memLevel strategy_ : Z) : z_stream * option deflate_state * Z :=
  let zs := zs <| msg := None |> <| zalloc_set := true |> <| zfree_set := true |> in
  let level_ := if level_ =? Z_DEFAULT_COMPRESSION then 6 else level_ in
  let wrap_ := if windowBits <? 0 then 0 else 1 in
  if windowBits <? -15 then (zs, state, Z_STREAM_ERROR) else
  let windowBits := Z.abs windowBits in
  if (memLevel <? 1) || (memLevel >? MAX_MEM_LEVEL) || negb (method_ =? Z_DEFLATED)
     || (windowBits <? 8) || (windowBits >? 15) || (level_ <? 0) || (level_ >? 9)
     || (strategy_ <? 0) || (strategy_ >? Z_FIXED) || ((windowBits =? 8) && negb (wrap_ =? 1))
  then (zs, state, Z_STREAM_ERROR) else
  let windowBits := if windowBits =? 8 then 9 else windowBits in
  match mem with
  | None => (zs, state, Z_MEM_ERROR)
  | Some s =>
      let s := s <| ds_strm := zs_addr zs |> <| status := INIT_STATE |> <| wrap := wrap_ |>
                 <| gzhead := 0 |> <| w_bits := windowBits |> <| w_size := Z.shiftl 1 windowBits |>
                 <| w_mask := Z.shiftl 1 windowBits - 1 |> in
      let s := s <| hash_bits := memLevel + 7 |> <| hash_size := Z.shiftl 1 (memLevel + 7) |>
                 <| hash_mask := Z.shiftl 1 (memLevel + 7) - 1 |>
                 <| hash_shift := (memLevel + 7 + MIN_MATCH - 1) / MIN_MATCH |> in
      let s := s <| high_water := 0 |> <| lit_bufsize := Z.shiftl 1 (memLevel + 6) |> in
      let s := s <| pending_buf_size := lit_bufsize s * 16 |> in
      if negb bufs then
        let s := s <| status := FINISH_STATE |> in
        let zs := zs <| msg := Some (ERR_MSG Z_MEM_ERROR) |> in
        let '(zs, state, _) := j_deflateEnd zs (Some s) in (zs, state, Z_MEM_ERROR)
      else
        let s := s <| sym_buf := lit_bufsize s |> <| sym_end := (lit_bufsize s - 1) * 12 |> in
        let s := s <| level := level_ |> <| strategy := strategy_ |> <| method := u8 method_ |> in
        let s := s <| mode := DM.HEAD |> in
        j_deflateReset zs (Some s)
  end.
Definition j_deflateInit_ (zs : z_stream) (state mem : option deflate_state) (bufs : bool) (level : Z) :=
  j_deflateInit2_ zs state mem bufs level Z_DEFLATED MAX_WBITS DEF_MEM_LEVEL Z_DEFAULT_STRATEGY.

Definition j_deflateSetHeader (zs : z_stream) (state : option deflate_state) (head : Z)
    : option deflate_state * Z :=
  match state with
  | Some s => if deflateStateCheck zs state || negb (wrap s =? 2) then (state, Z_STREAM_ERROR)
              else (Some (s <| gzhead := head |>), Z_OK)
  | None => (state, Z_STREAM_ERROR)
  end.
(** the values stored through [pending] and [bits] *)
Definition j_deflatePending (zs : z_stream) (state : option deflate_state) : option (Z * Z) * Z :=
  match state with
  | Some s => if deflateStateCheck zs state then (None, Z_STREAM_ERROR)
              else (Some (pending s, bi_valid s), Z_OK)
  | None => (None, Z_STREAM_ERROR)
  end.

Definition putShortMSB (s : deflate_state) (b : Z) : deflate_state :=
  put_byte (put_byte s (Z.shiftr b 8)) (Z.land b 0xff).

(** [flush_pending]: as much of the pending bytes as [avail_out] allows *)
Definition flush_pending (zs : z_stream) (s : deflate_state) : z_stream * deflate_state :=
  let s := j_tr_flush_bits s in
  let len := pending s in
  let len := if len >? avail_out zs then avail_out zs else len in
  if len =? 0 then (zs, s)
  else
    let zs := zs <| next_out := next_out zs ++ aread 0 (pending_buf s) (pending_out s) (Z.to_nat len) |>
                 <| total_out := u64 (total_out zs + len) |>
                 <| avail_out := avail_out zs - len |> in
    let s := s <| pending_out := pending_out s + len |> <| pending := pending s - len |> in
    (zs, if pending s =? 0 then s <| pending_out := 0 |> else s).

(** [read_buf]: the bytes put into [buf]; their number is the C function's result *)
Definition read_buf (zs : z_stream) (s : deflate_state) (size : Z) : z_stream * list Z :=
  let len := if avail_in zs >? size then size else avail_in zs in
  if len =? 0 then (zs, [])
  else
    let buf := take (Z.to_nat len) (next_in zs) in
    let zs := if wrap s =? 1 then zs <| adler := adler32 (adler zs) (Some buf) |> else zs in
    (zs <| next_in := drop (Z.to_nat len) (next_in zs) |> <| total_in := u64 (total_in zs + len) |>,
     buf).

(** ** The machine of [deflate_my] *)

(** The file-scope buffers of deflate.c; the three counters declared beside them are shadowed by
    the locals below and never used. *)
Record def_globals := mk_dg {
  insbuf : arr Z; de_ins_buf : arr Z }.
#[export] Instance eta_def_globals : Settable def_globals := fun r =>
  mk_dg (insbuf r) (de_ins_buf r).
(** The variables HEAD declares inside the [switch]: they shadow the globals of the same names in
    every later [case]. *)
Record ins_locals := mk_il {
  de_ins_buf_index : Z; de_ins_buf_have : Z; de_ins_type : Z }.
#[export] Instance eta_ins_locals : Settable ins_locals := fun r =>
  mk_il (de_ins_buf_index r) (de_ins_buf_have r) (de_ins_type r).
(** What [deflate_my] runs on; [have] is the length of [d_next]. *)
Record dm := mk_dm {
  d_strm : z_stream; d_state : deflate_state; d_glob : def_globals; d_locals : ins_locals;
  d_next : list Z; d_hold : Z; d_bits : Z; d_in : Z; d_out : Z; d_ret : Z }.
#[export] Instance eta_dm : Settable dm := fun r =>
  mk_dm (d_strm r) (d_state r) (d_glob r) (d_locals r) (d_next r) (d_hold r) (d_bits r)
    (d_in r) (d_out r) (d_ret r).
#[export] Program Instance dm_reader : BitReader dm := {
  rd_next := d_next; rd_hold := d_hold; rd_bits := d_bits;
  rd_set l h b s := s <| d_next := l |> <| d_hold := h |> <| d_bits := b |> }.
Solve All Obligations with by intros; repeat match goal with x : dm |- _ => destruct x end.

Abbreviation get f := (gets (fun s : dm => f (d_state s))).
Definition upd (g : deflate_state -> deflate_state) : M dm unit :=
  modify (fun s => s <| d_state := g (d_state s) |>).
Definition upd_glob (g : def_globals -> def_globals) : M dm unit :=
  modify (fun s => s <| d_glob := g (d_glob s) |>).
Definition set_mode (x : DM.deflate_mode) : M dm unit := upd (fun st => st <| mode := x |>).
(** [strm->msg = text; state->mode = BAD] *)
Definition bad (text : string) : M dm unit :=
  modify (fun s => s <| d_strm := (d_strm s) <| msg := Some text |> |>);; set_mode DM.BAD.
Definition set_ret (r : Z) : M dm unit := modify (fun s => s <| d_ret := r |>).
(** [x = BITS(n); DROPBITS(n)] *)
Definition take_bits (n : Z) : M dm Z := v ← gets (BITS n); drop_bits n;; mret v.

(** ** The handlers of the [switch] *)

Definition h_SENDINS : M dm unit :=
  s ← gets id;
  let zs := d_strm s in
  if avail_out zs =? 0 then leave else
  let l := d_locals s in
  let avail := de_ins_buf_have l - de_ins_buf_index l in
  let copy := if avail >? avail_out zs then avail_out zs else u32 avail in
  modify (fun s => s
    <| d_strm := zs <| avail_out := u32 (avail_out zs - copy) |>
                    <| next_out := next_out zs ++
                         map u8 (aread 0 (de_ins_buf (d_glob s)) (de_ins_buf_index l) (Z.to_nat copy)) |> |>
    <| d_locals := l <| de_ins_buf_index := de_ins_buf_index l + copy |> |>);;
  l ← gets d_locals;
  when (de_ins_buf_index l =? de_ins_buf_have l)
    (if de_ins_type l =? 0 then set_mode DM.TYPE
     else if de_ins_type l =? 1 then set_ret Z_STREAM_END;; leave
     else skip).
Definition set_locals (l : ins_locals) : M dm unit := modify (fun s => s <| d_locals := l |>).
Definition set_de_ins (i v : Z) : M dm unit :=
  upd_glob (fun g => g <| de_ins_buf := aset (de_ins_buf g) i v |>).
Definition h_HEAD : M dm unit :=
  w ← get wrap;
  if w =? 0 then set_mode DM.TYPEDO
  else
    NEEDBITS 8;; v ← take_bits 8; set_de_ins 0 v;;
    NEEDBITS 8;; v ← take_bits 8; set_de_ins 1 v;;
    set_locals (mk_il 0 2 0);;
    set_mode DM.SENDINS.
Definition h_DONE : M dm unit :=
  w ← get wrap;
  if w =? 0 then set_ret Z_STREAM_END;; leave
  else
    NEEDBITS 32;;
    set_locals (mk_il 0 4 1);;
    v ← take_bits 8; set_de_ins 0 v;;
    v ← take_bits 8; set_de_ins 1 v;;
    v ← take_bits 8; set_de_ins 2 v;;
    v ← take_bits 8; set_de_ins 3 v;;
    INITBITS;;
    set_mode DM.SENDINS;; h_SENDINS.
Definition h_BAD : M dm unit := set_ret Z_DATA_ERROR;; leave.

Definition h_ENDOFBLOCK : M dm unit :=
  set_mode DM.TYPE;;
  upd (fun st => tr_flush_block_my st (sym_buf st) (sym_next st) (ttype st) (last_ st));;
  s ← gets id;
  let '(zs, st) := flush_pending (d_strm s) (d_state s) in
  modify (fun s => s <| d_strm := zs |> <| d_state := st |>);;
  when (avail_out zs =? 0) leave.

(** [_tr_tally_...(state, ..., bflush); if (bflush) return 1; state->mode = LEN] *)
Definition tally (f : deflate_state -> deflate_state * bool) : M dm unit :=
  st ← gets d_state;
  let '(st, bflush) := f st in
  upd (fun _ => st);;
  if bflush : bool then exit_with (Return 1) else set_mode DM.LEN.
Definition h_LIT : M dm unit := tally (fun st => tr_tally_lit_my st (length_ st)).
Definition h_MATCH : M dm unit := tally (fun st => tr_tally_dist_my st (offset st) (length_ st)).

Definition set_insbuf (i v : Z) : M dm unit :=
  upd_glob (fun g => g <| insbuf := aset (insbuf g) i v |>).
Definition get_insbuf (i : Z) : M dm Z := gets (fun s => aget 0 (insbuf (d_glob s)) i).
Definition h_INS2 : M dm unit :=
  NEEDBITS 16;;
  v ← take_bits 8; set_insbuf 2 v;;
  v ← take_bits 8; set_insbuf 3 v;;
  set_mode DM.MATCH;;
  i1 ← get_insbuf 1; i2 ← get_insbuf 2; i3 ← get_insbuf 3;
  upd (fun st => st <| length_ := i3 |> <| offset := u32 (i2 + Z.shiftl i1 8) |>);;
  h_MATCH.
Definition h_INS1 : M dm unit :=
  NEEDBITS 8;;
  v ← take_bits 8; set_insbuf 1 v;;
  if v =? 0xaa then upd (fun st => st <| length_ := 0xaa |>);; set_mode DM.LIT
  else if v =? 0xff then set_mode DM.ENDOFBLOCK
  else if v >? 0x80 then bad "invalid literal/length code"
  else set_mode DM.INS2;; h_INS2.
Definition h_LEN : M dm unit :=
  NEEDBITS 8;;
  v ← take_bits 8; set_insbuf 0 v;;
  if negb (v =? 0xaa) then upd (fun st => st <| length_ := v |>);; set_mode DM.LIT
  else set_mode DM.INS1;; h_INS1.
Definition h_LEN_ : M dm unit := INITBITS;; set_mode DM.LEN;; h_LEN.

Definition h_SKPI_HEADER_END : M dm unit :=
  BYTEBITS;;
  NEEDBITS 16;; drop_bits 16;;
  t ← get ttype;
  set_mode (match t with STORE => DM.COPY_ | _ => DM.LEN_ end).

(** [while (copy--) state->lens[state->have++] = len] *)
Fixpoint put_lens (n : nat) (len : Z) (st : deflate_state) : deflate_state :=
  match n with
  | O => st
  | S n => put_lens n len
      (st <| lens := aset (lens st) (have st) (u16 len) |> <| have := u32 (have st + 1) |>)
  end.
(** one turn of [while (state->have < state->nlen + state->ndist)]; [Some tt] leaves it *)
Definition codelens_turn : M dm (option unit) :=
  st ← gets d_state;
  if have st <? nlen st + ndist st then
    here ← lookup_loop 40 (fun s : dm =>
      aget code_zero (codes (d_state s)) (lencode (d_state s) + BITS (lenbits (d_state s)) s)) cbits;
    if val here <? 16 then
      drop_bits (cbits here);; upd (put_lens 1 (val here));; mret None
    else
      st ← gets d_state;
      lc ← (if val here =? 16 then
              NEEDBITS (cbits here + 2);; drop_bits (cbits here);;
              if have st =? 0 then bad "invalid bit length repeat";; mret None
              else v ← gets (BITS 2); drop_bits 2;;
                   mret (Some (aget 0 (lens st) (have st - 1), 3 + v))
            else if val here =? 17 then
              NEEDBITS (cbits here + 3);; drop_bits (cbits here);;
              v ← gets (BITS 3); drop_bits 3;; mret (Some (0, 3 + v))
            else
              NEEDBITS (cbits here + 7);; drop_bits (cbits here);;
              v ← gets (BITS 7); drop_bits 7;; mret (Some (0, 11 + v)));
      match lc with
      | None => mret (Some tt)
      | Some (len, copy) =>
          if have st + copy >? nlen st + ndist st then
            bad "invalid bit length repeat";; mret (Some tt)
          else upd (put_lens (Z.to_nat copy) len);; mret None
      end
  else mret (Some tt).

(** [ret = inflate_table_my(type, lens + off, codes, &state->next, bits, state->work, tree)] *)
Definition build_table (type : codetype) (off n nbits : deflate_state -> Z)
    (set_bits : Z -> deflate_state -> deflate_state)
    (tree : deflate_state -> arr ct_data) (set_tree : arr ct_data -> deflate_state -> deflate_state)
    : M dm Z :=
  st ← gets d_state;
  match inflate_table_my type (fun i => aget 0 (lens st) (off st + i)) (n st) (next st) (nbits st)
          (codes st) (work st) (tree st) with
  | None => exit_with Diverge
  | Some r =>
      upd (fun st => set_tree (r_tree r) (set_bits (r_bits r)
             (st <| codes := r_mem r |> <| work := r_work r |> <| next := r_table r |>)));;
      set_ret (r_ret r);; mret (r_ret r)
  end.

Definition h_CODELENS (flush : Z) : M dm unit :=
  repeat_m 400 codelens_turn;;
  st ← gets d_state;
  if bool_decide (mode st = DM.BAD) then skip
  else if aget 0 (lens st) 256 =? 0 then bad "invalid code -- missing end-of-block"
  else
    upd (fun st => st <| next := 0 |> <| lencode := 0 |> <| lenbits := 9 |>);;
    ret ← build_table LENS (fun _ => 0) nlen lenbits (fun b st => st <| lenbits := b |>)
            dyn_ltree (fun t st => st <| dyn_ltree := t |>);
    if negb (ret =? 0) then bad "invalid literal/lengths set"
    else
      upd (fun st => st <| distcode := next st |> <| distbits := 6 |>);;
      ret ← build_table DISTS nlen ndist distbits (fun b st => st <| distbits := b |>)
              dyn_dtree (fun t st => st <| dyn_dtree := t |>);
      if negb (ret =? 0) then bad "invalid distances set"
      else
        set_mode DM.SKPI_HEADER_END;;
        when (flush =? Z_TREES) leave.

(** the two loops of LENLENS *)
Definition lenlens_turn : M dm (option unit) :=
  st ← gets d_state;
  if have st <? ncode st then
    NEEDBITS 3;; v ← gets (BITS 3);
    upd (fun st => st <| lens := aset (lens st) (tget 0 order (have st)) v |>
                      <| have := have st + 1 |>);;
    drop_bits 3;; mret None
  else mret (Some tt).
Fixpoint zero_lens (n : nat) (st : deflate_state) : deflate_state :=
  match n with
  | O => st
  | S n => if have st <? 19
           then zero_lens n (st <| lens := aset (lens st) (tget 0 order (have st)) 0 |>
                                <| have := have st + 1 |>)
           else st
  end.
Definition h_LENLENS (flush : Z) : M dm unit :=
  repeat_m 20 lenlens_turn;;
  upd (zero_lens 19);;
  upd (fun st => st <| next := 0 |> <| lencode := 0 |> <| lenbits := 7 |>);;
  ret ← build_table CODES (fun _ => 0) (fun _ => 19) lenbits (fun b st => st <| lenbits := b |>)
          bl_tree (fun t st => st <| bl_tree := t |>);
  if negb (ret =? 0) then bad "invalid code lengths set"
  else upd (fun st => st <| have := 0 |>);; set_mode DM.CODELENS;; h_CODELENS flush.
Definition h_TABLE (flush : Z) : M dm unit :=
  NEEDBITS 14;;
  v ← gets (BITS 5); upd (fun st => st <| nlen := v + 257 |> <| l_max_code := v + 257 |>);; drop_bits 5;;
  v ← gets (BITS 5); upd (fun st => st <| ndist := v + 1 |> <| d_max_code := v + 1 |>);; drop_bits 5;;
  v ← gets (BITS 4); upd (fun st => st <| ncode := v + 4 |>);; drop_bits 4;;
  upd (fun st => st <| have := 0 |>);; set_mode DM.LENLENS;; h_LENLENS flush.

Definition h_COPY : M dm unit :=
  st ← gets d_state;
  let copy := length_ st in
  if negb (copy =? 0) then
    s ← gets id;
    let copy := if copy >? have_in s then have_in s else copy in
    if copy =? 0 then leave
    else
      upd (fun st => st <| pending_buf := awrite (pending_buf st) (sym_buf st + sym_next st)
                             (take (Z.to_nat copy) (d_next s)) |>);;
      modify (fun s => s <| d_next := drop (Z.to_nat copy) (d_next s) |>);;
      upd (fun st => st <| sym_next := u32 (sym_next st + copy) |>
                        <| length_ := length_ st - copy |>)
  else
    NEEDBITS 16;; drop_bits 16;;
    set_mode DM.ENDOFBLOCK.
Definition h_COPY_ : M dm unit := set_mode DM.COPY;; h_COPY.
Definition h_STORED : M dm unit :=
  BYTEBITS;;
  NEEDBITS 32;;
  h ← gets d_hold;
  if negb (Z.land h 0xffff =? Z.lxor (Z.shiftr h 16) 0xffff)
  then bad "invalid stored block lengths"
  else
    upd (fun st => st <| length_ := Z.land (u32 h) 0xffff |>);;
    INITBITS;; set_mode DM.SKPI_HEADER_END.

Definition h_TYPEDO (flush : Z) : M dm unit :=
  upd (fun st => st <| bl_tree := ∅ |> <| dyn_ltree := ∅ |> <| dyn_dtree := ∅ |>);;
  l ← get last_;
  if negb (l =? 0) then BYTEBITS;; set_mode DM.DONE
  else
    NEEDBITS 3;;
    v ← gets (BITS 1); upd (fun st => st <| last_ := v |>);; drop_bits 1;;
    v ← gets (BITS 2);
    (if v =? 0 then upd (fun st => st <| ttype := STORE |>);; set_mode DM.STORED
     else if v =? 1 then
       set_mode DM.SKPI_HEADER_END;; upd (fun st => st <| ttype := FIXED |>);;
       when (flush =? Z_TREES) (drop_bits 2;; leave)
     else if v =? 2 then set_mode DM.TABLE;; upd (fun st => st <| ttype := DYNAMIC |>)
     else bad "invalid block type");;
    drop_bits 2.
Definition h_TYPE (flush : Z) : M dm unit :=
  if (flush =? Z_BLOCK) || (flush =? Z_TREES) then leave else h_TYPEDO flush.

Definition dispatch (flush : Z) : M dm unit :=
  m ← get mode;
  match m with
  | DM.HEAD => h_HEAD | DM.TYPE => h_TYPE flush | DM.TYPEDO => h_TYPEDO flush
  | DM.STORED => h_STORED | DM.COPY_ => h_COPY_ | DM.COPY => h_COPY
  | DM.TABLE => h_TABLE flush | DM.LENLENS => h_LENLENS flush | DM.CODELENS => h_CODELENS flush
  | DM.SKPI_HEADER_END => h_SKPI_HEADER_END
  | DM.LEN_ => h_LEN_ | DM.LEN => h_LEN | DM.INS1 => h_INS1 | DM.INS2 => h_INS2
  | DM.MATCH => h_MATCH | DM.LIT => h_LIT | DM.DONE => h_DONE | DM.SENDINS => h_SENDINS
  | DM.BAD => h_BAD | DM.MEM => exit_with (Return Z_MEM_ERROR) | DM.ENDOFBLOCK => h_ENDOFBLOCK
  | _ => exit_with (Return Z_STREAM_ERROR)
  end.

(** ** [deflate_my] and [j_deflate] *)

Section Machine.
(** What C leaves open: the values the locals of the [switch] block have each time the block is
    entered (a jump to a later [case] skips their initialisers), as a function of the values they
    had when it was left, and the initial value of [out], which is never assigned. *)
Context (indet : ins_locals -> ins_locals) (out0 : Z).

(** one turn of [for (;;) switch] *)
Definition turn (flush : Z) : M dm unit := fun s => dispatch flush (s <| d_locals := indet (d_locals s) |>).
Definition run (fuel : nat) (flush : Z) (s : dm) : dm * exit := forever (turn flush) fuel s.

Definition LOAD (s : dm) : dm :=
  s <| d_next := next_in (d_strm s) |> <| d_hold := hold (d_state s) |>
    <| d_bits := bits (d_state s) |>.
Definition RESTORE (s : dm) : dm :=
  s <| d_strm := (d_strm s) <| next_in := d_next s |> |>
    <| d_state := (d_state s) <| hold := d_hold s |> <| bits := d_bits s |> |>.
Definition inf_leave (flush : Z) (s : dm) : dm * Z :=
  let s := RESTORE s in
  let in_ := u32 (d_in s - avail_in (d_strm s)) in
  let out := u32 (d_out s - avail_out (d_strm s)) in
  let s := s <| d_strm := (d_strm s) <| total_in := u64 (total_in (d_strm s) + in_) |>
                                     <| total_out := u64 (total_out (d_strm s) + out) |> |> in
  let ret := d_ret s in
  (s, if (((in_ =? 0) && (out =? 0)) || (flush =? Z_FINISH)) && (ret =? Z_OK)
      then Z_BUF_ERROR else ret).

Definition deflate_fuel (s : dm) : nat :=
  (64 * (8 * length (d_next s) + Z.to_nat (d_bits s) + 4))%nat.

(** [None]: the loop did not end within its fuel *)
Definition deflate_my (zs : z_stream) (st : deflate_state) (g : def_globals) (l : ins_locals)
    (flush : Z) : option (z_stream * deflate_state * def_globals * Z) :=
  if next_out_null zs || (next_in_null zs && negb (avail_in zs =? 0))
  then Some (zs, st, g, Z_STREAM_ERROR)
  else
    let st := if bool_decide (mode st = DM.TYPE) then st <| mode := DM.TYPEDO |> else st in
    let s := LOAD (mk_dm zs st g l [] 0 0 0 out0 Z_OK) in
    let s := s <| d_in := have_in s |> in
    let '(s, e) := run (deflate_fuel s) flush s in
    match e with
    | Leave => let '(s, r) := inf_leave flush s in Some (d_strm s, d_state s, d_glob s, r)
    | Return r => Some (d_strm s, d_state s, d_glob s, r)
    | Diverge => None
    end.

Definition RANK (f : Z) : Z := f * 2 - (if f >? 4 then 9 else 0).

Definition j_deflate (zs : z_stream) (state : option deflate_state) (g : def_globals)
    (l : ins_locals) (flush : Z) : option (z_stream * option deflate_state * def_globals * Z) :=
  match state with
  | None => Some (zs, state, g, Z_STREAM_ERROR)
  | Some s =>
      if deflateStateCheck zs state || (flush >? Z_BLOCK) || (flush <? 0)
      then Some (zs, state, g, Z_STREAM_ERROR)
      else if next_out_null zs || (negb (avail_in zs =? 0) && next_in_null zs)
              || ((status s =? FINISH_STATE) && negb (flush =? Z_FINISH))
      then Some (ERR_RETURN zs Z_STREAM_ERROR, state, g, Z_STREAM_ERROR)
      else if avail_out zs =? 0
      then Some (ERR_RETURN zs Z_BUF_ERROR, state, g, Z_BUF_ERROR)
      else
        let old_flush := last_flush s in
        let s := s <| last_flush := flush |> in
        let go zs s :=
          match deflate_my zs s g l flush with
          | None => None
          | Some (zs, s, g, ret) =>
              if negb (ret =? Z_OK) && negb (ret =? Z_STREAM_END) then Some (zs, Some s, g, ret)
              else Some (zs, Some s, g, if negb (pending s =? 0) then Z_OK else Z_STREAM_END)
          end in
        if negb (pending s =? 0) then
          let '(zs, s) := flush_pending zs s in
          if avail_out zs =? 0 then Some (zs, Some (s <| last_flush := -1 |>), g, Z_OK)
          else go zs s
        else if (avail_in zs =? 0) && (RANK flush <=? RANK old_flush) && negb (flush =? Z_FINISH)
        then Some (ERR_RETURN zs Z_BUF_ERROR, Some s, g, Z_BUF_ERROR)
        else go zs s
  end.
End Machine.
