(* ===== verification/Drivers.v ===== *)
(** * The command-line drivers (partial/decode_docker.cpp, encode_docker.cpp)

    [decode_docker] turns a gzip file into a "fri" file: the offset of the
    deflate data, the gzip header, the instruction stream, the gzip trailer;
    [encode_docker] turns it back.  A [FILE] open for reading is the list of
    bytes from its position, a file opened with "ab" the bytes appended to it.
    Reads and writes are assumed not to fail. *)
From S2P Require Import Prelude Zlib Bitstream.
From S2P Require InflateState Inflate DeflateState Deflate.

Definition CHUNK : Z := 16384.
Definition GZIP_HEADER_LEN : nat := 10.
Definition FTEXT : Z := 1.
Definition FHCRC : Z := 2.
Definition FEXTRA : Z := 4.
Definition FNAME : Z := 8.
Definition FCOMMENT : Z := 16.

Definition file_at (file : list Z) (pos : Z) : list Z := drop (Z.to_nat pos) file.
Definition byte_at (l : list Z) (i : nat) : Z := nth i l 0.
Definition has_flag (flags f : Z) : bool := negb (Z.land flags f =? 0).

(** ** decode_docker.cpp: parseGzipFile *)

(** [ParseFail]: an early return, [*_offset] and [*_len] stay as they were; [ParseLoop]: the loop
    waiting for a zero byte never ends, [fgetc] giving EOF forever *)
Inductive parse_result := ParseFail | ParseLoop | Parsed (offset len : Z).

(** [while (1) { e_len++; c = fgetc(file); if (c == 0) break; }] *)
Fixpoint skip_string (l : list Z) (e_len : Z) : option (list Z * Z) :=
  match l with
  | [] => None
  | c :: l => if c =? 0 then Some (l, e_len + 1) else skip_string l (e_len + 1)
  end.

(** [extra0]: the contents of the uninitialised [extraLen] when [fread] finds no two bytes *)
Definition parseGzipFile (extra0 : Z) (file : list Z) : parse_result :=
  if (length file <? GZIP_HEADER_LEN)%nat then ParseFail
  else if negb (byte_at file 0 =? 0x1f) || negb (byte_at file 1 =? 0x8b) then ParseFail
  else
    let flags := byte_at file 3 in
    let fileSize := Z.of_nat (length file) in
    let l := drop 10 file in
    let '(l, e_len) :=
      if has_flag flags FEXTRA then
        let extraLen := match l with b0 :: b1 :: _ => b0 + 256 * b1 | _ => extra0 end in
        (drop (Z.to_nat extraLen) (drop 2 l), extraLen)
      else (l, 0) in
    match (if has_flag flags FNAME then skip_string l e_len else Some (l, e_len)) with
    | None => ParseLoop
    | Some (l, e_len) =>
        match (if has_flag flags FCOMMENT then skip_string l e_len else Some (l, e_len)) with
        | None => ParseLoop
        | Some (l, e_len) =>
            let e_len := if has_flag flags FHCRC then e_len + 2 else e_len in
            let offset := Z.of_nat GZIP_HEADER_LEN + e_len in
            Parsed offset (fileSize - offset - 8)
        end
    end.

(** ** copyBytes (both drivers) *)

(** [fread] fills a prefix of [buffer], whatever it can read; [fwrite] writes [bytesToRead] bytes of
    [buffer] in any case.  The result is the rest of the input and the bytes written. *)
Fixpoint copyBytes (fuel : nat) (buffer input : list Z) (length_ : Z) : list Z * list Z :=
  match fuel with
  | O => (input, [])
  | S f =>
      if length_ >? 0 then
        let bytesToRead := if length_ <? CHUNK then length_ else CHUNK in
        let got := take (Z.to_nat bytesToRead) input in
        let buffer := got ++ drop (length got) buffer in
        let out := take (Z.to_nat bytesToRead) buffer in
        let '(input, rest) :=
          copyBytes f buffer (drop (Z.to_nat bytesToRead) input) (length_ - bytesToRead) in
        (input, out ++ rest)
      else (input, [])
  end.
(** a turn copies at least one byte *)
Definition copy (buffer input : list Z) (length_ : Z) : list Z :=
  (copyBytes (S (Z.to_nat length_)) buffer input length_).2.

(** ** decode_docker.cpp: decompressBytes and j_build_fri *)

Section Decode.
Import InflateState Inflate.

(** what the program leaves to its memory: the uninitialised [z_stream], the state [malloc]
    returns and the copy buffer *)
Context (zs0 : z_stream) (mem : option inflate_state) (buffer0 : list Z).

(** [do { ... } while (stream.avail_out == 0)]: the output, and whether it ended without an
    error return *)
Fixpoint inflate_chunk (fuel : nat) (zs : z_stream) (st : option inflate_state) (g : inf_globals)
    (output : list Z) : option (z_stream * option inflate_state * inf_globals * list Z * bool) :=
  match fuel with
  | O => None
  | S f =>
      let zs := zs <| avail_out := CHUNK |> <| next_out := [] |> <| next_out_null := false |> in
      match j_inflate zs st g Z_NO_FLUSH with
      | None => None
      | Some (zs, st, g, ret) =>
          if bool_decide (ret ∈ [Z_NEED_DICT; Z_STREAM_ERROR; Z_DATA_ERROR; Z_MEM_ERROR])
          then let '(zs, st, _) := j_inflateEnd zs st in Some (zs, st, g, output, false)
          else
            let output := output ++ next_out zs in
            if avail_out zs =? 0 then inflate_chunk f zs st g output
            else Some (zs, st, g, output, true)
      end
  end.

(** [while (compressedLength > 0)] *)
Fixpoint decompress_loop (fuel : nat) (zs : z_stream) (st : option inflate_state) (g : inf_globals)
    (input : list Z) (compressedLength : Z) (output : list Z) : option (list Z * bool) :=
  match fuel with
  | O => None
  | S f =>
      if compressedLength >? 0 then
        let bytesToRead := if compressedLength <? CHUNK then compressedLength else CHUNK in
        let chunk := take (Z.to_nat bytesToRead) input in
        let zs := zs <| next_in := chunk |> <| next_in_null := false |> in
        match inflate_chunk (2 + 16 * length chunk + 1000) zs st g output with
        | None => None
        | Some (_, _, _, output, false) => Some (output, false)
        | Some (zs, st, g, output, true) =>
            decompress_loop f zs st g (drop (Z.to_nat bytesToRead) input)
              (compressedLength - bytesToRead) output
        end
      else Some (output, true)
  end.
(** the bytes written to [output] and the result; [*allUncom] is their number when it is true *)
Definition decompressBytes (file : list Z) (windowBits compressedStart compressedLength : Z)
    : option (list Z * bool) :=
  let zs := zs0 <| zalloc_set := false |> <| zfree_set := false |> <| next_in := [] |>
                <| next_in_null := true |> in
  let '(zs, st, _) := j_inflateInit2_ zs None mem windowBits in
  decompress_loop (S (Z.to_nat compressedLength)) zs st (mk_ig ∅ 0 0 0 0)
    (file_at file compressedStart) compressedLength [].

(** a 32-bit little-endian [int] *)
Definition int_bytes (x : Z) : list Z :=
  [u8 x; u8 (Z.shiftr x 8); u8 (Z.shiftr x 16); u8 (Z.shiftr x 24)].

(** the bytes appended to [frifile] *)
Definition j_build_fri (apk : list Z) (pos length_ winbit : Z) : option (list Z * bool) :=
  let out := int_bytes pos ++ copy buffer0 apk pos in
  match decompressBytes apk winbit pos (s32 length_) with
  | None => None
  | Some (ins, flag) =>
      let out := out ++ ins in
      let curPos := s32 (length_ + pos) in
      let fileSize := Z.of_nat (length apk) in
      let out :=
        if (fileSize >? curPos) && flag
        then out ++ copy buffer0 (file_at apk curPos) (s32 (fileSize - curPos)) else out in
      Some (out, flag)
  end.

(** [main]: a failed run is repeated as a zlib stream into a new file; [ParseFail] leaves offset
    and length uninitialised, here [undef] *)
Definition decode_main (extra0 : Z) (undef : Z * Z) (apk : list Z) : option (list Z * bool) :=
  match parseGzipFile extra0 apk with
  | ParseLoop => None
  | p =>
      let '(offset, len) := match p with Parsed o l => (o, l) | _ => undef end in
      match j_build_fri apk (s32 offset) len (-15) with
      | Some (out, false) => j_build_fri apk (s32 offset) len 15
      | r => r
      end
  end.
End Decode.

(** ** encode_docker.cpp: compress_data and j_compress_fri *)

(** [Aborted] is a failed [assert], [Stuck] a loop out of fuel *)
Inductive outcome (A : Type) := Done (x : A) | Aborted | Stuck.
Arguments Done {A}.
Arguments Aborted {A}.
Arguments Stuck {A}.

Section Encode.
Import DeflateState Deflate.

(** the memory [malloc] returns for the state, whether the buffers could be allocated, the values
    of the uninitialised locals of [deflate_my], and the copy buffer *)
Context (mem : option deflate_state) (bufs : bool) (indet : ins_locals -> ins_locals) (out0 : Z)
        (locals0 : ins_locals) (buffer0 : list Z).

(** [do { ... } while (strm.avail_out == 0)]: the last [ret], or the early [return ret] *)
Fixpoint deflate_chunk (fuel : nat) (zs : z_stream) (st : option deflate_state) (g : def_globals)
    (flush : Z) (dest : list Z)
    : outcome (z_stream * option deflate_state * def_globals * list Z * (Z + Z)) :=
  match fuel with
  | O => Stuck
  | S f =>
      let zs := zs <| avail_out := CHUNK |> <| next_out := [] |> <| next_out_null := false |> in
      match j_deflate indet out0 zs st g locals0 flush with
      | None => Stuck
      | Some (zs, st, g, ret) =>
          if ret =? Z_STREAM_ERROR then Aborted
          else
            let ret := if ret =? Z_NEED_DICT then Z_DATA_ERROR else ret in
            if (ret =? Z_DATA_ERROR) || (ret =? Z_MEM_ERROR) then
              let '(zs, st, _) := j_deflateEnd zs st in Done (zs, st, g, dest, inl ret)
            else
              let dest := dest ++ next_out zs in
              if avail_out zs =? 0 then deflate_chunk f zs st g flush dest
              else Done (zs, st, g, dest, inr ret)
      end
  end.

(** [do { ... } while (flush != Z_FINISH)] *)
Fixpoint compress_loop (fuel : nat) (zs : z_stream) (st : option deflate_state) (g : def_globals)
    (source : list Z) (needProcess : Z) (dest : list Z) : outcome (list Z * Z) :=
  match fuel with
  | O => Stuck
  | S f =>
      let curRead := if needProcess <? CHUNK then needProcess else CHUNK in
      let chunk := take (Z.to_nat curRead) source in
      let needProcess := needProcess - curRead in
      let flush := if needProcess <=? 0 then Z_FINISH else Z_NO_FLUSH in
      let zs := zs <| next_in := chunk |> <| next_in_null := false |> in
      match deflate_chunk (2 + 16 * length chunk + 1000) zs st g flush dest with
      | Stuck => Stuck
      | Aborted => Aborted
      | Done (_, _, _, dest, inl ret) => Done (dest, ret)
      | Done (zs, st, g, dest, inr ret) =>
          if negb (flush =? Z_FINISH)
          then compress_loop f zs st g (drop (Z.to_nat curRead) source) needProcess dest
          else if ret =? Z_STREAM_END then Done (dest, Z_OK) else Aborted
      end
  end.
Definition compress_data (source : list Z) (needProcess type start : Z) : outcome (list Z * Z) :=
  let zs := mk_stream [] 0 [] 0 0 None 0 0 true true false false 1 in
  let windowbits := if type =? 0 then -15 else 15 in
  let '(zs, st, ret) := j_deflateInit2_ zs None mem bufs 9 Z_DEFLATED windowbits 8 4 in
  if negb (ret =? Z_OK) then Done ([], ret)
  else compress_loop (S (Z.to_nat needProcess)) zs st (mk_dg ∅ ∅) (file_at source start) needProcess [].

(** the 32-bit [int] at the head of the file *)
Definition read_int (l : list Z) : Z :=
  s32 (byte_at l 0 + 256 * byte_at l 1 + 65536 * byte_at l 2 + 16777216 * byte_at l 3).

(** the bytes appended to [apk] and the result *)
Definition j_compress_fri (fri : list Z) (type : Z) : outcome (list Z * bool) :=
  let pos := read_int fri in
  let out := copy buffer0 (drop 4 fri) pos in
  let curPos := pos + 4 in
  let length_ := Z.of_nat (length fri) - curPos - 8 in
  match compress_data fri (s32 length_) type curPos with
  | Stuck => Stuck
  | Aborted => Aborted
  | Done (data, ret) =>
      if negb (ret =? 0) then Done (out ++ data, false)
      else
        let curPos := s32 (curPos + length_) in
        Done (out ++ data ++ copy buffer0 (file_at fri curPos) 8, true)
  end.
Definition encode_main (fri : list Z) : outcome (list Z * bool) :=
  match j_compress_fri fri 0 with
  | Done (_, false) => j_compress_fri fri 1
  | r => r
  end.
End Encode.
