(* ===== verification/Format.v ===== *)
(** * The instruction stream and the deflate symbol encoding

    The abstract symbols of a block, their bytes in the instruction stream that
    [j_inflate] writes and [deflate_my] reads, their three-byte form in [sym_buf],
    and their bits in the deflate format under a pair of code trees. *)
From S2P Require Import Prelude DeflateTables Zlib Bitstream InflateState Inffast.

Inductive symbol := Lit (b : Z) | Match (dist len : Z).

(** the ranges of RFC 1951 *)
Definition symbol_ok (x : symbol) : Prop :=
  match x with
  | Lit b => is_byte b
  | Match dist len => 1 <= dist <= 32768 /\ MIN_MATCH <= len <= MAX_MATCH
  end.

(** ** Instructions *)

Definition instr (x : symbol) : list Z :=
  match x with Lit b => ins_literal b | Match dist len => ins_match dist len end.
(** the instructions of one block *)
Definition instrs (l : list symbol) : list Z := flat_map instr l ++ ins_end.

(** a reader of the format: the symbols up to the end marker, and what follows it *)
Fixpoint parse_instrs (fuel : nat) (l : list Z) : option (list symbol * list Z) :=
  match fuel with
  | O => None
  | S fuel =>
      let more x l := match parse_instrs fuel l with
                      | Some (xs, l) => Some (x :: xs, l) | None => None end in
      match l with
      | [] => None
      | b :: l =>
          if negb (b =? 0xaa) then more (Lit b) l
          else match l with
               | [] => None
               | d1 :: l =>
                   if d1 =? 0xaa then more (Lit 0xaa) l
                   else if d1 =? 0xff then Some ([], l)
                   else if d1 >? 0x80 then None
                   else match l with
                        | d0 :: n :: l => more (Match (d0 + 256 * d1) (n + 3)) l
                        | _ => None
                        end
               end
      end
  end.

Lemma instr_bytes x : symbol_ok x -> bytes_ok (instr x).
Proof.
  destruct x as [b|dist len]; cbn [instr symbol_ok].
  - intros Hb. unfold ins_literal. destruct (b =? 0xaa); repeat constructor; apply u8_range.
  - intros _. unfold ins_match. repeat constructor; try apply u8_range; unfold is_byte; lia.
Qed.
Lemma flat_instr_bytes l : Forall symbol_ok l -> bytes_ok (flat_map instr l).
Proof.
  induction 1 as [|x l Hx _ IH]; cbn [flat_map]; [done|]. by apply Forall_app_2; [apply instr_bytes|].
Qed.
Lemma instrs_bytes l : Forall symbol_ok l -> bytes_ok (instrs l).
Proof.
  intros H. apply Forall_app_2; [by apply flat_instr_bytes|].
  repeat constructor; unfold is_byte; lia.
Qed.

(** the bytes of a match: [0xaa], then a high distance byte of at most [0x80] *)
Lemma ins_match_bytes dist len :
  1 <= dist <= 32768 -> MIN_MATCH <= len <= MAX_MATCH ->
  exists d1 d0, ins_match dist len = [0xaa; d1; d0; len - 3]
    /\ dist = d0 + 256 * d1 /\ 0 <= d1 <= 0x80 /\ is_byte d0 /\ is_byte (len - 3).
Proof.
  unfold MIN_MATCH, MAX_MATCH, ins_match, is_byte. intros Hd Hl.
  rewrite Z.shiftr_div_pow2 by lia. change (2 ^ 8) with 256.
  pose proof (Z.div_mod dist 256 ltac:(lia)). pose proof (Z.mod_pos_bound dist 256 ltac:(lia)).
  assert (0 <= dist / 256 <= 128).
  { split; [apply Z.div_pos; lia|]. apply Z.div_le_upper_bound; lia. }
  exists (dist / 256), (u8 dist). rewrite (u8_small (dist / 256)), (u8_small (len - 3)) by lia. unfold u8. change (2 ^ 8) with 256.
  split_and!; (done || lia).
Qed.

(** C19. The instruction format is unambiguous: reading the instructions of a block back gives the
    symbols they were written for and stops exactly at the end of the block, whatever follows. *)
Theorem instrs_roundtrip l rest fuel :
  Forall symbol_ok l -> (length l < fuel)%nat ->
  parse_instrs fuel (instrs l ++ rest) = Some (l, rest).
Proof.
  intros H. revert fuel. unfold instrs.
  induction H as [|x l Hx Hl IH]; intros fuel Hf; (destruct fuel as [|fuel]; [cbn in Hf; lia|]).
  { done. }
  cbn [flat_map]. rewrite <- !app_assoc. rewrite <- app_assoc in IH. cbn [length] in Hf.
  destruct x as [b|dist len]; cbn [symbol_ok instr] in *.
  - unfold ins_literal. unfold is_byte in Hx. rewrite u8_small by lia.
    destruct (Z.eqb_spec b 0xaa) as [->|Hb]; cbn [app parse_instrs].
    + change (negb (170 =? 170)) with false. cbv iota. change (170 =? 170) with true.
      by rewrite IH by lia.
    + destruct (Z.eqb_spec b 170); [lia|]. cbn [negb]. by rewrite IH by lia.
  - destruct Hx as [Hd Hlen].
    destruct (ins_match_bytes dist len Hd Hlen) as (d1 & d0 & -> & -> & H1 & H0 & H3).
    unfold is_byte in *. cbn [app parse_instrs]. change (negb (170 =? 170)) with false. cbv iota.
    destruct (Z.eqb_spec d1 170); [lia|]. destruct (Z.eqb_spec d1 255); [lia|].
    destruct (Z.gtb_spec d1 128); [lia|]. rewrite IH by lia.
    by replace (len - 3 + 3) with len by lia.
Qed.
Lemma instrs_roundtrip_witness :
  parse_instrs 4 (instrs [Lit 0xaa; Match 32768 258; Lit 7] ++ [1; 2])
  = Some ([Lit 0xaa; Match 32768 258; Lit 7], [1; 2]).
Proof.
  apply (instrs_roundtrip [Lit 0xaa; Match 32768 258; Lit 7] [1; 2] 4).
  - repeat constructor; cbn; unfold is_byte, MIN_MATCH, MAX_MATCH; lia.
  - cbn. lia.
Defined.

(** ** Symbols in [sym_buf] *)

(** the [(dist, lc)] pair a symbol is kept as: [dist = 0] for a literal *)
Definition sym_pair (x : symbol) : Z * Z :=
  match x with Lit b => (0, b) | Match dist len => (dist, len - MIN_MATCH) end.
Definition sym_bytes (x : symbol) : list Z :=
  let '(dist, lc) := sym_pair x in [dist mod 256; dist / 256; lc].

(** ** Symbols as bits *)

Definition code_bits (c : ct_data) : list bool := bits_of (Z.to_nat (dl c)) (fc c).
Definition length_code (len : Z) : Z := tget 0 j_length_code (len - MIN_MATCH).
Definition dist_code (dist : Z) : Z := d_code (dist - 1).
(** a value's code and its extra bits *)
Definition sym_bits (ltree dtree : Z -> ct_data) (x : symbol) : list bool :=
  match x with
  | Lit b => code_bits (ltree b)
  | Match dist len =>
      let lc := length_code len in
      let dc := dist_code dist in
      code_bits (ltree (lc + LITERALS + 1))
      ++ bits_of (Z.to_nat (tget 0 extra_lbits lc)) (len - MIN_MATCH - tget 0 base_length lc)
      ++ code_bits (dtree dc)
      ++ bits_of (Z.to_nat (tget 0 extra_dbits dc)) (dist - 1 - tget 0 base_dist dc)
  end.
(** the symbols of a block and its end code *)
Definition block_bits (ltree dtree : Z -> ct_data) (l : list symbol) : list bool :=
  flat_map (sym_bits ltree dtree) l ++ code_bits (ltree END_BLOCK).

(** the codes a symbol needs exist *)
Definition has_codes (ltree dtree : Z -> ct_data) (x : symbol) : Prop :=
  match x with
  | Lit b => 0 < dl (ltree b)
  | Match dist len => 0 < dl (ltree (length_code len + LITERALS + 1)) /\ 0 < dl (dtree (dist_code dist))
  end.

(** a tree of codes of at most 15 bits *)
Definition tree_ok (t : Z -> ct_data) : Prop :=
  forall c, 0 <= dl (t c) <= 15 /\ 0 <= fc (t c) < 2 ^ dl (t c).

(** ** The length and distance codes *)

(** the code is in range and its extra bits, if it has any, hold the offset from its base *)
Definition extra_ok (nc maxe c e base x : Z) : bool :=
  (0 <=? c) && (c <? nc) && (0 <=? e) && (e <=? maxe)
  && ((e =? 0) || ((0 <=? x - base) && (x - base <? 2 ^ e))).
Lemma extra_ok_spec nc maxe c e base x :
  extra_ok nc maxe c e base x = true ->
  0 <= c < nc /\ 0 <= e <= maxe /\ (e <> 0 -> 0 <= x - base < 2 ^ e).
Proof. unfold extra_ok. rewrite !andb_true_iff, orb_true_iff, andb_true_iff. lia. Qed.

Definition length_ok (lc : Z) : bool :=
  let c := tget 0 j_length_code lc in
  extra_ok LENGTH_CODES 5 c (tget 0 extra_lbits c) (tget 0 base_length c) lc.
Definition dist_ok (d : Z) : bool :=
  let c := d_code d in extra_ok D_CODES 13 c (tget 0 extra_dbits c) (tget 0 base_dist c) d.

Fixpoint all_below (n : nat) (P : Z -> bool) : bool :=
  match n with O => true | S n => P (Z.of_nat n) && all_below n P end.
Lemma all_below_spec n P : all_below n P = true -> forall x, 0 <= x < Z.of_nat n -> P x = true.
Proof.
  induction n as [|n IH]; cbn [all_below]; [lia|]. rewrite andb_true_iff. intros [H1 H2] x Hx.
  destruct (decide (x = Z.of_nat n)) as [->|]; [done|]. apply IH; [done|lia].
Qed.
Lemma length_ok_all : all_below 256 length_ok = true.
Proof. vm_compute. reflexivity. Qed.
(** distances below 256 have an entry each, the others one per 128 *)
Lemma dist_ok_low : all_below 256 dist_ok = true.
Proof. vm_compute. reflexivity. Qed.
Lemma dist_ok_high :
  all_below 256 (fun q => (q <? 2) || (dist_ok (128 * q) && dist_ok (128 * q + 127))) = true.
Proof. vm_compute. reflexivity. Qed.
Lemma d_code_high q r : 2 <= q -> 0 <= r < 128 -> d_code (128 * q + r) = d_code (128 * q).
Proof.
  intros Hq Hr. unfold d_code. destruct (Z.ltb_spec (128 * q + r) 256); [lia|].
  destruct (Z.ltb_spec (128 * q) 256); [lia|]. rewrite !Z.shiftr_div_pow2 by lia.
  change (2 ^ 7) with 128. do 2 f_equal. rewrite (Z.mul_comm 128 q), Z.div_add_l, Z.div_mul by lia.
  rewrite Z.div_small; lia.
Qed.

Lemma length_code_spec lc :
  is_byte lc ->
  let c := tget 0 j_length_code lc in
  0 <= c < LENGTH_CODES /\ 0 <= tget 0 extra_lbits c <= 5
  /\ (tget 0 extra_lbits c <> 0 -> 0 <= lc - tget 0 base_length c < 2 ^ tget 0 extra_lbits c).
Proof.
  intros H. apply extra_ok_spec. apply (all_below_spec _ _ length_ok_all). unfold is_byte in H. lia.
Qed.
Lemma dist_code_spec d :
  0 <= d < 32768 ->
  let c := d_code d in
  0 <= c < D_CODES /\ 0 <= tget 0 extra_dbits c <= 13
  /\ (tget 0 extra_dbits c <> 0 -> 0 <= d - tget 0 base_dist c < 2 ^ tget 0 extra_dbits c).
Proof.
  intros H. destruct (Z.ltb_spec d 256) as [Hlow|Hhigh].
  { apply extra_ok_spec. apply (all_below_spec _ _ dist_ok_low). lia. }
  pose proof (Z.div_mod d 128 ltac:(lia)) as Hd. pose proof (Z.mod_pos_bound d 128 ltac:(lia)) as Hr.
  set (q := d / 128) in *. set (r := d mod 128) in *. clearbody q r. subst d.
  pose proof (all_below_spec _ _ dist_ok_high q ltac:(lia)) as A. cbv beta in A.
  apply orb_true_iff in A as [A|A]; [lia|]. apply andb_true_iff in A as [A1 A2].
  apply extra_ok_spec in A1, A2. rewrite d_code_high in A2 by lia. rewrite d_code_high by lia.
  cbv zeta. destruct A1 as (A & B & C), A2 as (_ & _ & D).
  split; [done|split; [done|]]. intros He. specialize (C He). specialize (D He). lia.
Qed.
