(* ===== verification/Encode.v ===== *)
(** * What the block encoders write (partial/libz_j/trees.c)

    Every routine of trees.c appends a given bit string to the output: the
    symbols of a block, its end code, a stored block, the run-length coded code
    lengths of a dynamic block. *)
From S2P Require Import Prelude DeflateTables Zlib DeflateState Trees Format.

(** ** Codes, windup, flush *)

Lemma send_code_emits s c t :
  tree_ok t -> bits_ok s -> emits s (send_code s c t) (code_bits (t c)).
Proof.
  intros Ht Hs. destruct (Ht c) as [Hl Hc]. unfold send_code, code_bits.
  by apply send_bits_emits; [|lia|].
Qed.
Lemma send_extra_emits s v n :
  bits_ok s -> 0 <= n <= 16 -> (n <> 0 -> 0 <= v < 2 ^ n) ->
  emits s (if negb (n =? 0) then send_bits s v n else s) (bits_of (Z.to_nat n) v).
Proof.
  intros Hs Hn Hv. destruct (Z.eqb_spec n 0) as [->|Hnz]; cbn [negb].
  - by apply emits_refl.
  - apply send_bits_emits; [done|lia|by apply Hv].
Qed.

(** [n] more bits of a value that has only [m] *)
Lemma bits_of_pad m n v :
  0 <= v < 2 ^ Z.of_nat m -> bits_of (m + n) v = bits_of m v ++ repeat false n.
Proof.
  intros Hv. rewrite bits_of_add. f_equal. rewrite Z.shiftr_div_pow2, Z.div_small by lia.
  clear. induction n as [|n IH]; [done|]. cbn [bits_of repeat]. by f_equal.
Qed.

(** zero bits up to the byte boundary *)
Definition padding (n : Z) : list bool := repeat false (Z.to_nat ((- n) mod 8)).
Lemma padding_eq n q : 0 <= 8 * q - n < 8 -> padding n = repeat false (Z.to_nat (8 * q - n)).
Proof. intros H. unfold padding. rewrite <- (Z.mod_unique (- n) 8 (- q) (8 * q - n)) by lia. done. Qed.

(** [bi_windup] fills the last byte with zero bits *)
Lemma bi_windup_emits s :
  bits_ok s -> emits s (bi_windup s) (padding (bi_valid s)).
Proof.
  intros (Hp & Hv & Hb). unfold bi_windup.
  destruct (Z.gtb_spec (bi_valid s) 8) as [H8|H8];
    [|destruct (Z.gtb_spec (bi_valid s) 0) as [H0|H0]].
  - rewrite (padding_eq _ 2) by lia. split; [|unfold bits_ok; cbn; lia|cbn; lia| |done].
    + unfold out_bits. cbn [bi_valid bi_buf pend_bytes].
      change (bits_of _ _) with (@nil bool) at 1. rewrite app_nil_r.
      change (pend_bytes _) with (pend_bytes (put_short s (bi_buf s))) at 1.
      rewrite pend_bits_short by done. rewrite <- app_assoc. f_equal.
      replace 16%nat with (Z.to_nat (bi_valid s) + Z.to_nat (8 * 2 - bi_valid s))%nat by lia.
      apply bits_of_pad. rewrite Z2Nat.id by lia. done.
    + intros i Hi. apply put_short_mem; [done|]. cbn in Hi. lia.
  - rewrite (padding_eq _ 1) by lia. split; [|unfold bits_ok; cbn; lia|cbn; lia| |done].
    + unfold out_bits. change (bits_of _ 0) with (@nil bool). rewrite app_nil_r.
      change (pend_bytes _) with (pend_bytes (put_byte s (bi_buf s))) at 1.
      rewrite pend_bytes_put, bytes_bits_app by done. rewrite <- app_assoc. f_equal.
      cbn [bytes_bits flat_map]. rewrite app_nil_r, bits_of_u8 by lia.
      replace 8%nat with (Z.to_nat (bi_valid s) + Z.to_nat (8 * 1 - bi_valid s))%nat at 1 by lia.
      apply bits_of_pad. rewrite Z2Nat.id by lia. done.
    + intros i Hi. cbn in Hi |- *. by rewrite aget_aset_ne by lia.
  - assert (Hv0 : bi_valid s = 0) by lia. rewrite (padding_eq _ 0) by lia.
    split; [|unfold bits_ok; cbn; lia|cbn; lia|done|done].
    unfold out_bits. rewrite Hv0. cbn. by rewrite !app_nil_r.
Qed.

(** [bi_flush] moves the full bytes of the bit buffer and changes no bit *)
Lemma bi_flush_emits s : bits_ok s -> emits s (bi_flush s) [] /\ bi_valid (bi_flush s) < 8.
Proof.
  intros (Hp & Hv & Hb). unfold bi_flush.
  destruct (Z.eqb_spec (bi_valid s) 16) as [H16|H16];
    [|destruct (Z.geb_spec (bi_valid s) 8) as [H8|H8]].
  - split; [|cbn; lia]. split; [|unfold bits_ok; cbn; lia|cbn; lia| |done].
    + unfold out_bits. change (bits_of _ 0) with (@nil bool). rewrite !app_nil_r.
      change (pend_bytes _) with (pend_bytes (put_short s (bi_buf s))) at 1.
      by rewrite pend_bits_short, H16 by done.
    + intros i Hi. apply put_short_mem; [done|]. cbn in Hi. lia.
  - split; [|cbn; lia].
    assert (Hr : 0 <= Z.shiftr (bi_buf s) 8 < 2 ^ (bi_valid s - 8)).
    { rewrite Z.shiftr_div_pow2 by lia. split; [apply Z.div_pos; lia|].
      apply Z.div_lt_upper_bound; [lia|]. rewrite <- Z.pow_add_r by lia.
      replace (8 + (bi_valid s - 8)) with (bi_valid s) by lia. apply Hb. }
    split; [|unfold bits_ok; cbn; lia|cbn; lia| |done].
    + unfold out_bits. cbn [bi_valid bi_buf]. rewrite app_nil_r.
      change (pend_bytes _) with (pend_bytes (put_byte s (bi_buf s))) at 1.
      rewrite pend_bytes_put, bytes_bits_app by done. rewrite <- app_assoc. f_equal.
      cbn [bytes_bits flat_map]. rewrite app_nil_r, bits_of_u8 by lia.
      replace (Z.to_nat (bi_valid s)) with (8 + Z.to_nat (bi_valid s - 8))%nat by lia.
      by rewrite bits_of_add.
    + intros i Hi. cbn in Hi |- *. by rewrite aget_aset_ne by lia.
  - split; [by apply emits_refl|lia].
Qed.

(** ** The symbols of a block *)

(** the three bytes of a symbol at index [sx] of [sym_buf] *)
Definition sym_at (s : deflate_state) (sx : Z) (x : symbol) : Prop :=
  let '(dist, lc) := sym_pair x in
  sym_get s sx = dist mod 256 /\ sym_get s (sx + 1) = dist / 256 /\ sym_get s (sx + 2) = lc.

Lemma sym_dist s sx x :
  symbol_ok x -> sym_at s sx x ->
  Z.land (sym_get s sx) 255 + Z.shiftl (Z.land (sym_get s (sx + 1)) 255) 8 = (sym_pair x).1
  /\ sym_get s (sx + 2) = (sym_pair x).2.
Proof.
  intros Hx H. unfold sym_at in H. destruct (sym_pair x) as [dist lc] eqn:E. destruct H as (-> & -> & ->).
  split; [|done]. cbn [fst snd]. assert (0 <= dist < 65536).
  { destruct x; cbn in E, Hx; injection E as <- <-; lia. }
  rewrite !(land_ones_mod 8), Z.shiftl_mul_pow2 by lia. change (2 ^ 8) with 256.
  rewrite Z.mod_mod, (Z.mod_small (dist / 256)) by (try split; try apply Z.div_pos;
    try apply Z.div_lt_upper_bound; lia).
  rewrite (Z.div_mod dist 256) at 3 by lia. lia.
Qed.

Lemma compress_sym_emits s sx x ltree dtree :
  tree_ok ltree -> tree_ok dtree -> symbol_ok x -> sym_at s sx x -> bits_ok s ->
  emits s (compress_sym s sx ltree dtree) (sym_bits ltree dtree x).
Proof.
  intros Hl Hd Hx Hat Hs. destruct (sym_dist s sx x Hx Hat) as [Ed El].
  unfold compress_sym. rewrite Ed, El. destruct x as [b|dist len]; cbn [sym_pair fst snd symbol_ok] in *.
  - change (0 =? 0) with true. cbv iota. by apply send_code_emits.
  - destruct Hx as [Hdist Hlen]. destruct (Z.eqb_spec dist 0); [lia|].
    assert (Hb : is_byte (len - MIN_MATCH)) by (unfold is_byte, MIN_MATCH, MAX_MATCH in *; lia).
    destruct (length_code_spec _ Hb) as (Hc & He & Hv).
    destruct (dist_code_spec (dist - 1) ltac:(lia)) as (Hdc & Hde & Hdv).
    unfold sym_bits, length_code, dist_code. cbv zeta.
    eapply emits_trans; [by apply send_code_emits|].
    eapply emits_trans; [apply send_extra_emits; [|lia|done]|].
    { by eapply em_ok, send_code_emits. }
    eapply emits_trans; [apply send_code_emits; [done|]|apply send_extra_emits; [|lia|done]].
    + eapply em_ok, send_extra_emits; [|lia|done]. by eapply em_ok, send_code_emits.
    + eapply em_ok, send_code_emits; [done|]. eapply em_ok, send_extra_emits; [|lia|done].
      by eapply em_ok, send_code_emits.
Qed.

(** cells above the output position survive *)
Lemma emits_sym_get s s' l i :
  emits s s' l -> pending s' <= sym_buf s + i -> sym_get s' i = sym_get s i.
Proof.
  intros H Hi. unfold sym_get. rewrite (emits_field sym_buf _ _ _ (fun _ => eq_refl) H).
  by apply (em_mem _ _ _ H).
Qed.
Lemma emits_sym_at s s' l sx x :
  emits s s' l -> pending s' <= sym_buf s + sx -> sym_at s sx x -> sym_at s' sx x.
Proof.
  intros H Hi. unfold sym_at. destruct (sym_pair x). by rewrite !(emits_sym_get s s' l) by (done || lia).
Qed.
(** symbols [l] from index [sx] on *)
Definition syms_at (s : deflate_state) (sx : Z) (l : list symbol) : Prop :=
  forall k x, l !! k = Some x -> sym_at s (sx + 3 * Z.of_nat k) x.
Lemma syms_at_cons s sx x l :
  syms_at s sx (x :: l) <-> sym_at s sx x /\ syms_at s (sx + 3) l.
Proof.
  split.
  - intros H. split; [specialize (H 0%nat x eq_refl); by rewrite Z.add_0_r in H|].
    intros k y Hk. specialize (H (S k) y Hk). by replace (sx + 3 * Z.of_nat (S k)) with
      (sx + 3 + 3 * Z.of_nat k) in H by lia.
  - intros [H1 H2] [|k] y Hk; cbn in Hk.
    + injection Hk as ->. by rewrite Z.add_0_r.
    + specialize (H2 k y Hk). by replace (sx + 3 * Z.of_nat (S k)) with (sx + 3 + 3 * Z.of_nat k) by lia.
Qed.
Lemma emits_syms_at s s' l sx xs :
  emits s s' l -> pending s' <= sym_buf s + sx -> syms_at s sx xs -> syms_at s' sx xs.
Proof. intros H Hi Hx k x Hk. eapply emits_sym_at; [done|lia|by apply Hx]. Qed.

(** The output stays behind the symbols still to be read: before symbol [k] is read, the [k] symbols
    before it have been written below it.  [pos] is the output position in bits and [lim] the start
    of [sym_buf]. *)
Definition stays_behind (pos lim : Z) (ltree dtree : Z -> ct_data) (l : list symbol) : Prop :=
  forall k, (k < length l)%nat ->
  pos + Z.of_nat (length (flat_map (sym_bits ltree dtree) (take k l))) <= 8 * (lim + 3 * Z.of_nat k).
Lemma stays_behind_cons pos lim ltree dtree x l :
  stays_behind pos lim ltree dtree (x :: l) ->
  stays_behind (pos + Z.of_nat (length (sym_bits ltree dtree x))) (lim + 3) ltree dtree l.
Proof.
  intros H k Hk. specialize (H (S k) ltac:(cbn; lia)). cbn [take flat_map] in H.
  rewrite length_app in H. lia.
Qed.

Definition out_pos (s : deflate_state) : Z := 8 * pending s + bi_valid s.

Lemma compress_loop_emits fuel s sx ltree dtree l :
  tree_ok ltree -> tree_ok dtree -> Forall symbol_ok l -> l <> [] -> bits_ok s ->
  syms_at s sx l -> sym_next s = sx + 3 * Z.of_nat (length l) -> (length l <= fuel)%nat ->
  stays_behind (out_pos s) (sym_buf s + sx) ltree dtree l ->
  emits s (compress_loop fuel s sx ltree dtree) (flat_map (sym_bits ltree dtree) l).
Proof.
  intros Hlt Hdt. revert fuel s sx.
  induction l as [|x l IH]; intros fuel s sx Hok Hne Hs Hat Hn Hf Hb; [done|].
  destruct fuel as [|fuel]; [cbn in Hf; lia|].
  inversion Hok as [|? ? Hx Hl]; subst. apply syms_at_cons in Hat as [Hx0 Hat].
  assert (E : emits s (compress_sym s sx ltree dtree) (sym_bits ltree dtree x))
    by by apply compress_sym_emits.
  cbn [compress_loop flat_map]. cbv zeta. set (s1 := compress_sym s sx ltree dtree) in *.
  assert (Hn1 : sym_next s1 = sym_next s) by exact (emits_field sym_next _ _ _ (fun _ => eq_refl) E).
  assert (Hb1 : sym_buf s1 = sym_buf s) by exact (emits_field sym_buf _ _ _ (fun _ => eq_refl) E).
  rewrite Hn1. cbn [length] in Hn, Hf. destruct l as [|y l].
  - cbn [length] in Hn. destruct (Z.ltb_spec (sx + 3) (sym_next s)); [lia|].
    cbn [flat_map]. by rewrite app_nil_r.
  - cbn [length] in Hn, Hf. destruct (Z.ltb_spec (sx + 3) (sym_next s)); [|lia].
    pose proof (emits_length _ _ _ Hs E) as Hlen.
    assert (Hp : pending s1 <= sym_buf s + (sx + 3)).
    { specialize (Hb 1%nat ltac:(cbn; lia)). cbn [take flat_map] in Hb. rewrite app_nil_r in Hb.
      unfold out_pos in Hb. pose proof (em_ok _ _ _ E) as (_ & Hv & _). lia. }
    eapply emits_trans; [exact E|]. apply IH; try done.
    + exact (em_ok _ _ _ E).
    + by eapply emits_syms_at.
    + cbn [length]. lia.
    + cbn [length]. lia.
    + apply stays_behind_cons in Hb. unfold out_pos in *. rewrite Hb1, Hlen.
      by replace (sym_buf s + (sx + 3)) with (sym_buf s + sx + 3) by lia.
Qed.

Lemma compress_block_run s ltree dtree l :
  tree_ok ltree -> tree_ok dtree -> Forall symbol_ok l -> bits_ok s ->
  syms_at s 0 l -> sym_next s = 3 * Z.of_nat (length l) ->
  stays_behind (out_pos s) (sym_buf s) ltree dtree l ->
  emits s (compress_block s ltree dtree) (block_bits ltree dtree l).
Proof.
  intros Hlt Hdt Hl Hs Hat Hn Hb. unfold compress_block, block_bits.
  destruct (Z.eqb_spec (sym_next s) 0) as [Hz|Hnz]; cbn [negb].
  - destruct l; [|cbn [length] in Hn; lia]. by apply send_code_emits.
  - assert (E : emits s (compress_loop (Z.to_nat (sym_next s)) s 0 ltree dtree)
                  (flat_map (sym_bits ltree dtree) l)).
    { apply compress_loop_emits; try done; try lia.
      - by intros ->.
      - by rewrite Z.add_0_r. }
    eapply emits_trans; [exact E|]. apply send_code_emits; [done|]. exact (em_ok _ _ _ E).
Qed.

(** C20. [compress_block] writes exactly the codes of the block's symbols followed by the end-of-block
    code, provided the bits written before each symbol is read still lie below that symbol: [sym_buf]
    overlays [pending_buf]. *)
Theorem compress_block_emits s ltree dtree l :
  tree_ok ltree -> tree_ok dtree -> Forall symbol_ok l -> bits_ok s ->
  syms_at s 0 l -> sym_next s = 3 * Z.of_nat (length l) ->
  stays_behind (out_pos s) (sym_buf s) ltree dtree l ->
  emits s (compress_block s ltree dtree) (block_bits ltree dtree l).
Proof. apply compress_block_run. Qed.

(** ** Collecting symbols *)

(** what MATCH and LIT of [deflate_my] do with a symbol *)
Definition tally_sym (s : deflate_state) (x : symbol) : deflate_state * bool :=
  match x with
  | Lit b => tr_tally_lit_my s b
  | Match dist len => tr_tally_dist_my s dist (len - MIN_MATCH)
  end.

Lemma sym_get_put s c i :
  0 <= sym_next s -> 0 <= i ->
  sym_get (sym_put s c) i = if i =? sym_next s then u8 c else sym_get s i.
Proof.
  intros Hn Hi. unfold sym_get, sym_put. cbn. rewrite aget_aset.
  destruct (Z.eqb_spec (sym_buf s + sym_next s) (sym_buf s + i)), (Z.eqb_spec i (sym_next s)); done || lia.
Qed.

Lemma sym_next_put s c : sym_next (sym_put s c) = u32 (sym_next s + 1).
Proof. done. Qed.
Lemma pending_buf_put s c :
  pending_buf (sym_put s c) = aset (pending_buf s) (sym_buf s + sym_next s) (u8 c).
Proof. done. Qed.
Lemma sym_buf_put s c : sym_buf (sym_put s c) = sym_buf s.
Proof. done. Qed.
Lemma sym_end_put s c : sym_end (sym_put s c) = sym_end s.
Proof. done. Qed.
(** everything but the symbols *)
Definition sym_frame (s : deflate_state) : deflate_state :=
  s <| pending_buf := ∅ |> <| sym_next := 0 |>.
Lemma sym_frame_put s c : sym_frame (sym_put s c) = sym_frame s.
Proof. done. Qed.
Arguments sym_put : simpl never.
Arguments sym_frame : simpl never.
Lemma tally_lit_eq s c :
  tr_tally_lit_my s c = (sym_put (sym_put (sym_put s 0) 0) c,
                         sym_next (sym_put (sym_put (sym_put s 0) 0) c) =? sym_end s).
Proof. unfold tr_tally_lit_my. cbv zeta. rewrite !sym_end_put. reflexivity. Qed.
Lemma tally_dist_eq s dist len :
  tr_tally_dist_my s dist len =
  (sym_put (sym_put (sym_put s (u16 dist)) (Z.shiftr (u16 dist) 8)) (u8 len),
   sym_next (sym_put (sym_put (sym_put s (u16 dist)) (Z.shiftr (u16 dist) 8)) (u8 len)) =? sym_end s).
Proof. unfold tr_tally_dist_my. cbv zeta. rewrite !sym_end_put. reflexivity. Qed.

(** a tally appends one symbol and changes nothing below it *)
Lemma tally_sym_spec s x l :
  symbol_ok x -> syms_at s 0 l -> sym_next s = 3 * Z.of_nat (length l) ->
  sym_next s + 3 < 2 ^ 32 ->
  let s' := (tally_sym s x).1 in
  syms_at s' 0 (l ++ [x]) /\ sym_next s' = 3 * Z.of_nat (length (l ++ [x]))
  /\ (tally_sym s x).2 = (sym_next s' =? sym_end s)
  /\ (forall i, i < sym_buf s + sym_next s -> aget 0 (pending_buf s') i = aget 0 (pending_buf s) i)
  /\ sym_frame s' = sym_frame s.
Proof.
  intros Hx Hat Hn Hlt. cbv zeta.
  assert (Hput : exists a b c, (tally_sym s x).1 = sym_put (sym_put (sym_put s a) b) c
    /\ u8 a = (sym_pair x).1 mod 256 /\ u8 b = (sym_pair x).1 / 256 /\ u8 c = (sym_pair x).2
    /\ (tally_sym s x).2 = (sym_next (sym_put (sym_put (sym_put s a) b) c) =? sym_end s)).
  { destruct x as [b|dist len]; cbn [tally_sym sym_pair fst snd symbol_ok] in *.
    - rewrite tally_lit_eq. cbn [fst snd]. exists 0, 0, b. rewrite (u8_small b) by exact Hx.
      by split_and!.
    - destruct Hx as [Hd Hl]. unfold MIN_MATCH, MAX_MATCH in *.
      exists dist, (Z.shiftr dist 8), (len - 3).
      rewrite tally_dist_eq, (u16_small dist), (u8_small (len - 3)) by lia. cbn [fst snd].
      rewrite Z.shiftr_div_pow2 by lia. change (2 ^ 8) with 256.
      rewrite (u8_small (dist / 256)) by (split; [apply Z.div_pos|apply Z.div_lt_upper_bound]; lia).
      by split_and!. }
  destruct Hput as (a & b & c & E & Ha & Hb & Hc & Ef). rewrite E, Ef, length_app. cbn [length].
  assert (N1 : sym_next (sym_put s a) = sym_next s + 1) by (rewrite sym_next_put; apply u32_small; lia).
  assert (N2 : sym_next (sym_put (sym_put s a) b) = sym_next s + 2)
    by (rewrite sym_next_put, N1, u32_small; lia).
  assert (N3 : sym_next (sym_put (sym_put (sym_put s a) b) c) = sym_next s + 3)
    by (rewrite sym_next_put, N2, u32_small; lia).
  assert (G : forall i, 0 <= i -> sym_get (sym_put (sym_put (sym_put s a) b) c) i =
    if i =? sym_next s + 2 then (sym_pair x).2 else if i =? sym_next s + 1 then (sym_pair x).1 / 256
    else if i =? sym_next s then (sym_pair x).1 mod 256 else sym_get s i).
  { intros i Hi. rewrite !sym_get_put, N1, N2, Ha, Hb, Hc by lia. done. }
  split_and!.
  - intros k y Hk. unfold sym_at. destruct (sym_pair y) as [dist lc] eqn:Ey.
    rewrite !G by lia. apply lookup_app_Some in Hk as [Hk|[Hk1 Hk2]].
    + pose proof (lookup_lt_Some _ _ _ Hk). specialize (Hat k y Hk). unfold sym_at in Hat. rewrite Ey in Hat.
      destruct Hat as (<- & <- & <-).
      repeat match goal with |- context [?u =? ?v] => destruct (Z.eqb_spec u v); [lia|] end.
      by split_and!.
    + destruct (k - length l)%nat as [|?] eqn:Ek; [|done]. injection Hk2 as <-. rewrite Ey. cbn [fst snd].
      replace (0 + 3 * Z.of_nat k) with (sym_next s) by lia.
      repeat match goal with |- context [?u =? ?v] => destruct (Z.eqb_spec u v); try lia end.
  - lia.
  - done.
  - intros i Hi. rewrite !pending_buf_put, N1, N2, !sym_buf_put, !aget_aset_ne by lia. done.
  - by rewrite !sym_frame_put.
Qed.

(** ** The fixed trees and the overlay *)

Definition tree_okb (l : list ct_data) (n : nat) : bool :=
  forallb (fun c => (0 <=? dl c) && (dl c <=? 15) && (0 <=? fc c) && (fc c <? 2 ^ dl c)) l
  && (length l =? n)%nat.
Lemma tget_tree_ok l n : tree_okb l n = true -> tree_ok (tget ct_zero l).
Proof.
  unfold tree_okb. rewrite andb_true_iff, forallb_forall. intros [H _] c. unfold tget.
  assert (Hz : 0 <= dl ct_zero <= 15 /\ 0 <= fc ct_zero < 2 ^ dl ct_zero) by (cbn; lia).
  destruct (c <? 0); [done|]. destruct (Nat.lt_ge_cases (Z.to_nat c) (length l)).
  - specialize (H _ (nth_In l ct_zero H0)). lia.
  - by rewrite nth_overflow.
Qed.
Lemma static_l_ok : tree_ok static_l.
Proof. apply (tget_tree_ok _ 288). vm_compute. reflexivity. Qed.
Lemma static_d_ok : tree_ok static_d.
Proof. apply (tget_tree_ok _ 30). vm_compute. reflexivity. Qed.

(** the lengths of the fixed codes with their extra bits *)
Lemma static_l_bound c : dl (static_l c) <= 9.
Proof.
  unfold static_l, tget. destruct (c <? 0); [done|].
  destruct (Nat.lt_ge_cases (Z.to_nat c) (length static_ltree)).
  - assert (H0 : forallb (fun c => dl c <=? 9) static_ltree = true) by (vm_compute; reflexivity).
    rewrite forallb_forall in H0. specialize (H0 _ (nth_In _ ct_zero H)). lia.
  - rewrite nth_overflow by done. done.
Qed.
Definition static_len_ok (lc : Z) : bool :=
  let c := tget 0 j_length_code lc in dl (static_l (c + LITERALS + 1)) + tget 0 extra_lbits c <=? 13.
Lemma static_match_bound lc :
  is_byte lc ->
  let c := tget 0 j_length_code lc in dl (static_l (c + LITERALS + 1)) + tget 0 extra_lbits c <= 13.
Proof.
  intros H. assert (A : all_below 256 static_len_ok = true) by (vm_compute; reflexivity).
  pose proof (all_below_spec _ _ A lc H) as B. unfold static_len_ok in B. cbv zeta. lia.
Qed.
Lemma static_d_bound c : dl (static_d c) <= 5.
Proof.
  unfold static_d, tget. destruct (c <? 0); [done|].
  destruct (Nat.lt_ge_cases (Z.to_nat c) (length static_dtree)).
  - assert (H0 : forallb (fun c => dl c <=? 5) static_dtree = true) by (vm_compute; reflexivity).
    rewrite forallb_forall in H0. specialize (H0 _ (nth_In _ ct_zero H)). lia.
  - rewrite nth_overflow by done. done.
Qed.

(** the comment's analysis: a symbol takes at most 31 bits in fixed codes *)
Lemma fixed_sym_bits x :
  symbol_ok x -> (length (sym_bits static_l static_d x) <= 31)%nat.
Proof.
  intros Hx. destruct x as [b|dist len]; cbn [sym_bits symbol_ok] in *.
  - unfold code_bits. rewrite length_bits_of. pose proof (static_l_bound b).
    destruct (static_l_ok b). lia.
  - destruct Hx as [Hd Hl]. unfold MIN_MATCH, MAX_MATCH in *.
    assert (Hb : is_byte (len - 3)) by (unfold is_byte; lia).
    pose proof (static_match_bound _ Hb) as H1. destruct (length_code_spec _ Hb) as (_ & H2 & _).
    destruct (dist_code_spec (dist - 1) ltac:(lia)) as (_ & H3 & _).
    unfold length_code, dist_code, MIN_MATCH. cbv zeta in *. unfold code_bits.
    rewrite !length_app, !length_bits_of.
    pose proof (static_d_bound (d_code (dist - 1))).
    destruct (static_l_ok (tget 0 j_length_code (len - 3) + LITERALS + 1)) as [H4 _].
    destruct (static_d_ok (d_code (dist - 1))) as [H5 _]. lia.
Qed.
Lemma fixed_syms_bits l :
  Forall symbol_ok l -> (length (flat_map (sym_bits static_l static_d) l) <= 31 * length l)%nat.
Proof.
  induction 1 as [|x l Hx _ IH]; [done|]. cbn [flat_map length]. rewrite length_app.
  pose proof (fixed_sym_bits x Hx). lia.
Qed.

Lemma fixed_behind pos lim l :
  Forall symbol_ok l -> pos + 7 * (Z.of_nat (length l) - 1) <= 8 * lim ->
  stays_behind pos lim static_l static_d l.
Proof.
  intros Hl Hn k Hk.
  pose proof (fixed_syms_bits (take k l) ltac:(by apply Forall_take)) as H.
  rewrite length_take in H. lia.
Qed.

(** C25. The overlay is safe for fixed codes as long as the block has at most
    [(8 * lit_bufsize + 7 - pos) / 7] symbols, [pos] being the output position at its start: this
    covers the [lit_bufsize - 1] symbols the comment in [deflateInit2_] considers. *)
Theorem fixed_stays_behind s l :
  Forall symbol_ok l -> out_pos s + 7 * (Z.of_nat (length l) - 1) <= 8 * lit_bufsize s ->
  sym_buf s = lit_bufsize s ->
  stays_behind (out_pos s) (sym_buf s) static_l static_d l.
Proof. intros Hl Hn ->. by apply fixed_behind. Qed.

Definition tally_all (s : deflate_state) (l : list symbol) : deflate_state :=
  foldl (fun s x => (tally_sym s x).1) s l.
Lemma tally_all_app s l l' : tally_all s (l ++ l') = tally_all (tally_all s l) l'.
Proof. apply foldl_app. Qed.
Lemma tally_all_spec s l :
  sym_next s = 0 -> Forall symbol_ok l -> 3 * Z.of_nat (length l) < 2 ^ 32 ->
  syms_at (tally_all s l) 0 l /\ sym_next (tally_all s l) = 3 * Z.of_nat (length l)
  /\ (forall i, i < sym_buf s -> aget 0 (pending_buf (tally_all s l)) i = aget 0 (pending_buf s) i)
  /\ sym_frame (tally_all s l) = sym_frame s.
Proof.
  intros Hn. induction l as [|x l IH] using rev_ind; intros Hl Hlt.
  { split_and!; try done. }
  apply Forall_app in Hl as [Hl Hx]. apply Forall_cons_1 in Hx as [Hx _]. rewrite length_app in Hlt. cbn [length] in Hlt.
  destruct IH as (A & B & C & D); [done|lia|]. rewrite tally_all_app.
  change (tally_all (tally_all s l) [x]) with (tally_sym (tally_all s l) x).1.
  destruct (tally_sym_spec (tally_all s l) x l Hx A B ltac:(lia)) as (A' & B' & _ & C' & D').
  assert (Hsb : sym_buf (tally_all s l) = sym_buf s) by exact (f_equal sym_buf D).
  split_and!; [done|done| |by rewrite D'].
  intros i Hi. rewrite C', C by lia. done.
Qed.

(** ** Examples: the smallest buffers, [memLevel = 1] *)

Definition blank_state : deflate_state :=
  mk_ds 0 INIT_STATE ∅ 2048 0 0 0 0 8 (-2) 32768 15 32767 256 8 255 3 9 4 ∅ ∅ ∅ 0 0
    128 128 0 (127 * 12) 0 0 0 0 0 0 0 FIXED 0 0 0 0 0 0 0 0 0 ∅ 0 0 0 0 ∅ ∅ DM.HEAD.
Definition demo_symbols : list symbol := [Lit 65; Lit 0xaa; Match 3 4; Match 32768 258].
Lemma demo_symbols_ok : Forall symbol_ok demo_symbols.
Proof. repeat constructor; cbn; unfold is_byte, MIN_MATCH, MAX_MATCH; lia. Qed.
Lemma blank_ok : bits_ok blank_state.
Proof. unfold bits_ok. cbn. lia. Qed.

Lemma fixed_stays_behind_witness :
  stays_behind (out_pos blank_state) (sym_buf blank_state) static_l static_d demo_symbols.
Proof.
  apply (fixed_stays_behind blank_state demo_symbols); [apply demo_symbols_ok| |reflexivity].
  vm_compute. discriminate.
Defined.
Lemma compress_block_emits_witness :
  let s := tally_all blank_state demo_symbols in
  emits s (compress_block s static_l static_d) (block_bits static_l static_d demo_symbols).
Proof.
  cbv zeta.
  destruct (tally_all_spec blank_state demo_symbols eq_refl demo_symbols_ok eq_refl) as (A & B & _ & D).
  apply (compress_block_emits (tally_all blank_state demo_symbols) static_l static_d demo_symbols).
  - apply static_l_ok.
  - apply static_d_ok.
  - apply demo_symbols_ok.
  - unfold bits_ok. vm_compute. intuition discriminate.
  - exact A.
  - exact B.
  - intros k Hk. cbn in Hk. do 4 (destruct k as [|k]; [vm_compute; discriminate|]). lia.
Defined.


(** ** Stored blocks *)

Lemma padding_mod n k : padding (8 * k + n) = padding n.
Proof.
  unfold padding. do 2 f_equal. replace (- (8 * k + n)) with (- n + (- k) * 8) by lia.
  by apply Z.mod_add.
Qed.
Lemma emits_pos s s' l : bits_ok s -> emits s s' l -> out_pos s' = out_pos s + Z.of_nat (length l).
Proof. apply emits_length. Qed.
Lemma padding_pos s n : padding (out_pos s + n) = padding (bi_valid s + n).
Proof. unfold out_pos. by rewrite <- Z.add_assoc, padding_mod. Qed.

(** ** Bits packed into bytes, the last one padded with zeros *)

Fixpoint pack_loop (n : nat) (l : list bool) : list Z :=
  match n with O => [] | S n => val_of (take 8 l) :: pack_loop n (drop 8 l) end.
Definition pack (l : list bool) : list Z := pack_loop ((length l + 7) / 8) l.
Lemma pack_loop_spec n l :
  (length l <= 8 * n)%nat -> (8 * n < length l + 8)%nat ->
  bytes_ok (pack_loop n l) /\ bytes_bits (pack_loop n l) = l ++ padding (Z.of_nat (length l)).
Proof.
  revert l. induction n as [|n IH]; intros l H1 H2; cbn [pack_loop].
  { destruct l; [by split|cbn in H1; lia]. }
  assert (Hb : is_byte (val_of (take 8 l))).
  { pose proof (val_of_bound (take 8 l)) as B. rewrite length_take in B.
    assert (2 ^ Z.of_nat (8 `min` length l) <= 2 ^ 8) by (apply Z.pow_le_mono_r; lia). unfold is_byte. lia. }
  destruct (decide (n = 0%nat)) as [->|Hn].
  - split; [by constructor|]. cbn [pack_loop]. rewrite bytes_bits_cons. cbn [bytes_bits flat_map]. rewrite app_nil_r.
    assert (Hl : (1 <= length l <= 8)%nat) by lia. rewrite (take_ge l 8) by lia.
    pose proof (bits_of_pad (length l) (8 - length l) (val_of l) (val_of_bound l)) as P. rewrite bits_of_val_of in P.
    replace (length l + (8 - length l))%nat with 8%nat in P by lia. rewrite P, (padding_eq _ 1) by lia. do 2 f_equal. lia.
  - assert (H8 : (8 <= length l)%nat) by lia.
    destruct (IH (drop 8 l)) as [A B]; [rewrite length_drop; lia..|].
    split; [by constructor|]. rewrite bytes_bits_cons, B.
    assert (E : bits_of 8 (val_of (take 8 l)) = take 8 l).
    { rewrite <- (bits_of_val_of (take 8 l)) at 2. f_equal. rewrite length_take. lia. }
    rewrite E, app_assoc, take_drop. f_equal. rewrite length_drop.
    rewrite <- (padding_mod (Z.of_nat (length l - 8)) 1). f_equal. lia.
Qed.
Lemma pack_spec l : bytes_ok (pack l) /\ bytes_bits (pack l) = l ++ padding (Z.of_nat (length l)).
Proof.
  pose proof (Nat.div_mod_eq (length l + 7) 8). pose proof (Nat.mod_upper_bound (length l + 7) 8 ltac:(lia)).
  apply pack_loop_spec; lia.
Qed.

Lemma put_short_emits s w :
  bits_ok s -> bi_valid s = 0 -> emits s (put_short s w) (bits_of 16 w) /\ bi_valid (put_short s w) = 0.
Proof.
  intros (Hp & Hv & Hb) H0. split; [|done].
  assert (Hbuf : bi_buf s = 0) by (rewrite H0 in Hb; lia).
  split; [|unfold bits_ok; cbn; rewrite H0 in *; lia|cbn; lia| |done].
  - unfold out_bits. change (bi_valid (put_short s w)) with (bi_valid s). rewrite H0.
    change (bits_of (Z.to_nat 0) ?x) with (@nil bool). by rewrite !app_nil_r, pend_bits_short by done.
  - intros i Hi. apply put_short_mem; [done|]. cbn in Hi. lia.
Qed.

(** copying bytes from above the output position *)
Lemma memcpy_emits s buf n :
  bits_ok s -> bi_valid s = 0 -> pending s <= buf ->
  let s' := s <| pending_buf := zmemcpy (pending_buf s) (pending s) buf n |> in
  emits s (s' <| pending := pending s' + Z.of_nat n |>)
    (bytes_bits (aread 0 (pending_buf s) buf n)).
Proof.
  intros (Hp & Hv & Hb) H0 Hle s'. split; [|unfold bits_ok; cbn; rewrite H0 in *; lia|cbn; lia| |done].
  - unfold out_bits. cbn [bi_valid bi_buf]. rewrite H0. change (bits_of (Z.to_nat 0) ?x) with (@nil bool).
    cbn. rewrite H0. cbn. rewrite !app_nil_r. unfold pend_bytes. cbn.
    rewrite Z2Nat.inj_add, Nat2Z.id, aread_app, bytes_bits_app by lia. f_equal.
    + rewrite zmemcpy_out_read by lia. done.
    + rewrite Z2Nat.id, Z.add_0_l, zmemcpy_forward by done. done.
  - intros i Hi. cbn in Hi |- *. apply zmemcpy_out. lia.
Qed.

(** the bits of a stored block, [pos] being the position in the output *)
Definition stored_bits (pos last : Z) (data : list Z) : list bool :=
  bits_of 3 last ++ padding (pos + 3)
  ++ bits_of 16 (Z.of_nat (length data)) ++ bits_of 16 (Z.lnot (Z.of_nat (length data)))
  ++ bytes_bits data.

Definition last_ok (last : Z) : Prop := last = 0 \/ last = 1.

Lemma stored_block_run s buf n last :
  bits_ok s -> last_ok last -> Z.of_nat n < 65536 -> out_pos s + 48 <= 8 * buf ->
  emits s (j_tr_stored_block s buf (Z.of_nat n) last)
    (stored_bits (out_pos s) last (aread 0 (pending_buf s) buf n)).
Proof.
  intros Hs Hlast Hn Hbuf. unfold j_tr_stored_block, stored_bits. rewrite length_aread. cbv zeta.
  assert (E1 : emits s (send_bits s (Z.shiftl STORED_BLOCK 1 + last) 3) (bits_of 3 last)).
  { replace (Z.shiftl STORED_BLOCK 1 + last) with last by done.
    apply send_bits_emits; [done|lia|]. unfold last_ok in Hlast. lia. }
  set (s1 := send_bits s _ 3) in *. pose proof (em_ok _ _ _ E1) as O1.
  pose proof (emits_pos _ _ _ Hs E1) as P1. rewrite length_bits_of in P1.
  assert (E2 : emits s1 (bi_windup s1) (padding (out_pos s + 3))).
  { replace (padding (out_pos s + 3)) with (padding (bi_valid s1)); [by apply bi_windup_emits|].
    rewrite <- (Z.add_0_r (bi_valid s1)), <- padding_pos, P1. f_equal. lia. }
  assert (V2 : bi_valid (bi_windup s1) = 0) by done.
  set (s2 := bi_windup s1) in *. pose proof (em_ok _ _ _ E2) as O2.
  assert (P2 : out_pos s2 <= out_pos s + 3 + 7).
  { rewrite (emits_pos _ _ _ O1 E2), P1. unfold padding. rewrite repeat_length.
    pose proof (Z.mod_pos_bound (- (out_pos s + 3)) 8 ltac:(lia)). lia. }
  destruct (put_short_emits s2 (u16 (Z.of_nat n)) O2 V2) as [E3 V3]. set (s3 := put_short s2 _) in *.
  pose proof (em_ok _ _ _ E3) as O3.
  destruct (put_short_emits s3 (u16 (Z.lnot (Z.of_nat n))) O3 V3) as [E4 V4]. set (s4 := put_short s3 _) in *.
  pose proof (em_ok _ _ _ E4) as O4.
  pose proof (emits_pos _ _ _ O2 E3) as P3. pose proof (emits_pos _ _ _ O3 E4) as P4.
  rewrite length_bits_of in P3, P4. unfold out_pos in P2, P3, P4. rewrite Nat2Z.id.
  assert (Hle : pending s4 <= buf).
  { unfold out_pos in Hbuf. lia. }
  pose proof (memcpy_emits s4 buf n O4 V4 Hle) as E5.
  assert (E14 : emits s s4 (bits_of 3 last ++ padding (out_pos s + 3) ++ bits_of 16 (u16 (Z.of_nat n))
     ++ bits_of 16 (u16 (Z.lnot (Z.of_nat n))))).
  { eapply emits_trans; [exact E1|]. eapply emits_trans; [exact E2|]. by eapply emits_trans. }
  rewrite <- (bits_of_u16 16 (Z.of_nat n)), <- (bits_of_u16 16 (Z.lnot (Z.of_nat n))) by lia.
  replace (aread 0 (pending_buf s) buf n) with (aread 0 (pending_buf s4) buf n).
  - clearbody s4. rewrite !app_assoc. eapply emits_trans; [|exact E5]. rewrite <- !app_assoc. exact E14.
  - apply aread_ext. intros i Hi. apply (em_mem _ _ _ E14). lia.
Qed.

