(* ===== verification/Rle.v ===== *)
(** * Run-length coded code lengths (partial/libz_j/trees.c: send_tree, send_all_trees)

    The code lengths of a dynamic block are sent as tokens.  [rle_tokens] is the
    token list of [send_tree]; expanding it gives back the lengths. *)
From S2P Require Import Prelude DeflateTables Zlib DeflateState Trees Format Encode.

(** ** Tokens *)

Inductive token := TLen (l : Z) | TRep (n : Z) | TZero (n : Z).

Definition token_ok (t : token) : Prop :=
  match t with TLen _ => True | TRep n => 3 <= n <= 6 | TZero n => 3 <= n <= 138 end.
(** the bits of a token under the code-length code [bl] *)
Definition token_bits (bl : Z -> ct_data) (t : token) : list bool :=
  match t with
  | TLen l => code_bits (bl l)
  | TRep n => code_bits (bl REP_3_6) ++ bits_of 2 (n - 3)
  | TZero n => if n <=? 10 then code_bits (bl REPZ_3_10) ++ bits_of 3 (n - 3)
               else code_bits (bl REPZ_11_138) ++ bits_of 7 (n - 11)
  end.
(** the lengths a token stands for, [prev] being the length before it *)
Definition token_lens (prev : Z) (t : token) : list Z :=
  match t with
  | TLen l => [l] | TRep n => repeat prev (Z.to_nat n) | TZero n => repeat 0 (Z.to_nat n)
  end.
Definition token_last (prev : Z) (t : token) : Z :=
  match t with TLen l => l | TRep _ => prev | TZero _ => 0 end.
Fixpoint expand (prev : Z) (l : list token) : list Z :=
  match l with [] => [] | t :: l => token_lens prev t ++ expand (token_last prev t) l end.
Definition last_len (prev : Z) (l : list token) : Z := foldl token_last prev l.

Lemma expand_app prev l l' : expand prev (l ++ l') = expand prev l ++ expand (last_len prev l) l'.
Proof.
  revert prev. induction l as [|t l IH]; intros prev; [done|].
  cbn [app expand]. by rewrite IH, app_assoc.
Qed.
Lemma last_len_app prev l l' : last_len prev (l ++ l') = last_len (last_len prev l) l'.
Proof. apply foldl_app. Qed.

(** ** The tokens [send_tree] chooses *)

(** one run of [count] lengths [cur] *)
Definition run_tokens (prev cur count mn : Z) : list token :=
  if count <? mn then repeat (TLen cur) (Z.to_nat count)
  else if negb (cur =? 0) then
    if negb (cur =? prev) then [TLen cur; TRep (count - 1)] else [TRep count]
  else [TZero count].
(** [max_count] and [min_count] for a run of [next] after [prev] *)
Definition run_limits (prev next : Z) : Z * Z :=
  if next =? 0 then (138, 3) else if prev =? next then (6, 3) else (7, 4).

(** the loop of [send_tree] on tokens: those sent, [prevlen], [count]; the current length is [lens n] *)
Record rle_loop := mk_rle { rl_toks : list token; rl_prev : Z; rl_count : Z }.
Definition rle_step (lens : Z -> Z) (v : rle_loop) (n : nat) : rle_loop :=
  let cur := lens (Z.of_nat n) in
  let next := lens (Z.of_nat n + 1) in
  let count := rl_count v + 1 in
  let '(mx, mn) := run_limits (rl_prev v) cur in
  if (count <? mx) && (cur =? next) then mk_rle (rl_toks v) (rl_prev v) count
  else mk_rle (rl_toks v ++ run_tokens (rl_prev v) cur count mn) cur 0.
(** the tokens for the lengths [0 .. max_code]; the length at [max_code + 1] is the guard *)
Definition rle_tokens (lens : Z -> Z) (max_code : Z) : list token :=
  rl_toks (foldl (rle_step lens) (mk_rle [] (-1) 0) (seq 0 (Z.to_nat (max_code + 1)))).

(** ** Expanding the tokens gives the lengths *)

Lemma expand_lens prev cur n :
  expand prev (repeat (TLen cur) n) = repeat cur n
  /\ (n <> 0%nat -> last_len prev (repeat (TLen cur) n) = cur).
Proof.
  revert prev. induction n as [|n IH]; intros prev; [done|]. cbn [repeat expand token_lens token_last app].
  destruct (IH cur) as [-> H]. split; [done|]. intros _. cbn [last_len foldl].
  destruct n; [done|]. by apply H.
Qed.

Lemma run_tokens_spec prev cur count mx mn :
  run_limits prev cur = (mx, mn) -> 1 <= count <= mx ->
  expand prev (run_tokens prev cur count mn) = repeat cur (Z.to_nat count)
  /\ last_len prev (run_tokens prev cur count mn) = cur
  /\ Forall token_ok (run_tokens prev cur count mn).
Proof.
  unfold run_limits, run_tokens. intros Hm Hc. destruct (Z.ltb_spec count mn) as [Hlt|Hge].
  { destruct (expand_lens prev cur (Z.to_nat count)) as [A B]. split_and!; [done|apply B; lia|].
    apply Forall_forall. intros t Ht. by apply repeat_spec in Ht as ->. }
  destruct (Z.eqb_spec cur 0) as [->|H0]; cbn [negb].
  - injection Hm as <- <-. cbn. rewrite app_nil_r. split_and!; [done|done|]. repeat constructor; cbn; lia.
  - destruct (Z.eqb_spec prev cur) as [->|Hp]; injection Hm as <- <-.
    + rewrite Z.eqb_refl. cbn. rewrite app_nil_r. split_and!; [done|done|]. repeat constructor; cbn; lia.
    + destruct (Z.eqb_spec cur prev); [lia|]. cbn [negb expand token_lens token_last app last_len foldl].
      rewrite app_nil_r. split_and!; [|done|repeat constructor; cbn; lia].
      replace (Z.to_nat count) with (S (Z.to_nat (count - 1))) by lia. done.
Qed.

(** the loop invariant before index [n]: the tokens stand for all lengths but the last [count], which
    equal the next one *)
Record rle_inv (lens : Z -> Z) (v : rle_loop) (n : nat) : Prop := {
  ri_count : 0 <= rl_count v <= Z.of_nat n;
  ri_max : rl_count v < (run_limits (rl_prev v) (lens (Z.of_nat n))).1;
  ri_expand : expand (-1) (rl_toks v)
    = map (fun i => lens (Z.of_nat i)) (seq 0 (n - Z.to_nat (rl_count v)));
  ri_last : last_len (-1) (rl_toks v) = rl_prev v;
  ri_run : forall i, Z.of_nat n - rl_count v <= i < Z.of_nat n -> lens i = lens (Z.of_nat n);
  ri_ok : Forall token_ok (rl_toks v) }.

Lemma run_limits_pos prev next : 0 < (run_limits prev next).1.
Proof. unfold run_limits. destruct (next =? 0), (prev =? next); cbn; lia. Qed.

Lemma map_const_run (lens : Z -> Z) a k c :
  (forall i, Z.of_nat a <= i < Z.of_nat a + Z.of_nat k -> lens i = c) ->
  map (fun i => lens (Z.of_nat i)) (seq a k) = repeat c k.
Proof.
  revert a. induction k as [|k IH]; intros a H; [done|]. cbn [seq map repeat]. f_equal.
  - apply H. lia.
  - apply IH. intros i Hi. apply H. lia.
Qed.

Lemma rle_step_inv lens v n : rle_inv lens v n -> rle_inv lens (rle_step lens v n) (S n).
Proof.
  intros [Hc Hm He Hl Hr Ho]. unfold rle_step.
  destruct (run_limits (rl_prev v) (lens (Z.of_nat n))) as [mx mn] eqn:El. cbn [fst] in Hm.
  destruct (Z.ltb_spec (rl_count v + 1) mx) as [H1|H1];
    destruct (Z.eqb_spec (lens (Z.of_nat n)) (lens (Z.of_nat n + 1))) as [H2|H2]; cbn [andb].
  1: { split; cbn [rl_toks rl_prev rl_count].
    - lia.
    - rewrite Nat2Z.inj_succ, <- Z.add_1_r, <- H2, El. done.
    - by replace (S n - Z.to_nat (rl_count v + 1))%nat with (n - Z.to_nat (rl_count v))%nat by lia.
    - done.
    - intros i Hi. rewrite Nat2Z.inj_succ, <- Z.add_1_r, <- H2.
      destruct (decide (i = Z.of_nat n)) as [->|]; [done|]. apply Hr. lia.
    - done. }
  all: destruct (run_tokens_spec _ _ (rl_count v + 1) _ _ El ltac:(lia)) as (A & B & C).
  all: split; cbn [rl_toks rl_prev rl_count]; [lia|apply run_limits_pos| | |lia|by apply Forall_app_2].
  all: try (by rewrite last_len_app, Hl).
  all: rewrite expand_app, He, Hl, A.
  all: replace (S n - Z.to_nat 0)%nat
         with ((n - Z.to_nat (rl_count v)) + Z.to_nat (rl_count v + 1))%nat by lia.
  all: rewrite seq_app, map_app; f_equal; symmetry; apply map_const_run.
  all: intros i Hi; destruct (decide (i = Z.of_nat n)) as [->|]; [done|apply Hr; lia].
Qed.

Lemma rle_loop_inv lens n : rle_inv lens (foldl (rle_step lens) (mk_rle [] (-1) 0) (seq 0 n)) n.
Proof.
  induction n as [|n IH].
  - split; cbn [rl_toks rl_prev rl_count foldl seq]; try done; try lia. apply run_limits_pos.
  - rewrite seq_S, foldl_app. by apply rle_step_inv.
Qed.

(** The run-length code is faithful: when the length behind the last one differs from it (the
    guard that ends the last run), the tokens of [send_tree] are well-formed and expand to exactly
    the code lengths [0 .. max_code]. *)
Lemma rle_tokens_expand lens max_code :
  0 <= max_code -> lens max_code <> lens (max_code + 1) ->
  Forall token_ok (rle_tokens lens max_code)
  /\ expand (-1) (rle_tokens lens max_code)
     = map (fun i => lens (Z.of_nat i)) (seq 0 (Z.to_nat (max_code + 1))).
Proof.
  intros Hm Hne. unfold rle_tokens. replace (Z.to_nat (max_code + 1)) with (S (Z.to_nat max_code)) by lia.
  pose proof (rle_loop_inv lens (S (Z.to_nat max_code))) as [Hc _ He _ Hr Ho].
  set (v := foldl _ _ _) in *. split; [done|].
  assert (H0 : rl_count v = 0); [|by rewrite He, H0, Nat.sub_0_r].
  destruct (decide (rl_count v = 0)) as [|Hnz]; [done|]. exfalso. apply Hne.
  specialize (Hr max_code ltac:(lia)). rewrite Hr. f_equal. lia.
Qed.
(** ** [send_tree] sends these tokens *)

Lemma send_repeat_emits n s curlen bl :
  tree_ok bl -> bits_ok s -> aget ct_zero (bl_tree s) = bl ->
  emits s (send_repeat n s curlen) (flat_map (token_bits bl) (repeat (TLen curlen) n)).
Proof.
  intros Hbl. revert s. induction n as [|n IH]; intros s Hs Eb; [by apply emits_refl|].
  cbn [send_repeat repeat flat_map token_bits]. rewrite Eb.
  pose proof (send_code_emits s curlen bl Hbl Hs) as E. eapply emits_trans; [exact E|].
  apply IH; [exact (em_ok _ _ _ E)|]. by rewrite (emits_field bl_tree _ _ _ (fun _ => eq_refl) E).
Qed.

(** a code followed by a repeat count *)
Lemma send_count_emits s c v n bl :
  tree_ok bl -> bits_ok s -> 0 <= n <= 16 -> 0 <= v < 2 ^ n ->
  emits s (send_bits (send_code s c bl) v n) (code_bits (bl c) ++ bits_of (Z.to_nat n) v).
Proof.
  intros Hbl Hs Hn Hv. pose proof (send_code_emits s c bl Hbl Hs) as E.
  eapply emits_trans; [exact E|]. apply send_bits_emits; [exact (em_ok _ _ _ E)|done|done].
Qed.

(** the run that [send_tree_step] sends *)
Definition send_run (s : deflate_state) (prev cur count mn : Z) : deflate_state :=
  let bl := aget ct_zero (bl_tree s) in
  if count <? mn then send_repeat (Z.to_nat count) s cur
  else if negb (cur =? 0) then
    let '(s, count) := if negb (cur =? prev) then (send_code s cur bl, count - 1) else (s, count) in
    send_bits (send_code s REP_3_6 bl) (count - 3) 2
  else if count <=? 10 then send_bits (send_code s REPZ_3_10 bl) (count - 3) 3
  else send_bits (send_code s REPZ_11_138 bl) (count - 11) 7.
Lemma send_run_emits s prev cur count mx mn bl :
  tree_ok bl -> bits_ok s -> aget ct_zero (bl_tree s) = bl ->
  run_limits prev cur = (mx, mn) -> 1 <= count <= mx ->
  emits s (send_run s prev cur count mn) (flat_map (token_bits bl) (run_tokens prev cur count mn)).
Proof.
  intros Hbl Hs Eb Hm Hc. unfold send_run, run_tokens. rewrite Eb. cbv zeta.
  destruct (Z.ltb_spec count mn) as [Hlt|Hge]; [by apply send_repeat_emits|].
  unfold run_limits in Hm. destruct (Z.eqb_spec cur 0) as [->|H0]; cbn [negb].
  - injection Hm as <- <-. cbn [flat_map token_bits]. rewrite app_nil_r.
    destruct (Z.leb_spec count 10); apply send_count_emits; done || lia.
  - destruct (Z.eqb_spec prev cur) as [->|Hp]; injection Hm as <- <-.
    + rewrite Z.eqb_refl. cbn [negb flat_map token_bits]. rewrite app_nil_r.
      apply send_count_emits; done || lia.
    + destruct (Z.eqb_spec cur prev); [lia|]. cbn [negb flat_map token_bits]. rewrite app_nil_r.
      pose proof (send_code_emits s cur bl Hbl Hs) as E. eapply emits_trans; [exact E|].
      apply send_count_emits; [done|exact (em_ok _ _ _ E)|lia|lia].
Qed.

Lemma send_tree_step_eq tree v n :
  send_tree_step tree v n =
  let cur := st_nextlen v in
  let next := dl (tree (n + 1)) in
  let count := st_count v + 1 in
  if (count <? st_max v) && (cur =? next) then
    mk_stl (st_s v) (st_prevlen v) next count (st_max v) (st_min v)
  else
    let '(mx, mn) := run_limits cur next in
    mk_stl (send_run (st_s v) (st_prevlen v) cur count (st_min v)) cur next 0 mx mn.
Proof. unfold send_tree_step, run_limits, send_run. cbv zeta. by destruct (_ && _). Qed.

(** the loop of [send_tree] and the loop on tokens *)
Record tree_sim (tree : Z -> ct_data) (s : deflate_state) (bl : Z -> ct_data) (v : st_loop) (r : rle_loop) (n : nat) : Prop := {
  ts_prev : st_prevlen v = rl_prev r;
  ts_next : st_nextlen v = dl (tree (Z.of_nat n));
  ts_count : st_count v = rl_count r;
  ts_lim : run_limits (rl_prev r) (dl (tree (Z.of_nat n))) = (st_max v, st_min v);
  ts_emits : emits s (st_s v) (flat_map (token_bits bl) (rl_toks r)) }.

Lemma tree_sim_step tree s bl v r n :
  tree_ok bl -> aget ct_zero (bl_tree s) = bl -> rle_inv (fun i => dl (tree i)) r n ->
  tree_sim tree s bl v r n ->
  tree_sim tree s bl (send_tree_step tree v (Z.of_nat n)) (rle_step (fun i => dl (tree i)) r n) (S n).
Proof.
  intros Hbl Eb Hi [Hp Hn Hc Hl He]. rewrite send_tree_step_eq. cbv zeta. unfold rle_step.
  rewrite Hn, Hc, Hl. destruct (_ && _) eqn:E.
  - apply andb_true_iff in E as [_ E2]. apply Z.eqb_eq in E2.
    split; cbn [st_prevlen st_nextlen st_count st_max st_min st_s rl_prev rl_count rl_toks]; try done.
    + by rewrite Nat2Z.inj_succ, <- Z.add_1_r.
    + by rewrite Nat2Z.inj_succ, <- Z.add_1_r, <- E2.
  - destruct (run_limits (dl (tree (Z.of_nat n))) (dl (tree (Z.of_nat n + 1)))) as [mx mn] eqn:E2.
    split; cbn [st_prevlen st_nextlen st_count st_max st_min st_s rl_prev rl_count rl_toks]; try done.
    + by rewrite Nat2Z.inj_succ, <- Z.add_1_r.
    + by rewrite Nat2Z.inj_succ, <- Z.add_1_r.
    + rewrite flat_map_app. eapply emits_trans; [exact He|]. rewrite Hp.
      pose proof (ri_max _ _ _ Hi) as Hm. cbv beta in Hm. rewrite Hl in Hm. cbn [fst] in Hm.
      pose proof (ri_count _ _ _ Hi).
      eapply send_run_emits; [done|exact (em_ok _ _ _ He)| |exact Hl|lia].
      by rewrite (emits_field bl_tree _ _ _ (fun _ => eq_refl) He).
Qed.

Lemma send_tree_run s tree max_code :
  tree_ok (aget ct_zero (bl_tree s)) -> bits_ok s -> 0 <= dl (tree 0) ->
  emits s (send_tree s tree max_code)
    (flat_map (token_bits (aget ct_zero (bl_tree s))) (rle_tokens (fun i => dl (tree i)) max_code)).
Proof.
  intros Hbl Hs H0. set (bl := aget ct_zero (bl_tree s)) in *. unfold send_tree, rle_tokens.
  assert (El : (if dl (tree 0) =? 0 then (138, 3) else (7, 4)) = run_limits (-1) (dl (tree 0))).
  { unfold run_limits. destruct (dl (tree 0) =? 0); [done|].
    destruct (Z.eqb_spec (-1) (dl (tree 0))); [lia|done]. }
  rewrite El. destruct (run_limits (-1) (dl (tree 0))) as [mx mn] eqn:E.
  generalize (Z.to_nat (max_code + 1)) as n. intros n.
  enough (H : tree_sim tree s bl
      (foldl (fun v n => send_tree_step tree v (Z.of_nat n)) (mk_stl s (-1) (dl (tree 0)) 0 mx mn) (seq 0 n))
      (foldl (rle_step (fun i => dl (tree i))) (mk_rle [] (-1) 0) (seq 0 n)) n)
    by exact (ts_emits _ _ _ _ _ _ H).
  induction n as [|n IH].
  - split; try done. by apply emits_refl.
  - rewrite seq_S, !foldl_app. cbn [foldl]. apply tree_sim_step; [done|done|apply rle_loop_inv|exact IH].
Qed.

(** C21. [send_tree] writes the code lengths faithfully: well-formed run-length tokens under the
    code-length code in [bl_tree], which expand to exactly the lengths [0 .. max_code] of the tree,
    when the length behind the last one differs from it (the guard that ends the last run). *)
Theorem send_tree_faithful s tree max_code :
  tree_ok (aget ct_zero (bl_tree s)) -> bits_ok s -> 0 <= dl (tree 0) ->
  0 <= max_code -> dl (tree max_code) <> dl (tree (max_code + 1)) ->
  exists toks, emits s (send_tree s tree max_code) (flat_map (token_bits (aget ct_zero (bl_tree s))) toks)
    /\ Forall token_ok toks
    /\ expand (-1) toks = map (fun i => dl (tree (Z.of_nat i))) (seq 0 (Z.to_nat (max_code + 1))).
Proof.
  intros Hbl Hs H0 Hm Hne. exists (rle_tokens (fun i => dl (tree i)) max_code). split; [by apply send_tree_run|].
  by apply (rle_tokens_expand (fun i => dl (tree i))).
Qed.

(** a code-length code for examples: the lengths 0, 3, 4 and the repeats *)
Definition demo_bl : arr ct_data :=
  awrite (awrite (awrite ∅ 0 [mk_ct 0 2]) 3 [mk_ct 2 2; mk_ct 1 2]) 16 [mk_ct 3 3; mk_ct 7 3].
Lemma demo_bl_ok : tree_ok (aget ct_zero demo_bl).
Proof.
  intros c. unfold aget. destruct (demo_bl !! c) as [x|] eqn:E; [|cbn; lia].
  assert (H : map_Forall (fun _ x => 0 <= dl x <= 15 /\ 0 <= fc x < 2 ^ dl x) demo_bl).
  { unfold demo_bl. cbn [awrite]. repeat (apply map_Forall_insert_2; [cbn; lia|]). apply map_Forall_empty. }
  exact (H c x E).
Qed.
Lemma send_tree_faithful_witness :
  let s := blank_state <| bl_tree := demo_bl |> in
  let tree := fun i => mk_ct 0 (tget 0 [3; 3; 3; 3; 3; 0; 0; 0; 0; 4] i) in
  exists toks, emits s (send_tree s tree 9) (flat_map (token_bits (aget ct_zero (bl_tree s))) toks)
    /\ Forall token_ok toks /\ expand (-1) toks = [3; 3; 3; 3; 3; 0; 0; 0; 0; 4].
Proof.
  cbv zeta.
  destruct (send_tree_faithful (blank_state <| bl_tree := demo_bl |>)
              (fun i => mk_ct 0 (tget 0 [3; 3; 3; 3; 3; 0; 0; 0; 0; 4] i)) 9) as (toks & E & T & X).
  - apply demo_bl_ok.
  - apply blank_ok.
  - vm_compute. discriminate.
  - lia.
  - vm_compute. discriminate.
  - exists toks. split; [exact E|]. split; [exact T|]. rewrite X. vm_compute. reflexivity.
Defined.


(** ** The header of a dynamic block *)

Definition bl_lens_bits (bl : Z -> ct_data) (ncode : Z) : list bool :=
  flat_map (fun rank => bits_of 3 (dl (bl (tget 0 bl_order (Z.of_nat rank))))) (seq 0 (Z.to_nat ncode)).
Definition trees_bits (bl ltree dtree : Z -> ct_data) (nlen ndist ncode : Z) : list bool :=
  bits_of 5 (nlen - 257) ++ bits_of 5 (ndist - 1) ++ bits_of 4 (ncode - 4) ++ bl_lens_bits bl ncode
  ++ flat_map (token_bits bl) (rle_tokens (fun i => dl (ltree i)) (nlen - 1))
  ++ flat_map (token_bits bl) (rle_tokens (fun i => dl (dtree i)) (ndist - 1)).

Lemma send_bl_lens_emits s n bl :
  bits_ok s -> aget ct_zero (bl_tree s) = bl -> (forall c, 0 <= dl (bl c) <= 7) ->
  emits s (foldl (fun s rank =>
      send_bits s (dl (aget ct_zero (bl_tree s) (tget 0 bl_order (Z.of_nat rank)))) 3) s (seq 0 n))
    (flat_map (fun rank => bits_of 3 (dl (bl (tget 0 bl_order (Z.of_nat rank))))) (seq 0 n)).
Proof.
  intros Hs Eb Hbl. induction n as [|n IH]; [by apply emits_refl|].
  rewrite seq_S, foldl_app, flat_map_app. cbn [foldl flat_map]. rewrite app_nil_r.
  eapply emits_trans; [exact IH|].
  assert (E : bl_tree (foldl (fun s rank =>
      send_bits s (dl (aget ct_zero (bl_tree s) (tget 0 bl_order (Z.of_nat rank)))) 3) s (seq 0 n)) = bl_tree s)
    by exact (emits_field bl_tree _ _ _ (fun _ => eq_refl) IH).
  rewrite E, Eb. apply send_bits_emits; [exact (em_ok _ _ _ IH)|lia|].
  specialize (Hbl (tget 0 bl_order (Z.of_nat (0 + n)))). cbn [Nat.add] in *. clear -Hbl. lia.
Qed.

Lemma send_all_trees_run s lcodes dcodes blcodes :
  let bl := aget ct_zero (bl_tree s) in
  let lt := aget ct_zero (dyn_ltree s) in
  let dt := aget ct_zero (dyn_dtree s) in
  tree_ok bl -> (forall c, dl (bl c) <= 7) -> tree_ok lt -> tree_ok dt -> bits_ok s ->
  257 <= lcodes <= 288 -> 1 <= dcodes <= 32 -> 4 <= blcodes <= 19 ->
  emits s (send_all_trees s lcodes dcodes blcodes) (trees_bits bl lt dt lcodes dcodes blcodes).
Proof.
  intros bl lt dt Hbl Hbl7 Hlt Hdt Hs Hl Hd Hb. unfold send_all_trees, trees_bits, bl_lens_bits. cbv zeta.
  assert (E1 : emits s (send_bits s (lcodes - 257) 5) (bits_of 5 (lcodes - 257)))
    by (apply send_bits_emits; [done|lia|lia]).
  set (s1 := send_bits s _ 5) in *. clearbody s1.
  assert (E2 : emits s1 (send_bits s1 (dcodes - 1) 5) (bits_of 5 (dcodes - 1)))
    by (apply send_bits_emits; [exact (em_ok _ _ _ E1)|lia|lia]).
  set (s2 := send_bits s1 _ 5) in *. clearbody s2.
  assert (E3 : emits s2 (send_bits s2 (blcodes - 4) 4) (bits_of 4 (blcodes - 4)))
    by (apply send_bits_emits; [exact (em_ok _ _ _ E2)|lia|lia]).
  set (s3 := send_bits s2 _ 4) in *. clearbody s3.
  pose proof (emits_trans _ _ _ _ _ (emits_trans _ _ _ _ _ E1 E2) E3) as E13.
  assert (B3 : bl_tree s3 = bl_tree s) by exact (emits_field bl_tree _ _ _ (fun _ => eq_refl) E13).
  assert (E4 : emits s3 (foldl (fun s rank =>
      send_bits s (dl (aget ct_zero (bl_tree s) (tget 0 bl_order (Z.of_nat rank)))) 3) s3
      (seq 0 (Z.to_nat blcodes)))
    (flat_map (fun rank => bits_of 3 (dl (bl (tget 0 bl_order (Z.of_nat rank))))) (seq 0 (Z.to_nat blcodes)))).
  { apply send_bl_lens_emits; [exact (em_ok _ _ _ E3)|by rewrite B3|].
    intros c. split; [apply Hbl|apply Hbl7]. }
  set (s4 := foldl _ s3 _) in *. clearbody s4.
  pose proof (emits_trans _ _ _ _ _ E13 E4) as E14.
  assert (B4 : bl_tree s4 = bl_tree s) by exact (emits_field bl_tree _ _ _ (fun _ => eq_refl) E14).
  assert (L4 : dyn_ltree s4 = dyn_ltree s) by exact (emits_field dyn_ltree _ _ _ (fun _ => eq_refl) E14).
  pose proof (send_tree_run s4 (aget ct_zero (dyn_ltree s4)) (lcodes - 1)) as E5.
  rewrite B4, L4 in *. specialize (E5 Hbl (em_ok _ _ _ E14) ltac:(apply Hlt)).
  set (s5 := send_tree s4 _ _) in *. clearbody s5.
  pose proof (emits_trans _ _ _ _ _ E14 E5) as E15.
  assert (B5 : bl_tree s5 = bl_tree s) by exact (emits_field bl_tree _ _ _ (fun _ => eq_refl) E15).
  assert (D5 : dyn_dtree s5 = dyn_dtree s) by exact (emits_field dyn_dtree _ _ _ (fun _ => eq_refl) E15).
  pose proof (send_tree_run s5 (aget ct_zero (dyn_dtree s5)) (dcodes - 1)) as E6.
  rewrite B5, D5 in *. specialize (E6 Hbl (em_ok _ _ _ E15) ltac:(apply Hdt)).
  pose proof (emits_trans _ _ _ _ _ E15 E6) as E16. rewrite <- !app_assoc in E16. exact E16.
Qed.

(** C22. [send_all_trees] writes the header of a dynamic block: the three counts, the lengths of the
    code-length code in their permuted order, and the tokens of the two trees. *)
Theorem send_all_trees_emits s lcodes dcodes blcodes :
  let bl := aget ct_zero (bl_tree s) in
  let lt := aget ct_zero (dyn_ltree s) in
  let dt := aget ct_zero (dyn_dtree s) in
  tree_ok bl -> (forall c, dl (bl c) <= 7) -> tree_ok lt -> tree_ok dt -> bits_ok s ->
  257 <= lcodes <= 288 -> 1 <= dcodes <= 32 -> 4 <= blcodes <= 19 ->
  emits s (send_all_trees s lcodes dcodes blcodes) (trees_bits bl lt dt lcodes dcodes blcodes).
Proof. apply send_all_trees_run. Qed.

(** the fixed trees as dynamic ones, under five-bit codes *)
Definition demo_trees : deflate_state :=
  blank_state <| bl_tree := awrite ∅ 0 (map (fun i => mk_ct (Z.of_nat i) 5) (seq 0 19)) |>
    <| dyn_ltree := awrite ∅ 0 static_ltree |> <| dyn_dtree := awrite ∅ 0 static_dtree |>.
Lemma written_tree_ok n l :
  forallb (fun c => (0 <=? dl c) && (dl c <=? n) && (0 <=? fc c) && (fc c <? 2 ^ dl c)) l = true ->
  0 <= n <= 15 -> tree_ok (aget ct_zero (awrite ∅ 0 l)) /\ forall c, dl (aget ct_zero (awrite ∅ 0 l) c) <= n.
Proof.
  intros H Hn. assert (A : forall c, let t := aget ct_zero (awrite ∅ 0 l) c in 0 <= dl t <= n /\ 0 <= fc t < 2 ^ dl t).
  { intros c. cbv zeta. apply (aget_awrite_all ct_zero (fun t => 0 <= dl t <= n /\ 0 <= fc t < 2 ^ dl t)).
    - intros i. unfold aget. rewrite lookup_empty. cbn. lia.
    - apply Forall_forall. intros x Hx. rewrite forallb_forall in H. specialize (H x Hx).
      cbv beta in H. lia. }
  split; intros c; specialize (A c); cbv zeta in A; [|lia]. destruct A as [[A B] C]. split; [lia|exact C].
Qed.
Lemma send_all_trees_emits_witness :
  emits demo_trees (send_all_trees demo_trees 286 30 19)
    (trees_bits (aget ct_zero (bl_tree demo_trees)) (aget ct_zero (dyn_ltree demo_trees))
       (aget ct_zero (dyn_dtree demo_trees)) 286 30 19).
Proof.
  pose proof (written_tree_ok 5 (map (fun i => mk_ct (Z.of_nat i) 5) (seq 0 19)) eq_refl ltac:(lia)) as [B1 B2].
  apply (send_all_trees_emits demo_trees 286 30 19); try lia.
  - exact B1.
  - intros c. etransitivity; [apply B2|lia].
  - apply (written_tree_ok 15 static_ltree); [vm_compute; reflexivity|lia].
  - apply (written_tree_ok 15 static_dtree); [vm_compute; reflexivity|lia].
  - unfold bits_ok. cbn. lia.
Defined.
