(* ===== verification/Flush.v ===== *)
(** * Flushing blocks and pending output (partial/libz_j/trees.c:
    _tr_flush_block_my, deflate.c: flush_pending)

    A block of any type is written as the deflate format has it, and what has
    been written reaches [next_out] in order and without loss, whatever the size
    of the output buffer. *)
From S2P Require Import Prelude DeflateTables Zlib Bitstream DeflateState Trees Format Encode Rle Deflate.

(** ** [init_block] *)

(** everything but the output, the trees and the counters [init_block] clears *)
Definition block_frame (s : deflate_state) : deflate_state :=
  frame s <| dyn_ltree := ∅ |> <| dyn_dtree := ∅ |> <| bl_tree := ∅ |> <| opt_len := 0 |>
    <| static_len := 0 |> <| sym_next := 0 |> <| matches := 0 |>.

(** [s'] is [s] after a block of bits [l] was written and the next block initialised *)
Record flushed (s s' : deflate_state) (l : list bool) : Prop := {
  fl_bits : out_bits s' = out_bits s ++ l;
  fl_ok : bits_ok s';
  fl_sym : sym_next s' = 0;
  fl_frame : block_frame s' = block_frame s }.

Lemma init_block_out s : out_bits (init_block s) = out_bits s.
Proof. done. Qed.
Lemma init_block_frame s : block_frame (init_block s) = block_frame s.
Proof. done. Qed.
Lemma flushed_init s s' l : emits s s' l -> flushed s (init_block s') l.
Proof.
  intros H. split.
  - rewrite init_block_out. exact (em_bits _ _ _ H).
  - exact (em_ok _ _ _ H).
  - done.
  - rewrite init_block_frame. unfold block_frame. by rewrite (em_frame _ _ _ H).
Qed.
Lemma flushed_emits s s' s'' l l' : flushed s s' l -> emits s' s'' l' -> flushed s s'' (l ++ l').
Proof.
  intros [B O N F] H. split.
  - by rewrite (em_bits _ _ _ H), B, app_assoc.
  - exact (em_ok _ _ _ H).
  - rewrite (emits_field sym_next _ _ _ (fun _ => eq_refl) H). done.
  - rewrite <- F. unfold block_frame. by rewrite (em_frame _ _ _ H).
Qed.

(** ** Blocks *)

(** what the state has to hold for a block to be written, and the bits of the block *)
Inductive block_ready (s : deflate_state) (last : Z) : tree_type -> list bool -> Prop :=
| ready_stored n :
    sym_next s = Z.of_nat n -> Z.of_nat n < 65536 -> out_pos s + 48 <= 8 * sym_buf s ->
    block_ready s last STORE (stored_bits (out_pos s) last (aread 0 (pending_buf s) (sym_buf s) n))
| ready_fixed l :
    Forall symbol_ok l -> syms_at s 0 l -> sym_next s = 3 * Z.of_nat (length l) ->
    out_pos s + 3 <= 8 * sym_buf s -> stays_behind (out_pos s + 3) (sym_buf s) static_l static_d l ->
    block_ready s last FIXED (bits_of 3 (2 + last) ++ block_bits static_l static_d l)
| ready_dynamic l :
    let bl := aget ct_zero (bl_tree s) in
    let lt := aget ct_zero (dyn_ltree s) in
    let dt := aget ct_zero (dyn_dtree s) in
    let hdr := trees_bits bl lt dt (l_max_code s) (d_max_code s) (ncode s) in
    Forall symbol_ok l -> syms_at s 0 l -> sym_next s = 3 * Z.of_nat (length l) ->
    tree_ok bl -> (forall c, dl (bl c) <= 7) -> tree_ok lt -> tree_ok dt ->
    257 <= l_max_code s <= 288 -> 1 <= d_max_code s <= 32 -> 4 <= ncode s <= 19 ->
    out_pos s + 3 + Z.of_nat (length hdr) <= 8 * sym_buf s ->
    stays_behind (out_pos s + 3 + Z.of_nat (length hdr)) (sym_buf s) lt dt l ->
    block_ready s last DYNAMIC (bits_of 3 (4 + last) ++ hdr ++ block_bits lt dt l).

Lemma emits_sym_next s s' l : emits s s' l -> sym_next s' = sym_next s.
Proof. exact (emits_field sym_next _ _ _ (fun _ => eq_refl)). Qed.
Lemma emits_sym_buf s s' l : emits s s' l -> sym_buf s' = sym_buf s.
Proof. exact (emits_field sym_buf _ _ _ (fun _ => eq_refl)). Qed.

(** the symbols written after some header bits [h] *)
Lemma compress_after s s1 h ltree dtree l :
  emits s s1 h -> bits_ok s -> tree_ok ltree -> tree_ok dtree -> Forall symbol_ok l ->
  syms_at s 0 l -> sym_next s = 3 * Z.of_nat (length l) ->
  out_pos s + Z.of_nat (length h) <= 8 * sym_buf s ->
  stays_behind (out_pos s + Z.of_nat (length h)) (sym_buf s) ltree dtree l ->
  emits s (compress_block s1 ltree dtree) (h ++ block_bits ltree dtree l).
Proof.
  intros E Hs Hl Hd Hok Hat Hn Hle Hb. eapply emits_trans; [exact E|].
  pose proof (emits_pos _ _ _ Hs E) as P. pose proof (em_ok _ _ _ E) as O.
  apply compress_block_run; try done.
  - eapply emits_syms_at; [exact E| |done]. rewrite Z.add_0_r. destruct O as (_ & O & _).
    unfold out_pos in *. lia.
  - by rewrite (emits_sym_next _ _ _ E).
  - by rewrite P, (emits_sym_buf _ _ _ E).
Qed.

Lemma type_bits s v last :
  bits_ok s -> last_ok last -> 0 <= v <= 2 ->
  emits s (send_bits s (Z.shiftl v 1 + last) 3) (bits_of 3 (2 * v + last)).
Proof.
  intros Hs Hl Hv. rewrite Z.shiftl_mul_pow2 by lia. replace (v * 2 ^ 1) with (2 * v) by lia.
  apply send_bits_emits; [done|lia|]. unfold last_ok in Hl. lia.
Qed.

(** the part of [_tr_flush_block_my] before [init_block] *)
Definition flush_body (s : deflate_state) (buf stored_len : Z) (type : tree_type) (last : Z) : deflate_state :=
  match type with
  | STORE => j_tr_stored_block s buf stored_len last
  | FIXED => compress_block (send_bits s (Z.shiftl STATIC_TREES 1 + last) 3) static_l static_d
  | DYNAMIC =>
      let s := send_bits s (Z.shiftl DYN_TREES 1 + last) 3 in
      let s := send_all_trees s (l_max_code s) (d_max_code s) (ncode s) in
      compress_block s (aget ct_zero (dyn_ltree s)) (aget ct_zero (dyn_dtree s))
  end.
Lemma flush_block_eq s buf len type last :
  tr_flush_block_my s buf len type last =
  let s := init_block (flush_body s buf len type last) in if last =? 0 then s else bi_windup s.
Proof. reflexivity. Qed.

Lemma flush_body_emits s type last bits :
  bits_ok s -> last_ok last -> block_ready s last type bits ->
  emits s (flush_body s (sym_buf s) (sym_next s) type last) bits.
Proof.
  intros Hs Hlast Hr.
  destruct Hr as [n Hn Hlt Hp|l Hok Hat Hn Hp Hb|l bl lt dt hdr Hok Hat Hn Hbl Hbl7 Hlt Hdt Hl Hd Hc Hp Hb];
    cbn [flush_body].
  - rewrite Hn. by apply stored_block_run.
  - pose proof (type_bits s STATIC_TREES last Hs Hlast ltac:(unfold STATIC_TREES; lia)) as E.
    apply compress_after; try done; [apply static_l_ok|apply static_d_ok].
  - pose proof (type_bits s DYN_TREES last Hs Hlast ltac:(unfold DYN_TREES; lia)) as E. cbv zeta.
    set (s1 := send_bits s _ 3) in *. clearbody s1.
    assert (E2 : emits s1 (send_all_trees s1 (l_max_code s1) (d_max_code s1) (ncode s1)) hdr).
    { rewrite (emits_field l_max_code _ _ _ (fun _ => eq_refl) E),
        (emits_field d_max_code _ _ _ (fun _ => eq_refl) E), (emits_field ncode _ _ _ (fun _ => eq_refl) E).
      subst hdr bl lt dt.
      rewrite <- (emits_field bl_tree _ _ _ (fun _ => eq_refl) E),
        <- (emits_field dyn_ltree _ _ _ (fun _ => eq_refl) E), <- (emits_field dyn_dtree _ _ _ (fun _ => eq_refl) E) in *.
      apply send_all_trees_run; try done. exact (em_ok _ _ _ E). }
    set (s2 := send_all_trees s1 _ _ _) in *. clearbody s2.
    pose proof (emits_trans _ _ _ _ _ E E2) as E3.
    rewrite (emits_field dyn_ltree _ _ _ (fun _ => eq_refl) E3), (emits_field dyn_dtree _ _ _ (fun _ => eq_refl) E3).
    rewrite app_assoc. apply compress_after; try done; rewrite length_app, length_bits_of, Nat2Z.inj_add, Z.add_assoc; done.
Qed.

Lemma flush_block_run s type last bits :
  bits_ok s -> last_ok last -> block_ready s last type bits ->
  flushed s (tr_flush_block_my s (sym_buf s) (sym_next s) type last)
    (bits ++ if last =? 0 then [] else padding (out_pos s + Z.of_nat (length bits))).
Proof.
  intros Hs Hlast Hr. rewrite flush_block_eq. cbv zeta.
  pose proof (flush_body_emits s type last bits Hs Hlast Hr) as E.
  set (s1 := flush_body _ _ _ _ _) in *. clearbody s1.
  destruct (last =? 0); [rewrite app_nil_r; by apply flushed_init|].
  eapply flushed_emits; [by apply flushed_init|].
  rewrite <- (emits_pos _ _ _ Hs E). pose proof (em_ok _ _ _ E) as O.
  rewrite <- (Z.add_0_r (out_pos s1)), padding_pos, Z.add_0_r.
  exact (bi_windup_emits (init_block s1) O).
Qed.

(** C12. [_tr_flush_block_my] writes a block of any of the three types bit for bit, pads it to a byte
    if it is the last one, and leaves the state ready for the next block. *)
Theorem flush_block_spec s type last bits :
  bits_ok s -> last_ok last -> block_ready s last type bits ->
  flushed s (tr_flush_block_my s (sym_buf s) (sym_next s) type last)
    (bits ++ if last =? 0 then [] else padding (out_pos s + Z.of_nat (length bits))).
Proof. apply flush_block_run. Qed.
Lemma flush_block_spec_witness :
  let s := tally_all blank_state demo_symbols in
  let bits := bits_of 3 3 ++ block_bits static_l static_d demo_symbols in
  flushed s (tr_flush_block_my s (sym_buf s) (sym_next s) FIXED 1)
    (bits ++ padding (out_pos s + Z.of_nat (length bits))).
Proof.
  cbv zeta.
  destruct (tally_all_spec blank_state demo_symbols eq_refl demo_symbols_ok eq_refl) as (A & B & _ & D).
  apply (flush_block_spec (tally_all blank_state demo_symbols) FIXED 1
           (bits_of 3 3 ++ block_bits static_l static_d demo_symbols)).
  - unfold bits_ok. vm_compute. intuition discriminate.
  - by right.
  - apply (ready_fixed _ 1 demo_symbols demo_symbols_ok A B); [vm_compute; discriminate|].
    intros k Hk. cbn in Hk. do 4 (destruct k as [|k]; [vm_compute; discriminate|]). lia.
Defined.

(** ** [flush_pending] *)

(** the bits not yet delivered: the pending bytes from [pending_out] on, and the bit buffer *)
Definition unsent (s : deflate_state) : list bool :=
  bytes_bits (aread 0 (pending_buf s) (pending_out s) (Z.to_nat (pending s)))
  ++ bits_of (Z.to_nat (bi_valid s)) (bi_buf s).
(** between calls: the buffer is read from its start, or only whole bytes wait in its middle *)
Definition pending_ok (s : deflate_state) : Prop :=
  bits_ok s /\ 0 <= pending_out s /\ (pending_out s = 0 \/ (bi_valid s < 8 /\ pending s <> 0)).

Lemma unsent_out_bits s : pending_out s = 0 -> unsent s = out_bits s.
Proof. intros H. unfold unsent, out_bits, pend_bytes. by rewrite H. Qed.

(** the flush of the bit buffer that opens [flush_pending] *)
Lemma flush_bits_unsent s :
  pending_ok s ->
  let s' := j_tr_flush_bits s in
  unsent s' = unsent s /\ bits_ok s' /\ bi_valid s' < 8 /\ pending_out s' = pending_out s
  /\ frame s' = frame s /\ (pending_out s <> 0 -> s' = s).
Proof.
  intros (Hok & Hpo & [H0|[Hv Hp]]); cbv zeta.
  - destruct (bi_flush_emits s Hok) as [E V].
    assert (Hpo' : pending_out (bi_flush s) = pending_out s)
      by exact (emits_field pending_out _ _ _ (fun _ => eq_refl) E).
    change (j_tr_flush_bits s) with (bi_flush s). split_and!; try done.
    + rewrite !unsent_out_bits by congruence. rewrite (em_bits _ _ _ E). by rewrite app_nil_r.
    + exact (em_ok _ _ _ E).
    + exact (em_frame _ _ _ E).
  - assert (E : j_tr_flush_bits s = s).
    { unfold j_tr_flush_bits, bi_flush. destruct (Z.eqb_spec (bi_valid s) 16); [lia|].
      destruct (Z.geb_spec (bi_valid s) 8); [lia|done]. }
    rewrite E. by split_and!.
Qed.

Lemma flush_pending_eq zs s :
  flush_pending zs s =
  let s := j_tr_flush_bits s in
  let len := Z.min (pending s) (avail_out zs) in
  if len =? 0 then (zs, s)
  else
    (zs <| next_out := next_out zs ++ aread 0 (pending_buf s) (pending_out s) (Z.to_nat len) |>
        <| total_out := u64 (total_out zs + len) |> <| avail_out := avail_out zs - len |>,
     s <| pending_out := if pending s - len =? 0 then 0 else pending_out s + len |>
       <| pending := pending s - len |>).
Proof.
  unfold flush_pending. cbv zeta. set (t := j_tr_flush_bits s). clearbody t.
  replace (if pending t >? avail_out zs then avail_out zs else pending t) with (Z.min (pending t) (avail_out zs))
    by (destruct (Z.gtb_spec (pending t) (avail_out zs)); lia).
  set (len := Z.min _ _). clearbody len. destruct (len =? 0); [done|].
  change (pending (_ <| pending := ?x |>)) with x. destruct (pending t - len =? 0); done.
Qed.

Lemma flush_pending_run zs s :
  pending_ok s -> 0 <= avail_out zs ->
  let '(zs', s') := flush_pending zs s in
  bytes_bits (next_out zs') ++ unsent s' = bytes_bits (next_out zs) ++ unsent s
  /\ avail_out zs' + Z.of_nat (length (next_out zs')) = avail_out zs + Z.of_nat (length (next_out zs))
  /\ 0 <= avail_out zs' /\ (avail_out zs' = 0 \/ pending s' = 0)
  /\ pending_ok s' /\ bi_valid s' < 8 /\ (pending s' = 0 -> pending_out s' = 0)
  /\ next_in zs' = next_in zs
  /\ frame s' <| pending_out := 0 |> = frame s <| pending_out := 0 |>.
Proof.
  intros Hok Ha. rewrite flush_pending_eq. cbv zeta.
  destruct (flush_bits_unsent s Hok) as (Hu & Ho & Hv & Hpo & Hf & Hid). destruct Hok as (Hok & Hp0 & Hor).
  set (t := j_tr_flush_bits s) in *. clearbody t. pose proof Ho as (Hpt & Hvt & Hbt).
  set (len := Z.min (pending t) (avail_out zs)).
  destruct (Z.eqb_spec len 0) as [E0|E0].
  - split_and!; try done; try lia.
    + by rewrite Hu.
    + split_and!; [done|lia|]. destruct Hor as [Hz|[_ Hz]]; [left; congruence|].
      destruct (decide (pending_out s = 0)) as [Hz'|Hnz]; [left; congruence|].
      right. split; [done|]. by rewrite (Hid Hnz).
    + intros Hp'. destruct (decide (pending_out s = 0)) as [Hz'|Hnz]; [congruence|].
      exfalso. destruct Hor as [|[_ Hz]]; [done|]. rewrite (Hid Hnz) in Hp'. done.
    + by rewrite Hf.
  - assert (Hlen : 0 < len <= pending t) by lia.
    cbn [next_out avail_out next_in pending pending_out bi_valid].
    split_and!; try done; try (cbn; lia).
    + rewrite <- Hu. unfold unsent. cbn. rewrite bytes_bits_app, <- app_assoc. f_equal.
      rewrite app_assoc. f_equal.
      replace (Z.to_nat (pending t)) with (Z.to_nat len + Z.to_nat (pending t - len))%nat by lia.
      rewrite aread_app, bytes_bits_app. f_equal. rewrite Z2Nat.id by lia.
      destruct (Z.eqb_spec (pending t - len) 0) as [->|]; done.
    + cbn. rewrite length_app, length_aread. lia.
    + split_and!; [unfold bits_ok; cbn; lia| |]; cbn.
      * destruct (pending t - len =? 0); lia.
      * destruct (Z.eqb_spec (pending t - len) 0); [by left|right]. split; [done|lia].
    + cbn. intros Hz. destruct (Z.eqb_spec (pending t - len) 0); [done|lia].
    + rewrite <- Hf. done.
Qed.

(** C13. [flush_pending] neither loses nor reorders output: the bytes at [next_out] followed by the
    undelivered bits are the same before and after, [avail_out] shrinks by the bytes delivered, and
    it stops only when the buffer is empty or the output is full; at most seven bits are kept back. *)
Theorem flush_pending_spec zs s :
  pending_ok s -> 0 <= avail_out zs ->
  let '(zs', s') := flush_pending zs s in
  bytes_bits (next_out zs') ++ unsent s' = bytes_bits (next_out zs) ++ unsent s
  /\ avail_out zs' + Z.of_nat (length (next_out zs')) = avail_out zs + Z.of_nat (length (next_out zs))
  /\ 0 <= avail_out zs' /\ (avail_out zs' = 0 \/ pending s' = 0)
  /\ pending_ok s' /\ bi_valid s' < 8 /\ (pending s' = 0 -> pending_out s' = 0)
  /\ next_in zs' = next_in zs
  /\ frame s' <| pending_out := 0 |> = frame s <| pending_out := 0 |>.
Proof. apply flush_pending_run. Qed.

Definition demo_stream (input : list Z) (avail : Z) : z_stream :=
  mk_stream input 0 [] avail 0 None 0 0 false false true true 0.
(** three pending bytes and room for two *)
Lemma flush_pending_spec_witness :
  let zs := demo_stream [] 2 in
  let s := blank_state <| pending_buf := awrite ∅ 0 [1; 2; 3] |> <| pending := 3 |> in
  let '(zs', s') := flush_pending zs s in
  next_out zs' = [1; 2]
  /\ bytes_bits (next_out zs') ++ unsent s' = bytes_bits (next_out zs) ++ unsent s.
Proof.
  pose proof (flush_pending_spec (demo_stream [] 2)
    (blank_state <| pending_buf := awrite ∅ 0 [1; 2; 3] |> <| pending := 3 |>)) as H.
  cbv zeta. destruct (flush_pending _ _) as [zs' s'] eqn:E. destruct H as (H & _).
  - split; [unfold bits_ok; cbn; lia|]. split; [cbn; lia|by left].
  - cbn. lia.
  - split; [|exact H]. vm_compute in E. injection E as <- _. reflexivity.
Defined.
