(* ===== verification/Reencode.v ===== *)
(** * What [deflate_my] does with an instruction stream (partial/libz_j/deflate.c)

    The handlers of the re-encoder on the bytes [j_inflate] writes: the symbols
    of a block are collected in [sym_buf], and the block is encoded again. *)
From S2P Require Import Prelude DeflateTables Zlib Bitstream InflateState Inffast Format.
From S2P Require Import DeflateState Trees Encode Rle Deflate Flush.

(** ** Byte-aligned reading *)

Section Bytes.
Context {S : Type} `{BitReader S}.
Implicit Types s : S.

(** the reader stands at a byte boundary with an empty [hold] *)
Definition aligned (s : S) (l : list Z) : Prop :=
  rd_next s = l /\ rd_hold s = 0 /\ rd_bits s = 0 /\ bytes_ok l.

Lemma aligned_set l s : bytes_ok l -> aligned (rd_set l 0 0 s) l.
Proof. intros Hl. unfold aligned. by rewrite rd_next_set, rd_hold_set, rd_bits_set. Qed.

Lemma needbits_byte n b l s :
  aligned s (b :: l) -> 1 <= n <= 8 -> NEEDBITS n s = (rd_set l b 8 s, inr tt).
Proof.
  intros (Hn & Hh & Hb & Hy) Hr. apply Forall_cons_1 in Hy as [Hy _]. unfold is_byte in Hy.
  unfold NEEDBITS. destruct (Z.to_nat n) as [|k] eqn:Ek; [lia|]. clear Ek.
  cbn [needbits_loop]. rewrite bind_gets, Hb. destruct (Z.ltb_spec 0 n); [|lia].
  assert (E : PULLBYTE s = (rd_set l b 8 s, inr tt)).
  { unfold PULLBYTE. rewrite Hn, Hh, Hb, Z.shiftl_0_r, (u64_small b), u64_small by lia. done. }
  rewrite (bind_inr _ _ _ _ _ E), bind_gets, rd_bits_set.
  destruct (Z.ltb_spec 8 n); [lia|done].
Qed.
Lemma needbits_2bytes b c l s :
  aligned s (b :: c :: l) -> NEEDBITS 16 s = (rd_set l (b + 256 * c) 16 s, inr tt).
Proof.
  intros (Hn & Hh & Hb & Hy). apply Forall_cons_1 in Hy as [Hy Hc]. apply Forall_cons_1 in Hc as [Hc _].
  unfold is_byte in *. unfold NEEDBITS. change (Datatypes.S (Z.to_nat 16)) with 17%nat.
  cbn [needbits_loop]. rewrite bind_gets, Hb. change (0 <? 16) with true. cbv iota.
  assert (E : PULLBYTE s = (rd_set (c :: l) b 8 s, inr tt)).
  { unfold PULLBYTE. rewrite Hn, Hh, Hb, Z.shiftl_0_r, (u64_small b), u64_small by lia. done. }
  rewrite (bind_inr _ _ _ _ _ E), bind_gets, rd_bits_set. change (8 <? 16) with true. cbv iota.
  assert (E2 : PULLBYTE (rd_set (c :: l) b 8 s) = (rd_set l (b + 256 * c) 16 s, inr tt)).
  { unfold PULLBYTE. rewrite rd_next_set, rd_hold_set, rd_bits_set, rd_set_set.
    rewrite Z.shiftl_mul_pow2 by lia. change (2 ^ 8) with 256. rewrite (u64_small (c * 256)), u64_small by lia.
    do 2 f_equal. lia. }
  rewrite (bind_inr _ _ _ _ _ E2), bind_gets, rd_bits_set. done.
Qed.

(** the low and high byte of a 16-bit [hold] *)
Lemma BITS8 l b h k s : is_byte b -> 0 <= h < 2 ^ 24 -> BITS 8 (rd_set l (b + 256 * h) k s) = b.
Proof.
  intros Hb Hh. unfold is_byte in Hb. unfold BITS, low_bits. rewrite rd_hold_set, land_ones_mod by lia.
  change (2 ^ 8) with 256. rewrite u32_small by lia. rewrite (Z.mul_comm 256), Z.mod_add, Z.mod_small by lia. done.
Qed.
Lemma drop8 l b h k s :
  is_byte b -> 0 <= h -> 8 <= k <= 64 ->
  drop_bits 8 (rd_set l (b + 256 * h) k s) = (rd_set l h (k - 8) s, inr tt).
Proof.
  intros Hb Hh Hk. unfold is_byte in Hb. unfold drop_bits, modify.
  rewrite rd_next_set, rd_hold_set, rd_bits_set, rd_set_set, u32_small by lia.
  rewrite Z.shiftr_div_pow2 by lia. change (2 ^ 8) with 256.
  rewrite (Z.mul_comm 256), Z.div_add, Z.div_small by lia. done.
Qed.
End Bytes.

Lemma take8_byte {A} (k : Z -> M dm A) b l s :
  aligned s (b :: l) -> (NEEDBITS 8;; v ← take_bits 8; k v) s = k b (rd_set l 0 0 s).
Proof.
  intros Ha. assert (Hb : is_byte b) by (destruct Ha as (_ & _ & _ & H); by apply Forall_cons_1 in H as [? _]).
  rewrite (bind_inr _ _ _ _ _ (needbits_byte 8 b l s Ha ltac:(lia))). unfold take_bits. rewrite bind_bind, bind_gets.
  pose proof (BITS8 l b 0 8 s Hb ltac:(lia)) as E1.
  pose proof (drop8 l b 0 8 s Hb ltac:(lia) ltac:(lia)) as E2. rewrite Z.mul_0_r, Z.add_0_r in E1, E2.
  rewrite E1, bind_bind, (bind_inr _ _ _ _ _ E2). done.
Qed.

(** one of several bytes in [hold] *)
Lemma take8_hold b h l k (s : dm) :
  d_next s = l -> d_hold s = b + 256 * h -> d_bits s = k -> is_byte b -> 0 <= h < 2 ^ 24 -> 8 <= k <= 64 ->
  take_bits 8 s = (rd_set l h (k - 8) s, inr b).
Proof.
  intros <- Hh <- Hb Hr Hk'. set (l := d_next s). set (k := d_bits s). unfold take_bits. rewrite bind_gets.
  assert (E1 : BITS 8 s = b).
  { pose proof (BITS8 l b h k s Hb Hr) as E. unfold BITS in *. rewrite rd_hold_set in E. rewrite <- Hh in E. exact E. }
  assert (E2 : drop_bits 8 s = (rd_set l h (k - 8) s, inr tt)).
  { pose proof (drop8 l b h k s Hb ltac:(lia) Hk') as E. unfold drop_bits, modify in *.
    rewrite rd_next_set, rd_hold_set, rd_bits_set, rd_set_set, <- Hh in E. exact E. }
  rewrite E1, (bind_inr _ _ _ _ _ E2). reflexivity.
Qed.

(** ** Running the handlers *)

Section Run.
Context {A : Type} (k : unit -> M dm A).
Lemma bind_upd g s : (upd g ≫= k) s = k tt (s <| d_state := g (d_state s) |>).
Proof. reflexivity. Qed.
Lemma bind_set_mode x s : (set_mode x ≫= k) s = k tt (s <| d_state := d_state s <| mode := x |> |>).
Proof. reflexivity. Qed.
Lemma bind_set_insbuf i v s :
  (set_insbuf i v ≫= k) s = k tt (s <| d_glob := d_glob s <| insbuf := aset (insbuf (d_glob s)) i v |> |>).
Proof. reflexivity. Qed.
Lemma bind_set_ret r s : (set_ret r ≫= k) s = k tt (s <| d_ret := r |>).
Proof. reflexivity. Qed.
End Run.
(** run the assignments at the head of a handler *)
Ltac mstep := rewrite ?bind_upd, ?bind_set_mode, ?bind_set_insbuf, ?bind_set_ret, ?bind_modify, ?bind_gets.

(** ** Turns of the machine *)

Section Machine.
Context (indet : ins_locals -> ins_locals).

Abbreviation turn := (turn indet).
Abbreviation turns flush := (steps (turn flush)).

(** what stays the same while a block is decoded: everything but the reader, the instruction buffer,
    the locals and the state's working fields *)
Definition work_frame (st : deflate_state) : deflate_state :=
  st <| mode := DM.LEN |> <| length_ := 0 |> <| offset := 0 |>.
Record same_block (s s' : dm) : Prop := {
  sb_strm : d_strm s' = d_strm s;
  sb_in : d_in s' = d_in s;
  sb_out : d_out s' = d_out s;
  sb_ret : d_ret s' = d_ret s }.
Lemma same_block_refl s : same_block s s.
Proof. by split. Qed.
Lemma same_block_trans s1 s2 s3 : same_block s1 s2 -> same_block s2 s3 -> same_block s1 s3.
Proof. intros [A B C D] [E F G H]. split; congruence. Qed.

Lemma turn_eq flush s :
  turn flush s =
  match mode (d_state s) with
  | DM.HEAD => h_HEAD | DM.TYPE => h_TYPE flush | DM.TYPEDO => h_TYPEDO flush
  | DM.STORED => h_STORED | DM.COPY_ => h_COPY_ | DM.COPY => h_COPY
  | DM.TABLE => h_TABLE flush | DM.LENLENS => h_LENLENS flush | DM.CODELENS => h_CODELENS flush
  | DM.SKPI_HEADER_END => h_SKPI_HEADER_END
  | DM.LEN_ => h_LEN_ | DM.LEN => h_LEN | DM.INS1 => h_INS1 | DM.INS2 => h_INS2
  | DM.MATCH => h_MATCH | DM.LIT => h_LIT | DM.DONE => h_DONE | DM.SENDINS => h_SENDINS
  | DM.BAD => h_BAD | DM.MEM => exit_with (Return Z_MEM_ERROR) | DM.ENDOFBLOCK => h_ENDOFBLOCK
  | _ => exit_with (Return Z_STREAM_ERROR)
  end (s <| d_locals := indet (d_locals s) |>).
Proof. reflexivity. Qed.

(** the literal byte is read *)
Lemma turn_LEN_lit flush s b l :
  mode (d_state s) = DM.LEN -> aligned s (b :: l) -> b <> 0xaa ->
  exists s', turn flush s = (s', inr tt) /\ aligned s' l /\ same_block s s'
    /\ d_state s' = d_state s <| length_ := b |> <| mode := DM.LIT |>.
Proof.
  intros Hm Ha Hb. rewrite turn_eq, Hm. set (s0 := s <| d_locals := _ |>).
  assert (Ha0 : aligned s0 (b :: l)) by exact Ha.
  unfold h_LEN. rewrite (take8_byte _ b l s0 Ha0).
  destruct (Z.eqb_spec b 0xaa); [done|]. cbn [negb].
  eexists. split; [reflexivity|]. split; [|split; [by split|reflexivity]].
  destruct Ha as (_ & _ & _ & H). apply Forall_cons_1 in H as [_ H]. by split_and!.
Qed.
(** the second [0xaa] of the literal [0xaa] *)
Lemma turn_LEN_aa flush s l :
  mode (d_state s) = DM.LEN -> aligned s (0xaa :: 0xaa :: l) ->
  exists s', turn flush s = (s', inr tt) /\ aligned s' l /\ same_block s s'
    /\ d_state s' = d_state s <| length_ := 0xaa |> <| mode := DM.LIT |>.
Proof.
  intros Hm Ha. rewrite turn_eq, Hm. set (s0 := s <| d_locals := _ |>).
  assert (Ha0 : aligned s0 (0xaa :: 0xaa :: l)) by exact Ha.
  assert (Hl : bytes_ok (0xaa :: l) /\ bytes_ok l).
  { destruct Ha as (_ & _ & _ & H). apply Forall_cons_1 in H as [_ H]. split; [done|].
    by apply Forall_cons_1 in H as [_ H]. }
  unfold h_LEN. rewrite (take8_byte _ 0xaa (0xaa :: l) s0 Ha0). cbn [negb Z.eqb Pos.eqb].
  unfold h_INS1. rewrite bind_set_insbuf, bind_set_mode.
  match goal with |- context [(NEEDBITS 8;; ?m) ?x] => set (s1 := x) end.
  assert (Ha1 : aligned s1 (0xaa :: l)) by (split_and!; [done..|apply Hl]).
  rewrite (take8_byte _ 0xaa l s1 Ha1). cbn [Z.eqb Pos.eqb].
  eexists. split; [reflexivity|]. split; [|split; [by split|reflexivity]].
  split_and!; [done..|apply Hl].
Qed.
(** the end-of-block instruction *)
Lemma turn_LEN_end flush s l :
  mode (d_state s) = DM.LEN -> aligned s (0xaa :: 0xff :: l) ->
  exists s', turn flush s = (s', inr tt) /\ aligned s' l /\ same_block s s'
    /\ d_state s' = d_state s <| mode := DM.ENDOFBLOCK |>.
Proof.
  intros Hm Ha. rewrite turn_eq, Hm. set (s0 := s <| d_locals := _ |>).
  assert (Ha0 : aligned s0 (0xaa :: 0xff :: l)) by exact Ha.
  assert (Hl : bytes_ok (0xff :: l) /\ bytes_ok l).
  { destruct Ha as (_ & _ & _ & H). apply Forall_cons_1 in H as [_ H]. split; [done|].
    by apply Forall_cons_1 in H as [_ H]. }
  unfold h_LEN. rewrite (take8_byte _ 0xaa (0xff :: l) s0 Ha0). cbn [negb Z.eqb Pos.eqb].
  unfold h_INS1. rewrite bind_set_insbuf, bind_set_mode.
  match goal with |- context [(NEEDBITS 8;; ?m) ?x] => set (s1 := x) end.
  assert (Ha1 : aligned s1 (0xff :: l)) by (split_and!; [done..|apply Hl]).
  rewrite (take8_byte _ 0xff l s1 Ha1). cbn [Z.eqb Pos.eqb].
  eexists. split; [reflexivity|]. split; [|split; [by split|reflexivity]].
  split_and!; [done..|apply Hl].
Qed.

Lemma tally_run f s :
  (f (d_state s)).2 = false ->
  tally f s = (s <| d_state := (f (d_state s)).1 <| mode := DM.LEN |> |>, inr tt).
Proof.
  intros H. unfold tally. rewrite bind_gets. destruct (f (d_state s)) as [st b]. cbn in H. subst b. done.
Qed.

(** a match is read and collected in one turn *)
Lemma turn_LEN_match flush s d1 d0 n l :
  mode (d_state s) = DM.LEN -> aligned s (0xaa :: d1 :: d0 :: n :: l) -> 0 <= d1 <= 0x80 ->
  let st := d_state s <| length_ := n |> <| offset := d0 + 256 * d1 |> <| mode := DM.MATCH |> in
  (tr_tally_dist_my st (d0 + 256 * d1) n).2 = false ->
  exists s', turn flush s = (s', inr tt) /\ aligned s' l /\ same_block s s'
    /\ d_state s' = (tr_tally_dist_my st (d0 + 256 * d1) n).1 <| mode := DM.LEN |>.
Proof.
  intros Hm Ha Hd1 st Hf. rewrite turn_eq, Hm. set (s0 := s <| d_locals := _ |>).
  assert (Ha0 : aligned s0 (0xaa :: d1 :: d0 :: n :: l)) by exact Ha.
  assert (Hl : bytes_ok (d1 :: d0 :: n :: l) /\ bytes_ok (d0 :: n :: l) /\ is_byte d0 /\ is_byte n /\ bytes_ok l).
  { destruct Ha as (_ & _ & _ & H). apply Forall_cons_1 in H as [_ H1].
    apply Forall_cons_1 in H1 as [H0 H2]. pose proof H2 as H2'. apply Forall_cons_1 in H2 as [H3 H4].
    apply Forall_cons_1 in H4 as [H5 H6]. split_and!; try done. by constructor. }
  destruct Hl as (Hl1 & Hl2 & Hd0 & Hn & Hl). unfold is_byte in Hd0.
  unfold h_LEN. rewrite (take8_byte _ 0xaa (d1 :: d0 :: n :: l) s0 Ha0). cbn [negb Z.eqb Pos.eqb].
  unfold h_INS1. rewrite bind_set_insbuf, bind_set_mode.
  match goal with |- context [(NEEDBITS 8;; ?m) ?x] => set (s1 := x) end.
  assert (Ha1 : aligned s1 (d1 :: d0 :: n :: l)) by (split_and!; [done..|apply Hl1]).
  rewrite (take8_byte _ d1 (d0 :: n :: l) s1 Ha1).
  destruct (Z.eqb_spec d1 0xaa); [lia|]. destruct (Z.eqb_spec d1 0xff); [lia|].
  destruct (Z.gtb_spec d1 0x80); [lia|].
  unfold h_INS2. rewrite bind_set_insbuf, bind_set_mode.
  match goal with |- context [(NEEDBITS 16;; ?m) ?x] => set (s2 := x) end.
  assert (Ha2 : aligned s2 (d0 :: n :: l)) by (split_and!; [done..|apply Hl2]).
  rewrite (bind_inr _ _ _ _ _ (needbits_2bytes d0 n l s2 Ha2)).
  unfold is_byte in Hn.
  set (s2' := rd_set l (d0 + 256 * n) 16 s2).
  assert (E2 : take_bits 8 s2' = (rd_set l n 8 s2', inr d0)).
  { apply (take8_hold d0 n l 16 s2'); (done || lia). }
  rewrite (bind_inr _ _ _ _ _ E2), bind_set_insbuf.
  match goal with |- context [(take_bits 8 ≫= ?m) ?x] => set (s3 := x) end.
  assert (E3 : take_bits 8 s3 = (rd_set l 0 0 s3, inr n)).
  { apply (take8_hold n 0 l 8 s3); [done|change (d_hold s3) with n; lia|done|done|lia|lia]. }
  rewrite (bind_inr _ _ _ _ _ E3), bind_set_insbuf, bind_set_mode. unfold get_insbuf.
  match goal with |- context [(gets _ ≫= ?m) ?x] => set (s4 := x) end.
  assert (Hib : insbuf (d_glob s4) = aset (aset (aset (aset (insbuf (d_glob s)) 0 0xaa) 1 d1) 2 d0) 3 n)
    by reflexivity.
  rewrite !bind_gets, Hib, !aget_aset, bind_upd. cbn [Z.eqb Pos.eqb].
  rewrite Z.shiftl_mul_pow2 by lia. change (2 ^ 8) with 256.
  rewrite u32_small, (Z.mul_comm d1) by lia.
  match goal with |- context [h_MATCH ?x] => set (s5 := x) end.
  assert (Es : d_state s5 = st) by reflexivity.
  assert (Hal : aligned s5 l) by (split_and!; [done..|exact Hl]).
  assert (Hsb : same_block s s5) by by split.
  assert (Eo : offset st = d0 + 256 * d1) by reflexivity.
  assert (En : length_ st = n) by reflexivity.
  clearbody s5 st. unfold h_MATCH. rewrite tally_run by (cbv beta; by rewrite Es, Eo, En).
  eexists. split; [reflexivity|]. split; [exact Hal|]. split; [destruct Hsb; by split|].
  rewrite Es, Eo, En. reflexivity.
Qed.

(** a collected literal *)
Lemma turn_LIT flush s l b :
  mode (d_state s) = DM.LIT -> length_ (d_state s) = b -> aligned s l ->
  (tr_tally_lit_my (d_state s) b).2 = false ->
  exists s', turn flush s = (s', inr tt) /\ aligned s' l /\ same_block s s'
    /\ d_state s' = (tr_tally_lit_my (d_state s) b).1 <| mode := DM.LEN |>.
Proof.
  intros Hm Hb Ha Hf. rewrite turn_eq, Hm. set (s0 := s <| d_locals := _ |>).
  unfold h_LIT. rewrite tally_run.
  - eexists. split; [reflexivity|]. split; [exact Ha|]. split; [by split|].
    change (d_state s0) with (d_state s). rewrite Hb. reflexivity.
  - change (d_state s0) with (d_state s). cbv beta. by rewrite Hb.
Qed.

(** ** A block of symbols *)

Lemma work_frame_mode st m : work_frame (st <| mode := m |>) = work_frame st.
Proof. reflexivity. Qed.
Lemma work_frame_length st n : work_frame (st <| length_ := n |>) = work_frame st.
Proof. reflexivity. Qed.
Lemma work_frame_offset st n : work_frame (st <| offset := n |>) = work_frame st.
Proof. reflexivity. Qed.
Lemma work_frame_put st c : work_frame (sym_put st c) = sym_put (work_frame st) c.
Proof. reflexivity. Qed.
Lemma work_frame_tally st st' x :
  work_frame st = work_frame st' ->
  work_frame (tally_sym st x).1 = work_frame (tally_sym st' x).1
  /\ (tally_sym st x).2 = (tally_sym st' x).2.
Proof.
  intros H. assert (He : sym_end st = sym_end st') by exact (f_equal sym_end H).
  assert (Hp : forall a b c, work_frame (sym_put (sym_put (sym_put st a) b) c)
                            = work_frame (sym_put (sym_put (sym_put st' a) b) c)).
  { intros a b c. by rewrite !work_frame_put, H. }
  assert (Hn : forall a b c, sym_next (sym_put (sym_put (sym_put st a) b) c)
                            = sym_next (sym_put (sym_put (sym_put st' a) b) c)).
  { intros a b c. exact (f_equal sym_next (Hp a b c)). }
  destruct x as [b|dist len]; cbn [tally_sym]; rewrite ?tally_lit_eq, ?tally_dist_eq; cbn [fst snd];
    by rewrite Hp, Hn, He.
Qed.
(** where a block of symbols is being read: [st] is the state its symbols were collected in *)
Record reading (s : dm) (l : list Z) (st : deflate_state) : Prop := {
  rg_mode : mode (d_state s) = DM.LEN;
  rg_in : aligned s l;
  rg_state : work_frame (d_state s) = work_frame st }.

Lemma turns_symbol flush s x l st :
  reading s (instr x ++ l) st -> symbol_ok x -> (tally_sym st x).2 = false ->
  exists n s', turns flush n s s' /\ (n <= 2)%nat /\ same_block s s' /\ reading s' l (tally_sym st x).1.
Proof.
  intros [Hm Ha Hst] Hx Hf. destruct x as [b|dist len]; cbn [instr tally_sym symbol_ok] in *.
  - assert (H1 : exists s1, turn flush s = (s1, inr tt) /\ aligned s1 l /\ same_block s s1
      /\ d_state s1 = d_state s <| length_ := b |> <| mode := DM.LIT |>).
    { unfold ins_literal in Ha. unfold is_byte in Hx. rewrite u8_small in Ha by lia.
      destruct (Z.eqb_spec b 0xaa) as [->|Hb]; cbn [app] in Ha.
      - by apply turn_LEN_aa.
      - by apply turn_LEN_lit. }
    destruct H1 as (s1 & T1 & A1 & B1 & E1).
    assert (Hw1 : work_frame (d_state s1) = work_frame st) by (rewrite E1, work_frame_mode, work_frame_length; exact Hst).
    destruct (work_frame_tally _ _ (Lit b) Hw1) as [Hw Hfl]. cbn [tally_sym] in Hw, Hfl.
    destruct (turn_LIT flush s1 l b) as (s2 & T2 & A2 & B2 & E2); try done.
    { rewrite E1. reflexivity. } { rewrite E1. reflexivity. } { congruence. }
    exists 2%nat, s2. split_and!; [eapply steps_S; [exact T1|by apply steps_1]|lia|
      by eapply same_block_trans|].
    split; [rewrite E2; reflexivity|done|]. rewrite E2, work_frame_mode. exact Hw.
  - destruct Hx as [Hd Hl]. destruct (ins_match_bytes dist len Hd Hl) as (d1 & d0 & Ei & Ed & H1 & _ & _).
    rewrite Ei in Ha. cbn [app] in Ha. replace (len - MIN_MATCH) with (len - 3) in * by done.
    set (st1 := d_state s <| length_ := len - 3 |> <| offset := dist |> <| mode := DM.MATCH |>).
    assert (Hw1 : work_frame st1 = work_frame st).
    { unfold st1. rewrite work_frame_mode, work_frame_offset, work_frame_length. exact Hst. }
    destruct (work_frame_tally _ _ (Match dist len) Hw1) as [Hw Hfl]. cbn [tally_sym] in Hw, Hfl.
    replace (len - MIN_MATCH) with (len - 3) in * by done.
    destruct (turn_LEN_match flush s d1 d0 (len - 3) l Hm Ha H1) as (s2 & T2 & A2 & B2 & E2).
    { rewrite <- Ed. fold st1. congruence. }
    exists 1%nat, s2. split_and!; [by apply steps_1|lia|done|].
    rewrite <- Ed in E2. fold st1 in E2. split; [rewrite E2; reflexivity|done|]. rewrite E2, work_frame_mode. exact Hw.
Qed.

Lemma tally_room st x l k :
  symbol_ok x -> syms_at st 0 l -> sym_next st = 3 * Z.of_nat (length l) ->
  sym_next st + 3 * Z.of_nat (S k) < sym_end st -> sym_end st <= 2 ^ 32 ->
  (tally_sym st x).2 = false.
Proof.
  intros Hx Hat Hn Hr He. destruct (tally_sym_spec st x l Hx Hat Hn ltac:(lia)) as (_ & N & -> & _).
  rewrite N, length_app. cbn [length]. destruct (Z.eqb_spec (3 * Z.of_nat (length l + 1)) (sym_end st)); [lia|done].
Qed.

Lemma turns_symbols flush s xs l st done_ :
  reading s (flat_map instr xs ++ l) st -> Forall symbol_ok xs ->
  syms_at st 0 done_ -> sym_next st = 3 * Z.of_nat (length done_) ->
  sym_next st + 3 * Z.of_nat (length xs) < sym_end st -> sym_end st <= 2 ^ 32 ->
  exists n s', turns flush n s s' /\ (n <= 2 * length xs)%nat /\ same_block s s'
    /\ reading s' l (tally_all st xs).
Proof.
  intros Hr Hxs. revert s st done_ Hr.
  induction Hxs as [|x xs Hx Hxs IH]; intros s st ds Hr Hat Hn Hroom He.
  { exists 0%nat, s. split_and!; [constructor|lia|apply same_block_refl|exact Hr]. }
  cbn [flat_map] in Hr. rewrite <- app_assoc in Hr. cbn [length] in Hroom.
  pose proof (tally_room st x ds (length xs) Hx Hat Hn Hroom He) as Hf.
  destruct (turns_symbol flush s x _ st Hr Hx Hf) as (n1 & s1 & T1 & L1 & B1 & R1).
  destruct (tally_sym_spec st x ds Hx Hat Hn ltac:(lia)) as (Hat' & Hn' & _ & _ & Hfr).
  assert (He' : sym_end (tally_sym st x).1 = sym_end st) by exact (f_equal sym_end Hfr).
  destruct (IH s1 (tally_sym st x).1 (ds ++ [x])) as (n2 & s2 & T2 & L2 & B2 & R2); try done.
  { rewrite He', Hn', length_app. cbn [length]. lia. } { by rewrite He'. }
  exists (n1 + n2)%nat, s2. split_and!; [by eapply steps_trans|cbn [length]; lia|by eapply same_block_trans|done].
Qed.

Lemma collect_block_run flush s xs l :
  mode (d_state s) = DM.LEN -> aligned s (instrs xs ++ l) -> Forall symbol_ok xs ->
  sym_next (d_state s) = 0 -> 3 * Z.of_nat (length xs) < sym_end (d_state s) <= 2 ^ 32 ->
  exists n s', turns flush n s s' /\ (n <= 2 * length xs + 1)%nat /\ same_block s s'
    /\ mode (d_state s') = DM.ENDOFBLOCK /\ aligned s' l
    /\ work_frame (d_state s') = work_frame (tally_all (d_state s) xs).
Proof.
  intros Hm Ha Hxs Hn [Hroom He]. unfold instrs in Ha. rewrite <- app_assoc in Ha.
  destruct (turns_symbols flush s xs (ins_end ++ l) (d_state s) []) as (n & s1 & T1 & L1 & B1 & R1); try done.
  { rewrite Hn. lia. }
  destruct R1 as [Hm1 Ha1 Hw1]. cbn [ins_end app] in Ha1.
  destruct (turn_LEN_end flush s1 l Hm1 Ha1) as (s2 & T2 & A2 & B2 & E2).
  exists (n + 1)%nat, s2. split_and!.
  - eapply steps_trans; [exact T1|by apply steps_1].
  - lia.
  - by eapply same_block_trans.
  - rewrite E2. reflexivity.
  - done.
  - rewrite E2, work_frame_mode. exact Hw1.
Qed.

(** C10. The re-encoder reads back the instructions of a block: from the bytes written for the symbols
    [xs] and the end marker it collects exactly these symbols in [sym_buf], stops behind the marker
    with the bytes that follow unread, and is ready to flush the block. *)
Theorem collect_block flush s xs l :
  mode (d_state s) = DM.LEN -> aligned s (instrs xs ++ l) -> Forall symbol_ok xs ->
  sym_next (d_state s) = 0 -> 3 * Z.of_nat (length xs) < sym_end (d_state s) <= 2 ^ 32 ->
  exists n s', turns flush n s s' /\ (n <= 2 * length xs + 1)%nat /\ same_block s s'
    /\ mode (d_state s') = DM.ENDOFBLOCK /\ aligned s' l
    /\ work_frame (d_state s') = work_frame (tally_all (d_state s) xs).
Proof. apply collect_block_run. Qed.
End Machine.

(** a re-encoder about to read the symbols of a block *)
Definition demo_dm (st : deflate_state) (l : list Z) : dm :=
  mk_dm (demo_stream l 1000) st (mk_dg ∅ ∅) (mk_il 0 0 0) l 0 0 0 0 Z_OK.
Lemma collect_block_witness :
  let s := demo_dm (blank_state <| mode := DM.LEN |>) (instrs demo_symbols ++ [1; 2]) in
  exists n s', steps (Deflate.turn id Z_NO_FLUSH) n s s' /\ (n <= 9)%nat /\ same_block s s'
    /\ mode (d_state s') = DM.ENDOFBLOCK /\ aligned s' [1; 2]
    /\ work_frame (d_state s') = work_frame (tally_all (d_state s) demo_symbols).
Proof.
  cbv zeta.
  apply (collect_block id Z_NO_FLUSH (demo_dm (blank_state <| mode := DM.LEN |>) (instrs demo_symbols ++ [1; 2]))
    demo_symbols [1; 2]).
  - reflexivity.
  - split; [reflexivity|split; [reflexivity|split; [reflexivity|]]]. apply Forall_app_2.
    + apply instrs_bytes. apply demo_symbols_ok.
    + repeat constructor; lia.
  - apply demo_symbols_ok.
  - reflexivity.
  - vm_compute. split; [reflexivity|discriminate].
Defined.
