(* ===== verification/Codebook.v ===== *)
(** * Decoding tables as decoders of prefix codes

    What a two-level decoding table has to satisfy to decode the code of a tree
    ([table_for]), the reading of a code in the slow path of [j_inflate] ([look],
    [look2]) under these conditions, and the fixed tables, which satisfy them. *)
From S2P Require Import Prelude DeflateTables Inftrees Zlib Trees Format Encode Bitstream InflateState Inffast Inflate.

(** ** Tables *)

(** an entry that points to a second-level table *)
Definition is_link (h : code) : Prop := 1 <= op h <= 15.
#[export] Instance is_link_dec h : Decision (is_link h).
Proof. apply _. Defined.

(** an entry is repeated at every index with the same [cbits] low bits *)
Definition repeated (at_ : Z -> code) (n : Z) : Prop :=
  forall i j, 0 <= i < 2 ^ n -> 0 <= j < 2 ^ n ->
  j mod 2 ^ cbits (at_ i) = i mod 2 ^ cbits (at_ i) -> at_ j = at_ i.
Record table_ok (at_ : Z -> code) (root : Z) : Prop := {
  tb_root : 0 <= root <= 15;
  tb_bits : forall i, 0 <= i < 2 ^ root -> 0 <= cbits (at_ i) <= root;
  tb_rep : repeated at_ root;
  tb_link : forall i, 0 <= i < 2 ^ root -> is_link (at_ i) ->
    cbits (at_ i) = root /\ root + op (at_ i) <= 15
    /\ repeated (fun j => at_ (val (at_ i) + j)) (op (at_ i))
    /\ (forall j, 0 <= j < 2 ^ op (at_ i) -> 0 <= cbits (at_ (val (at_ i) + j)) <= op (at_ i)
          /\ ~ is_link (at_ (val (at_ i) + j))) }.

(** the entry found for the bits of [v] *)
Definition first_level (at_ : Z -> code) (root v : Z) : code := at_ (v mod 2 ^ root).
Definition second_level (at_ : Z -> code) (root v : Z) : code :=
  let h := first_level at_ root v in at_ (val h + (v / 2 ^ root) mod 2 ^ op h).
Definition find (at_ : Z -> code) (root v : Z) : code :=
  let h := first_level at_ root v in
  if bool_decide (is_link h) then let e := second_level at_ root v in e <| cbits := root + cbits e |> else h.

(** a table that decodes the codes of a tree for the symbols below [n], [entry] giving [op] and [val] *)
Record table_for (at_ : Z -> code) (root : Z) (t : Z -> ct_data) (n : Z) (entry : Z -> Z * Z) : Prop := {
  tf_ok : table_ok at_ root;
  tf_find : forall c, 0 <= c < n -> 0 < dl (t c) ->
    find at_ root (fc (t c)) = mk_code (entry c).1 (dl (t c)) (entry c).2 }.

Lemma mod_pow_le a m n : 0 <= m <= n -> (a mod 2 ^ n) mod 2 ^ m = a mod 2 ^ m.
Proof.
  intros H. apply Z.mod_mod_divide. exists (2 ^ (n - m)). rewrite <- Z.pow_add_r by lia. f_equal. lia.
Qed.
Lemma mod_eq_le a b m n : 0 <= m <= n -> a mod 2 ^ n = b mod 2 ^ n -> a mod 2 ^ m = b mod 2 ^ m.
Proof. intros H E. by rewrite <- (mod_pow_le a m n), E, mod_pow_le. Qed.
Lemma mod_range a n : 0 <= n -> 0 <= a mod 2 ^ n < 2 ^ n.
Proof. intros. apply Z.mod_pos_bound. lia. Qed.
Lemma div_mod_pow a m n : 0 <= m -> 0 <= n -> (a / 2 ^ m) mod 2 ^ n = (a mod 2 ^ (m + n)) / 2 ^ m.
Proof.
  intros Hm Hn. rewrite Z.pow_add_r, Z.rem_mul_r by lia.
  rewrite (Z.mul_comm (2 ^ m)), Z.div_add by lia. rewrite (Z.div_small (a mod 2 ^ m)) by (apply mod_range; lia). lia.
Qed.

Section Table.
Context (at_ : Z -> code) (root : Z) (Hok : table_ok at_ root).

Lemma idx_range v : 0 <= v mod 2 ^ root < 2 ^ root.
Proof. apply mod_range, Hok. Qed.

(** the first level depends on the bits of its entry only *)
Lemma first_level_ext v w m :
  cbits (first_level at_ root v) = m -> w mod 2 ^ m = v mod 2 ^ m -> first_level at_ root w = first_level at_ root v.
Proof.
  intros Hm H. pose proof (tb_root _ _ Hok). unfold first_level in *.
  pose proof (tb_bits _ _ Hok (v mod 2 ^ root) (idx_range _)).
  apply (tb_rep _ _ Hok); [apply mod_range; lia..|]. rewrite Hm. rewrite !mod_pow_le by lia. done.
Qed.
Lemma first_level_short v w k :
  0 <= k -> w mod 2 ^ k = v mod 2 ^ k -> cbits (first_level at_ root w) <= k ->
  first_level at_ root v = first_level at_ root w.
Proof.
  intros Hk H Hc. pose proof (tb_root _ _ Hok).
  pose proof (tb_bits _ _ Hok (w mod 2 ^ root) (idx_range _)) as Hb.
  apply (first_level_ext w v _ eq_refl). symmetry. eapply mod_eq_le; [|exact H]. unfold first_level in *. lia.
Qed.

(** the second level depends on [root] and the bits of its entry *)
Lemma second_level_ext v w m :
  is_link (first_level at_ root v) -> cbits (second_level at_ root v) = m ->
  w mod 2 ^ (root + m) = v mod 2 ^ (root + m) -> second_level at_ root w = second_level at_ root v.
Proof.
  intros Hl Hm H. pose proof (tb_root _ _ Hok) as Hr.
  destruct (tb_link _ _ Hok (v mod 2 ^ root) (idx_range _) Hl) as (Hc & Ho & Hrep & Hj).
  unfold second_level in *. cbv zeta in *. unfold is_link in Hl. fold (first_level at_ root v) in *.
  assert (0 <= m).
  { rewrite <- Hm. apply (Hj ((v / 2 ^ root) mod 2 ^ op (first_level at_ root v))). apply mod_range. lia. }
  assert (E : first_level at_ root w = first_level at_ root v).
  { apply (first_level_ext v w root Hc). eapply mod_eq_le; [|exact H]. lia. }
  rewrite E. set (o := op (first_level at_ root v)) in *.
  assert (m <= o) by (rewrite <- Hm; apply (Hj ((v / 2 ^ root) mod 2 ^ o)); apply mod_range; lia).
  specialize (Hrep ((v / 2 ^ root) mod 2 ^ o) ((w / 2 ^ root) mod 2 ^ o)). cbv beta in Hrep.
  apply Hrep; [apply mod_range; lia..|]. rewrite Hm, !mod_pow_le by lia.
  rewrite !div_mod_pow by lia. by rewrite H.
Qed.

(** [find] depends on the bits of what it finds only *)
Lemma find_ext v w :
  w mod 2 ^ cbits (find at_ root v) = v mod 2 ^ cbits (find at_ root v) -> find at_ root w = find at_ root v.
Proof.
  unfold find. cbv zeta. pose proof (tb_root _ _ Hok) as Hr. destruct (bool_decide _) eqn:E; intros H.
  - apply bool_decide_eq_true in E. cbn [cbits set_field] in H.
    destruct (tb_link _ _ Hok (v mod 2 ^ root) (idx_range _) E) as (Hc & Ho & _ & Hj).
    change (w mod 2 ^ (root + cbits (second_level at_ root v)) = v mod 2 ^ (root + cbits (second_level at_ root v))) in H.
    assert (0 <= cbits (second_level at_ root v)).
    { unfold second_level. cbv zeta. unfold is_link in E. apply Hj. apply mod_range. unfold first_level in *. lia. }
    rewrite (first_level_ext v w root Hc) by (eapply mod_eq_le; [|exact H]; lia).
    rewrite bool_decide_eq_true_2 by done. by rewrite (second_level_ext v w _ E eq_refl H).
  - rewrite (first_level_ext v w _ eq_refl H), E. done.
Qed.
End Table.

(** ** Reading with a table *)

Section Values.
Context {S : Type} `{BitReader S}.
Implicit Types s : S.

Definition value (s : S) : Z := val_of (stream s).
Lemma hold_value s : reader_ok s -> rd_hold s = value s mod 2 ^ rd_bits s.
Proof.
  intros [Hb Hh _]. unfold value, stream. rewrite val_of_app, length_bits_of, Z2Nat.id, val_of_bits_of, Z2Nat.id by lia.
  rewrite (Z.mul_comm (2 ^ _)), Z.mod_add, Z.mod_mod by lia. by rewrite Z.mod_small.
Qed.
Lemma BITS_hold n s : 0 <= n <= 32 -> BITS n s = rd_hold s mod 2 ^ n.
Proof. intros Hn. unfold BITS, low_bits. rewrite land_ones_mod by lia. unfold u32. by rewrite mod_pow_le. Qed.
Lemma hold_mod n s : reader_ok s -> 0 <= n <= rd_bits s -> rd_hold s mod 2 ^ n = value s mod 2 ^ n.
Proof. intros Hs Hn. by rewrite (hold_value s Hs), mod_pow_le. Qed.
Lemma value_app s w l : stream s = w ++ l -> value s mod 2 ^ Z.of_nat (length w) = val_of w.
Proof.
  intros E. unfold value. rewrite E, val_of_app, (Z.mul_comm (2 ^ _)), Z.mod_add by lia.
  apply Z.mod_small, val_of_bound.
Qed.

(** the input with what [hold] already has of it *)
Record more (s s' : S) : Prop := { mo_pulled : pulled s s'; mo_bits : rd_bits s <= rd_bits s' }.
Lemma more_refl s : reader_ok s -> more s s.
Proof. intros. split; [by apply pulled_refl|lia]. Qed.
Lemma more_trans s1 s2 s3 : more s1 s2 -> more s2 s3 -> more s1 s3.
Proof. intros [A B] [C D]. split; [by eapply pulled_trans|lia]. Qed.

(** the lookup loop stops at the entry of the whole input as soon as it has its bits *)
Lemma lookup_loop_spec {A} (f : S -> A) (need : A -> Z) e fuel s :
  reader_ok s -> need e <= Z.of_nat (length (stream s)) -> need e <= 57 ->
  (forall s', more s s' -> need (f s') <= rd_bits s' -> f s' = e) ->
  (forall s', more s s' -> need e <= rd_bits s' -> f s' = e) ->
  need e - rd_bits s < Z.of_nat fuel ->
  (0 < fuel)%nat ->
  exists s', lookup_loop fuel f need s = (s', inr e) /\ more s s' /\ need e <= rd_bits s'
    /\ rd_bits s' <= Z.max (rd_bits s) (need e + 7).
Proof.
  revert s. induction fuel as [|fuel IH]; intros s Hok Hlen Hmax H1 H2 Hf Hf0; [lia|].
  cbn [lookup_loop]. rewrite !bind_gets. destruct (Z.leb_spec (need (f s)) (rd_bits s)) as [Hle|Hgt].
  - pose proof (H1 s (more_refl s Hok) Hle) as E. rewrite E. exists s. split; [done|]. split; [by apply more_refl|].
    rewrite E in Hle. lia.
  - assert (Hlt : rd_bits s < need e).
    { destruct (Z.ltb_spec (rd_bits s) (need e)); [done|]. rewrite (H2 s (more_refl s Hok) ltac:(lia)) in Hgt. lia. }
    destruct (rd_next s) as [|b next] eqn:En.
    { rewrite length_stream in Hlen by (apply Hok). unfold have_in in Hlen. rewrite En in Hlen. cbn in Hlen. lia. }
    destruct (pullbyte_spec s b next Hok ltac:(lia) En) as (s1 & E1 & Hok1 & Hs1 & Hr1 & Hn1 & Hb1).
    rewrite (bind_inr _ _ _ _ _ E1).
    assert (M : more s s1) by (split; [by split|lia]).
    destruct (IH s1) as (s' & E & M' & B & C); try done; try lia.
    + by rewrite Hs1.
    + intros s' M'. apply H1. by eapply more_trans.
    + intros s' M'. apply H2. by eapply more_trans.
    + exists s'. split; [done|]. split; [by eapply more_trans|]. lia.
Qed.
End Values.

#[local] Opaque lookup_loop.

(** the look-up of a code in a first-level table, wherever the machine keeps it *)
Section First.
Context {S : Type} `{BitReader S} (f : S -> code) (at_ : Z -> code) (root : Z) (s : S).
Context (Hok : reader_ok s) (Ht : table_ok at_ root).
Context (Hf : forall s', pulled s s' -> f s' = at_ (BITS root s')).

Lemma lookup_first (h := first_level at_ root (value s)) :
  cbits h <= Z.of_nat (length (stream s)) ->
  exists s', lookup_loop 40 f cbits s = (s', inr h) /\ more s s' /\ cbits h <= rd_bits s'
    /\ rd_bits s' <= Z.max (rd_bits s) (cbits h + 7).
Proof.
  intros Hlen. pose proof (tb_root _ _ Ht) as Hr.
  assert (Hh : cbits h <= root) by exact (proj2 (tb_bits _ _ Ht _ (idx_range _ _ Ht (value s)))).
  assert (F : forall s', more s s' -> f s' = first_level at_ root (rd_hold s')).
  { intros s' [P _]. rewrite (Hf s' P), BITS_hold by lia. reflexivity. }
  assert (V : forall s', more s s' -> reader_ok s' /\ value s' = value s).
  { intros s' [[O E _] _]. split; [done|]. unfold value. by rewrite E. }
  pose proof (ro_bits s Hok).
  apply (lookup_loop_spec f cbits h 40 s Hok Hlen); [lia| | |lia|lia].
  - intros s' M Hc. rewrite (F s' M) in *. destruct (V s' M) as [Os Ev]. unfold h. rewrite <- Ev.
    symmetry. eapply (first_level_short _ _ Ht); [apply Os| |exact Hc]. apply hold_mod; [done|]. pose proof (ro_bits _ Os). lia.
  - intros s' M Hc. rewrite (F s' M). destruct (V s' M) as [Os Ev]. unfold h. rewrite <- Ev.
    apply (first_level_ext _ _ Ht _ _ _ eq_refl). rewrite Ev. fold h. rewrite <- Ev. apply hold_mod; [done|].
    pose proof (tb_bits _ _ Ht _ (idx_range _ _ Ht (value s))) as B. fold h in B. unfold h, first_level in *. lia.
Qed.
End First.

(** ** The slow path of [j_inflate] *)

Lemma pulled_state (s s' : im) : pulled s s' -> state s' = state s.
Proof. intros H. exact (f_equal state (pu_rest _ _ H)). Qed.

Section Slow.
Context (tab : inflate_state -> code_ptr) (nbits : inflate_state -> Z) (s : im).
Abbreviation at_ := (code_at (state s) (tab (state s))).
Abbreviation root := (nbits (state s)).
Context (Hok : reader_ok s) (Ht : table_ok at_ root).

Lemma look_spec :
  let h := first_level at_ root (value s) in
  cbits h <= Z.of_nat (length (stream s)) ->
  exists s', look tab nbits s = (s', inr h) /\ more s s' /\ cbits h <= rd_bits s'
    /\ rd_bits s' <= Z.max (rd_bits s) (cbits h + 7).
Proof. apply lookup_first; [done|done|]. intros s' P. by rewrite (pulled_state _ _ P). Qed.

Lemma look2_spec :
  let h := first_level at_ root (value s) in
  let e := second_level at_ root (value s) in
  is_link h -> root <= rd_bits s -> root + cbits e <= Z.of_nat (length (stream s)) ->
  exists s', look2 tab h s = (s', inr e) /\ more s s' /\ root + cbits e <= rd_bits s'
    /\ rd_bits s' <= Z.max (rd_bits s) (root + cbits e + 7).
Proof.
  intros h e Hl Hb Hlen. pose proof (tb_root _ _ Ht) as Hr.
  destruct (tb_link _ _ Ht _ (idx_range _ _ Ht (value s)) Hl) as (Hc & Ho & Hrep & Hj).
  change (at_ (value s mod 2 ^ root)) with h in *. unfold is_link in Hl.
  assert (He : 0 <= cbits e <= op h).
  { unfold e, second_level. cbv zeta. apply Hj. apply mod_range. fold h. lia. }
  assert (V : forall s', more s s' -> reader_ok s' /\ value s' = value s).
  { intros s' [[O E _] _]. split; [done|]. unfold value. by rewrite E. }
  assert (F : forall s', more s s' ->
    code_at (state s') (tab (state s')) (val h + Z.shiftr (BITS (cbits h + op h) s') (cbits h)) = second_level at_ root (rd_hold s')
    /\ first_level at_ root (rd_hold s') = h).
  { intros s' M. destruct (V s' M) as [Os Ev]. destruct M as [P Hge]. rewrite (pulled_state _ _ P), BITS_hold, Hc by lia.
    assert (E : first_level at_ root (rd_hold s') = h).
    { apply (first_level_ext _ _ Ht _ _ root Hc). rewrite <- Ev. apply hold_mod; [done|lia]. }
    split; [|done]. unfold second_level. cbv zeta. rewrite E, Z.shiftr_div_pow2, div_mod_pow by lia. reflexivity. }
  rewrite <- Hc. unfold look2. rewrite <- Hc in Hb, Hlen.
  apply (lookup_loop_spec (fun s => code_at (state s) (tab (state s)) (val h + Z.shiftr (BITS (cbits h + op h) s) (cbits h)))
    (fun here => cbits h + cbits here) e 80 s Hok Hlen); [lia| | |pose proof (ro_bits s Hok); lia|lia].
  - intros s' M Hcb. cbv beta in *. destruct (F s' M) as [F1 F2]. rewrite F1 in *. destruct (V s' M) as [Os Ev].
    unfold e. rewrite <- Ev. symmetry. apply (second_level_ext _ _ Ht _ _ _ ltac:(by rewrite F2) eq_refl).
    symmetry. apply hold_mod; [done|]. rewrite Hc in Hcb. split; [|exact Hcb].
    assert (0 <= cbits (second_level at_ root (rd_hold s'))); [|lia].
    unfold second_level. cbv zeta. rewrite F2. apply Hj. apply mod_range. lia.
  - intros s' M Hcb. cbv beta in *. destruct (F s' M) as [F1 F2]. rewrite F1. destruct (V s' M) as [Os Ev].
    unfold e. rewrite <- Ev. apply (second_level_ext _ _ Ht _ _ (cbits e)); [by rewrite Ev|by rewrite Ev|].
    apply hold_mod; [done|]. rewrite Hc in Hcb. lia.
Qed.
End Slow.

(** ** The entries of the deflate codes *)

Definition lit_entry (c : Z) : Z * Z :=
  if c <? 256 then (0, c) else if c =? 256 then (96, 0) else (tget 0 lext (c - 257), tget 0 lbase (c - 257)).
Definition dist_entry (c : Z) : Z * Z := (tget 0 dext c, tget 0 dbase c).

(** a length is its code's base and extra bits *)
Definition length_entry_ok (lc : Z) : bool :=
  let c := tget 0 j_length_code lc in
  let e := tget 0 extra_lbits c in
  (tget 0 lext c =? 16 + e)
  && (tget 0 lbase c + (if e =? 0 then 0 else lc - tget 0 base_length c) =? lc + 3).
Lemma length_entry lc (c := tget 0 j_length_code lc) (e := tget 0 extra_lbits c) :
  is_byte lc -> tget 0 lext c = 16 + e /\ tget 0 lbase c + (if e =? 0 then 0 else lc - tget 0 base_length c) = lc + 3.
Proof.
  intros H. assert (A : all_below 256 length_entry_ok = true) by (vm_compute; reflexivity).
  pose proof (all_below_spec _ _ A lc H) as B. unfold length_entry_ok in B. cbv zeta in B. fold c in B. fold e in B.
  apply andb_true_iff in B as [B1 B2]. apply Z.eqb_eq in B1, B2. done.
Qed.
(** a distance likewise: the code and the extra bits of [d = dist - 1] *)
Definition dist_entry_ok (c : Z) : bool :=
  (tget 0 dext c =? 16 + tget 0 extra_dbits c) && (tget 0 dbase c =? tget 0 base_dist c + 1)
  && (negb (tget 0 extra_dbits c =? 0) || (c <? 4) ).
Lemma dist_entry_spec c : 0 <= c < 30 ->
  tget 0 dext c = 16 + tget 0 extra_dbits c /\ tget 0 dbase c = tget 0 base_dist c + 1.
Proof.
  intros H. assert (A : all_below 30 dist_entry_ok = true) by (vm_compute; reflexivity).
  pose proof (all_below_spec _ _ A c H) as B. unfold dist_entry_ok in B.
  apply andb_true_iff in B as [B _]. apply andb_true_iff in B as [B1 B2]. apply Z.eqb_eq in B1, B2. done.
Qed.
(** the codes without extra bits stand for one distance each *)
Lemma dist_no_extra d : 0 <= d < 32768 -> tget 0 extra_dbits (d_code d) = 0 -> d = tget 0 base_dist (d_code d).
Proof.
  intros Hd H. destruct (dist_code_spec d Hd) as (Hc & _).
  assert (A : all_below 256 (fun d => negb (tget 0 extra_dbits (d_code d) =? 0) || (d =? tget 0 base_dist (d_code d))) = true)
    by (vm_compute; reflexivity).
  destruct (Z.ltb_spec d 256) as [Hlow|Hhigh].
  - pose proof (all_below_spec _ _ A d ltac:(lia)) as B. cbv beta in B. rewrite H in B. cbn in B. by apply Z.eqb_eq in B.
  - exfalso. assert (A2 : all_below 256 (fun q => (q <? 2) || negb (tget 0 extra_dbits (d_code (128 * q)) =? 0)) = true)
      by (vm_compute; reflexivity).
    pose proof (Z.div_mod d 128 ltac:(lia)) as E. pose proof (Z.mod_pos_bound d 128 ltac:(lia)).
    rewrite E, d_code_high in H by lia.
    pose proof (all_below_spec _ _ A2 (d / 128) ltac:(lia)) as B. cbv beta in B. rewrite H in B. cbn in B. lia.
Qed.

(** ** The fixed tables *)

(** a table without second level, checked by computation *)
Definition flat_ok (l : list code) (root : Z) : bool :=
  all_below (Z.to_nat (2 ^ root)) (fun i =>
    let h := tget code_zero l i in
    (0 <=? cbits h) && (cbits h <=? root) && ((op h <? 1) || (15 <? op h))
    && all_below (Z.to_nat (2 ^ (root - cbits h))) (fun k => bool_decide (tget code_zero l (i mod 2 ^ cbits h + k * 2 ^ cbits h) = h))).
Lemma flat_table_ok l root : 0 <= root <= 15 -> flat_ok l root = true -> table_ok (tget code_zero l) root.
Proof.
  intros Hr H. assert (A : forall i, 0 <= i < 2 ^ root -> let h := tget code_zero l i in
    0 <= cbits h <= root /\ ~ is_link h
    /\ forall k, 0 <= k < 2 ^ (root - cbits h) -> tget code_zero l (i mod 2 ^ cbits h + k * 2 ^ cbits h) = h).
  { intros i Hi. pose proof (all_below_spec _ _ H i ltac:(lia)) as B. cbv beta zeta in B |- *.
    rewrite !andb_true_iff in B. destruct B as [[[B1 B2] B3] B4]. split; [lia|]. split; [unfold is_link; lia|].
    intros k Hk. pose proof (all_below_spec _ _ B4 k ltac:(lia)) as C. cbv beta in C. by apply bool_decide_eq_true in C. }
  clear H. split; [done| | |].
  - intros i Hi. by destruct (A i Hi).
  - intros i j Hi Hj Hij. destruct (A i Hi) as (B1 & _ & B2). set (c := cbits (tget code_zero l i)) in *.
    rewrite <- (B2 (j / 2 ^ c)).
    + rewrite <- Hij. f_equal. rewrite Z.add_comm, (Z.mul_comm (j / _)). apply Z.div_mod. lia.
    + split; [apply Z.div_pos; lia|]. apply Z.div_lt_upper_bound; [lia|]. rewrite <- Z.pow_add_r by lia.
      replace (c + (root - c)) with root by lia. lia.
  - intros i Hi Hl. by destruct (A i Hi) as (_ & B & _).
Qed.
Definition flat_finds (l : list code) (root : Z) (t : Z -> ct_data) (n : nat) (entry : Z -> Z * Z) : bool :=
  all_below n (fun c => (dl (t c) <=? 0)
    || bool_decide (find (tget code_zero l) root (fc (t c)) = mk_code (entry c).1 (dl (t c)) (entry c).2)).
Lemma flat_table_for l root t n entry :
  0 <= root <= 15 -> flat_ok l root = true -> flat_finds l root t n entry = true ->
  table_for (tget code_zero l) root t (Z.of_nat n) entry.
Proof.
  intros Hr H1 H2. split; [by apply flat_table_ok|]. intros c Hc Hd.
  pose proof (all_below_spec _ _ H2 c Hc) as B. cbv beta in B. apply orb_true_iff in B as [B|B]; [lia|].
  by apply bool_decide_eq_true in B.
Qed.
Lemma lenfix_table : table_for (tget code_zero lenfix) 9 static_l 286 lit_entry.
Proof. apply (flat_table_for lenfix 9 static_l 286); [lia|vm_compute; reflexivity..]. Qed.
Lemma distfix_table : table_for (tget code_zero distfix) 5 static_d 30 dist_entry.
Proof. apply (flat_table_for distfix 5 static_d 30); [lia|vm_compute; reflexivity..]. Qed.

(** ** Finding the code at the head of the input *)

Lemma code_bits_length t c : tree_ok t -> Z.of_nat (length (code_bits (t c))) = dl (t c).
Proof. intros Ht. destruct (Ht c) as [H _]. unfold code_bits. rewrite length_bits_of. lia. Qed.
Lemma code_value {S : Type} `{BitReader S} (s : S) t c rest :
  tree_ok t -> stream s = code_bits (t c) ++ rest -> value s mod 2 ^ dl (t c) = fc (t c).
Proof.
  intros Ht E. pose proof (value_app s _ _ E) as V. rewrite code_bits_length in V by done. rewrite V.
  destruct (Ht c) as [H1 H2]. unfold code_bits. rewrite val_of_bits_of, Z2Nat.id by lia. by apply Z.mod_small.
Qed.
Lemma table_find at_ root t n entry c v :
  table_for at_ root t n entry -> tree_ok t -> 0 <= c < n -> 0 < dl (t c) -> v mod 2 ^ dl (t c) = fc (t c) ->
  find at_ root v = mk_code (entry c).1 (dl (t c)) (entry c).2.
Proof.
  intros [Hok Hf] Ht Hc Hd Hv. pose proof (Hf c Hc Hd) as E. destruct (Ht c) as [H1 H2].
  rewrite <- E. apply (find_ext _ _ Hok). rewrite E. cbn [cbits]. by rewrite Hv, Z.mod_small by lia.
Qed.

(** what is found, level by level *)
Lemma find_cases at_ root v o n x :
  table_ok at_ root -> find at_ root v = mk_code o n x ->
  (~ is_link (first_level at_ root v) /\ first_level at_ root v = mk_code o n x)
  \/ (is_link (first_level at_ root v) /\ cbits (first_level at_ root v) = root
      /\ root + op (first_level at_ root v) <= 15 /\ 0 <= n - root <= op (first_level at_ root v)
      /\ second_level at_ root v = mk_code o (n - root) x).
Proof.
  intros Hok. unfold find. cbv zeta. destruct (bool_decide _) eqn:E; intros F.
  - apply bool_decide_eq_true in E. right. split; [done|].
    destruct (tb_link _ _ Hok _ (idx_range _ _ Hok v) E) as (A & B & _ & C). unfold is_link in E.
    assert (D : 0 <= cbits (second_level at_ root v) <= op (first_level at_ root v)).
    { unfold second_level. cbv zeta. apply C. apply mod_range. unfold first_level in *. lia. }
    destruct (second_level at_ root v) as [o' n' x']. injection F as -> <- ->. cbn [cbits] in *.
    replace (root + n' - root) with n' by lia. unfold first_level in *. split_and!; (done || lia).
  - apply bool_decide_eq_false in E. left. done.
Qed.

Lemma static_dl_pos c : (0 <= c < 286 -> 0 < dl (static_l c)) /\ (0 <= c < 30 -> 0 < dl (static_d c)).
Proof.
  assert (A : all_below 286 (fun c => 0 <? dl (static_l c)) = true) by (vm_compute; reflexivity).
  assert (B : all_below 30 (fun c => 0 <? dl (static_d c)) = true) by (vm_compute; reflexivity).
  split; intros Hc; [pose proof (all_below_spec _ _ A c Hc) as E|pose proof (all_below_spec _ _ B c Hc) as E]; cbv beta in E; lia.
Qed.

(** C17. The fixed decoding tables of inffixed.h decode the fixed codes that trees.h encodes with: for every
    literal, length or distance symbol, any bits that begin with the symbol's code find the symbol's
    entry with the code's length, whatever follows the code. *)
Theorem fixed_tables_decode c v :
  (0 <= c < 286 -> v mod 2 ^ dl (static_l c) = fc (static_l c) ->
     find (tget code_zero lenfix) 9 v = mk_code (lit_entry c).1 (dl (static_l c)) (lit_entry c).2)
  /\ (0 <= c < 30 -> v mod 2 ^ dl (static_d c) = fc (static_d c) ->
     find (tget code_zero distfix) 5 v = mk_code (dist_entry c).1 (dl (static_d c)) (dist_entry c).2).
Proof.
  split; intros Hc Hv.
  - apply (table_find _ _ _ _ _ _ _ lenfix_table static_l_ok Hc); [by apply static_dl_pos|done].
  - apply (table_find _ _ _ _ _ _ _ distfix_table static_d_ok Hc); [by apply static_dl_pos|done].
Qed.
(** the code of the end of the block, and the one of distance code 4, with more bits behind them *)
Lemma fixed_tables_decode_witness :
  find (tget code_zero lenfix) 9 (2 ^ 7 * 5) = mk_code 96 7 0 /\ find (tget code_zero distfix) 5 (4 + 32 * 77) = mk_code 17 5 5.
Proof.
  split.
  - apply (proj1 (fixed_tables_decode 256 (2 ^ 7 * 5))); [lia|reflexivity].
  - apply (proj2 (fixed_tables_decode 4 (4 + 32 * 77))); [lia|reflexivity].
Defined.
