(* ===== verification/Huffman.v ===== *)
(** * [inflate_table] builds decoders of canonical codes

    The finished table is a [table_for] the canonical code of its lengths ([Sorting],
    [Tables]), for every call that [inflate_table] and [inflate_table_my] accept, and
    what they accept is decided by the Kraft sum. *)
From S2P Require Import Prelude DeflateTables Inftrees Zlib Trees Codes Sorting Tables.
From S2P Require Import Format Encode Bitstream InflateState Inffast Inflate Codebook.

(** ** Reading the finished table *)

(** an entry that is not a link: a symbol's, or the mark of an invalid code *)
Definition made (type : codetype) (n : nat) (h : code) : Prop :=
  1 <= cbits h <= 15
  /\ ((exists s, 0 <= s < Z.of_nat n /\ h = table_entry type s (cbits h)) \/ op h = 64 /\ val h = 0).
Lemma made_entry type n s b : 0 <= s < Z.of_nat n -> 1 <= b <= 15 -> made type n (table_entry type s b).
Proof. intros Hs Hb. unfold made. rewrite table_entry_bits by lia. split; [done|]. left. by exists s. Qed.
Lemma made_invalid type n b : 1 <= b <= 15 -> made type n (mk_code 64 b 0).
Proof. intros Hb. split; [done|by right]. Qed.

Section Finished.
Context (type : codetype) (table root : Z) (ln ws : nat -> Z) (m : nat).
Context (Hln : forall k, (k < m)%nat -> 1 <= ln k <= 15).
Context (Hsort : forall i j, (i <= j < m)%nat -> ln i <= ln j).
Context (Hroot : 1 <= root <= 15).
Context (mem : arr code) (used : Z) (Hpl : forall j, (j < m)%nat -> placed type table root ln ws mem used j).
Abbreviation at_ := (fun i => aget code_zero mem (table + i)).
Abbreviation low := (low ln root).
Abbreviation begins := (begins ln).
Abbreviation entry := (entry type ws).

Lemma placed_short j : (j < m)%nat -> ln j <= root -> forall i, 0 <= i < 2 ^ root -> begins j i -> at_ i = entry j (ln j).
Proof. intros Hj L. pose proof (Hpl j Hj) as P. unfold placed in P. destruct (Z.leb_spec (ln j) root); [done|lia]. Qed.
Lemma placed_far j : (j < m)%nat -> root < ln j -> placed_long type table root ln ws mem used j.
Proof. intros Hj L. pose proof (Hpl j Hj) as P. unfold placed in P. destruct (Z.leb_spec (ln j) root); [lia|done]. Qed.
Lemma entry_no_link j b : ~ is_link (entry j b).
Proof. apply table_entry_op. Qed.

(** *** A complete code *)

Section Complete.
Context (Hfull : first ln m = 2 ^ 15).
Lemma Hfit : first ln m <= 2 ^ 15.
Proof using Hfull. lia. Qed.

Lemma at_first i : 0 <= i < 2 ^ root ->
  (exists j, (j < m)%nat /\ ln j <= root /\ begins j i /\ at_ i = entry j (ln j))
  \/ (exists j, (j < m)%nat /\ root < ln j /\ low j = i).
Proof.
  intros Hi. destruct (begins_total ln m Hln Hsort Hfit i Hfull) as (j & Hj & B). destruct (Z.leb_spec (ln j) root) as [L|L].
  - left. exists j. split; [done|]. split; [done|]. split; [done|]. by apply placed_short.
  - right. exists j. split; [done|]. split; [done|]. unfold Codes.low. unfold Codes.begins in B. rewrite <- B.
    assert (2 ^ root <= 2 ^ ln j) by (apply Z.pow_le_mono_r; lia). rewrite (Z.mod_small i (2 ^ ln j)) by lia. apply Z.mod_small. lia.
Qed.
Lemma at_second j x : (j < m)%nat -> root < ln j -> 0 <= x < 2 ^ op (at_ (low j)) ->
  exists k, (k < m)%nat /\ root < ln k /\ low k = low j /\ begins k (low k + 2 ^ root * x)
    /\ at_ (val (at_ (low j)) + x) = entry k (ln k - root).
Proof.
  intros Hj L Hx. set (v := low j + 2 ^ root * x). pose proof (low_range ln root ltac:(lia) j) as R.
  assert (Hv : v mod 2 ^ root = low j) by (unfold v; rewrite (Z.mul_comm _ x), Z.mod_add, Z.mod_small by lia; done).
  destruct (begins_total ln m Hln Hsort Hfit v Hfull) as (k & Hk & B). exists k. destruct (Z.leb_spec (ln k) root) as [Lk|Lk].
  - exfalso. apply (short_low ln m Hln Hsort Hfit root ltac:(lia) k j); [|done|].
    + split; [|done]. destruct (decide (k < j)%nat); [done|]. pose proof (Hsort j k ltac:(lia)). lia.
    + rewrite <- Hv. by apply (begins_mod ln m Hln k v root Hk Lk).
  - assert (E : low k = low j).
    { rewrite <- Hv. unfold Codes.low. unfold Codes.begins in B. rewrite <- B. apply mod_pow_le. lia. }
    assert (B' : begins k (low k + 2 ^ root * x)) by (by rewrite E).
    split; [done|]. split; [done|]. split; [done|]. split; [done|]. rewrite <- E.
    apply (pl_entry _ _ _ _ _ _ _ _ (placed_far k Hk Lk)); [by rewrite E|done].
Qed.

Lemma complete_table_ok : table_ok at_ root.
Proof.
  split; [lia| | |].
  - intros i Hi. destruct (at_first i Hi) as [(j & Hj & L & _ & ->)|(j & Hj & L & <-)].
    + pose proof (Hln j Hj). unfold Tables.entry. rewrite table_entry_bits; lia.
    + rewrite (pl_bits _ _ _ _ _ _ _ _ (placed_far j Hj L)). lia.
  - intros i i' Hi Hi' E. destruct (at_first i Hi) as [(j & Hj & L & B & Ej)|(j & Hj & L & Ej)].
    + rewrite Ej in E |- *. pose proof (Hln j Hj). unfold Tables.entry in E at 1. unfold Tables.entry in E. rewrite table_entry_bits in E by lia.
      apply placed_short; [done|done|done|]. unfold Codes.begins in *. congruence.
    + subst i. rewrite (pl_bits _ _ _ _ _ _ _ _ (placed_far j Hj L)) in E. rewrite !Z.mod_small in E by lia. by rewrite E.
  - intros i Hi Hl. destruct (at_first i Hi) as [(j & Hj & L & B & Ej)|(j & Hj & L & <-)].
    { rewrite Ej in Hl. by apply entry_no_link in Hl. }
    pose proof (placed_far j Hj L) as P. pose proof (pl_op _ _ _ _ _ _ _ _ P). split; [apply P|]. split; [lia|].
    assert (Hop : forall k, (k < m)%nat -> root < ln k -> low k = low j -> ln k - root <= op (at_ (low j))).
    { intros k Hk Lk E. rewrite <- E. apply (pl_op _ _ _ _ _ _ _ _ (placed_far k Hk Lk)). }
    split.
    + intros x y Hx Hy E. destruct (at_second j x Hj L Hx) as (k & Hk & Lk & El & B & Ek). rewrite Ek in E |- *. pose proof (Hln k Hk).
      unfold Tables.entry in E. rewrite table_entry_bits in E by lia.
      rewrite <- El. apply (pl_entry _ _ _ _ _ _ _ _ (placed_far k Hk Lk)); [by rewrite El|].
      apply (begins_rest root ln m Hln Hsort Hfit ltac:(lia) k x Hk Lk ltac:(lia)) in B.
      apply (begins_rest root ln m Hln Hsort Hfit ltac:(lia) k y Hk Lk ltac:(lia)). congruence.
    + intros x Hx. destruct (at_second j x Hj L Hx) as (k & Hk & Lk & El & B & ->). pose proof (Hln k Hk). pose proof (Hop k Hk Lk El) as Ho. cbv beta in Ho.
      split; [|apply entry_no_link]. unfold Tables.entry. rewrite table_entry_bits; lia.
Qed.
Lemma complete_find j : (j < m)%nat -> find at_ root (huff ln j) = entry j (ln j).
Proof.
  intros Hj. pose proof (Hln j Hj). pose proof (low_range ln root ltac:(lia) j). unfold find. cbv zeta.
  unfold second_level, first_level. cbv zeta. rewrite low_huff.
  destruct (Z.leb_spec (ln j) root) as [L|L].
  - assert (B : begins j (low j)).
    { apply (begins_mod ln m Hln j (huff ln j) root Hj L). by apply (begins_huff ln m Hln Hsort Hfit). }
    rewrite (placed_short j Hj L (low j)) by done. by rewrite bool_decide_eq_false_2 by apply entry_no_link.
  - pose proof (placed_far j Hj L) as P. pose proof (pl_op _ _ _ _ _ _ _ _ P).
    rewrite bool_decide_eq_true_2 by (unfold is_link; lia).
    pose proof (rest_range root ln m Hln Hsort Hfit ltac:(lia) j Hj L) as R.
    assert (2 ^ (ln j - root) <= 2 ^ op (at_ (low j))) by (apply Z.pow_le_mono_r; lia).
    cbv beta in *.
    rewrite (Z.mod_small (huff ln j / 2 ^ root)) by lia.
    rewrite (pl_entry _ _ _ _ _ _ _ _ P).
    + unfold Tables.entry. rewrite table_entry_set by (rewrite table_entry_bits; lia).
      rewrite table_entry_bits by lia. f_equal. lia.
    + lia.
    + apply (begins_rest root ln m Hln Hsort Hfit ltac:(lia) j (huff ln j / 2 ^ root) Hj L ltac:(lia)).
      apply Z.mod_small. done.
Qed.
Lemma complete_made n i :
  (forall k, (k < m)%nat -> 0 <= ws k < Z.of_nat n) -> 0 <= i < 2 ^ root -> is_link (at_ i) \/ made type n (at_ i).
Proof.
  intros Hws Hi. destruct (at_first i Hi) as [(j & Hj & L & _ & ->)|(j & Hj & L & <-)].
  - right. apply made_entry; [by apply Hws|by apply Hln].
  - left. pose proof (Hln j Hj). pose proof (pl_op _ _ _ _ _ _ _ _ (placed_far j Hj L)). unfold is_link. lia.
Qed.
Lemma complete_made2 n i :
  (forall k, (k < m)%nat -> 0 <= ws k < Z.of_nat n) -> 0 <= i < 2 ^ root -> is_link (at_ i) ->
  forall x, 0 <= x < 2 ^ op (at_ i) -> made type n (at_ (val (at_ i) + x)).
Proof.
  intros Hws Hi Hl x Hx. destruct (at_first i Hi) as [(j & Hj & L & _ & Ej)|(j & Hj & L & <-)].
  - cbv beta in Hl. rewrite Ej in Hl. by apply entry_no_link in Hl.
  - destruct (at_second j x Hj L Hx) as (k & Hk & Lk & _ & _ & ->). pose proof (Hln k Hk). apply made_entry; [by apply Hws|lia].
Qed.
End Complete.
End Finished.

(** the table uses the cells below [used] only *)
Lemma placed_ext type table root ln ws m mem mem' used j :
  0 <= root -> (forall j, (j < m)%nat -> 0 <= low ln root j) -> 2 ^ root <= used ->
  (forall i, 0 <= i < used -> aget code_zero mem' (table + i) = aget code_zero mem (table + i)) ->
  (j < m)%nat -> placed type table root ln ws mem used j -> placed type table root ln ws mem' used j.
Proof.
  intros Hr Hlow Hu H Hj. unfold placed. destruct (Z.leb_spec (ln j) root) as [L|L].
  - intros P i Hi B. rewrite H by lia. by apply P.
  - intros [P1 P2 P3 P4]. pose proof (Hlow j Hj). assert (low ln root j < 2 ^ root) by (unfold low; apply Z.mod_pos_bound; lia).
    split; rewrite H by lia; [done|done|done|]. intros x Hx B. rewrite H by lia. by apply P4.
Qed.

(** ** The routine *)

(** [at_] decodes the canonical code of [lens] *)
Record table_codes (type : codetype) (lens : Z -> Z) (n : nat) (at_ : Z -> code) (root : Z) : Prop := {
  tc_ok : table_ok at_ root;
  tc_find : forall s, 0 <= s < Z.of_nat n -> 0 < lens s -> find at_ root (canon lens n s) = table_entry type s (lens s);
  tc_flat : type = CODES -> forall i, 0 <= i < 2 ^ root -> ~ is_link (at_ i);
  tc_root : type = CODES -> root <= 7;
  tc_made : forall i, 0 <= i < 2 ^ root -> is_link (at_ i) \/ made type n (at_ i);
  tc_made2 : forall i, 0 <= i < 2 ^ root -> is_link (at_ i) -> forall j, 0 <= j < 2 ^ op (at_ i) ->
    made type n (at_ (val (at_ i) + j)) }.
(** the tree of the canonical code *)
Definition canon_tree (lens : Z -> Z) (n : nat) (s : Z) : ct_data := mk_ct (canon lens n s) (lens s).

(** the sets of lengths that are accepted: complete, empty, or a single code of one bit *)
Definition accepted (type : codetype) (lens : Z -> Z) (n : nat) : Prop :=
  kraft lens n = 2 ^ 15 \/ kraft lens n = 0
  \/ (type <> CODES /\ kraft lens n = 2 ^ 14 /\ forall s, 0 <= s < Z.of_nat n -> lens s <= 1).

(** what a successful call leaves *)
Record built (my : bool) (type : codetype) (lens : Z -> Z) (n : nat) (table : Z) (mem : arr code) (tree : arr ct_data)
    (r : table_result) : Prop := {
  bt_ret : r_ret r = 0;
  bt_next : table < r_table r <= table + space type;
  bt_codes : forall mem', (forall p, table <= p < r_table r -> aget code_zero mem' p = aget code_zero (r_mem r) p) ->
    table_codes type lens n (fun i => aget code_zero mem' (table + i)) (r_bits r);
  bt_frame : forall p, p < table \/ r_table r <= p -> aget code_zero (r_mem r) p = aget code_zero mem p;
  bt_tree : my = true -> forall s, aget ct_zero (r_tree r) s =
    if (0 <=? s) && (s <? Z.of_nat n) && (0 <? lens s) then canon_tree lens n s else aget ct_zero tree s }.

Section Routine.
Context (my : bool) (type : codetype) (lens : Z -> Z) (n : nat) (table bits : Z).
Context (mem : arr code) (work0 : arr Z) (tree : arr ct_data).
Context (Hn : Z.of_nat n < 65536) (Hlens : forall s, 0 <= s < Z.of_nat n -> 0 <= lens s <= 15) (Hbits : 1 <= bits <= 15).
Context (HC : type = CODES -> bits <= 7 /\ forall s, 0 <= s < Z.of_nat n -> lens s <= bits).
Abbreviation ln := (nth_len lens n).
Abbreviation ws := (nth_sym lens n).
Abbreviation m := (coded lens n).
Abbreviation count := (count_lens lens n).

Lemma count_ok l : 1 <= l <= 15 -> aget 0 count l = cnt lens n l.
Proof. intros _. by apply count_lens_spec. Qed.
Lemma canon_sym k : (k < m)%nat -> canon lens n (ws k) = huff ln k.
Proof.
  intros Hk. pose proof (nth_sym_range lens n k Hk). pose proof (nth_len_range lens n k Hk) as L. unfold nth_len in L.
  destruct (canon_huff lens n Hlens (ws k) ltac:(done) ltac:(lia)) as (j & Hj & E & <-).
  by rewrite (nth_sym_inj lens n j k Hj Hk E).
Qed.

(** no symbol has a code *)
Lemma built_empty : m = 0%nat ->
  built my type lens n table mem tree
    (mk_res 0 (table + 2) 1 (aset (aset mem table (mk_code 64 1 0)) (table + 1) (mk_code 64 1 0)) work0 tree).
Proof.
  intros Hm. assert (Hz : forall s, 0 <= s < Z.of_nat n -> lens s = 0).
  { intros s Hs. pose proof (Hlens s Hs). destruct (Z.eq_dec (lens s) 0) as [|N]; [done|].
    destruct (canon_huff lens n Hlens s Hs ltac:(lia)) as (k & Hk & _). lia. }
  split; cbn [r_ret r_table r_bits r_mem r_tree].
  - done.
  - split; [lia|]. destruct type; cbn; unfold ENOUGH_LENS, ENOUGH_DISTS; lia.
  - intros mem' E. assert (A : forall i, 0 <= i < 2 ^ 1 -> aget code_zero mem' (table + i) = mk_code 64 1 0).
    { intros i Hi. rewrite E, !aget_aset by lia. destruct (Z.eqb_spec (table + 1) (table + i)); [done|].
      destruct (Z.eqb_spec table (table + i)); [done|]. lia. }
    assert (L : forall i, 0 <= i < 2 ^ 1 -> ~ is_link (aget code_zero mem' (table + i))).
    { intros i Hi. rewrite A by done. unfold is_link. cbn. lia. }
    split; [|intros s Hs Q; rewrite Hz in Q by done; lia|by intros _|by intros _| |].
    2: { intros i Hi. right. rewrite A by done. by apply made_invalid. }
    2: { intros i Hi Q. by apply L in Q. }
    split; [lia| | |].
    + intros i Hi. rewrite A by done. cbn. lia.
    + intros i j Hi Hj _. by rewrite !A.
    + intros i Hi Q. by apply L in Q.
  - intros p Hp. rewrite !aget_aset_ne by lia. done.
  - intros _ s. destruct (Z.leb_spec 0 s), (Z.ltb_spec s (Z.of_nat n)); try done. by rewrite Hz.
Qed.

(** the variables at the start of the main loop *)
Section Started.
Context (Hm : (0 < m)%nat).
Definition first_root : Z := Z.max (ln 0%nat) (Z.min bits (ln (pred m))).
Lemma first_root_range : 1 <= first_root <= 15 /\ ln 0%nat <= first_root /\ (type = CODES -> forall k, (k < m)%nat -> ln k <= first_root).
Proof.
  pose proof (nth_len_range lens n 0 Hm). pose proof (nth_len_range lens n (pred m) ltac:(lia)). unfold first_root.
  split; [lia|]. split; [lia|]. intros E k Hk. destruct (HC E) as [_ Hb].
  pose proof (Hb _ (nth_sym_range lens n k Hk)) as B. fold (ln k) in B. pose proof (nth_len_sorted lens n k (pred m) ltac:(lia)). lia.
Qed.
Lemma first_root_codes : type = CODES -> first_root <= 7.
Proof.
  intros E. destruct (HC E) as [H7 Hb]. pose proof (Hb _ (nth_sym_range lens n 0 Hm)) as B. fold (ln 0%nat) in B. unfold first_root. lia.
Qed.
Definition offs_ : arr Z := gen_offs 14 1 (aset ∅ 1 0) count.
Definition work_ : arr Z := (sort_symbols lens n offs_ work0).2.
Lemma work_ok k : (k < m)%nat -> aget 0 work_ (Z.of_nat k) = ws k /\ lens (ws k) = ln k.
Proof.
  intros Hk. split; [|done]. apply (sort_symbols_list lens n Hn Hlens); [|by apply nth_sym_lookup].
  intros l Hl. unfold offs_. apply (gen_offs_spec lens n Hn); [lia|lia|apply count_ok| |lia].
  intros l' Hl'. assert (l' = 1) as -> by lia. by rewrite aget_aset_eq.
Qed.
Lemma fit : kraft lens n <= 2 ^ 15 -> first ln m <= 2 ^ 15.
Proof. intros H. by rewrite (first_kraft lens n Hlens). Qed.
Abbreviation used0 := (2 ^ first_root).
Abbreviation start := (mk_tbl 0 0 (ln 0%nat) table first_root 0 (u32 (-1)) used0 (ln 0%nat) count mem tree).
Abbreviation failed r w := (mk_res r table bits mem w tree).
Definition finish (s : tbl) : table_result :=
  mk_res 0 (table + t_used s) first_root
    (if t_huff s =? 0 then t_mem s else aset (t_mem s) (t_next s + t_huff s) (mk_code 64 (u8 (t_len s - t_drop s)) 0))
    work_ (t_tree s).
Lemma gen_eq :
  inflate_table_gen my type lens (Z.of_nat n) table bits mem work0 tree =
  if kraft lens n >? 2 ^ 15 then Some (failed (-1) work0)
  else if (2 ^ 15 - kraft lens n >? 0) && (bool_decide (type = CODES) || negb (ln (pred m) =? 1)) then Some (failed (-1) work0)
  else if not_enough type used0 then Some (failed 1 work_)
  else match loop (table_step my type lens work_ table first_root (ln (pred m)) (used0 - 1)) (S n) start with
       | None => None
       | Some (false, s) => Some (mk_res 1 table bits (t_mem s) work_ (t_tree s))
       | Some (true, s) => Some (finish s)
       end.
Proof.
  pose proof (nth_len_range lens n 0 Hm) as R0. pose proof (nth_len_range lens n (pred m) ltac:(lia)) as R1.
  pose proof (nth_len_sorted lens n 0 (pred m) ltac:(lia)) as R2.
  assert (Emax : find_max 15 count = ln (pred m)).
  { rewrite (find_max_spec lens n count count_ok). destruct m; [lia|done]. }
  unfold inflate_table_gen. rewrite Nat2Z.id. cbv zeta. rewrite Emax.
  destruct (Z.eqb_spec (ln (pred m)) 0); [lia|].
  rewrite (find_min_spec lens n count count_ok 15 1 (ln (pred m))) by lia.
  assert (Er : (if (if bits >? ln (pred m) then ln (pred m) else bits) <? ln 0%nat then ln 0%nat
                else if bits >? ln (pred m) then ln (pred m) else bits) = first_root).
  { unfold first_root. destruct (Z.gtb_spec bits (ln (pred m))), (Z.ltb_spec (ln (pred m)) (ln 0%nat)), (Z.ltb_spec bits (ln 0%nat)); lia. }
  rewrite Er, Z.shiftl_1_l, (check_left_spec lens n Hn Hlens count count_ok).
  destruct (kraft lens n >? 2 ^ 15); reflexivity.
Qed.

(** *** A complete code *)

Lemma built_complete s :
  kraft lens n = 2 ^ 15 -> complete my type table first_root mem tree ln ws m s ->
  built my type lens n table mem tree (finish s).
Proof.
  intros Hk [C1 C2 C3 [C4 C5] C6 C7 C8]. pose proof first_root_range as (Hr & Hr0 & Hrc).
  assert (Hfull : first ln m = 2 ^ 15) by (by rewrite (first_kraft lens n Hlens)).
  assert (Hh : t_huff s = 0) by (rewrite C2; unfold huff; rewrite Hfull; reflexivity).
  unfold finish. rewrite Hh. change (0 =? 0) with true. cbv iota.
  split; cbn [r_ret r_table r_bits r_mem r_tree].
  - done.
  - lia.
  - intros mem' E. assert (P : forall j, (j < m)%nat -> placed type table first_root ln ws mem' (t_used s) j).
    { intros j Hj. apply (placed_ext type table first_root ln ws m (t_mem s)); [lia| |lia| |done|by apply C6].
      - intros i _. unfold low. apply Z.mod_pos_bound. lia.
      - intros i Hi. apply E. lia. }
    pose proof (nth_len_range lens n) as Hln. pose proof (nth_len_sorted lens n) as Hsort.
    assert (Hws : forall k, (k < m)%nat -> 0 <= ws k < Z.of_nat n) by (apply nth_sym_range).
    split; [by apply (complete_table_ok type table first_root ln ws m Hln Hsort Hr mem' (t_used s))| | |by apply first_root_codes
      |intros i Hi; by apply (complete_made type table first_root ln ws m Hln Hsort Hr mem' (t_used s))
      |intros i Hi L; by apply (complete_made2 type table first_root ln ws m Hln Hsort Hr mem' (t_used s))].
    2: { intros Ety i Hi. destruct (at_first type table first_root ln ws m Hln Hsort Hr mem' (t_used s) P Hfull i Hi)
           as [(j & Hj & L & B & ->)|(j & Hj & L & _)]; [apply table_entry_op|]. pose proof (Hrc Ety j Hj). lia. }
    intros x Hx Hl. destruct (canon_huff lens n Hlens x Hx Hl) as (k & Hk' & Ek & <-).
    rewrite (complete_find type table first_root ln ws m Hln Hsort Hr mem' (t_used s) P Hfull k Hk').
    unfold entry. by rewrite <- Ek.
  - intros p Hp. replace p with (table + (p - table)) by lia. apply C7. lia.
  - intros E x. destruct (C8 E) as [T1 T2].
    destruct (Z.leb_spec 0 x), (Z.ltb_spec x (Z.of_nat n)), (Z.ltb_spec 0 (lens x)); cbn [andb].
    1: { destruct (canon_huff lens n Hlens x ltac:(lia) ltac:(lia)) as (k & Hk' & Ek & Ec).
         unfold canon_tree. rewrite <- Ec, <- Ek. by apply T1. }
    all: apply T2; intros j Hj Q; pose proof (nth_sym_range lens n j Hj); pose proof (nth_len_range lens n j Hj) as Hlj;
      unfold nth_len in Hlj; rewrite Q in *; lia.
Qed.
(** *** A single code of one bit *)

Lemma single_code : ln (pred m) = 1 -> kraft lens n < 2 ^ 15 ->
  m = 1%nat /\ kraft lens n = 2 ^ 14 /\ (forall x, 0 <= x < Z.of_nat n -> lens x <= 1) /\ first_root = 1 /\ ln 0%nat = 1.
Proof.
  intros E Hk. pose proof (first_kraft lens n Hlens) as F.
  assert (H1 : forall k, (k < m)%nat -> ln k = 1).
  { intros k Hk'. pose proof (nth_len_sorted lens n k (pred m) ltac:(lia)). pose proof (nth_len_range lens n k Hk'). lia. }
  assert (A : forall k, (k <= m)%nat -> first ln k = Z.of_nat k * 2 ^ 14).
  { induction k as [|k IH]; intros Hk'; [done|]. cbn [first]. rewrite IH by lia. unfold width. rewrite H1 by lia. lia. }
  rewrite A in F by lia. assert (Hm1 : m = 1%nat) by lia. rewrite Hm1 in F. split; [done|]. split; [lia|]. split.
  - intros x Hx. destruct (Z.ltb_spec 0 (lens x)) as [L|]; [|lia].
    destruct (canon_huff lens n Hlens x Hx L) as (k & Hk' & <- & _). pose proof (H1 k Hk') as Q. unfold nth_len in Q. lia.
  - pose proof (H1 0%nat Hm). unfold first_root. rewrite E. lia.
Qed.
Lemma built_single s :
  ln (pred m) = 1 -> kraft lens n < 2 ^ 15 -> type <> CODES -> complete my type table first_root mem tree ln ws m s ->
  built my type lens n table mem tree (finish s).
Proof.
  intros E Hk Hty [C1 C2 C3 [C4 C5] C6 C7 C8]. destruct (single_code E Hk) as (Hm1 & _ & _ & Hr & Hl0).
  assert (Hh : t_huff s = 1) by (rewrite C2, Hm1; unfold huff, first, width; rewrite Hl0; reflexivity).
  destruct C3 as [V|V]; [|destruct V as [V _]; rewrite E, Hr in V; lia]. destruct V as [_ V1 V2 V3 _].
  rewrite V3, V2, Hr in C4. assert (Hu : t_used s = 2) by lia. clear C4.
  unfold finish. rewrite Hh, C1, V1, V3, Hr, Hu, E. change (1 =? 0) with false. change (u8 (1 - 0)) with 1. cbv iota.
  assert (H0 : aget code_zero (t_mem s) table = table_entry type (ws 0%nat) 1).
  { pose proof (C6 0%nat Hm) as P. unfold placed in P. rewrite Hr, Hl0 in P. destruct (Z.leb_spec 1 1); [|lia].
    specialize (P 0 ltac:(lia)). rewrite Z.add_0_r in P. apply P. reflexivity. }
  split; cbn [r_ret r_table r_bits r_mem r_tree].
  - done.
  - destruct type; cbn; unfold ENOUGH_LENS, ENOUGH_DISTS; lia.
  - intros mem' Em. set (at_ := fun i => aget code_zero mem' (table + i)).
    assert (A0 : at_ 0 = table_entry type (ws 0%nat) 1).
    { unfold at_. rewrite Em, aget_aset_ne, Z.add_0_r by lia. exact H0. }
    assert (A1 : at_ 1 = mk_code 64 1 0).
    { unfold at_. rewrite Em by lia. apply aget_aset_eq. }
    assert (B : forall i, 0 <= i < 2 ^ 1 -> cbits (at_ i) = 1 /\ ~ is_link (at_ i)).
    { intros i Hi. assert (i = 0 \/ i = 1) as [-> | ->] by lia; [rewrite A0|rewrite A1].
      - split; [apply table_entry_bits; lia|apply table_entry_op].
      - split; [done|]. unfold is_link. cbn. lia. }
    split.
    + split; [lia| | |].
      * intros i Hi. rewrite (proj1 (B i Hi)). lia.
      * intros i j Hi Hj. rewrite (proj1 (B i Hi)), !Z.mod_small by lia. by intros ->.
      * intros i Hi L. by destruct (B i Hi).
    + intros x Hx Hl. destruct (canon_huff lens n Hlens x Hx Hl) as (k & Hk' & Ek & Ec).
      assert (k = 0%nat) as -> by lia. rewrite <- Ec. unfold huff, first. change (rev_bits 15 0) with 0.
      unfold find, first_level. cbv zeta. change (0 mod 2 ^ 1) with 0. rewrite A0.
      rewrite bool_decide_eq_false_2 by apply table_entry_op. unfold nth_len in Hl0. by rewrite <- Ek, Hl0.
    + by intros E2.
    + by intros E2.
    + intros i Hi. right. assert (i = 0 \/ i = 1) as [-> | ->] by lia; [rewrite A0; apply made_entry; [|lia]|rewrite A1; by apply made_invalid].
      by apply nth_sym_range.
    + intros i Hi L. by destruct (B i Hi).
  - intros p Hp. rewrite aget_aset_ne by lia. replace p with (table + (p - table)) by lia. apply C7. lia.
  - intros Emy x. destruct (C8 Emy) as [T1 T2].
    destruct (Z.leb_spec 0 x), (Z.ltb_spec x (Z.of_nat n)), (Z.ltb_spec 0 (lens x)); cbn [andb].
    1: { destruct (canon_huff lens n Hlens x ltac:(lia) ltac:(lia)) as (k & Hk' & Ek & Ec).
         unfold canon_tree. rewrite <- Ec, <- Ek. by apply T1. }
    all: apply T2; intros j Hj Q; pose proof (nth_sym_range lens n j Hj); pose proof (nth_len_range lens n j Hj) as Hlj;
      unfold nth_len in Hlj; rewrite Q in *; lia.
Qed.
End Started.

(** the call always returns; the lengths decide whether it succeeds, up to the space *)
Lemma inflate_table_run :
  exists r, inflate_table_gen my type lens (Z.of_nat n) table bits mem work0 tree = Some r
    /\ (r_ret r = -1 /\ ~ accepted type lens n /\ r_mem r = mem
        \/ r_ret r = 1 /\ accepted type lens n /\ type <> CODES
           /\ (forall p, p < table \/ table + space type <= p -> aget code_zero (r_mem r) p = aget code_zero mem p)
        \/ accepted type lens n /\ built my type lens n table mem tree r).
Proof.
  destruct (decide (m = 0%nat)) as [E0|N0].
  { pose proof (built_empty E0) as B. eexists. split; [|right; right; split; [|exact B]].
    - unfold inflate_table_gen. rewrite Nat2Z.id. cbv zeta. rewrite (find_max_spec lens n count count_ok), E0. reflexivity.
    - right. left. pose proof (first_kraft lens n Hlens) as F. rewrite E0 in F. done. }
  assert (Hm : (0 < m)%nat) by lia. rewrite (gen_eq Hm). pose proof (first_kraft lens n Hlens) as F.
  assert (Hpos : 0 < kraft lens n).
  { rewrite <- F. pose proof (first_lt (nth_len lens n) m (nth_len_range lens n) 0 m ltac:(lia)).
    pose proof (width_pos (nth_len lens n) m (nth_len_range lens n) 0 Hm). cbn [first] in *. lia. }
  destruct (Z.gtb_spec (kraft lens n) (2 ^ 15)) as [G|G].
  { eexists. split; [reflexivity|left]. split; [done|]. split; [|done]. unfold accepted. lia. }
  destruct ((2 ^ 15 - kraft lens n >? 0) && (bool_decide (type = CODES) || negb (ln (pred m) =? 1))) eqn:Eb.
  { eexists. split; [reflexivity|left]. split; [done|]. split; [|done]. apply andb_true_iff in Eb as [A B].
    apply orb_true_iff in B. intros [K|[K|(K1 & K2 & K3)]]; [lia|lia|].
    destruct B as [B|B]; [by apply bool_decide_eq_true in B|]. destruct (Z.eqb_spec (ln (pred m)) 1) as [|Q]; [done|].
    pose proof (nth_len_range lens n (pred m) ltac:(lia)) as R. pose proof (nth_sym_range lens n (pred m) ltac:(lia)) as R2.
    specialize (K3 _ R2). unfold nth_len in *. lia. }
  assert (Hacc : accepted type lens n /\ (kraft lens n = 2 ^ 15 \/ type <> CODES /\ ln (pred m) = 1 /\ kraft lens n < 2 ^ 15)).
  { apply andb_false_iff in Eb as [A|A]; [assert (kraft lens n = 2 ^ 15) by lia; unfold accepted; tauto|].
    apply orb_false_iff in A as [A B]. apply bool_decide_eq_false in A. apply negb_false_iff, Z.eqb_eq in B.
    destruct (Z.eq_dec (kraft lens n) (2 ^ 15)) as [Q|Q]; [unfold accepted; tauto|].
    destruct (single_code Hm B ltac:(lia)) as (_ & K & L & _). unfold accepted. split; [right; right; done|]. right. split_and!; [done|done|lia]. }
  destruct Hacc as [Hacc Hcase]. pose proof (first_root_range Hm) as (Hr & Hr0 & Hrc).
  destruct (not_enough type (2 ^ first_root)) eqn:En.
  { eexists. split; [reflexivity|right; left]. split; [done|]. split; [done|]. split; [by intros ->|done]. }
  assert (Hsp : (2 ^ first_root) <= space type).
  { destruct (decide (type = CODES)) as [Q|Q]; [|by apply enough_bound].
    replace (space type) with (2 ^ 7) by (by rewrite Q). apply Z.pow_le_mono_r; [lia|]. by apply first_root_codes. }
  pose proof (by_length_total lens n) as Hmn.
  destruct (main_loop_spec my type lens work_ table first_root mem tree (nth_len lens n) (nth_sym lens n) m) with
    (d := pred m) (k := 0%nat) (s := mk_tbl 0 0 (ln 0%nat) table first_root 0 (u32 (-1)) (2 ^ first_root) (ln 0%nat) count mem tree) (fuel := S n)
    as (b & s' & El & Hs').
  - apply nth_len_range.
  - apply nth_len_sorted.
  - by apply fit.
  - by apply work_ok.
  - apply nth_sym_inj.
  - done.
  - done.
  - done.
  - unfold coded. lia.
  - done.
  - unfold coded. lia.
  - apply inv_start; [done|done|done|done|done|]. intros l Hl. rewrite remaining_all by lia. by apply count_ok.
  - rewrite El. destruct b.
    + eexists. split; [reflexivity|right; right]. split; [done|].
      destruct Hcase as [K|(K1 & K2 & K3)]; [by apply built_complete|by apply built_single].
    + eexists. split; [reflexivity|right; left]. split; [done|]. split; [done|]. split.
      * apply Hs'.
      * intros p Hp. cbn [r_mem]. replace p with (table + (p - table)) by lia. apply Hs'. lia.
Qed.
End Routine.

Lemma canon_range lens n s : 0 <= lens s -> 0 <= canon lens n s < 2 ^ lens s.
Proof. intros H. pose proof (rev_range (Z.to_nat (lens s)) (next_code lens n (Z.to_nat (lens s)) + cnt lens (Z.to_nat s) (lens s))) as R. by rewrite Z2Nat.id in R. Qed.


(** C8. When [inflate_table] succeeds, its table decodes the canonical code of the lengths (RFC 1951, 3.2.2): for every
    symbol that has a code, any bits that begin with the code find the symbol's entry, with the code's length, whatever
    follows; and [inflate_table_my] leaves exactly these codes and lengths in its tree. *)
Theorem inflate_table_decodes my type lens codes table bits mem work tree r :
  0 <= codes < 65536 -> (forall s, 0 <= s < codes -> 0 <= lens s <= 15) -> 1 <= bits <= 15 ->
  (type = CODES -> bits <= 7 /\ forall s, 0 <= s < codes -> lens s <= bits) ->
  inflate_table_gen my type lens codes table bits mem work tree = Some r -> r_ret r = 0 ->
  forall s v, 0 <= s < codes -> 0 < lens s -> v mod 2 ^ lens s = canon lens (Z.to_nat codes) s ->
  find (fun i => aget code_zero (r_mem r) (table + i)) (r_bits r) v = table_entry type s (lens s)
  /\ (my = true -> aget ct_zero (r_tree r) s = mk_ct (canon lens (Z.to_nat codes) s) (lens s)).
Proof.
  intros Hc Hl Hb HC Er R s v Hs Hls Hv. pose proof (Z2Nat.id codes ltac:(lia)) as E.
  destruct (inflate_table_run my type lens (Z.to_nat codes) table bits mem work tree) as (r' & Er' & H); rewrite ?E; try done; [lia|].
  rewrite E, Er in Er'. injection Er' as <-. destruct H as [(R' & _)|[(R' & _)|(A & B)]]; [lia|lia|].
  destruct (bt_codes _ _ _ _ _ _ _ _ B (r_mem r) ltac:(done)) as [T F _]. split.
  - rewrite <- (F s) by lia. apply (find_ext _ _ T). rewrite (F s) by lia. rewrite table_entry_bits by (apply Hl in Hs; lia).
    rewrite Hv. symmetry. apply Z.mod_small. apply canon_range. lia.
  - intros Emy. rewrite (bt_tree _ _ _ _ _ _ _ _ B Emy). destruct (Z.leb_spec 0 s), (Z.ltb_spec s (Z.of_nat (Z.to_nat codes))), (Z.ltb_spec 0 (lens s)); try lia.
    done.
Qed.
(** the code of the lengths 2, 1, 3, 3: symbol 2 has the code 110, first bit lowest, here before more bits *)
Lemma inflate_table_decodes_witness :
  exists r, inflate_table_my DISTS (tget 0 [2; 1; 3; 3]) 4 0 6 ∅ ∅ ∅ = Some r /\ r_ret r = 0
    /\ find (aget code_zero (r_mem r)) (r_bits r) (8 * 5 + 3) = mk_code 16 3 3 /\ aget ct_zero (r_tree r) 2 = mk_ct 3 3.
Proof.
  destruct (inflate_table_my DISTS (tget 0 [2; 1; 3; 3]) 4 0 6 ∅ ∅ ∅) as [r|] eqn:E; [|vm_compute in E; discriminate].
  assert (R : r_ret r = 0) by (vm_compute in E; by injection E as <-).
  exists r. split; [done|]. split; [exact R|].
  assert (Hl : forall s, 0 <= s < 4 -> 0 <= tget 0 [2; 1; 3; 3] s <= 15).
  { intros s Hs. assert (s = 0 \/ s = 1 \/ s = 2 \/ s = 3) as [-> | [-> | [-> | ->]]] by lia; split; vm_compute; discriminate. }
  destruct (inflate_table_decodes true DISTS (tget 0 [2; 1; 3; 3]) 4 0 6 ∅ ∅ ∅ r) with (s := 2) (v := 8 * 5 + 3) as [A B];
    [lia|exact Hl|lia|discriminate|exact E|exact R|lia|reflexivity|vm_compute; reflexivity|].
  split; [exact A|by apply B].
Defined.
