(* ===== verification/Builds.v ===== *)
(** * Which lengths the table builder accepts

    The outcome of [inflate_table] depends on the code lengths alone, not on the
    memory, the work area, the place of the table or the variant; so it can be
    asked of the lengths ([builds]), and a call in either machine answers the same. *)
From Stdlib Require Import FunctionalExtensionality.
From S2P Require Import Prelude DeflateTables Inftrees Zlib Trees Codes Sorting Tables.
From S2P Require Import Format Encode Bitstream InflateState Inffast Inflate Codebook Huffman.

(** ** The lengths outside the alphabet do not matter *)

Section Ext.
Context (lens lens' : Z -> Z) (n : nat) (E : forall s, 0 <= s < Z.of_nat n -> lens s = lens' s).

Lemma syms_ext l k : (k <= n)%nat -> syms lens l k = syms lens' l k.
Proof using E. induction k as [|k IH]; intros Hk; [done|]. by rewrite !syms_S, E, IH by lia. Qed.
Lemma cnt_ext l k : (k <= n)%nat -> cnt lens k l = cnt lens' k l.
Proof using E. intros Hk. unfold cnt. by rewrite syms_ext. Qed.
Lemma by_length_ext k : by_length lens n k = by_length lens' n k.
Proof using E. induction k as [|k IH]; [done|]. cbn [by_length]. by rewrite IH, syms_ext. Qed.
Lemma coded_ext : coded lens n = coded lens' n.
Proof using E. unfold coded. by rewrite by_length_ext. Qed.
Lemma nth_sym_ext k : nth_sym lens n k = nth_sym lens' n k.
Proof using E. unfold nth_sym. by rewrite by_length_ext. Qed.
Lemma nth_len_ext k : (k < coded lens n)%nat -> nth_len lens n k = nth_len lens' n k.
Proof using E. intros Hk. unfold nth_len. rewrite <- nth_sym_ext. by apply E, nth_sym_range. Qed.
Lemma kraft_ext k : (k <= n)%nat -> kraft lens k = kraft lens' k.
Proof using E. induction k as [|k IH]; intros Hk; [done|]. cbn [kraft]. by rewrite E, IH by lia. Qed.
Lemma next_code_ext l : next_code lens n l = next_code lens' n l.
Proof using E. induction l as [|l IH]; [done|]. cbn [next_code]. by rewrite IH, cnt_ext. Qed.
Lemma canon_ext s : 0 <= s < Z.of_nat n -> canon lens n s = canon lens' n s.
Proof using E. intros Hs. unfold canon. by rewrite E, next_code_ext, cnt_ext by lia. Qed.
Lemma count_lens_ext k : (k <= n)%nat -> count_lens lens k = count_lens lens' k.
Proof using E.
  unfold count_lens. induction k as [|k IH]; intros Hk; [done|]. rewrite !seq_S, !foldl_app. cbn [foldl]. by rewrite IH, E by lia.
Qed.
End Ext.

Lemma built_ext my type lens lens' n table mem tree r :
  (forall s, 0 <= s < Z.of_nat n -> lens s = lens' s) -> built my type lens n table mem tree r -> built my type lens' n table mem tree r.
Proof.
  intros E [A B C D F]. split; try done.
  - intros mem' Em. destruct (C mem' Em) as [C1 C2 C3 C4 C5 C6]. split; [done| |done..]. intros s Hs Hl.
    rewrite <- (canon_ext lens lens' n E), <- E by done. apply C2; [done|]. by rewrite E.
  - intros Emy s. rewrite (F Emy). destruct (Z.leb_spec 0 s), (Z.ltb_spec s (Z.of_nat n)); try done. cbn [andb].
    unfold canon_tree. by rewrite <- (canon_ext lens lens' n E), <- E by done.
Qed.

(** ** Two calls on the same lengths take the same turns *)

(** the variables that decide *)
Definition control (s : tbl) : Z * Z * Z * Z * Z * Z * Z * Z * arr Z :=
  (t_huff s, t_sym s, t_len s, t_curr s, t_drop s, t_low s, t_used s, t_min s, t_count s).
Definition same_outcome (r r' : tbl + (bool * tbl)) : Prop :=
  match r, r' with
  | inl s, inl s' => control s = control s'
  | inr (b, _), inr (b', _) => b = b'
  | _, _ => False
  end.

Section Twins.
Context (my my' : bool) (type : codetype) (lens lens' : Z -> Z) (work work' : arr Z) (table table' root : Z) (ln ws : nat -> Z) (m : nat).
Abbreviation max := (ln (pred m)).
Abbreviation mask := (2 ^ root - 1).
Abbreviation step := (table_step my type lens work table root max mask).
Abbreviation step' := (table_step my' type lens' work' table' root max mask).

Lemma advanced_control s s' : control s = control s' -> control (advanced my type work s) = control (advanced my' type work' s').
Proof.
  intros E. injection E as E1 E2 E3 E4 E5 E6 E7 E8 E9. unfold advanced, place_code, control. cbn. congruence.
Qed.
Lemma sub_table_control s s' : control s = control s' ->
  match sub_table type table root max mask s, sub_table type table' root max mask s' with
  | inl s, inl s' => control s = control s' | inr _, inr _ => True | _, _ => False end.
Proof.
  intros E. injection E as E1 E2 E3 E4 E5 E6 E7 E8 E9. unfold sub_table. cbv zeta. rewrite E1, E3, E5, E7, E9.
  destruct (not_enough _ _); [done|]. unfold control. cbn. congruence.
Qed.
(** the choice of the table for the next code *)
Definition choose (table : Z) (s : tbl) : tbl + (bool * tbl) :=
  if (t_len s >? root) && negb (Z.land (t_huff s) mask =? t_low s)
  then match sub_table type table root max mask s with inl s => inl s | inr s => inr (false, s) end else inl s.
Lemma choose_control s s' : control s = control s' -> same_outcome (choose table s) (choose table' s').
Proof.
  intros E. pose proof (sub_table_control s s' E) as A. unfold choose.
  pose proof E as E'. injection E' as E1 _ E3 _ _ E6 _ _ _. rewrite E1, E3, E6. destruct (_ && _); [|exact E].
  by destruct (sub_table _ table _ _ _ s), (sub_table _ table' _ _ _ s').
Qed.
(** the length of the next symbol is the only one looked at *)
Lemma step_control s s' : control s = control s' ->
  lens (aget 0 work (t_sym s + 1)) = lens' (aget 0 work' (t_sym s + 1)) -> same_outcome (step s) (step' s').
Proof.
  intros E Hl. pose proof (advanced_control s s' E) as A. rewrite !table_step_eq. cbv zeta.
  destruct (advanced_len my type work s) as [_ As]. destruct (advanced_len my' type work' s') as [_ As']. rewrite As, As'.
  assert (El : t_len s = t_len s' /\ t_sym s = t_sym s') by (injection E as _ -> -> _ _ _ _ _ _; done).
  destruct El as [El Es]. rewrite <- El, <- Es, <- Hl. set (l := lens _). clearbody l. clear As As'.
  generalize dependent (advanced my type work s). intros a A. generalize dependent (advanced my' type work' s'). intros a' A.
  pose proof (f_equal snd A : t_count a = t_count a') as Ec. rewrite <- Ec.
  destruct (_ && _); [done|]. apply choose_control. destruct (_ =? 0); [|done].
  unfold control in *. cbn. injection A as E1 E2 E3 E4 E5 E6 E7 E8 E9. congruence.
Qed.

Context (mem0 mem0' : arr code) (tree0 tree0' : arr ct_data).
Context (Hln : forall k, (k < m)%nat -> 1 <= ln k <= 15).
Context (Hsort : forall i j, (i <= j < m)%nat -> ln i <= ln j).
Context (Hfit : first ln m <= 2 ^ 15).
Context (Hwork : forall k, (k < m)%nat -> aget 0 work (Z.of_nat k) = ws k /\ lens (ws k) = ln k).
Context (Hwork' : forall k, (k < m)%nat -> aget 0 work' (Z.of_nat k) = ws k /\ lens' (ws k) = ln k).
Context (Hws : forall i j, (i < m)%nat -> (j < m)%nat -> ws i = ws j -> i = j).
Context (Hroot : 1 <= root <= 15) (Hsub : type = CODES -> forall k, (k < m)%nat -> ln k <= root) (Hspace : 2 ^ root <= space type).
Context (Hm : (0 < m)%nat) (Hm' : Z.of_nat m < 65536).
Abbreviation inv_ := (inv my type table root mem0 tree0 ln ws m).
Abbreviation inv_' := (inv my' type table' root mem0' tree0' ln ws m).

Lemma loop_control d k s s' fuel :
  (k + d = pred m)%nat -> (d < fuel)%nat -> inv_ k s -> inv_' k s' -> control s = control s' ->
  exists b t t', loop step fuel s = Some (b, t) /\ loop step' fuel s' = Some (b, t').
Proof.
  revert k s s' fuel. induction d as [|d IH]; intros k s s' fuel Hd Hf I I' E; (destruct fuel as [|fuel]; [lia|]); cbn [loop].
  - rewrite Nat.add_0_r in Hd. subst k.
    destruct (table_step_last my type lens work table root mem0 tree0 ln ws m) with (s := s) as (t & -> & _); try done.
    destruct (table_step_last my' type lens' work' table' root mem0' tree0' ln ws m) with (s := s') as (t' & -> & _); try done.
    by exists true, t, t'.
  - assert (Hk : (S k < m)%nat) by lia.
    assert (O : same_outcome (step s) (step' s')).
    { apply step_control; [done|]. rewrite (iv_sym _ _ _ _ _ _ _ _ _ _ _ I). replace (Z.of_nat k + 1) with (Z.of_nat (S k)) by lia.
      destruct (Hwork (S k) Hk) as [-> ->]. by destruct (Hwork' (S k) Hk) as [-> ->]. }
    destruct (table_step_next my type lens work table root mem0 tree0 ln ws m) with (k := k) (s := s)
      as [(t & Et & It)|(t & Et & _)]; try done.
    all: destruct (table_step_next my' type lens' work' table' root mem0' tree0' ln ws m) with (k := k) (s := s')
      as [(t' & Et' & It')|(t' & Et' & _)]; try done.
    all: rewrite Et, Et' in O |- *; cbn in O; try done.
    + apply (IH (S k)); [lia|lia|done|done|done].
    + by exists false, t, t'.
Qed.
End Twins.

(** ** The return value *)

Section Return.
Context (my my' : bool) (type : codetype) (lens lens' : Z -> Z) (n : nat) (table table' bits : Z).
Context (mem mem' : arr code) (work work' : arr Z) (tree tree' : arr ct_data).
Context (Hn : Z.of_nat n < 65536) (Hlens : forall s, 0 <= s < Z.of_nat n -> 0 <= lens s <= 15) (Hbits : 1 <= bits <= 15).
Context (HC : type = CODES -> bits <= 7 /\ forall s, 0 <= s < Z.of_nat n -> lens s <= bits).
Context (E : forall s, 0 <= s < Z.of_nat n -> lens s = lens' s).
Abbreviation m := (coded lens n).
Abbreviation call := (inflate_table_gen my type lens (Z.of_nat n) table bits mem work tree).
Abbreviation call' := (inflate_table_gen my' type lens' (Z.of_nat n) table' bits mem' work' tree').

Lemma Hlens' s : 0 <= s < Z.of_nat n -> 0 <= lens' s <= 15.
Proof using Hlens E. intros Hs. rewrite <- E by done. by apply Hlens. Qed.
Lemma HC' : type = CODES -> bits <= 7 /\ forall s, 0 <= s < Z.of_nat n -> lens' s <= bits.
Proof using HC E. intros Q. destruct (HC Q) as [A B]. split; [done|]. intros s Hs. rewrite <- E by done. by apply B. Qed.
Lemma first_root_ext : (0 < m)%nat -> first_root lens n bits = first_root lens' n bits.
Proof using E.
  intros Hm. unfold first_root. by rewrite <- !(nth_len_ext lens lens' n E), <- (coded_ext lens lens' n E)
    by (rewrite <- ?(coded_ext lens lens' n E); lia).
Qed.
Lemma empty_call : m = 0%nat -> option_map r_ret call = Some 0 /\ option_map r_ret call' = Some 0.
Proof using Hn Hlens E.
  intros Hm. pose proof (count_ok lens n Hn) as C. pose proof (count_ok lens' n Hn) as C'.
  unfold inflate_table_gen. rewrite !Nat2Z.id. cbv zeta.
  rewrite (find_max_spec lens n _ C), (find_max_spec lens' n _ C'), <- (coded_ext lens lens' n E), Hm. done.
Qed.
Lemma run_call : (0 < m)%nat -> kraft lens n <= 2 ^ 15 -> not_enough type (2 ^ first_root lens n bits) = false ->
  exists b t t',
  loop (table_step my type lens (work_ lens n work) table (first_root lens n bits) (nth_len lens n (pred m)) (2 ^ first_root lens n bits - 1)) (S n)
    (mk_tbl 0 0 (nth_len lens n 0) table (first_root lens n bits) 0 (u32 (-1)) (2 ^ first_root lens n bits) (nth_len lens n 0) (count_lens lens n) mem tree) = Some (b, t)
  /\ loop (table_step my' type lens' (work_ lens' n work') table' (first_root lens n bits) (nth_len lens n (pred m)) (2 ^ first_root lens n bits - 1)) (S n)
    (mk_tbl 0 0 (nth_len lens n 0) table' (first_root lens n bits) 0 (u32 (-1)) (2 ^ first_root lens n bits) (nth_len lens n 0) (count_lens lens n) mem' tree') = Some (b, t').
Proof using Hn Hlens Hbits HC E.
  intros Hm Hk En. pose proof (first_root_range type lens n bits Hbits HC Hm) as (Hr & Hr0 & Hrc).
  assert (Hsp : (2 ^ first_root lens n bits) <= space type).
  { destruct (decide (type = CODES)) as [Q|Q]; [|by apply enough_bound]. replace (space type) with (2 ^ 7) by (by rewrite Q).
    apply Z.pow_le_mono_r; [lia|]. by apply (first_root_codes type). }
  assert (Hst : forall l, 1 <= l <= 15 -> aget 0 (count_lens lens n) l = remaining (nth_len lens n) m 0 l).
  { intros l Hl. rewrite remaining_all by lia. by apply count_ok. }
  assert (W' : forall k, (k < m)%nat -> aget 0 (work_ lens' n work') (Z.of_nat k) = nth_sym lens n k /\ lens' (nth_sym lens n k) = nth_len lens n k).
  { intros k Hk'. rewrite (nth_sym_ext lens lens' n E), (nth_len_ext lens lens' n E) by done.
    apply (work_ok lens' n work' Hn Hlens'); by rewrite <- (coded_ext lens lens' n E). }
  pose proof (by_length_total lens n) as Hmn.
  eapply (loop_control my my' type lens lens' (work_ lens n work) (work_ lens' n work') table table' (first_root lens n bits)
    (nth_len lens n) (nth_sym lens n) m mem mem' tree tree') with (d := pred m) (k := 0%nat).
  - by apply nth_len_range.
  - by apply nth_len_sorted.
  - by rewrite (first_kraft lens n Hlens).
  - by apply work_ok.
  - exact W'.
  - apply nth_sym_inj.
  - done.
  - done.
  - done.
  - unfold coded. lia.
  - done.
  - unfold coded. lia.
  - by apply inv_start.
  - by apply inv_start.
  - done.
Qed.
Lemma ret_same : option_map r_ret call = option_map r_ret call'.
Proof using Hn Hlens Hbits HC E.
  destruct (decide (m = 0%nat)) as [E0|N0]; [destruct (empty_call E0); congruence|].
  assert (Hm : (0 < m)%nat) by lia. assert (Hm' : (0 < coded lens' n)%nat) by (by rewrite <- (coded_ext lens lens' n E)).
  rewrite (gen_eq my type lens n table bits mem work tree Hn Hlens Hm).
  rewrite (gen_eq my' type lens' n table' bits mem' work' tree' Hn Hlens' Hm').
  pose proof (first_root_ext Hm) as Er. rewrite <- Er, <- (coded_ext lens lens' n E), <- (kraft_ext lens lens' n E),
    <- (count_lens_ext lens lens' n E), <- !(nth_len_ext lens lens' n E) by lia.
  destruct (Z.gtb_spec (kraft lens n) (2 ^ 15)) as [|G]; [done|]. destruct (_ && _); [done|].
  destruct (not_enough type _) eqn:En; [done|]. destruct (run_call Hm G En) as (b & t & t' & -> & ->). by destruct b.
Qed.
End Return.

(** ** The question asked of the lengths *)

(** a table of [bits] index bits is built for the lengths [l] *)
Definition builds (type : codetype) (l : list Z) (bits : Z) : bool :=
  match inflate_table type (tget 0 l) (Z.of_nat (length l)) 0 bits ∅ ∅ with Some r => r_ret r =? 0 | None => false end.
Lemma tget_range l lo hi s : Forall (fun x => lo <= x <= hi) l -> 0 <= s < Z.of_nat (length l) -> lo <= tget 0 l s <= hi.
Proof.
  intros H Hs. unfold tget. destruct (Z.ltb_spec s 0); [lia|]. rewrite List.Forall_forall in H. apply H. apply nth_In. lia.
Qed.

(** a call of either machine on these lengths, wherever they lie *)
Lemma builds_spec my type l bits lens table mem work tree :
  Z.of_nat (length l) < 65536 -> Forall (fun x => 0 <= x <= if bool_decide (type = CODES) then bits else 15) l ->
  1 <= bits <= (if bool_decide (type = CODES) then 7 else 15) -> builds type l bits = true ->
  (forall s, 0 <= s < Z.of_nat (length l) -> lens s = tget 0 l s) ->
  exists r, inflate_table_gen my type lens (Z.of_nat (length l)) table bits mem work tree = Some r
    /\ built my type (tget 0 l) (length l) table mem tree r.
Proof.
  intros Hn Hl Hb Ht E. pose proof (fun s Hs => tget_range l _ _ s Hl Hs) as R.
  assert (Hb' : 1 <= bits <= 15) by (destruct (bool_decide _); lia).
  assert (HL : forall s, 0 <= s < Z.of_nat (length l) -> 0 <= lens s <= 15).
  { intros s Hs. rewrite E by done. specialize (R s Hs). destruct (bool_decide _); lia. }
  assert (HC : type = CODES -> bits <= 7 /\ forall s, 0 <= s < Z.of_nat (length l) -> lens s <= bits).
  { intros Q. rewrite bool_decide_eq_true_2 in Hb, R by done. split; [lia|]. intros s Hs. rewrite E by done. by apply R. }
  destruct (inflate_table_run my type lens (length l) table bits mem work tree Hn HL Hb' HC) as (r & Er & H).
  pose proof (ret_same my false type lens (tget 0 l) (length l) table 0 bits mem ∅ work ∅ tree ∅ Hn HL Hb' HC E) as Q.
  rewrite Er in Q. unfold builds, inflate_table in Ht.
  destruct (inflate_table_gen false type (tget 0 l) (Z.of_nat (length l)) 0 bits ∅ ∅ ∅) as [r'|]; [|done].
  injection Q as Q. apply Z.eqb_eq in Ht. exists r. split; [done|].
  destruct H as [(R' & _)|[(R' & _)|(_ & B)]]; [lia|lia|]. by apply (built_ext my type lens).
Qed.

(** ** The tables of a block header *)

(** the code of the lengths [l] as a tree: nothing for a symbol without a code *)
Definition dyn_tree (l : list Z) (s : Z) : ct_data :=
  if (0 <=? s) && (s <? Z.of_nat (length l)) && (0 <? tget 0 l s) then canon_tree (tget 0 l) (length l) s else ct_zero.
Lemma dyn_tree_ok l : Forall (fun x => 0 <= x <= 15) l -> tree_ok (dyn_tree l).
Proof.
  intros Hl s. unfold dyn_tree. destruct (_ && _) eqn:E; [|cbn; lia]. rewrite !andb_true_iff in E.
  pose proof (tget_range l 0 15 s Hl ltac:(lia)). cbn. split; [lia|]. apply canon_range. lia.
Qed.
Lemma dyn_tree_len l s : Forall (fun x => 0 <= x <= 15) l -> dl (dyn_tree l s) = if (0 <=? s) && (s <? Z.of_nat (length l)) then tget 0 l s else 0.
Proof.
  intros Hl. unfold dyn_tree. destruct ((0 <=? s) && (s <? Z.of_nat (length l))) eqn:E; cbn [andb]; [|done]. rewrite andb_true_iff in E.
  pose proof (tget_range l 0 15 s Hl ltac:(lia)). destruct (Z.ltb_spec 0 (tget 0 l s)); [done|]. cbn. lia.
Qed.
Lemma built_tree type l table mem r :
  built true type (tget 0 l) (length l) table mem ∅ r -> aget ct_zero (r_tree r) = dyn_tree l.
Proof.
  intros B. apply functional_extensionality. intros s. by rewrite (bt_tree _ _ _ _ _ _ _ _ B eq_refl s).
Qed.

(** what a table of the type has for a symbol *)
Definition type_entry (type : codetype) (s : Z) : Z * Z :=
  match type with CODES => (0, s) | LENS => lit_entry s | DISTS => dist_entry s end.
Definition type_size (type : codetype) : Z := match type with CODES => 19 | LENS => 286 | DISTS => 30 end.
Lemma type_entry_ok type s b :
  0 <= s < type_size type -> 0 <= b <= 15 -> table_entry type s b = mk_code (type_entry type s).1 b (type_entry type s).2.
Proof.
  intros Hs Hb. unfold table_entry. cbv zeta. rewrite u8_small by lia. destruct type; cbn [table_match type_entry type_size] in *.
  - destruct (Z.ltb_spec (s + 1) 20); [done|lia].
  - unfold lit_entry. destruct (Z.ltb_spec (s + 1) 257), (Z.ltb_spec s 256); try lia; [done|].
    destruct (Z.geb_spec s 257), (Z.eqb_spec s 256); try lia; [|done].
    cbn [table_extra table_base fst snd]. f_equal. apply u8_small.
    assert (A : all_below 29 (fun i => (0 <=? tget 0 lext i) && (tget 0 lext i <? 256)) = true) by (vm_compute; reflexivity).
    pose proof (all_below_spec _ _ A (s - 257) ltac:(lia)) as B. cbv beta in B. lia.
  - unfold dist_entry. destruct (Z.ltb_spec (s + 1) 0), (Z.geb_spec s 0); try lia. rewrite Z.sub_0_r.
    cbn [table_extra table_base fst snd]. f_equal. apply u8_small.
    assert (A : all_below 30 (fun i => (0 <=? tget 0 dext i) && (tget 0 dext i <? 256)) = true) by (vm_compute; reflexivity).
    pose proof (all_below_spec _ _ A s ltac:(lia)) as B. cbv beta in B. lia.
Qed.
Lemma built_table my type l table mem tree r :
  Z.of_nat (length l) <= type_size type -> Forall (fun x => 0 <= x <= 15) l -> built my type (tget 0 l) (length l) table mem tree r ->
  forall mem', (forall p, table <= p < r_table r -> aget code_zero mem' p = aget code_zero (r_mem r) p) ->
  table_for (fun i => aget code_zero mem' (table + i)) (r_bits r) (dyn_tree l) (type_size type) (type_entry type)
  /\ (type = CODES -> forall i, 0 <= i < 2 ^ r_bits r -> ~ is_link (aget code_zero mem' (table + i))).
Proof.
  intros Hsz Hl B mem' E. destruct (bt_codes _ _ _ _ _ _ _ _ B mem' E) as [T F L]. split; [|exact L]. split; [exact T|].
  intros c Hc Hd. rewrite dyn_tree_len in Hd |- * by done. destruct (_ && _) eqn:Ec; [|lia]. rewrite andb_true_iff in Ec.
  pose proof (tget_range l 0 15 c Hl ltac:(lia)).
  unfold dyn_tree. destruct (Z.leb_spec 0 c), (Z.ltb_spec c (Z.of_nat (length l))), (Z.ltb_spec 0 (tget 0 l c)); try lia. cbn [andb].
  cbn [canon_tree fc]. rewrite (F c) by lia. by apply type_entry_ok.
Qed.

(** C40. The decision of the table builder depends on the code lengths alone: on the same lengths [inflate_table] and
    [inflate_table_my] return the same value (both in their fuel), whatever memory, work area, place of the table
    and tree they are given. *)
Theorem builders_agree type lens n table table' bits mem mem' work work' tree :
  Z.of_nat n < 65536 -> (forall s, 0 <= s < Z.of_nat n -> 0 <= lens s <= 15) -> 1 <= bits <= 15 ->
  (type = CODES -> bits <= 7 /\ forall s, 0 <= s < Z.of_nat n -> lens s <= bits) ->
  exists r r', inflate_table type lens (Z.of_nat n) table bits mem work = Some r
    /\ inflate_table_my type lens (Z.of_nat n) table' bits mem' work' tree = Some r' /\ r_ret r = r_ret r'.
Proof.
  intros Hn Hlens Hbits HC. unfold inflate_table, inflate_table_my.
  pose proof (ret_same false true type lens lens n table table' bits mem mem' work work' ∅ tree Hn Hlens Hbits HC (fun _ _ => eq_refl)) as Q.
  destruct (inflate_table_run false type lens n table bits mem work ∅ Hn Hlens Hbits HC) as (r & Er & _). rewrite Er in *.
  destruct (inflate_table_gen true type lens (Z.of_nat n) table' bits mem' work' tree) as [r'|]; [|done].
  injection Q as Q. by exists r, r'.
Qed.
Lemma builders_agree_witness :
  exists r r', inflate_table LENS (tget 0 [2; 1; 2]) 3 0 9 ∅ ∅ = Some r
    /\ inflate_table_my LENS (tget 0 [2; 1; 2]) 3 7 9 ∅ ∅ ∅ = Some r' /\ r_ret r = r_ret r'.
Proof.
  apply (builders_agree LENS (tget 0 [2; 1; 2]) 3 0 7 9 ∅ ∅ ∅ ∅ ∅); try lia; [|discriminate].
  intros s Hs. assert (E : s = 0 \/ s = 1 \/ s = 2) by lia. destruct E as [-> | [-> | ->]]; vm_compute; intuition discriminate.
Defined.
