(* ===== verification/Headers.v ===== *)
(** * The header of a dynamic block, once for both machines

    [j_inflate] and [deflate_my] read the header of a dynamic block with the same
    code over different states.  [HeaderOps] is what that code uses of a state: a
    view of the fields it works on, and the DROPBITS of the machine, which captures
    the header in one of them.  [HeaderLaws] states what the code relies on.  The
    programs over the class are the handlers of both machines; here they are shown
    to read any well-formed header and to leave the tables of its codes. *)
From Stdlib Require Import String FunctionalExtensionality.
From S2P Require Import Prelude DeflateTables Inftrees Zlib Trees Format Encode Rle Bitstream.
From S2P Require Import Codebook Huffman Builds.
#[local] Open Scope string_scope.
#[local] Open Scope Z_scope.
#[local] Open Scope list_scope.

(** ** The fields of a header *)

(** [P] is the machine's type of table pointers, [Mo] its type of modes; the last five fields are those of the
    machine that builds code trees *)
Record view {P Mo : Type} := mk_view {
  v_nlen : Z; v_ndist : Z; v_ncode : Z; v_have : Z; v_lens : arr Z; v_codes : arr code; v_work : arr Z; v_next : Z;
  v_lencode : P; v_lenbits : Z; v_distcode : P; v_distbits : Z; v_mode : Mo; v_ret : Z;
  v_bl : arr ct_data; v_lt : arr ct_data; v_dt : arr ct_data; v_lmax : Z; v_dmax : Z }.
Arguments view : clear implicits.
#[export] Instance eta_view P Mo : Settable (view P Mo) := fun v =>
  mk_view P Mo (v_nlen v) (v_ndist v) (v_ncode v) (v_have v) (v_lens v) (v_codes v) (v_work v) (v_next v)
    (v_lencode v) (v_lenbits v) (v_distcode v) (v_distbits v) (v_mode v) (v_ret v)
    (v_bl v) (v_lt v) (v_dt v) (v_lmax v) (v_dmax v).
(** a machine without trees forgets them *)
Definition keep_trees {P Mo} (my : bool) (v : view P Mo) : view P Mo :=
  v <| v_bl := if my then v_bl v else ∅ |> <| v_lt := if my then v_lt v else ∅ |> <| v_dt := if my then v_dt v else ∅ |>
    <| v_lmax := if my then v_lmax v else 0 |> <| v_dmax := if my then v_dmax v else 0 |>.

Class HeaderOps (S P Mo : Type) `{BitReader S} := {
  hm_get : S -> view P Mo;
  hm_set : view P Mo -> S -> S;
  hm_my : bool;                       (* builds trees *)
  hm_limit : bool;                    (* checks the numbers of codes *)
  hm_ptr : Z -> P;
  hm_at : S -> Z -> code;             (* the table at [lencode] *)
  hm_lenlens : Mo; hm_codelens : Mo; hm_done : Mo;
  hm_is_bad : Mo -> bool;
  hm_bad : string -> M S unit;
  hm_drop : Z -> M S unit;            (* DROPBITS *)
  hm_ok : S -> Prop;
  hm_took : list bool -> S -> S -> Prop }. (* the bits were read and the rest is as before *)

Class HeaderLaws (S P Mo : Type) `{HeaderOps S P Mo} := {
  hl_get_set v (s : S) : hm_get (hm_set v s) = keep_trees hm_my v;
  hl_set_set v v' (s : S) : hm_set v (hm_set v' s) = hm_set v s;
  hl_set_get (s : S) : hm_set (hm_get s) s = s;
  hl_next v (s : S) : rd_next (hm_set v s) = rd_next s;
  hl_hold v (s : S) : rd_hold (hm_set v s) = rd_hold s;
  hl_bits v (s : S) : rd_bits (hm_set v s) = rd_bits s;
  hl_ok_set v (s : S) : hm_ok s -> hm_ok (hm_set v s);
  hl_reader (s : S) : hm_ok s -> reader_ok s;
  hl_pulled (s s' : S) : hm_ok s -> pulled s s' -> hm_ok s' /\ hm_took [] s s';
  hl_trans w w' (s1 s2 s3 : S) : hm_took w s1 s2 -> hm_took w' s2 s3 -> hm_took (w ++ w') s1 s3;
  hl_took_set w v (s s' : S) : hm_took w s s' -> hm_took w (hm_set v s) (hm_set v s');
  hl_took_get w (s s' : S) : hm_took w s s' -> hm_get s' = hm_get s;
  hl_drop n w rest (s : S) : hm_ok s -> stream s = w ++ rest -> Z.of_nat (length w) = n -> n <= rd_bits s -> n <= 16 ->
    exists s', hm_drop n s = (s', inr tt) /\ hm_ok s' /\ stream s' = rest /\ rd_bits s' = rd_bits s - n /\ hm_took w s s';
  hl_at o i (s : S) : v_lencode (hm_get s) = hm_ptr o -> hm_at s i = aget code_zero (v_codes (hm_get s)) (o + i);
  hl_fine : hm_is_bad hm_codelens = false }.

(** ** The programs *)

(** [while (n--) lens[have++] = len], on the array and the index *)
Fixpoint put_run (n : nat) (len : Z) (p : arr Z * Z) : arr Z * Z :=
  match n with O => p | S n => put_run n len (aset p.1 p.2 (u16 len), u32 (p.2 + 1)) end.
Fixpoint zero_run (n : nat) (p : arr Z * Z) : arr Z * Z :=
  match n with
  | O => p
  | S n => if p.2 <? 19 then zero_run n (aset p.1 (tget 0 order p.2) 0, p.2 + 1) else p
  end.

Section Programs.
Context {S P Mo : Type} `{HeaderOps S P Mo}.
Abbreviation view := (view P Mo).
Definition on_run (f : arr Z * Z -> arr Z * Z) (v : view) : view :=
  let p := f (v_lens v, v_have v) in v <| v_lens := p.1 |> <| v_have := p.2 |>.
Definition mod_view (f : view -> view) : M S unit := modify (fun s => hm_set (f (hm_get s)) s).

Definition g_codelens_turn : M S (option unit) :=
  v ← gets hm_get;
  if v_have v <? v_nlen v + v_ndist v then
    here ← lookup_loop 40 (fun s : S => hm_at s (BITS (v_lenbits (hm_get s)) s)) cbits;
    if val here <? 16 then
      hm_drop (cbits here);; mod_view (on_run (put_run 1 (val here)));; mret None
    else
      v ← gets hm_get;
      lc ← (if val here =? 16 then
              NEEDBITS (cbits here + 2);; hm_drop (cbits here);;
              if v_have v =? 0 then hm_bad "invalid bit length repeat";; mret None
              else x ← gets (BITS 2); hm_drop 2;;
                   mret (Some (aget 0 (v_lens v) (v_have v - 1), 3 + x))
            else if val here =? 17 then
              NEEDBITS (cbits here + 3);; hm_drop (cbits here);;
              x ← gets (BITS 3); hm_drop 3;; mret (Some (0, 3 + x))
            else
              NEEDBITS (cbits here + 7);; hm_drop (cbits here);;
              x ← gets (BITS 7); hm_drop 7;; mret (Some (0, 11 + x)));
      match lc with
      | None => mret (Some tt)
      | Some (len, copy) =>
          if v_have v + copy >? v_nlen v + v_ndist v then
            hm_bad "invalid bit length repeat";; mret (Some tt)
          else mod_view (on_run (put_run (Z.to_nat copy) len));; mret None
      end
  else mret (Some tt).

Definition g_build_table (type : codetype) (off n nbits : view -> Z) (set_bits : Z -> view -> view)
    (tree : view -> arr ct_data) (set_tree : arr ct_data -> view -> view) : M S Z :=
  v ← gets hm_get;
  match inflate_table_gen hm_my type (fun i => aget 0 (v_lens v) (off v + i)) (n v) (v_next v) (nbits v)
          (v_codes v) (v_work v) (tree v) with
  | None => exit_with Diverge
  | Some r =>
      mod_view (fun v => set_tree (r_tree r) (set_bits (r_bits r)
        (v <| v_codes := r_mem r |> <| v_work := r_work r |> <| v_next := r_table r |>)));;
      mod_view (fun v => v <| v_ret := r_ret r |>);; mret (r_ret r)
  end.

Definition g_CODELENS (flush : Z) : M S unit :=
  repeat_m 400 g_codelens_turn;;
  v ← gets hm_get;
  if hm_is_bad (v_mode v) then skip
  else if aget 0 (v_lens v) 256 =? 0 then hm_bad "invalid code -- missing end-of-block"
  else
    mod_view (fun v => v <| v_next := 0 |> <| v_lencode := hm_ptr 0 |> <| v_lenbits := 9 |>);;
    ret ← g_build_table LENS (fun _ => 0) v_nlen v_lenbits (fun b v => v <| v_lenbits := b |>)
            v_lt (fun t v => v <| v_lt := t |>);
    if negb (ret =? 0) then hm_bad "invalid literal/lengths set"
    else
      mod_view (fun v => v <| v_distcode := hm_ptr (v_next v) |> <| v_distbits := 6 |>);;
      ret ← g_build_table DISTS v_nlen v_ndist v_distbits (fun b v => v <| v_distbits := b |>)
              v_dt (fun t v => v <| v_dt := t |>);
      if negb (ret =? 0) then hm_bad "invalid distances set"
      else
        mod_view (fun v => v <| v_mode := hm_done |>);;
        when (flush =? Z_TREES) leave.

Definition g_lenlens_turn : M S (option unit) :=
  v ← gets hm_get;
  if v_have v <? v_ncode v then
    NEEDBITS 3;; x ← gets (BITS 3);
    mod_view (fun v => v <| v_lens := aset (v_lens v) (tget 0 order (v_have v)) x |> <| v_have := v_have v + 1 |>);;
    hm_drop 3;; mret None
  else mret (Some tt).
Definition g_LENLENS (flush : Z) : M S unit :=
  repeat_m 20 g_lenlens_turn;;
  mod_view (on_run (zero_run 19));;
  mod_view (fun v => v <| v_next := 0 |> <| v_lencode := hm_ptr 0 |> <| v_lenbits := 7 |>);;
  ret ← g_build_table CODES (fun _ => 0) (fun _ => 19) v_lenbits (fun b v => v <| v_lenbits := b |>)
          v_bl (fun t v => v <| v_bl := t |>);
  if negb (ret =? 0) then hm_bad "invalid code lengths set"
  else mod_view (fun v => v <| v_have := 0 |>);; mod_view (fun v => v <| v_mode := hm_codelens |>);; g_CODELENS flush.
Definition g_TABLE (flush : Z) : M S unit :=
  NEEDBITS 14;;
  x ← gets (BITS 5); mod_view (fun v => v <| v_nlen := x + 257 |> <| v_lmax := x + 257 |>);; hm_drop 5;;
  x ← gets (BITS 5); mod_view (fun v => v <| v_ndist := x + 1 |> <| v_dmax := x + 1 |>);; hm_drop 5;;
  x ← gets (BITS 4); mod_view (fun v => v <| v_ncode := x + 4 |>);; hm_drop 4;;
  v ← gets hm_get;
  if hm_limit && ((v_nlen v >? 286) || (v_ndist v >? 30)) then hm_bad "too many length or distance symbols"
  else mod_view (fun v => v <| v_have := 0 |>);; mod_view (fun v => v <| v_mode := hm_lenlens |>);; g_LENLENS flush.
End Programs.

(** ** Steps of the programs *)

Lemma bind_cong {S A B} (m m' : M S A) (k k' : A -> M S B) : m = m' -> (forall x, k x = k' x) -> (m ≫= k) = (m' ≫= k').
Proof. intros -> H. f_equal. by extensionality x. Qed.

(** [s'] is reached from [s] by reading [w]; what the programs set is in the view *)
Record reach {S P Mo} `{HeaderOps S P Mo} (w : list bool) (s s' : S) : Prop := {
  rc_ok : hm_ok s';
  rc_stream : stream s = w ++ stream s';
  rc_took : exists v, hm_took w (hm_set v s) s' }.

Section Steps.
Context {S P Mo : Type} `{HeaderLaws S P Mo}.
Abbreviation view := (view P Mo).
Implicit Types (s : S) (v : view).

Lemma keep_get s : keep_trees hm_my (hm_get s) = hm_get s.
Proof. rewrite <- (hl_get_set (hm_get s) s). by rewrite hl_set_get. Qed.
(** an update that leaves the trees alone is seen as it is *)
Lemma get_mod (f : view -> view) s :
  (forall v, keep_trees hm_my (f v) = f (keep_trees hm_my v)) -> hm_get (hm_set (f (hm_get s)) s) = f (hm_get s).
Proof. intros Hf. by rewrite hl_get_set, Hf, keep_get. Qed.
Lemma stream_set v s : stream (hm_set v s) = stream s.
Proof. unfold stream. by rewrite hl_bits, hl_hold, hl_next. Qed.
Lemma BITS_view n v s : BITS n (hm_set v s) = BITS n s.
Proof. unfold BITS. by rewrite hl_hold. Qed.
Lemma bind_mod {A} (f : view -> view) (k : unit -> M S A) s : (mod_view f ≫= k) s = k tt (hm_set (f (hm_get s)) s).
Proof. done. Qed.

Lemma reach_nil s : hm_ok s -> reach [] s s.
Proof.
  intros Hs. split; [done|done|]. exists (hm_get s). rewrite hl_set_get. by apply (hl_pulled s s Hs), pulled_refl, hl_reader.
Qed.
Lemma reach_trans w w' s1 s2 s3 : reach w s1 s2 -> reach w' s2 s3 -> reach (w ++ w') s1 s3.
Proof.
  intros [A B (v & C)] [D E (v' & F)]. split; [done|by rewrite B, E, app_assoc|]. exists v'.
  eapply hl_trans; [|exact F]. rewrite <- (hl_set_set v' v s1). by apply hl_took_set.
Qed.
Lemma reach_set v s : hm_ok s -> reach [] s (hm_set v s).
Proof.
  intros Hs. pose proof (hl_ok_set v s Hs) as Hs'. split; [done|by rewrite stream_set|]. exists v.
  by apply (hl_pulled _ _ Hs'), pulled_refl, hl_reader.
Qed.
Lemma reach_then w s1 s2 s3 : reach w s1 s2 -> reach [] s2 s3 -> reach w s1 s3.
Proof. intros A B. rewrite <- (app_nil_r w). by eapply reach_trans. Qed.
Lemma reach_from w s1 s2 s3 : reach [] s1 s2 -> reach w s2 s3 -> reach w s1 s3.
Proof. intros A B. by apply (reach_trans [] w s1 s2 s3). Qed.
Lemma reach_pulled s s' : hm_ok s -> pulled s s' -> reach [] s s' /\ hm_get s' = hm_get s.
Proof.
  intros Hs Hp. destruct (hl_pulled s s' Hs Hp) as [A B]. split; [|by eapply hl_took_get].
  split; [done|by rewrite (pu_stream _ _ Hp)|]. exists (hm_get s). by rewrite hl_set_get.
Qed.

(** NEEDBITS, with the bits there *)
Lemma need_spec n s w rest :
  hm_ok s -> 0 <= n <= 57 -> stream s = w ++ rest -> n <= Z.of_nat (length w) ->
  exists s', NEEDBITS n s = (s', inr tt) /\ reach [] s s' /\ hm_get s' = hm_get s /\ stream s' = stream s
    /\ n <= rd_bits s' <= Z.max (rd_bits s) (n + 7).
Proof.
  intros Hs Hn Hw Hl. destruct (needbits_enough n s (hl_reader s Hs) Hn) as (s' & Hp & E & B).
  { rewrite Hw, length_app. lia. }
  destruct (reach_pulled s s' Hs Hp) as [R G]. exists s'. split_and!; try done; [by rewrite (pu_stream _ _ Hp)|apply B|apply B].
Qed.
(** a field that is there: its value, and the drop behind an update *)
Lemma field_spec n x rest v s :
  hm_ok s -> 0 <= n <= 16 -> n <= rd_bits s -> 0 <= x < 2 ^ n -> stream s = bits_of (Z.to_nat n) x ++ rest ->
  BITS n s = x /\ exists s', hm_drop n (hm_set v s) = (s', inr tt) /\ reach (bits_of (Z.to_nat n) x) s s' /\ stream s' = rest
    /\ rd_bits s' = rd_bits s - n /\ hm_get s' = keep_trees hm_my v.
Proof.
  intros Hs Hn Hb Hx Hw. split.
  { rewrite BITS_spec by (try apply (hl_reader s Hs); lia). rewrite Hw, take_app_length' by (by rewrite length_bits_of).
    rewrite val_of_bits_of, Z2Nat.id by lia. by apply Z.mod_small. }
  destruct (hl_drop n (bits_of (Z.to_nat n) x) rest (hm_set v s)) as (s' & E & O & T & B & K).
  - by apply hl_ok_set. - by rewrite stream_set. - rewrite length_bits_of. lia. - by rewrite hl_bits. - lia.
  - rewrite hl_bits in B. exists s'. split_and!; try done; [|by rewrite (hl_took_get _ _ _ K), hl_get_set].
    split; [done|by rewrite Hw, T|]. by exists v.
Qed.
(** the same without an update *)
Lemma drop_field n x rest s :
  hm_ok s -> 0 <= n <= 16 -> n <= rd_bits s -> 0 <= x < 2 ^ n -> stream s = bits_of (Z.to_nat n) x ++ rest ->
  BITS n s = x /\ exists s', hm_drop n s = (s', inr tt) /\ reach (bits_of (Z.to_nat n) x) s s' /\ stream s' = rest
    /\ rd_bits s' = rd_bits s - n /\ hm_get s' = hm_get s.
Proof.
  intros Hs Hn Hb Hx Hw. destruct (field_spec n x rest (hm_get s) s Hs Hn Hb Hx Hw) as (V & s' & E & R & T & B & G).
  rewrite hl_set_get in E. rewrite keep_get in G. split; [done|]. by exists s'.
Qed.
End Steps.

(** an update at the head of the program, and the view behind it *)
Ltac step_mod G :=
  match goal with |- context [(mod_view ?f ≫= _) ?s] =>
    rewrite bind_mod; assert (G : hm_get (hm_set (f (hm_get s)) s) = f (hm_get s)) by (apply (get_mod f); intros ?; reflexivity);
    cbv beta in G end.

(** ** Headers *)

(** the lengths of the code lengths code, of the literals and lengths, and of the distances; how many of the first
    are sent, and the tokens of the others *)
Record dyn_header := mk_header {
  dh_ncode : Z; dh_bl : list Z; dh_lit : list Z; dh_dist : list Z; dh_toks : list token }.
Definition token_sym (t : token) : Z :=
  match t with TLen l => l | TRep _ => REP_3_6 | TZero n => if n <=? 10 then REPZ_3_10 else REPZ_11_138 end.
Definition nlit (h : dyn_header) : Z := Z.of_nat (length (dh_lit h)).
Definition ndists (h : dyn_header) : Z := Z.of_nat (length (dh_dist h)).
(** the length of the code lengths code of rank [r] *)
Definition rank_len (bl : list Z) (r : nat) : Z := tget 0 bl (tget 0 order (Z.of_nat r)).
Definition ranks_bits (bl : list Z) (l : list nat) : list bool := flat_map (fun r => bits_of 3 (rank_len bl r)) l.
Definition tokens_bits (bl : list Z) (toks : list token) : list bool := flat_map (token_bits (dyn_tree bl)) toks.
(** what follows the three bits of the block header *)
Definition header_bits (h : dyn_header) : list bool :=
  bits_of 5 (nlit h - 257) ++ bits_of 5 (ndists h - 1) ++ bits_of 4 (dh_ncode h - 4)
  ++ ranks_bits (dh_bl h) (seq 0 (Z.to_nat (dh_ncode h))) ++ tokens_bits (dh_bl h) (dh_toks h).

Definition bl_ok (bl : list Z) : Prop := length bl = 19%nat /\ Forall (fun x => 0 <= x <= 7) bl.
Record header_ok (h : dyn_header) : Prop := {
  ho_ncode : 4 <= dh_ncode h <= 19;
  ho_bl : bl_ok (dh_bl h);
  ho_unsent : forall r, (r < 19)%nat -> dh_ncode h <= Z.of_nat r -> rank_len (dh_bl h) r = 0;
  ho_lit : 257 <= nlit h <= 286;
  ho_dist : 1 <= ndists h <= 30;
  ho_lens : Forall (fun x => 0 <= x <= 15) (dh_lit h ++ dh_dist h);
  ho_expand : expand (-1) (dh_toks h) = dh_lit h ++ dh_dist h;
  ho_toks : Forall (fun t => token_ok t /\ 0 < tget 0 (dh_bl h) (token_sym t)) (dh_toks h);
  ho_end : 0 < tget 0 (dh_lit h) 256;
  ho_codes : builds CODES (dh_bl h) 7 = true;
  ho_lens_table : builds LENS (dh_lit h) 9 = true;
  ho_dist_table : builds DISTS (dh_dist h) 6 = true }.

(** the header [send_all_trees] writes for these lengths: runs as long as possible, none across the two codes *)
Definition rle_header (h : dyn_header) : dyn_header :=
  mk_header (dh_ncode h) (dh_bl h) (dh_lit h) (dh_dist h)
    (rle_tokens (tget 0 (dh_lit h)) (nlit h - 1) ++ rle_tokens (tget 0 (dh_dist h)) (ndists h - 1)).
Lemma dyn_tree_lens l : Forall (fun x => 0 <= x <= 15) l -> (fun i => dl (dyn_tree l i)) = tget 0 l.
Proof.
  intros Hl. apply functional_extensionality. intros i. rewrite dyn_tree_len by done.
  destruct (Z.leb_spec 0 i), (Z.ltb_spec i (Z.of_nat (length l))); cbn [andb]; try done; unfold tget;
    destruct (Z.ltb_spec i 0); try done; try lia; symmetry; apply nth_overflow; lia.
Qed.
Lemma header_trees h :
  header_ok h ->
  header_bits (rle_header h) = trees_bits (dyn_tree (dh_bl h)) (dyn_tree (dh_lit h)) (dyn_tree (dh_dist h)) (nlit h) (ndists h) (dh_ncode h).
Proof.
  intros Hh. pose proof (ho_lens _ Hh) as Hl. apply Forall_app in Hl as [Hl Hd].
  assert (Hb : Forall (fun x => 0 <= x <= 15) (dh_bl h)).
  { destruct (ho_bl _ Hh) as [_ Hb]. refine (List.Forall_impl _ _ Hb). cbv beta. lia. }
  unfold header_bits, trees_bits. rewrite !dyn_tree_lens by done. unfold tokens_bits. cbn [rle_header dh_toks]. rewrite flat_map_app.
  do 4 f_equal. unfold ranks_bits, bl_lens_bits. apply flat_map_ext. intros r. unfold rank_len.
  pose proof (dyn_tree_lens _ Hb) as E. apply (f_equal (fun f => f (tget 0 bl_order (Z.of_nat r)))) in E. cbv beta in E. by rewrite E.
Qed.

Lemma rank_range bl r : bl_ok bl -> 0 <= rank_len bl r <= 7.
Proof.
  intros [Hl Hb]. assert (G : forall i, 0 <= tget 0 bl i <= 7); [|apply G].
  intros i. unfold tget. destruct (i <? 0); [lia|]. destruct (nth_in_or_default (Z.to_nat i) bl 0) as [I | ->]; [|lia].
  rewrite List.Forall_forall in Hb. by apply Hb.
Qed.

(** storing the lengths at their places *)
Definition store_ranks (bl : list Z) (l : list nat) (a : arr Z) : arr Z :=
  foldl (fun a r => aset a (tget 0 order (Z.of_nat r)) (rank_len bl r)) a l.
Lemma store_ranks_get bl l a c :
  aget 0 (store_ranks bl l a) c = if existsb (fun r => tget 0 order (Z.of_nat r) =? c) l then tget 0 bl c else aget 0 a c.
Proof.
  revert a. induction l as [|r l IH]; intros a; [done|]. cbn [existsb].
  change (store_ranks bl (r :: l) a) with (store_ranks bl l (aset a (tget 0 order (Z.of_nat r)) (rank_len bl r))). rewrite IH.
  destruct (existsb _ l); [by rewrite orb_true_r|]. rewrite orb_false_r, aget_aset.
  destruct (Z.eqb_spec (tget 0 order (Z.of_nat r)) c) as [<-|]; done.
Qed.
(** every code length symbol has a rank *)
Lemma store_all bl a c : 0 <= c < 19 -> aget 0 (store_ranks bl (seq 0 19) a) c = tget 0 bl c.
Proof.
  intros Hc. rewrite store_ranks_get.
  assert (A : all_below 19 (fun c => existsb (fun r => tget 0 order (Z.of_nat r) =? c) (seq 0 19)) = true) by (vm_compute; reflexivity).
  by rewrite (all_below_spec _ _ A c Hc).
Qed.
(** the zeros of the lengths that were not sent *)
Lemma zero_rest bl N a :
  (N <= 19)%nat -> (forall r, (N <= r < 19)%nat -> rank_len bl r = 0) -> zero_run 19 (a, Z.of_nat N) = (store_ranks bl (seq N (19 - N)) a, 19).
Proof.
  intros HN Hz. assert (G : forall n k a, (k <= 19)%nat -> (19 - k <= n)%nat -> (forall r, (k <= r < 19)%nat -> rank_len bl r = 0) ->
    zero_run n (a, Z.of_nat k) = (store_ranks bl (seq k (19 - k)) a, 19)); [|apply G; [done|lia|done]].
  clear. induction n as [|n IH]; intros k a Hk Hn Hz.
  - replace k with 19%nat by lia. done.
  - cbn [zero_run fst snd]. destruct (Z.ltb_spec (Z.of_nat k) 19).
    + replace (19 - k)%nat with (Datatypes.S (19 - Datatypes.S k)) by lia. cbn [seq store_ranks foldl].
      replace (Z.of_nat k + 1) with (Z.of_nat (Datatypes.S k)) by lia. rewrite (IH (Datatypes.S k)) by (try lia; intros r Hr; apply Hz; lia).
      by rewrite (Hz k) by lia.
    + replace k with 19%nat by lia. done.
Qed.

Section Lenlens.
Context {S P Mo : Type} `{HeaderLaws S P Mo}.
Context (bl : list Z) (Hbl : bl_ok bl).
Implicit Types (s : S) (v : view P Mo).

Lemma lenlens_step k s rest :
  hm_ok s -> rd_bits s < 8 -> v_have (hm_get s) = Z.of_nat k -> Z.of_nat k < v_ncode (hm_get s) ->
  stream s = bits_of 3 (rank_len bl k) ++ rest ->
  exists s', g_lenlens_turn s = (s', inr None) /\ reach (bits_of 3 (rank_len bl k)) s s' /\ stream s' = rest /\ rd_bits s' < 8
    /\ hm_get s' = hm_get s <| v_lens := aset (v_lens (hm_get s)) (tget 0 order (Z.of_nat k)) (rank_len bl k) |> <| v_have := Z.of_nat (k + 1) |>.
Proof.
  intros Hs Hb Hk Hn Hw. pose proof (rank_range bl k Hbl) as Hx. set (x := rank_len bl k) in *. clearbody x.
  unfold g_lenlens_turn. rewrite bind_gets, Hk. destruct (Z.ltb_spec (Z.of_nat k) (v_ncode (hm_get s))); [|lia].
  destruct (need_spec 3 s _ rest Hs ltac:(lia) Hw) as (s1 & E1 & R1 & G1 & T1 & B1); [by rewrite length_bits_of|].
  rewrite (bind_inr _ _ _ _ _ E1), bind_gets, bind_mod. set (v1 := hm_get s1 <| v_lens := _ |> <| v_have := _ |>).
  assert (Hx8 : 0 <= x < 2 ^ 3) by lia. assert (H3 : 0 <= 3 <= 16) by lia. rewrite Hw in T1.
  destruct (field_spec 3 x rest v1 s1 (rc_ok _ _ _ R1) H3 (proj1 B1) Hx8 T1) as (V & s2 & E2 & R2 & T2 & B2 & G2).
  rewrite (bind_inr _ _ _ _ _ E2). exists s2. split; [reflexivity|]. split; [by eapply reach_from|]. split; [done|]. split; [lia|].
  assert (Ev : v1 = hm_get s1 <| v_lens := aset (v_lens (hm_get s)) (tget 0 order (Z.of_nat k)) x |> <| v_have := Z.of_nat (k + 1) |>).
  { unfold v1. rewrite V, G1, Hk. do 2 f_equal. lia. }
  rewrite G2, Ev, <- G1. exact (f_equal (fun v => v <| v_lens := _ |> <| v_have := _ |>) (keep_get s1)).
Qed.
Lemma lenlens_loop N d : forall k s rest fuel,
  (k + d = N)%nat -> (d < fuel)%nat -> hm_ok s -> rd_bits s < 8 -> v_have (hm_get s) = Z.of_nat k -> v_ncode (hm_get s) = Z.of_nat N ->
  stream s = ranks_bits bl (seq k d) ++ rest ->
  exists s', repeat_m fuel g_lenlens_turn s = (s', inr tt) /\ reach (ranks_bits bl (seq k d)) s s' /\ stream s' = rest /\ rd_bits s' < 8
    /\ hm_get s' = hm_get s <| v_lens := store_ranks bl (seq k d) (v_lens (hm_get s)) |> <| v_have := Z.of_nat N |>.
Proof.
  induction d as [|d IH]; intros k s rest fuel Hk Hf Hs Hb Hh Hn Hw; (destruct fuel as [|fuel]; [lia|]).
  - exists s. split.
    { apply repeat_stop. unfold g_lenlens_turn. rewrite bind_gets, Hh, Hn. destruct (Z.ltb_spec (Z.of_nat k) (Z.of_nat N)); [lia|done]. }
    split; [by apply reach_nil|]. split; [done|]. split; [done|]. cbn [seq store_ranks foldl].
    assert (Eh : v_have (hm_get s) = Z.of_nat N) by (rewrite Hh; f_equal; lia). by destruct (hm_get s); cbn in *; rewrite Eh.
  - unfold ranks_bits in Hw. cbn [seq flat_map] in Hw. rewrite <- app_assoc in Hw.
    destruct (lenlens_step k s _ Hs Hb Hh ltac:(lia) Hw) as (s1 & E1 & R1 & T1 & B1 & G1).
    rewrite (repeat_go _ _ _ _ E1).
    destruct (IH (k + 1)%nat s1 rest fuel) as (s2 & E2 & R2 & T2 & B2 & G2).
    + lia. + lia. + apply R1. + done. + by rewrite G1. + rewrite G1. exact Hn. + rewrite T1, Nat.add_1_r. reflexivity.
    + exists s2. split; [done|]. unfold ranks_bits. cbn [seq flat_map]. rewrite Nat.add_1_r in R2, G2. split; [exact (reach_trans _ _ _ _ _ R1 R2)|].
      split; [done|]. split; [done|]. by rewrite G2, G1.
Qed.
End Lenlens.

(** ** The code lengths *)

Definition last_or (l : list Z) : Z := default (-1) (list.last l).
Lemma last_or_app l l' : l' <> [] -> last_or (l ++ l') = last_or l'.
Proof.
  intros Hne. unfold last_or. rewrite last_app. destruct (list.last l') eqn:E; [done|]. by apply last_None in E.
Qed.
Lemma last_repeat x n : (0 < n)%nat -> last_or (repeat x n) = x.
Proof.
  intros Hn. destruct n as [|n]; [lia|]. unfold last_or. cbn [repeat]. by rewrite repeat_cons, last_snoc.
Qed.
Lemma token_count t prev : token_ok t -> (0 < length (token_lens prev t))%nat.
Proof. destruct t; cbn [token_ok token_lens length]; rewrite ?repeat_length; lia. Qed.
Lemma token_last_or t l : token_ok t -> token_last (last_or l) t = last_or (l ++ token_lens (last_or l) t).
Proof.
  intros Ht. pose proof (token_count t (last_or l) Ht) as Hc. rewrite last_or_app by (by intros E; rewrite E in Hc; cbn in Hc; lia).
  destruct t; cbn [token_last token_lens token_ok] in *; [done|by rewrite last_repeat by lia|by rewrite last_repeat by lia].
Qed.

(** [put_run] writes a run *)
Lemma put_run_spec n x a h : 0 <= x < 65536 -> 0 <= h -> h + Z.of_nat n < 2 ^ 32 -> put_run n x (a, h) = (awrite a h (repeat x n), h + Z.of_nat n).
Proof.
  intros Hx. revert a h. induction n as [|n IH]; intros a h Hh Hn; cbn [put_run repeat awrite]; [by rewrite Z.add_0_r|].
  cbn [fst snd]. rewrite u16_small, u32_small, IH by lia. f_equal. lia.
Qed.
(** the lengths read so far *)
Definition lens_done {P Mo} (v : view P Mo) (l : list Z) : Prop :=
  v_have v = Z.of_nat (length l) /\ aread 0 (v_lens v) 0 (length l) = l.
Lemma lens_done_run {P Mo} (v : view P Mo) l n x :
  lens_done v l -> 0 <= x < 65536 -> Z.of_nat (length l + n) < 2 ^ 32 -> lens_done (on_run (put_run n x) v) (l ++ repeat x n).
Proof.
  intros [Hh Hl] Hx Hn. unfold lens_done, on_run. cbv zeta. rewrite put_run_spec by lia. cbn [fst snd v_have v_lens set_field].
  rewrite Hh, length_app, repeat_length. split; [lia|]. rewrite aread_app, Z.add_0_l. f_equal.
  - rewrite <- Hl at 3. apply aread_ext. intros i Hi. apply aget_awrite_out. rewrite repeat_length. lia.
  - rewrite <- (repeat_length x n) at 2. apply aread_awrite.
Qed.
Lemma aread_get a n i : (i < n)%nat -> aread 0 a 0 n !! i = Some (aget 0 a (Z.of_nat i)).
Proof. intros Hi. unfold aread. rewrite list_lookup_fmap, lookup_seq_lt by done. done. Qed.
Lemma lens_done_last {P Mo} (v : view P Mo) l : lens_done v l -> l <> [] -> aget 0 (v_lens v) (v_have v - 1) = last_or l.
Proof.
  intros [Hh Hl] Hne. assert (Hpos : (0 < length l)%nat) by (destruct l; [done|cbn; lia]).
  unfold last_or. rewrite last_lookup. rewrite <- Hl at 2. rewrite aread_get by lia. cbn [default]. rewrite Hh. unfold default, id. f_equal. lia.
Qed.

Section Codelens.
Context {S P Mo : Type} `{HeaderLaws S P Mo}.
Context (bl : list Z) (Hbl : bl_ok bl).
Implicit Types (s : S) (v : view P Mo).

(** the table of the code lengths code *)
Definition codes_table v : Prop := exists o, v_lencode v = hm_ptr o
    /\ table_for (fun i => aget code_zero (v_codes v) (o + i)) (v_lenbits v) (dyn_tree bl) 19 (type_entry CODES)
    /\ forall i, 0 <= i < 2 ^ v_lenbits v -> ~ is_link (aget code_zero (v_codes v) (o + i)).
Lemma bl_lens : Forall (fun x => 0 <= x <= 15) bl.
Proof. destruct Hbl as [_ Hb]. refine (List.Forall_impl _ _ Hb). cbv beta. lia. Qed.
Lemma bl_sym c : 0 <= c < 19 -> dl (dyn_tree bl c) = tget 0 bl c.
Proof.
  intros Hc. rewrite dyn_tree_len by apply bl_lens. rewrite (proj1 Hbl).
  destruct (Z.leb_spec 0 c), (Z.ltb_spec c (Z.of_nat 19)); done || lia.
Qed.
Lemma bl_small c : dl (dyn_tree bl c) <= 7.
Proof.
  rewrite dyn_tree_len by apply bl_lens. destruct (_ && _) eqn:E; [|lia]. rewrite andb_true_iff in E.
  apply (tget_range bl 0 7); [apply Hbl|lia].
Qed.

(** the symbol at the head of the input *)
Lemma lookup_code s c rest :
  hm_ok s -> codes_table (hm_get s) -> 0 <= c < 19 -> 0 < tget 0 bl c -> stream s = code_bits (dyn_tree bl c) ++ rest ->
  exists s', lookup_loop 40 (fun s => hm_at s (BITS (v_lenbits (hm_get s)) s)) cbits s = (s', inr (mk_code 0 (tget 0 bl c) c))
    /\ reach [] s s' /\ hm_get s' = hm_get s /\ stream s' = stream s /\ tget 0 bl c <= rd_bits s' <= Z.max (rd_bits s) (tget 0 bl c + 7).
Proof.
  intros Hs (o & Eo & Ht & Hflat) Hc Hpos Hw. pose proof (dyn_tree_ok bl bl_lens) as Hok. rewrite <- bl_sym in * by done.
  pose proof (code_value s (dyn_tree bl) c rest Hok Hw) as Hv. pose proof (table_find _ _ _ _ _ c (value s) Ht Hok Hc Hpos Hv) as F.
  set (at_ := fun i => aget code_zero (v_codes (hm_get s)) (o + i)) in *.
  destruct (find_cases _ _ _ _ _ _ (tf_ok _ _ _ _ _ Ht) F) as [(_ & F')|(L & _)].
  2: { exfalso. refine (Hflat _ _ L). apply (idx_range _ _ (tf_ok _ _ _ _ _ Ht)). }
  destruct (lookup_first (fun s => hm_at s (BITS (v_lenbits (hm_get s)) s)) at_ (v_lenbits (hm_get s)) s (hl_reader s Hs) (tf_ok _ _ _ _ _ Ht))
    as (s' & E & [Hp _] & B & C).
  - intros s' Hp. destruct (reach_pulled s s' Hs Hp) as [_ G]. rewrite (hl_at o) by (by rewrite G). by rewrite G.
  - rewrite F'. cbn [cbits]. rewrite Hw, length_app. pose proof (code_bits_length (dyn_tree bl) c Hok). lia.
  - rewrite F' in E, B, C. cbn [cbits] in B, C. destruct (reach_pulled s s' Hs Hp) as [R G].
    exists s'. split; [exact E|]. split; [done|]. split; [done|]. split; [apply Hp|lia].
Qed.

(** the extra bits behind a symbol *)
Lemma repeat_bits c k x rest s :
  hm_ok s -> rd_bits s <= tget 0 bl c + 7 -> 0 < tget 0 bl c <= 7 -> 0 <= c < 19 -> 2 <= k <= 7 -> 0 <= x < 2 ^ k ->
  stream s = code_bits (dyn_tree bl c) ++ bits_of (Z.to_nat k) x ++ rest ->
  exists s1 s2 s3, NEEDBITS (tget 0 bl c + k) s = (s1, inr tt) /\ hm_drop (tget 0 bl c) s1 = (s2, inr tt)
    /\ BITS k s2 = x /\ hm_drop k s2 = (s3, inr tt)
    /\ reach (code_bits (dyn_tree bl c) ++ bits_of (Z.to_nat k) x) s s3 /\ hm_get s3 = hm_get s
    /\ stream s3 = rest /\ rd_bits s3 < 8.
Proof.
  intros Hs Hb Hl Hc Hk Hx Hw. pose proof (code_bits_length (dyn_tree bl) c (dyn_tree_ok bl bl_lens)) as Hlen. rewrite bl_sym in Hlen by done.
  pose proof Hw as Hw'. rewrite app_assoc in Hw'.
  destruct (need_spec (tget 0 bl c + k) s _ rest Hs ltac:(lia) Hw') as (s1 & E1 & R1 & G1 & T1 & B1).
  { rewrite length_app, length_bits_of. lia. }
  rewrite Hw in T1. destruct (hl_drop (tget 0 bl c) _ _ s1 (rc_ok _ _ _ R1) T1 Hlen ltac:(lia) ltac:(lia)) as (s2 & E2 & O2 & T2 & B2 & K2).
  pose proof (hl_took_get _ _ _ K2) as G2.
  destruct (drop_field k x rest s2 O2 ltac:(lia) ltac:(lia) Hx T2) as (V & s3 & E3 & R3 & T3 & B3 & G3).
  exists s1, s2, s3. split_and!; try done; [|congruence|].
  - eapply reach_trans; [|exact R3]. eapply reach_from; [exact R1|]. split; [done|by rewrite T1, T2|]. exists (hm_get s1). by rewrite hl_set_get.
  - lia.
Qed.

(** one token *)
Definition lens_in_range (l : list Z) : Prop := Forall (fun x => 0 <= x <= 15) l.
Definition token_done (s s' : S) (t : token) (done : list Z) (rest : list bool) : Prop :=
  reach (token_bits (dyn_tree bl) t) s s' /\ stream s' = rest /\ rd_bits s' < 8
  /\ exists n x, hm_get s' = on_run (put_run n x) (hm_get s) /\ token_lens (last_or done) t = repeat x n /\ 0 <= x <= 15.
(** what a repeat does once its symbol is known: [len] is written [copy] times, [k] bits holding [copy] *)
Lemma run_done s s1 s2 w n len :
  reach [] s s1 -> reach w s1 s2 -> hm_get s1 = hm_get s -> hm_get s2 = hm_get s1 ->
  let s3 := hm_set (on_run (put_run n len) (hm_get s2)) s2 in
  reach w s s3 /\ stream s3 = stream s2 /\ rd_bits s3 = rd_bits s2 /\ hm_get s3 = on_run (put_run n len) (hm_get s).
Proof.
  intros R1 R2 G1 G2 s3. split; [|split; [apply stream_set|split; [apply hl_bits|]]].
  - eapply reach_from; [exact R1|]. eapply reach_then; [exact R2|]. apply reach_set, R2.
  - unfold s3. rewrite get_mod by done. congruence.
Qed.
Section Token.
Context (s : S) (done : list Z) (rest : list bool).
Context (Hs : hm_ok s) (Hb : rd_bits s < 8) (Ht : codes_table (hm_get s)) (Hd : lens_done (hm_get s) done).
Abbreviation fits n := (Z.of_nat (length done) + n <= v_nlen (hm_get s) + v_ndist (hm_get s)).

Lemma TLen_step l :
  0 <= l <= 15 -> 0 < tget 0 bl l -> fits 1 -> stream s = token_bits (dyn_tree bl) (TLen l) ++ rest ->
  exists s', g_codelens_turn s = (s', inr None) /\ token_done s s' (TLen l) done rest.
Proof.
  intros Hl Hpos Hn Hw. pose proof Hd as [Hh _]. cbn [token_bits] in Hw.
  destruct (lookup_code s l rest Hs Ht ltac:(lia) Hpos Hw) as (s1 & E1 & R1 & G1 & T1 & B1).
  unfold g_codelens_turn. rewrite bind_gets, Hh. destruct (Z.ltb_spec (Z.of_nat (length done)) (v_nlen (hm_get s) + v_ndist (hm_get s))); [|lia].
  rewrite (bind_inr _ _ _ _ _ E1). cbn [val cbits]. destruct (Z.ltb_spec l 16); [|lia].
  pose proof (code_bits_length (dyn_tree bl) l (dyn_tree_ok bl bl_lens)) as Hlen. rewrite bl_sym in Hlen by lia.
  pose proof (bl_small l) as H7. rewrite bl_sym in H7 by lia. rewrite Hw in T1.
  destruct (hl_drop (tget 0 bl l) _ _ s1 (rc_ok _ _ _ R1) T1 Hlen ltac:(lia) ltac:(lia)) as (s2 & E2 & O2 & T2 & B2 & K2).
  rewrite (bind_inr _ _ _ _ _ E2), bind_mod.
  assert (R2 : reach (code_bits (dyn_tree bl l)) s1 s2) by (split; [done|by rewrite T1, T2|exists (hm_get s1); by rewrite hl_set_get]).
  destruct (run_done s s1 s2 _ 1 l R1 R2 G1 (hl_took_get _ _ _ K2)) as (R3 & T3 & B3 & G3).
  eexists. split; [reflexivity|]. split; [exact R3|]. split; [by rewrite T3|]. split; [lia|]. by exists 1%nat, l.
Qed.
(** the two kinds of repeats *)
Lemma repeat_step t c k x base len :
  token_sym t = c -> 16 <= c < 19 -> 0 < tget 0 bl c -> 2 <= k <= 7 -> 0 <= x < 2 ^ k -> 0 <= base -> fits (base + x) ->
  token_bits (dyn_tree bl) t = code_bits (dyn_tree bl c) ++ bits_of (Z.to_nat k) x ->
  token_lens (last_or done) t = repeat len (Z.to_nat (base + x)) -> 0 <= len <= 15 -> 0 < base + x ->
  stream s = token_bits (dyn_tree bl) t ++ rest ->
  (forall s1 s2 s3, hm_get s1 = hm_get s -> NEEDBITS (tget 0 bl c + k) s1 = (s2, inr tt) -> hm_drop (tget 0 bl c) s2 = (s3, inr tt) ->
    forall s4, BITS k s3 = x -> hm_drop k s3 = (s4, inr tt) ->
    (if c =? 16 then
       NEEDBITS (tget 0 bl c + 2);; hm_drop (tget 0 bl c);;
       if v_have (hm_get s) =? 0 then hm_bad "invalid bit length repeat";; mret None
       else x ← gets (BITS 2); hm_drop 2;; mret (Some (aget 0 (v_lens (hm_get s)) (v_have (hm_get s) - 1), 3 + x))
     else if c =? 17 then
       NEEDBITS (tget 0 bl c + 3);; hm_drop (tget 0 bl c);; x ← gets (BITS 3); hm_drop 3;; mret (Some (0, 3 + x))
     else NEEDBITS (tget 0 bl c + 7);; hm_drop (tget 0 bl c);; x ← gets (BITS 7); hm_drop 7;; mret (Some (0, 11 + x))) s1
    = (s4, inr (Some (len, base + x)))) ->
  exists s', g_codelens_turn s = (s', inr None) /\ token_done s s' t done rest.
Proof.
  intros Hc Hc19 Hpos Hk Hx Hbase Hn Et El Hlen Hcopy Hw Hlc. pose proof Hd as [Hh _]. rewrite Et, <- app_assoc in Hw.
  destruct (lookup_code s c _ Hs Ht ltac:(lia) Hpos Hw) as (s1 & E1 & R1 & G1 & T1 & B1).
  unfold g_codelens_turn. rewrite bind_gets, Hh. destruct (Z.ltb_spec (Z.of_nat (length done)) (v_nlen (hm_get s) + v_ndist (hm_get s))); [|lia].
  rewrite (bind_inr _ _ _ _ _ E1). cbn [val cbits]. destruct (Z.ltb_spec c 16); [lia|]. rewrite bind_gets, G1.
  pose proof (bl_small c) as H7. rewrite bl_sym in H7 by lia. rewrite Hw in T1.
  destruct (repeat_bits c k x rest s1 (rc_ok _ _ _ R1) ltac:(lia) ltac:(lia) ltac:(lia) Hk Hx T1)
    as (s2 & s3 & s4 & E2 & E3 & V & E4 & R4 & G4 & T4 & B4).
  rewrite (bind_inr _ _ _ _ _ (Hlc s1 s2 s3 G1 E2 E3 s4 V E4)). cbv iota. rewrite Hh.
  destruct (Z.gtb_spec (Z.of_nat (length done) + (base + x)) (v_nlen (hm_get s) + v_ndist (hm_get s))); [lia|]. rewrite bind_mod.
  destruct (run_done s s1 s4 _ (Z.to_nat (base + x)) len R1 R4 G1 G4) as (R5 & T5 & B5 & G5).
  eexists. split; [reflexivity|]. unfold token_done. rewrite Et. split; [exact R5|]. split; [by rewrite T5|]. split; [lia|].
  by exists (Z.to_nat (base + x)), len.
Qed.
Lemma TRep_step n :
  3 <= n <= 6 -> 0 < tget 0 bl 16 -> done <> [] -> 0 <= last_or done <= 15 -> fits n ->
  stream s = token_bits (dyn_tree bl) (TRep n) ++ rest ->
  exists s', g_codelens_turn s = (s', inr None) /\ token_done s s' (TRep n) done rest.
Proof.
  intros Hn Hpos Hne Hlast Hf Hw. pose proof Hd as [Hh _]. assert (Hlen : (0 < length done)%nat) by (destruct done; [done|cbn; lia]).
  assert (Hx : 0 <= n - 3 < 2 ^ 2) by (change (2 ^ 2) with 4; lia).
  apply (repeat_step (TRep n) 16 2 (n - 3) 3 (last_or done)); try done; try lia.
  - cbn [token_lens]. by replace (3 + (n - 3)) with n by lia.
  - intros s1 s2 s3 G1 E2 E3 s4 V E4. cbn [Z.eqb Pos.eqb]. rewrite (bind_inr _ _ _ _ _ E2), (bind_inr _ _ _ _ _ E3).
    destruct (Z.eqb_spec (v_have (hm_get s)) 0); [lia|]. rewrite bind_gets, V, (bind_inr _ _ _ _ _ E4), (lens_done_last _ _ Hd Hne). done.
Qed.
Lemma TZero_step n :
  3 <= n <= 138 -> 0 < tget 0 bl (if n <=? 10 then 17 else 18) -> fits n ->
  stream s = token_bits (dyn_tree bl) (TZero n) ++ rest ->
  exists s', g_codelens_turn s = (s', inr None) /\ token_done s s' (TZero n) done rest.
Proof.
  intros Hn Hpos Hf Hw. destruct (Z.leb_spec n 10) as [L|L].
  - assert (Hx : 0 <= n - 3 < 2 ^ 3) by (change (2 ^ 3) with 8; lia).
    apply (repeat_step (TZero n) 17 3 (n - 3) 3 0); try done; try lia.
    + cbn [token_sym]. destruct (Z.leb_spec n 10); [done|lia].
    + cbn [token_bits]. destruct (Z.leb_spec n 10); [done|lia].
    + cbn [token_lens]. by replace (3 + (n - 3)) with n by lia.
    + intros s1 s2 s3 G1 E2 E3 s4 V E4. cbn [Z.eqb Pos.eqb]. rewrite (bind_inr _ _ _ _ _ E2), (bind_inr _ _ _ _ _ E3).
      rewrite bind_gets, V, (bind_inr _ _ _ _ _ E4). done.
  - assert (Hx : 0 <= n - 11 < 2 ^ 7) by (change (2 ^ 7) with 128; lia).
    apply (repeat_step (TZero n) 18 7 (n - 11) 11 0); try done; try lia.
    + cbn [token_sym]. destruct (Z.leb_spec n 10); [lia|done].
    + cbn [token_bits]. destruct (Z.leb_spec n 10); [lia|done].
    + cbn [token_lens]. by replace (11 + (n - 11)) with n by lia.
    + intros s1 s2 s3 G1 E2 E3 s4 V E4. cbn [Z.eqb Pos.eqb]. rewrite (bind_inr _ _ _ _ _ E2), (bind_inr _ _ _ _ _ E3).
      rewrite bind_gets, V, (bind_inr _ _ _ _ _ E4). done.
Qed.
Lemma token_step t :
  token_ok t -> 0 < tget 0 bl (token_sym t) -> lens_in_range (token_lens (last_or done) t) ->
  fits (Z.of_nat (length (token_lens (last_or done) t))) -> stream s = token_bits (dyn_tree bl) t ++ rest ->
  exists s', g_codelens_turn s = (s', inr None) /\ token_done s s' t done rest.
Proof.
  intros Hok Hpos Hr Hf Hw. destruct t as [l|n|n]; cbn [token_ok token_sym token_lens] in *.
  - apply Forall_cons_1 in Hr as [Hr _]. by apply TLen_step.
  - rewrite repeat_length in Hf. assert (Hl : 0 <= last_or done <= 15).
    { destruct (Z.to_nat n) eqn:En; [lia|]. cbn [repeat] in Hr. by apply Forall_cons_1 in Hr as [Hr _]. }
    assert (Hne : done <> []) by (intros E; rewrite E in Hl; cbn in Hl; lia). apply TRep_step; try done. lia.
  - rewrite repeat_length in Hf. apply TZero_step; try done. lia.
Qed.
End Token.

(** the loop on all tokens *)
Lemma codelens_loop toks : forall s done rest fuel,
  (length toks < fuel)%nat -> hm_ok s -> rd_bits s < 8 -> codes_table (hm_get s) -> lens_done (hm_get s) done ->
  v_nlen (hm_get s) + v_ndist (hm_get s) = Z.of_nat (length (done ++ expand (last_or done) toks)) ->
  v_nlen (hm_get s) + v_ndist (hm_get s) < 2 ^ 31 ->
  Forall (fun t => token_ok t /\ 0 < tget 0 bl (token_sym t)) toks -> lens_in_range (expand (last_or done) toks) ->
  stream s = tokens_bits bl toks ++ rest ->
  exists s', repeat_m fuel g_codelens_turn s = (s', inr tt) /\ reach (tokens_bits bl toks) s s' /\ stream s' = rest /\ rd_bits s' < 8
    /\ lens_done (hm_get s') (done ++ expand (last_or done) toks)
    /\ exists a x, hm_get s' = hm_get s <| v_lens := a |> <| v_have := x |>.
Proof.
  induction toks as [|t toks IH]; intros s done rest fuel Hf Hs Hb Ht Hd Htot H31 Hok Hr Hw; (destruct fuel as [|fuel]; [cbn in Hf; lia|]).
  - cbn [expand] in *. rewrite app_nil_r in *. pose proof Hd as [Hh _]. exists s. split.
    { apply repeat_stop. unfold g_codelens_turn. rewrite bind_gets, Hh, Htot. by rewrite Z.ltb_irrefl. }
    split; [by apply reach_nil|]. split; [done|]. split; [done|]. split; [done|].
    exists (v_lens (hm_get s)), (v_have (hm_get s)). by destruct (hm_get s).
  - cbn [expand] in *. apply Forall_cons_1 in Hok as [[Hok1 Hok2] Hok]. apply Forall_app in Hr as [Hr1 Hr2].
    pose proof (token_last_or t done Hok1) as El. rewrite El in *. rewrite app_assoc in *.
    unfold tokens_bits in Hw. cbn [flat_map] in Hw. rewrite <- app_assoc in Hw.
    destruct (token_step s done _ Hs Hb Ht Hd t Hok1 Hok2 Hr1 ltac:(rewrite Htot, !length_app; lia) Hw)
      as (s1 & E1 & R1 & T1 & B1 & n & x & G1 & Ex & Hx).
    assert (Hd1 : lens_done (hm_get s1) (done ++ token_lens (last_or done) t)).
    { rewrite G1, Ex. apply lens_done_run; [done|lia|]. rewrite <- (repeat_length x n), <- Ex, <- length_app.
      rewrite length_app in Htot. lia. }
    destruct (IH s1 (done ++ token_lens (last_or done) t) rest fuel) as (s2 & E2 & R2 & T2 & B2 & D2 & a & h & G2); try done.
    + cbn in Hf. lia.
    + apply R1.
    + rewrite G1. exact Ht.
    + rewrite G1. exact Htot.
    + rewrite G1. exact H31.
    + exists s2. split; [by rewrite (repeat_go _ _ _ _ E1)|]. split; [exact (reach_trans _ _ _ _ _ R1 R2)|]. split; [done|]. split; [done|].
      split; [done|]. exists a, h. rewrite G2, G1. reflexivity.
Qed.
End Codelens.

(** ** The tables *)

Lemma aread_tget a l off i : aread 0 a off (length l) = l -> 0 <= i < Z.of_nat (length l) -> aget 0 a (off + i) = tget 0 l i.
Proof.
  intros El Hi. assert (Hn : (Z.to_nat i < length l)%nat) by lia.
  assert (E : l !! Z.to_nat i = Some (aget 0 a (off + i))).
  { rewrite <- El. unfold aread. rewrite list_lookup_fmap, lookup_seq_lt by done. cbn. do 3 f_equal. lia. }
  unfold tget. destruct (Z.ltb_spec i 0); [lia|]. symmetry. apply nth_lookup_Some with (d := 0) in E. exact E.
Qed.
Lemma tokens_length prev toks : Forall token_ok toks -> (length toks <= length (expand prev toks))%nat.
Proof.
  revert prev. induction toks as [|t toks IH]; intros prev Hok; [done|]. apply Forall_cons_1 in Hok as [H1 H2].
  cbn [expand length]. rewrite length_app. pose proof (token_count t prev H1). pose proof (IH (token_last prev t) H2). lia.
Qed.

Section Tables.
Context {S P Mo : Type} `{HeaderLaws S P Mo}.
Implicit Types (s : S) (v : view P Mo).

Lemma build_spec type off n nbits set_bits tree set_tree s l :
  hm_ok s -> n (hm_get s) = Z.of_nat (length l) -> Z.of_nat (length l) < 65536 ->
  Forall (fun x => 0 <= x <= if bool_decide (type = CODES) then nbits (hm_get s) else 15) l ->
  1 <= nbits (hm_get s) <= (if bool_decide (type = CODES) then 7 else 15) -> builds type l (nbits (hm_get s)) = true ->
  (forall i, 0 <= i < Z.of_nat (length l) -> aget 0 (v_lens (hm_get s)) (off (hm_get s) + i) = tget 0 l i) ->
  exists s' r, g_build_table type off n nbits set_bits tree set_tree s = (s', inr 0)
    /\ reach [] s s' /\ stream s' = stream s /\ rd_bits s' = rd_bits s
    /\ built hm_my type (tget 0 l) (length l) (v_next (hm_get s)) (v_codes (hm_get s)) (tree (hm_get s)) r
    /\ hm_get s' = keep_trees hm_my (keep_trees hm_my (set_tree (r_tree r) (set_bits (r_bits r)
         (hm_get s <| v_codes := r_mem r |> <| v_work := r_work r |> <| v_next := r_table r |>))) <| v_ret := 0 |>).
Proof.
  intros Hs Hn Hl Hr Hb Hbuild E. unfold g_build_table. rewrite bind_gets, Hn.
  destruct (builds_spec hm_my type l (nbits (hm_get s)) (fun i => aget 0 (v_lens (hm_get s)) (off (hm_get s) + i))
    (v_next (hm_get s)) (v_codes (hm_get s)) (v_work (hm_get s)) (tree (hm_get s)) Hl Hr Hb Hbuild E) as (r & Er & B).
  rewrite Er, !bind_mod, (bt_ret _ _ _ _ _ _ _ _ B). eexists _, r. split; [reflexivity|]. split.
  { eapply reach_then; [by apply reach_set|]. apply reach_set. by apply hl_ok_set. }
  split; [by rewrite !stream_set|]. split; [by rewrite !hl_bits|]. split; [done|]. by rewrite !hl_get_set.
Qed.

(** what the header of a block leaves for its body *)
Definition table_at (codes : arr code) (p : P) (bits : Z) (l : list Z) (type : codetype) : Prop :=
  exists o, p = hm_ptr o /\ table_for (fun i => aget code_zero codes (o + i)) bits (dyn_tree l) (type_size type) (type_entry type).
Record tables_of (h : dyn_header) v : Prop := {
  to_mode : v_mode v = hm_done;
  to_ret : v_ret v = 0;
  to_lit : table_at (v_codes v) (v_lencode v) (v_lenbits v) (dh_lit h) LENS;
  to_dist : table_at (v_codes v) (v_distcode v) (v_distbits v) (dh_dist h) DISTS;
  to_trees : hm_my = true -> aget ct_zero (v_lt v) = dyn_tree (dh_lit h) /\ aget ct_zero (v_dt v) = dyn_tree (dh_dist h) }.
(** what reading the code lengths does not change *)
Definition counts v := (v_ncode v, v_bl v, v_lmax v, v_dmax v).

(** the literals and lengths *)
Lemma lit_table s h :
  header_ok h -> hm_ok s -> aread 0 (v_lens (hm_get s)) 0 (length (dh_lit h)) = dh_lit h -> v_nlen (hm_get s) = nlit h ->
  v_next (hm_get s) = 0 -> v_lencode (hm_get s) = hm_ptr 0 -> v_lenbits (hm_get s) = 9 -> v_lt (hm_get s) = ∅ -> v_dt (hm_get s) = ∅ ->
  exists s' top, g_build_table LENS (fun _ => 0) v_nlen v_lenbits (fun b v => v <| v_lenbits := b |>) v_lt (fun t v => v <| v_lt := t |>) s = (s', inr 0)
    /\ reach [] s s' /\ stream s' = stream s /\ rd_bits s' = rd_bits s
    /\ v_lencode (hm_get s') = hm_ptr 0
    /\ (forall mem, (forall p, 0 <= p < top -> aget code_zero mem p = aget code_zero (v_codes (hm_get s')) p) ->
         table_for (fun i => aget code_zero mem (0 + i)) (v_lenbits (hm_get s')) (dyn_tree (dh_lit h)) (type_size LENS) (type_entry LENS))
    /\ v_next (hm_get s') = top
    /\ (hm_my = true -> aget ct_zero (v_lt (hm_get s')) = dyn_tree (dh_lit h)) /\ v_dt (hm_get s') = ∅
    /\ (v_lens (hm_get s'), v_nlen (hm_get s'), v_ndist (hm_get s')) = (v_lens (hm_get s), v_nlen (hm_get s), v_ndist (hm_get s))
    /\ counts (hm_get s') = counts (hm_get s).
Proof.
  intros Hh Hs Hl Hn Hnx Hp Hb Hlt Hdt. pose proof (ho_lit _ Hh) as L1. pose proof (ho_lens _ Hh) as L3. apply Forall_app in L3 as [L3 _].
  unfold nlit in *.
  destruct (build_spec LENS (fun _ => 0) v_nlen v_lenbits (fun b v => v <| v_lenbits := b |>) v_lt (fun t v => v <| v_lt := t |>) s (dh_lit h) Hs)
    as (s' & r & E & R & T & B & K & G); rewrite ?Hb; try done; try lia.
  { by apply ho_lens_table. } { intros i Hi. by apply (aread_tget _ _ 0). }
  rewrite Hnx, Hlt in K. exists s', (r_table r). split; [exact E|]. split; [done|]. split; [done|]. split; [done|].
  assert (F : (v_lencode (hm_get s'), v_lenbits (hm_get s'), v_codes (hm_get s'), v_next (hm_get s')) = (v_lencode (hm_get s), r_bits r, r_mem r, r_table r))
    by (rewrite G; reflexivity).
  injection F as F1 F2 F3 F4. split; [congruence|]. split.
  { intros mem Hm. rewrite F2. rewrite F3 in Hm. apply (built_table hm_my LENS (dh_lit h) 0 (v_codes (hm_get s)) ∅ r); [cbn; lia|done|exact K|done]. }
  split; [done|]. split; [|split; [|split; [by rewrite G|]]].
  - intros Emy. rewrite Emy in K. rewrite <- (built_tree LENS (dh_lit h) 0 (v_codes (hm_get s)) r K). f_equal.
    transitivity (if hm_my then (if hm_my then r_tree r else ∅) else (∅ : arr ct_data)); [rewrite G; reflexivity|]. by rewrite Emy.
  - transitivity (if hm_my then (if hm_my then v_dt (hm_get s) else ∅) else (∅ : arr ct_data)); [rewrite G; reflexivity|].
    rewrite Hdt. by destruct hm_my.
  - transitivity (counts (keep_trees hm_my (keep_trees hm_my (hm_get s)))); [rewrite G; reflexivity|]. by rewrite !keep_get.
Qed.
(** the distances, behind them *)
Lemma dist_table s h base :
  header_ok h -> hm_ok s -> aread 0 (v_lens (hm_get s)) (nlit h) (length (dh_dist h)) = dh_dist h -> v_nlen (hm_get s) = nlit h ->
  v_ndist (hm_get s) = ndists h -> v_next (hm_get s) = base -> v_distcode (hm_get s) = hm_ptr base -> v_distbits (hm_get s) = 6 -> v_dt (hm_get s) = ∅ ->
  exists s', g_build_table DISTS v_nlen v_ndist v_distbits (fun b v => v <| v_distbits := b |>) v_dt (fun t v => v <| v_dt := t |>) s = (s', inr 0)
    /\ reach [] s s' /\ stream s' = stream s /\ rd_bits s' = rd_bits s
    /\ table_at (v_codes (hm_get s')) (v_distcode (hm_get s')) (v_distbits (hm_get s')) (dh_dist h) DISTS
    /\ (forall p, p < base -> aget code_zero (v_codes (hm_get s')) p = aget code_zero (v_codes (hm_get s)) p)
    /\ (hm_my = true -> aget ct_zero (v_dt (hm_get s')) = dyn_tree (dh_dist h))
    /\ v_ret (hm_get s') = 0 /\ v_lt (hm_get s') = v_lt (hm_get s)
    /\ (v_lencode (hm_get s'), v_lenbits (hm_get s')) = (v_lencode (hm_get s), v_lenbits (hm_get s))
    /\ counts (hm_get s') = counts (hm_get s).
Proof.
  intros Hh Hs Hl Hn Hnd Hnx Hp Hb Hdt. pose proof (ho_dist _ Hh) as L1. pose proof (ho_lens _ Hh) as L3. apply Forall_app in L3 as [_ L3].
  unfold ndists in *.
  destruct (build_spec DISTS v_nlen v_ndist v_distbits (fun b v => v <| v_distbits := b |>) v_dt (fun t v => v <| v_dt := t |>) s (dh_dist h) Hs)
    as (s' & r & E & R & T & B & K & G); rewrite ?Hb; try done; try lia.
  { by apply ho_dist_table. } { intros i Hi. rewrite Hn. by apply aread_tget. }
  rewrite Hnx, Hdt in K. exists s'. split; [exact E|]. split; [done|]. split; [done|]. split; [done|].
  assert (F : (v_distcode (hm_get s'), v_distbits (hm_get s'), v_codes (hm_get s')) = (v_distcode (hm_get s), r_bits r, r_mem r))
    by (rewrite G; reflexivity).
  injection F as F1 F2 F3. split; [|split; [|split; [|split; [by rewrite G|split; [|split; [by rewrite G|]]]]]].
  - exists base. split; [congruence|]. rewrite F2, F3.
    apply (built_table hm_my DISTS (dh_dist h) base (v_codes (hm_get s)) ∅ r); [cbn; lia|done|exact K|done].
  - intros p Hlt. rewrite F3. apply (bt_frame _ _ _ _ _ _ _ _ K). by left.
  - intros Emy. rewrite Emy in K. rewrite <- (built_tree DISTS (dh_dist h) base (v_codes (hm_get s)) r K). f_equal.
    transitivity (if hm_my then (if hm_my then r_tree r else ∅) else (∅ : arr ct_data)); [rewrite G; reflexivity|]. by rewrite Emy.
  - transitivity (v_lt (keep_trees hm_my (keep_trees hm_my (hm_get s)))); [rewrite G; reflexivity|]. by rewrite !keep_get.
  - transitivity (counts (keep_trees hm_my (keep_trees hm_my (hm_get s)))); [rewrite G; reflexivity|]. by rewrite !keep_get.
Qed.
(** both, and the mode *)
Lemma body_tables flush s h :
  header_ok h -> hm_ok s -> flush <> Z_TREES -> aread 0 (v_lens (hm_get s)) 0 (length (dh_lit h ++ dh_dist h)) = dh_lit h ++ dh_dist h ->
  v_nlen (hm_get s) = nlit h -> v_ndist (hm_get s) = ndists h -> v_lt (hm_get s) = ∅ -> v_dt (hm_get s) = ∅ ->
  exists s', (mod_view (fun v => v <| v_next := 0 |> <| v_lencode := hm_ptr 0 |> <| v_lenbits := 9 |>);;
    ret ← g_build_table LENS (fun _ => 0) v_nlen v_lenbits (fun b v => v <| v_lenbits := b |>) v_lt (fun t v => v <| v_lt := t |>);
    if negb (ret =? 0) then hm_bad "invalid literal/lengths set"
    else
      mod_view (fun v => v <| v_distcode := hm_ptr (v_next v) |> <| v_distbits := 6 |>);;
      ret ← g_build_table DISTS v_nlen v_ndist v_distbits (fun b v => v <| v_distbits := b |>) v_dt (fun t v => v <| v_dt := t |>);
      if negb (ret =? 0) then hm_bad "invalid distances set"
      else mod_view (fun v => v <| v_mode := hm_done |>);; when (flush =? Z_TREES) leave) s = (s', inr tt)
    /\ reach [] s s' /\ stream s' = stream s /\ rd_bits s' = rd_bits s /\ tables_of h (hm_get s') /\ counts (hm_get s') = counts (hm_get s).
Proof.
  intros Hh Hs Hf Hd Hnl Hnd Hlt Hdt. rewrite length_app, aread_app in Hd. apply app_inj_1 in Hd as [D1 D2]; [|apply length_aread].
  step_mod G1. set (s1 := hm_set _ s) in *. assert (R1 : reach [] s s1) by by apply reach_set.
  assert (S1 : stream s1 = stream s /\ rd_bits s1 = rd_bits s) by (split; [apply stream_set|apply hl_bits]). clearbody s1.
  destruct (lit_table s1 h Hh (rc_ok _ _ _ R1)) as (s2 & top & E2 & R2 & T2 & B2 & P2 & K2 & N2 & L2 & X2 & F2 & C2); rewrite ?G1; try done.
  rewrite G1 in F2, C2. injection F2 as F2 F3 F4.
  rewrite (bind_inr _ _ _ _ _ E2). change (negb (0 =? 0)) with false. cbv iota.
  step_mod G3. set (s3 := hm_set _ s2) in *. assert (R3 : reach [] s2 s3) by apply reach_set, R2.
  assert (S3 : stream s3 = stream s2 /\ rd_bits s3 = rd_bits s2) by (split; [apply stream_set|apply hl_bits]). clearbody s3.
  destruct (dist_table s3 h top Hh (rc_ok _ _ _ R3)) as (s4 & E4 & R4 & T4 & B4 & K4 & Fr4 & L4 & Z4 & X4 & F5 & C4); rewrite ?G3; try done.
  { etransitivity; [exact (f_equal (fun a => aread 0 a (nlit h) (length (dh_dist h))) F2)|exact D2]. }
  { etransitivity; [exact F3|exact Hnl]. } { etransitivity; [exact F4|exact Hnd]. } { exact (f_equal hm_ptr N2). }
  rewrite G3 in Fr4, X4, F5, C4. injection F5 as F5 F6.
  rewrite (bind_inr _ _ _ _ _ E4). change (negb (0 =? 0)) with false. cbv iota. step_mod G5.
  destruct (Z.eqb_spec flush Z_TREES); [done|]. set (s5 := hm_set _ s4) in *.
  assert (S5 : stream s5 = stream s4 /\ rd_bits s5 = rd_bits s4) by (split; [apply stream_set|apply hl_bits]).
  exists s5. split; [reflexivity|]. split; [|split; [|split; [|split]]].
  - do 3 (eapply reach_then; [eassumption|]). eapply reach_then; [exact R4|]. apply reach_set, R4.
  - destruct S1, S3, S5. congruence.
  - destruct S1, S3, S5. congruence.
  - assert (V : (v_codes (hm_get s5), v_lencode (hm_get s5), v_lenbits (hm_get s5), v_distcode (hm_get s5), v_distbits (hm_get s5))
      = (v_codes (hm_get s4), v_lencode (hm_get s4), v_lenbits (hm_get s4), v_distcode (hm_get s4), v_distbits (hm_get s4))) by by rewrite G5.
    assert (W : (v_mode (hm_get s5), v_ret (hm_get s5), v_lt (hm_get s5), v_dt (hm_get s5))
      = (hm_done, v_ret (hm_get s4), v_lt (hm_get s4), v_dt (hm_get s4))) by by rewrite G5.
    clear G5. injection V as V1 V2 V3 V4 V5. injection W as W1 W2 W3 W4. split; rewrite ?V1, ?V2, ?V3, ?V4, ?V5, ?W1, ?W2, ?W3, ?W4; try done.
    + exists 0. split; [exact (eq_trans F5 P2)|]. rewrite F6. apply K2. intros p Hp. exact (Fr4 p ltac:(lia)).
    + intros Emy. split; [|exact (L4 Emy)]. rewrite X4. exact (L2 Emy).
  - rewrite G5. change (counts (hm_get s4) = counts (hm_get s)). rewrite C4. change (counts (hm_get s2) = counts (hm_get s)). by rewrite C2.
Qed.
(** ** The handlers *)

Lemma CODELENS_spec flush s h rest :
  header_ok h -> hm_ok s -> flush <> Z_TREES -> rd_bits s < 8 -> codes_table (dh_bl h) (hm_get s) -> v_have (hm_get s) = 0 ->
  v_mode (hm_get s) = hm_codelens -> v_nlen (hm_get s) = nlit h -> v_ndist (hm_get s) = ndists h ->
  v_lt (hm_get s) = ∅ -> v_dt (hm_get s) = ∅ -> stream s = tokens_bits (dh_bl h) (dh_toks h) ++ rest ->
  exists s', g_CODELENS flush s = (s', inr tt) /\ reach (tokens_bits (dh_bl h) (dh_toks h)) s s' /\ stream s' = rest /\ rd_bits s' < 8
    /\ tables_of h (hm_get s') /\ counts (hm_get s') = counts (hm_get s).
Proof.
  intros Hh Hs Hf Hb Ht Hhave Hm Hnl Hnd Hlt Hdt Hw. pose proof (ho_lit _ Hh) as L1. pose proof (ho_dist _ Hh) as L2.
  assert (Hlen : Z.of_nat (length (dh_lit h ++ dh_dist h)) = nlit h + ndists h) by (rewrite length_app; unfold nlit, ndists; lia).
  pose proof (ho_toks _ Hh) as Htok. pose proof (tokens_length (-1) (dh_toks h) (List.Forall_impl _ (fun t H => proj1 H) Htok)) as Hcnt.
  rewrite (ho_expand _ Hh) in Hcnt.
  destruct (codelens_loop (dh_bl h) (ho_bl _ Hh) (dh_toks h) s [] rest 400) as (s1 & E1 & R1 & T1 & B1 & [D1 D2] & a & x & G1);
    change (last_or []) with (-1); rewrite ?(ho_expand _ Hh); try done; try lia.
  { by rewrite Hnl, Hnd, <- Hlen. } { apply (ho_lens _ Hh). }
  change (last_or []) with (-1) in D1, D2. rewrite (ho_expand _ Hh), app_nil_l in D1, D2.
  unfold g_CODELENS. rewrite (bind_inr _ _ _ _ _ E1), bind_gets.
  assert (Hbad : hm_is_bad (v_mode (hm_get s1)) = false) by (rewrite G1; rewrite <- hl_fine; exact (f_equal hm_is_bad Hm)). rewrite Hbad.
  assert (H256 : aget 0 (v_lens (hm_get s1)) 256 = tget 0 (dh_lit h) 256).
  { rewrite length_app, aread_app in D2. apply app_inj_1 in D2 as [D2 _]; [|apply length_aread].
    apply (aread_tget _ _ 0); [exact D2|]. unfold nlit in L1. lia. }
  rewrite H256. pose proof (ho_end _ Hh). destruct (Z.eqb_spec (tget 0 (dh_lit h) 256) 0); [lia|].
  destruct (body_tables flush s1 h Hh (rc_ok _ _ _ R1) Hf D2) as (s2 & E2 & R2 & T2 & B2 & V2 & C2); try (rewrite G1; done).
  exists s2. split; [exact E2|]. split; [by eapply reach_then|]. split; [by rewrite T2|]. split; [lia|]. split; [done|].
  rewrite C2, G1. reflexivity.
Qed.

(** the code lengths code *)
Lemma codes_table_spec s bl :
  bl_ok bl -> hm_ok s -> builds CODES bl 7 = true -> (forall c, 0 <= c < 19 -> aget 0 (v_lens (hm_get s)) c = tget 0 bl c) ->
  v_next (hm_get s) = 0 -> v_lencode (hm_get s) = hm_ptr 0 -> v_lenbits (hm_get s) = 7 -> v_bl (hm_get s) = ∅ ->
  v_lt (hm_get s) = ∅ -> v_dt (hm_get s) = ∅ ->
  exists s', g_build_table CODES (fun _ => 0) (fun _ => 19) v_lenbits (fun b v => v <| v_lenbits := b |>) v_bl (fun t v => v <| v_bl := t |>) s = (s', inr 0)
    /\ reach [] s s' /\ stream s' = stream s /\ rd_bits s' = rd_bits s /\ codes_table bl (hm_get s')
    /\ (hm_my = true -> aget ct_zero (v_bl (hm_get s')) = dyn_tree bl) /\ v_lt (hm_get s') = ∅ /\ v_dt (hm_get s') = ∅
    /\ (v_nlen (hm_get s'), v_ndist (hm_get s'), v_ncode (hm_get s')) = (v_nlen (hm_get s), v_ndist (hm_get s), v_ncode (hm_get s))
    /\ (hm_my = true -> (v_lmax (hm_get s'), v_dmax (hm_get s')) = (v_lmax (hm_get s), v_dmax (hm_get s))).
Proof.
  intros Hbl Hs Hbuild Hl Hnx Hp Hb Htr Hlt Hdt. pose proof Hbl as [Hlen Hr].
  destruct (build_spec CODES (fun _ => 0) (fun _ => 19) v_lenbits (fun b v => v <| v_lenbits := b |>) v_bl (fun t v => v <| v_bl := t |>) s bl Hs)
    as (s' & r & E & R & T & B & K & G); rewrite ?Hb, ?Hlen; try done.
  rewrite Hnx, Htr in K. exists s'. split; [exact E|]. split; [done|]. split; [done|]. split; [done|].
  assert (F : (v_lencode (hm_get s'), v_lenbits (hm_get s'), v_codes (hm_get s')) = (v_lencode (hm_get s), r_bits r, r_mem r))
    by (rewrite G; reflexivity).
  injection F as F1 F2 F3. split; [|split; [|split; [|split; [|split; [by rewrite G|]]]]].
  - exists 0. split; [congruence|]. rewrite F2, F3.
    destruct (built_table hm_my CODES bl 0 (v_codes (hm_get s)) ∅ r) with (mem' := r_mem r) as [A C]; [rewrite Hlen; done|by apply bl_lens|exact K|done|].
    split; [exact A|]. by apply C.
  - intros Emy. rewrite Emy in K. rewrite <- (built_tree CODES bl 0 (v_codes (hm_get s)) r K). f_equal.
    transitivity (if hm_my then (if hm_my then r_tree r else ∅) else (∅ : arr ct_data)); [rewrite G; reflexivity|]. by rewrite Emy.
  - transitivity (v_lt (keep_trees hm_my (keep_trees hm_my (hm_get s)))); [rewrite G; reflexivity|]. by rewrite !keep_get.
  - transitivity (v_dt (keep_trees hm_my (keep_trees hm_my (hm_get s)))); [rewrite G; reflexivity|]. by rewrite !keep_get.
  - intros _. set (lims := fun v : view P Mo => (v_lmax v, v_dmax v)).
    transitivity (lims (keep_trees hm_my (keep_trees hm_my (hm_get s)))); [rewrite G; reflexivity|]. by rewrite !keep_get.
Qed.
(** what is left for the machine that builds trees *)
Record trees_of (h : dyn_header) v : Prop := {
  tr_bl : aget ct_zero (v_bl v) = dyn_tree (dh_bl h);
  tr_lmax : v_lmax v = nlit h;
  tr_dmax : v_dmax v = ndists h }.

Lemma keep_run f my v : keep_trees my (on_run f v) = on_run f (keep_trees my v).
Proof. reflexivity. Qed.
(** what storing the lengths does not change *)
Definition rest_view v := (v_nlen v, v_ndist v, v_ncode v, v_bl v, v_lt v, v_dt v, v_lmax v, v_dmax v).
Lemma LENLENS_spec flush s h rest :
  header_ok h -> hm_ok s -> flush <> Z_TREES -> rd_bits s < 8 -> v_have (hm_get s) = 0 -> v_ncode (hm_get s) = dh_ncode h ->
  v_nlen (hm_get s) = nlit h -> v_ndist (hm_get s) = ndists h -> v_bl (hm_get s) = ∅ -> v_lt (hm_get s) = ∅ -> v_dt (hm_get s) = ∅ ->
  (hm_my = true -> v_lmax (hm_get s) = nlit h /\ v_dmax (hm_get s) = ndists h) ->
  stream s = ranks_bits (dh_bl h) (seq 0 (Z.to_nat (dh_ncode h))) ++ tokens_bits (dh_bl h) (dh_toks h) ++ rest ->
  exists s', g_LENLENS flush s = (s', inr tt)
    /\ reach (ranks_bits (dh_bl h) (seq 0 (Z.to_nat (dh_ncode h))) ++ tokens_bits (dh_bl h) (dh_toks h)) s s' /\ stream s' = rest /\ rd_bits s' < 8
    /\ tables_of h (hm_get s') /\ v_ncode (hm_get s') = dh_ncode h /\ (hm_my = true -> trees_of h (hm_get s')).
Proof.
  intros Hh Hs Hf Hb Hhave Hnc Hnl Hnd Hbl Hlt Hdt Hmax Hw. pose proof (ho_ncode _ Hh) as L0. set (N := Z.to_nat (dh_ncode h)) in *.
  destruct (lenlens_loop (dh_bl h) (ho_bl _ Hh) N N 0 s _ 20 eq_refl ltac:(lia) Hs Hb Hhave ltac:(lia) Hw) as (s1 & E1 & R1 & T1 & B1 & G1).
  unfold g_LENLENS. rewrite (bind_inr _ _ _ _ _ E1), bind_mod.
  pose proof (get_mod (on_run (zero_run 19)) s1 (keep_run (zero_run 19) hm_my)) as G2. set (s2 := hm_set _ s1) in *.
  assert (Hz : zero_run 19 (v_lens (hm_get s1), v_have (hm_get s1)) = (store_ranks (dh_bl h) (seq 0 19) (v_lens (hm_get s)), 19)).
  { assert (Eh : v_have (hm_get s1) = Z.of_nat N) by by rewrite G1. rewrite Eh, (zero_rest (dh_bl h) N) by (try lia; intros r Hr; apply (ho_unsent _ Hh); lia).
    replace (seq 0 19) with (seq 0 N ++ seq N (19 - N)) by (pose proof (seq_app N (19 - N) 0) as Es; rewrite Nat.add_0_l in Es; rewrite <- Es; f_equal; lia).
    rewrite G1. unfold store_ranks. by rewrite foldl_app. }
  assert (V2 : v_lens (hm_get s2) = store_ranks (dh_bl h) (seq 0 19) (v_lens (hm_get s))) by (rewrite G2; exact (f_equal fst Hz)).
  assert (F2 : rest_view (hm_get s2) = rest_view (hm_get s)).
  { transitivity (rest_view (hm_get s1)); [rewrite G2; reflexivity|rewrite G1; reflexivity]. }
  assert (R2 : reach (ranks_bits (dh_bl h) (seq 0 N)) s s2) by (eapply reach_then; [exact R1|apply reach_set, R1]).
  assert (S2 : stream s2 = stream s1 /\ rd_bits s2 = rd_bits s1) by (split; [apply stream_set|apply hl_bits]). clearbody s2. clear G2 Hz.
  step_mod G3. set (s3 := hm_set _ s2) in *. assert (R3 : reach [] s2 s3) by apply reach_set, R2.
  assert (S3 : stream s3 = stream s2 /\ rd_bits s3 = rd_bits s2) by (split; [apply stream_set|apply hl_bits]). clearbody s3.
  injection F2 as F1 F2 F3 F4 F5 F6 F7 F8. rewrite Hnl in F1. rewrite Hnd in F2. rewrite Hnc in F3. rewrite Hbl in F4. rewrite Hlt in F5. rewrite Hdt in F6.
  destruct (codes_table_spec s3 (dh_bl h) (ho_bl _ Hh) (rc_ok _ _ _ R3) (ho_codes _ Hh)) as (s4 & E4 & R4 & T4 & B4 & K4 & X4 & L4 & D4 & C4 & M4);
    rewrite ?G3; try done.
  { intros c Hc. rewrite <- (store_all (dh_bl h) (v_lens (hm_get s)) c Hc), <- V2. reflexivity. }
  rewrite (bind_inr _ _ _ _ _ E4). change (negb (0 =? 0)) with false. cbv iota. rewrite G3 in C4, M4. injection C4 as C1 C2 C3.
  step_mod G5. set (s5 := hm_set _ s4) in *. assert (R5 : reach [] s4 s5) by apply reach_set, R4.
  assert (S5 : stream s5 = stream s4 /\ rd_bits s5 = rd_bits s4) by (split; [apply stream_set|apply hl_bits]). clearbody s5.
  step_mod G6. set (s6 := hm_set _ s5) in *. assert (R6 : reach [] s5 s6) by apply reach_set, R5.
  assert (S6 : stream s6 = stream s5 /\ rd_bits s6 = rd_bits s5) by (split; [apply stream_set|apply hl_bits]). clearbody s6.
  rewrite G5 in G6. clear G5.
  destruct (CODELENS_spec flush s6 h rest Hh (rc_ok _ _ _ R6) Hf) as (s7 & E7 & R7 & T7 & B7 & V7 & C7); rewrite ?G6; try done.
  { destruct S2, S3, S5, S6. lia. } { exact (eq_trans C1 F1). } { exact (eq_trans C2 F2). }
  { destruct S2, S3, S5, S6. congruence. }
  exists s7. split; [exact E7|]. split.
  { eapply reach_trans; [eapply reach_then; [exact R2|]|exact R7].
    eapply reach_then; [exact R3|]. eapply reach_then; [exact R4|]. by eapply reach_then. }
  split; [done|]. split; [done|]. split; [done|]. rewrite G6 in C7. unfold counts in C7. injection C7 as C7 C8 C9 C10.
  split; [etransitivity; [exact C7|]; etransitivity; [exact C3|exact F3]|]. intros Emy. specialize (M4 Emy). injection M4 as M1 M2.
  destruct (Hmax Emy) as [Hm1 Hm2]. split.
  - rewrite C8. exact (X4 Emy).
  - etransitivity; [exact C9|]. etransitivity; [exact M1|]. etransitivity; [exact F7|exact Hm1].
  - etransitivity; [exact C10|]. etransitivity; [exact M2|]. etransitivity; [exact F8|exact Hm2].
Qed.
Lemma TABLE_run flush s h rest :
  header_ok h -> hm_ok s -> flush <> Z_TREES -> rd_bits s < 8 -> v_bl (hm_get s) = ∅ -> v_lt (hm_get s) = ∅ -> v_dt (hm_get s) = ∅ ->
  stream s = header_bits h ++ rest ->
  exists s', g_TABLE flush s = (s', inr tt) /\ reach (header_bits h) s s' /\ stream s' = rest /\ rd_bits s' < 8
    /\ tables_of h (hm_get s') /\ v_ncode (hm_get s') = dh_ncode h /\ (hm_my = true -> trees_of h (hm_get s')).
Proof.
  intros Hh Hs Hf Hb Hbl Hlt Hdt Hw. pose proof (ho_lit _ Hh) as L1. pose proof (ho_dist _ Hh) as L2. pose proof (ho_ncode _ Hh) as L3.
  destruct (need_spec 14 s _ rest Hs ltac:(lia) Hw) as (s1 & E1 & R1 & G1 & T1 & B1).
  { unfold header_bits. rewrite !length_app, !length_bits_of. lia. }
  unfold g_TABLE. rewrite (bind_inr _ _ _ _ _ E1). rewrite Hw in T1. unfold header_bits in T1. rewrite <- !app_assoc in T1.
  assert (X1 : 0 <= nlit h - 257 < 2 ^ 5) by (change (2 ^ 5) with 32; lia).
  assert (X2 : 0 <= ndists h - 1 < 2 ^ 5) by (change (2 ^ 5) with 32; lia).
  assert (X3 : 0 <= dh_ncode h - 4 < 2 ^ 4) by (change (2 ^ 4) with 16; lia).
  destruct (field_spec 5 _ _ (hm_get s1 <| v_nlen := nlit h - 257 + 257 |> <| v_lmax := nlit h - 257 + 257 |>) s1 (rc_ok _ _ _ R1) ltac:(lia) ltac:(lia) X1 T1)
    as (V2 & s2 & E2 & R2 & T2 & B2 & G2).
  rewrite bind_gets, V2, bind_mod, (bind_inr _ _ _ _ _ E2).
  destruct (field_spec 5 _ _ (hm_get s2 <| v_ndist := ndists h - 1 + 1 |> <| v_dmax := ndists h - 1 + 1 |>) s2 (rc_ok _ _ _ R2) ltac:(lia) ltac:(lia) X2 T2)
    as (V3 & s3 & E3 & R3 & T3 & B3 & G3).
  rewrite bind_gets, V3, bind_mod, (bind_inr _ _ _ _ _ E3).
  destruct (field_spec 4 _ _ (hm_get s3 <| v_ncode := dh_ncode h - 4 + 4 |>) s3 (rc_ok _ _ _ R3) ltac:(lia) ltac:(lia) X3 T3)
    as (V4 & s4 & E4 & R4 & T4 & B4 & G4).
  rewrite bind_gets, V4, bind_mod, (bind_inr _ _ _ _ _ E4), bind_gets.
  assert (N4 : rest_view (hm_get s4) = (nlit h, ndists h, dh_ncode h, ∅, ∅, ∅, if hm_my then nlit h else 0, if hm_my then ndists h else 0)).
  { rewrite G1 in G2. clear - G2 G3 G4 Hbl Hlt Hdt. set (my := hm_my) in *. clearbody my.
    assert (N2 : rest_view (hm_get s2) = (nlit h - 257 + 257, v_ndist (hm_get s), v_ncode (hm_get s), if my then v_bl (hm_get s) else ∅,
      if my then v_lt (hm_get s) else ∅, if my then v_dt (hm_get s) else ∅, if my then nlit h - 257 + 257 else 0, if my then v_dmax (hm_get s) else 0))
      by (rewrite G2; reflexivity).
    rewrite Hbl, Hlt, Hdt in N2. clear G2 Hbl Hlt Hdt. injection N2 as A1 A2 A3 A4 A5 A6 A7 A8.
    assert (N3 : rest_view (hm_get s3) = (v_nlen (hm_get s2), ndists h - 1 + 1, v_ncode (hm_get s2), if my then v_bl (hm_get s2) else ∅,
      if my then v_lt (hm_get s2) else ∅, if my then v_dt (hm_get s2) else ∅, if my then v_lmax (hm_get s2) else 0, if my then ndists h - 1 + 1 else 0))
      by (rewrite G3; reflexivity).
    rewrite A1, A4, A5, A6, A7 in N3. clear G3 A1 A2 A3 A4 A5 A6 A7 A8. injection N3 as A1 A2 A3 A4 A5 A6 A7 A8.
    transitivity (v_nlen (hm_get s3), v_ndist (hm_get s3), dh_ncode h - 4 + 4, if my then v_bl (hm_get s3) else ∅,
      if my then v_lt (hm_get s3) else ∅, if my then v_dt (hm_get s3) else ∅, if my then v_lmax (hm_get s3) else 0, if my then v_dmax (hm_get s3) else 0);
      [rewrite G4; reflexivity|]. rewrite A1, A2, A4, A5, A6, A7, A8, !Z.sub_add. by destruct my. }
  injection N4 as N1 N2 N3 N4 N5 N6 N7 N8. rewrite N1, N2.
  assert (Elim : (nlit h >? 286) || (ndists h >? 30) = false) by lia. rewrite Elim, andb_false_r. clear Elim G2 G3 G4.
  step_mod G5. set (s5 := hm_set _ s4) in *. assert (R5 : reach [] s4 s5) by apply reach_set, R4.
  assert (S5 : stream s5 = stream s4 /\ rd_bits s5 = rd_bits s4) by (split; [apply stream_set|apply hl_bits]). clearbody s5.
  step_mod G6. set (s6 := hm_set _ s5) in *. assert (R6 : reach [] s5 s6) by apply reach_set, R5.
  assert (S6 : stream s6 = stream s5 /\ rd_bits s6 = rd_bits s5) by (split; [apply stream_set|apply hl_bits]). clearbody s6.
  rewrite G5 in G6. clear G5.
  destruct (LENLENS_spec flush s6 h rest Hh (rc_ok _ _ _ R6) Hf) as (s7 & E7 & R7 & T7 & B7 & V7 & C7 & M7); rewrite ?G6; try done.
  { destruct S5, S6. lia. }
  { intros Emy. rewrite Emy in N7, N8. by split. }
  { destruct S5, S6. congruence. }
  exists s7. split; [exact E7|]. split; [|done]. unfold header_bits.
  eapply reach_trans; [eapply reach_from; [exact R1|exact R2]|]. eapply reach_trans; [exact R3|].
  eapply reach_trans; [exact R4|]. eapply reach_from; [exact R5|]. by eapply reach_from.
Qed.
End Tables.

(** ** An example *)

(** a dynamic block: the letter A and a match of three more, under codes of one and two bits *)
Definition demo_dynamic : dyn_header :=
  mk_header 18 (<[1%nat := 2]> (<[2%nat := 2]> (<[18%nat := 1]> (repeat 0 19))))
    (<[65%nat := 1]> (<[256%nat := 2]> (<[257%nat := 2]> (repeat 0 258)))) [1; 1]
    [TZero 65; TLen 1; TZero 138; TZero 52; TLen 2; TLen 2; TLen 1; TLen 1].
Lemma demo_dynamic_ok : header_ok demo_dynamic.
Proof.
  split; try (vm_compute; intuition congruence).
  - split; [reflexivity|]. vm_compute. repeat constructor; discriminate.
  - intros r Hr Hn. cbn in Hn. replace r with 18%nat by lia. reflexivity.
  - vm_compute. repeat constructor; discriminate.
  - vm_compute. repeat constructor; discriminate.
Qed.
