(* ===== verification/HeaderOut.v ===== *)
(** * The header of a dynamic block in the re-encoder (partial/libz_j/deflate.c)

    TABLE, LENLENS and CODELENS of [deflate_my] are the programs of Headers.v on
    the machine's own state: the instance, the equations, and the turn that reads
    a header. *)
From Stdlib Require Import FunctionalExtensionality.
From S2P Require Import Prelude DeflateTables Inftrees Zlib Trees Format Encode Rle Bitstream.
From S2P Require Import DeflateState Deflate Flush Reencode Codebook Huffman Builds Headers.

(** ** The instance *)

Definition dm_view (s : dm) : view Z DM.deflate_mode :=
  let st := d_state s in
  mk_view Z DM.deflate_mode (nlen st) (ndist st) (ncode st) (have st) (lens st) (codes st) (work st) (next st)
    (lencode st) (lenbits st) (distcode st) (distbits st) (mode st) (d_ret s)
    (bl_tree st) (dyn_ltree st) (dyn_dtree st) (l_max_code st) (d_max_code st).
Definition with_view (v : view Z DM.deflate_mode) (st : deflate_state) : deflate_state :=
  st <| nlen := v_nlen v |> <| ndist := v_ndist v |> <| ncode := v_ncode v |> <| have := v_have v |>
      <| lens := v_lens v |> <| codes := v_codes v |> <| work := v_work v |> <| next := v_next v |>
      <| lencode := v_lencode v |> <| lenbits := v_lenbits v |> <| distcode := v_distcode v |> <| distbits := v_distbits v |>
      <| mode := v_mode v |> <| bl_tree := v_bl v |> <| dyn_ltree := v_lt v |> <| dyn_dtree := v_dt v |>
      <| l_max_code := v_lmax v |> <| d_max_code := v_dmax v |>.
Definition dm_with (v : view Z DM.deflate_mode) (s : dm) : dm :=
  s <| d_state := with_view v (d_state s) |> <| d_ret := v_ret v |>.
#[export] Instance dm_header : HeaderOps dm Z DM.deflate_mode := {
  hm_get := dm_view; hm_set := dm_with; hm_my := true; hm_limit := false; hm_ptr o := o;
  hm_at s i := aget code_zero (codes (d_state s)) (lencode (d_state s) + i);
  hm_lenlens := DM.LENLENS; hm_codelens := DM.CODELENS; hm_done := DM.SKPI_HEADER_END;
  hm_is_bad m := bool_decide (m = DM.BAD); hm_bad := bad; hm_drop := drop_bits;
  hm_ok := reader_ok; hm_took _ s s' := rest_of s' = rest_of s }.

Lemma dm_with_rest v s : rest_of (dm_with v s) = dm_with v (rest_of s).
Proof. reflexivity. Qed.
Lemma dm_view_rest s : dm_view (rest_of s) = dm_view s.
Proof. reflexivity. Qed.
Lemma with_view_with v v' st : with_view v (with_view v' st) = with_view v st.
Proof. destruct st. reflexivity. Qed.
Lemma dm_with_view s : dm_with (dm_view s) s = s.
Proof. destruct s as [zs st ? ? ? ? ? ? ? ?]. destruct st. reflexivity. Qed.
#[export] Instance dm_header_laws : HeaderLaws dm Z DM.deflate_mode.
Proof.
  split; cbn [hm_get hm_set hm_my hm_limit hm_ptr hm_at hm_codelens hm_is_bad hm_drop hm_ok hm_took dm_header].
  - intros v s. destruct v. reflexivity.
  - intros v v' s. unfold dm_with. cbn [d_state set_field]. by rewrite with_view_with.
  - apply dm_with_view.
  - done.
  - done.
  - done.
  - intros v s [A B C]. by split.
  - done.
  - intros s s' _ [A _ C]. by split.
  - intros w w' s1 s2 s3 A B. congruence.
  - intros _ v s s' E. by rewrite !dm_with_rest, E.
  - intros _ s s' E. by rewrite <- (dm_view_rest s'), E.
  - intros n w rest s Hs Hw Hl Hb Hn. destruct (drop_bits_spec n s Hs) as (s' & E & O & T & R & _ & B); [lia|].
    exists s'. split; [done|]. split; [done|]. split; [|done]. rewrite T, Hw. apply drop_app_length'. lia.
  - intros o i s <-. reflexivity.
  - done.
Qed.

(** ** The handlers are the programs *)

Lemma put_lens_run : put_lens = fun n x st => let p := put_run n x (lens st, have st) in st <| lens := p.1 |> <| have := p.2 |>.
Proof.
  extensionality n; extensionality x; extensionality st. revert st.
  induction n as [|n IH]; intros st; cbn [put_lens put_run]; [by destruct st|]. by rewrite IH.
Qed.
Lemma zero_lens_run n st : zero_lens n st = let p := zero_run n (lens st, have st) in st <| lens := p.1 |> <| have := p.2 |>.
Proof.
  revert st. induction n as [|n IH]; intros st; cbn [zero_lens zero_run fst snd]; [by destruct st|].
  destruct (_ <? _); [by rewrite IH|by destruct st].
Qed.
Lemma upd_zero_lens n : upd (zero_lens n) = mod_view (on_run (zero_run n)).
Proof. extensionality s. unfold upd, mod_view, modify. rewrite zero_lens_run. reflexivity. Qed.

Lemma lenlens_program : lenlens_turn = g_lenlens_turn.
Proof. reflexivity. Qed.
Lemma codelens_program : codelens_turn = g_codelens_turn.
Proof. unfold codelens_turn. rewrite put_lens_run. reflexivity. Qed.
Lemma CODELENS_program flush : h_CODELENS flush = g_CODELENS flush.
Proof. unfold h_CODELENS, g_CODELENS. rewrite codelens_program. reflexivity. Qed.
#[local] Opaque inflate_table_gen.
Lemma LENLENS_program flush : h_LENLENS flush = g_LENLENS flush.
Proof.
  unfold h_LENLENS, g_LENLENS. rewrite lenlens_program, upd_zero_lens.
  do 3 (apply bind_cong; [reflexivity|intros _]). apply bind_cong; [reflexivity|intros ret].
  destruct (negb _); [reflexivity|]. rewrite CODELENS_program. reflexivity.
Qed.
Lemma TABLE_program flush : h_TABLE flush = g_TABLE flush.
Proof. unfold h_TABLE, g_TABLE. rewrite LENLENS_program. reflexivity. Qed.

(** ** The turn *)

(** what the header of a block changes in the state: the machine's working fields and the trees *)
Definition header_frame (st : deflate_state) : deflate_state :=
  with_view (mk_view Z DM.deflate_mode 0 0 0 0 ∅ ∅ ∅ 0 0 0 0 0 DM.LEN 0 ∅ ∅ ∅ 0 0) st.
Section Turn.
Context (indet : ins_locals -> ins_locals).
Abbreviation turn := (turn indet).

Lemma turn_TABLE flush s h rest :
  header_ok h -> mode (d_state s) = DM.TABLE -> flush <> Z_TREES -> reader_ok s -> d_bits s < 8 -> d_ret s = Z_OK ->
  bl_tree (d_state s) = ∅ -> dyn_ltree (d_state s) = ∅ -> dyn_dtree (d_state s) = ∅ -> stream s = header_bits h ++ rest ->
  exists s', turn flush s = (s', inr tt) /\ same_block s s' /\ reader_ok s' /\ d_bits s' < 8 /\ stream s' = rest
    /\ mode (d_state s') = DM.SKPI_HEADER_END /\ header_frame (d_state s') = header_frame (d_state s)
    /\ aget ct_zero (bl_tree (d_state s')) = dyn_tree (dh_bl h) /\ aget ct_zero (dyn_ltree (d_state s')) = dyn_tree (dh_lit h)
    /\ aget ct_zero (dyn_dtree (d_state s')) = dyn_tree (dh_dist h)
    /\ l_max_code (d_state s') = nlit h /\ d_max_code (d_state s') = ndists h /\ ncode (d_state s') = dh_ncode h.
Proof.
  intros Hh Hm Hf Hs Hb Hret H1 H2 H3 Hw. rewrite turn_eq, Hm, TABLE_program. set (s0 := s <| d_locals := _ |>).
  assert (Hs0 : hm_ok (P := Z) (Mo := DM.deflate_mode) s0) by (destruct Hs; by split).
  destruct (TABLE_run (S := dm) (P := Z) (Mo := DM.deflate_mode) flush s0 h rest Hh Hs0 Hf Hb H1 H2 H3 Hw) as (s' & E & [R1 _ (v & R3)] & T & B & [Tm Tr _ _ Tt] & N & V).
  destruct (Tt eq_refl) as [T1 T2]. destruct (V eq_refl) as [V1 V2 V3].
  change (rest_of s' = rest_of (dm_with v s0)) in R3.
  exists s'. split; [exact E|]. split.
  { split; [exact (f_equal d_strm R3)|exact (f_equal d_in R3)|exact (f_equal d_out R3)|]. rewrite Hret. exact Tr. }
  split; [exact R1|]. split; [exact B|]. split; [exact T|]. split; [exact Tm|]. split.
  { transitivity (header_frame (d_state (dm_with v s0))); [exact (f_equal (fun s => header_frame (d_state s)) R3)|].
    unfold header_frame. cbn [dm_with d_state set_field]. by rewrite with_view_with. }
  split; [exact V1|]. split; [exact T1|]. split; [exact T2|]. split; [exact V2|]. split; [exact V3|exact N].
Qed.
End Turn.

(** C36. Reading a dynamic header in the re-encoder: one turn in the mode TABLE, on input that starts with the bits of any
    well-formed header, reads exactly these bits and leaves the three canonical code trees of its lengths, the
    counts, and the mode that skips the marker; everything else the encoder works on is as before. *)
Theorem header_rebuilt indet flush s h rest :
  header_ok h -> mode (d_state s) = DM.TABLE -> flush <> Z_TREES -> reader_ok s -> d_bits s < 8 -> d_ret s = Z_OK ->
  bl_tree (d_state s) = ∅ -> dyn_ltree (d_state s) = ∅ -> dyn_dtree (d_state s) = ∅ -> stream s = header_bits h ++ rest ->
  exists s', turn indet flush s = (s', inr tt) /\ same_block s s' /\ reader_ok s' /\ d_bits s' < 8 /\ stream s' = rest
    /\ mode (d_state s') = DM.SKPI_HEADER_END /\ header_frame (d_state s') = header_frame (d_state s)
    /\ aget ct_zero (bl_tree (d_state s')) = dyn_tree (dh_bl h) /\ aget ct_zero (dyn_ltree (d_state s')) = dyn_tree (dh_lit h)
    /\ aget ct_zero (dyn_dtree (d_state s')) = dyn_tree (dh_dist h)
    /\ l_max_code (d_state s') = nlit h /\ d_max_code (d_state s') = ndists h /\ ncode (d_state s') = dh_ncode h.
Proof. apply turn_TABLE. Qed.
Definition demo_table_state : dm :=
  mk_dm (demo_stream [] 10) (blank_state <| mode := DM.TABLE |>) (mk_dg ∅ ∅) (mk_il 0 0 0) (pack (header_bits demo_dynamic)) 0 0 0 0 Z_OK.
Lemma header_rebuilt_witness :
  exists s', turn id Z_NO_FLUSH demo_table_state = (s', inr tt) /\ stream s' = padding (Z.of_nat (length (header_bits demo_dynamic)))
    /\ aget ct_zero (dyn_ltree (d_state s')) = dyn_tree (dh_lit demo_dynamic) /\ l_max_code (d_state s') = 258.
Proof.
  destruct (header_rebuilt id Z_NO_FLUSH demo_table_state demo_dynamic (padding (Z.of_nat (length (header_bits demo_dynamic)))) demo_dynamic_ok)
    as (s' & E & _ & _ & _ & T & _ & _ & _ & L & _ & M & _); try reflexivity.
  - discriminate.
  - split; [cbn; lia|cbn; lia|apply pack_spec].
  - exists s'. split; [exact E|]. split; [exact T|]. split; [exact L|exact M].
Defined.
