(* ===== verification/Blocks.v ===== *)
(** * Re-encoding whole blocks (partial/libz_j/deflate.c: deflate_my)

    Block headers, stored data and the flush at the end of a block: the turns of
    the machine from one block to the next, for the three types of blocks. *)
From S2P Require Import Prelude DeflateTables Zlib Bitstream InflateState Inffast Format.
From S2P Require Import DeflateState Trees Encode Rle Deflate Flush Reencode.
From S2P Require Import Codebook Builds Headers HeaderOut.

(** ** Blocks and their forms *)

Inductive block := Stored (data : list Z) | Fixed (syms : list symbol) | Dynamic (h : dyn_header) (syms : list symbol).

Definition block_ok (b : block) : Prop :=
  match b with
  | Stored data => bytes_ok data /\ Z.of_nat (length data) < 65536
  | Fixed syms => Forall symbol_ok syms
  | Dynamic h syms => header_ok h /\ Forall symbol_ok syms /\ Forall (has_codes (dyn_tree (dh_lit h)) (dyn_tree (dh_dist h))) syms
  end.
Definition le16 (n : Z) : list Z := [n mod 256; n / 256].
Definition stored_len (data : list Z) : Z := Z.of_nat (length data).
(** the captured header of a block, as [j_inflate] sends it: its bits padded to bytes, then [0xaa 0xff] *)
Definition dyn_head (last : Z) (h : dyn_header) : list bool := bits_of 3 (4 + last) ++ header_bits h.
Definition header_ins (last : Z) (b : block) : list Z :=
  match b with
  | Stored data => [last] ++ le16 (stored_len data) ++ le16 (65535 - stored_len data)
  | Fixed _ => [last + 2]
  | Dynamic h _ => pack (dyn_head last h)
  end ++ ins_end.
Definition body_ins (b : block) : list Z :=
  match b with Stored data => data ++ ins_end | Fixed syms | Dynamic _ syms => instrs syms end.
(** the bits of a block in a deflate stream, at bit position [pos] *)
Definition block_enc (pos last : Z) (b : block) : list bool :=
  match b with
  | Stored data => stored_bits pos last data
  | Fixed syms => bits_of 3 (2 + last) ++ block_bits static_l static_d syms
  | Dynamic h syms => dyn_head last h ++ block_bits (dyn_tree (dh_lit h)) (dyn_tree (dh_dist h)) syms
  end.

(** a stream: its blocks but the last one, and the last *)
Fixpoint stream_ins (bs : list block) (b : block) : list Z :=
  match bs with
  | [] => header_ins 1 b ++ body_ins b
  | c :: bs => header_ins 0 c ++ body_ins c ++ stream_ins bs b
  end.
Fixpoint stream_enc (pos : Z) (bs : list block) (b : block) : list bool :=
  match bs with
  | [] => let e := block_enc pos 1 b in e ++ padding (pos + Z.of_nat (length e))
  | c :: bs => let e := block_enc pos 0 c in e ++ stream_enc (pos + Z.of_nat (length e)) bs b
  end.

Lemma stored_bits_mod pos k last data : stored_bits (8 * k + pos) last data = stored_bits pos last data.
Proof. unfold stored_bits. by rewrite <- Z.add_assoc, padding_mod. Qed.
Lemma block_enc_mod pos k last b : block_enc (8 * k + pos) last b = block_enc pos last b.
Proof. destruct b; [apply stored_bits_mod|done|done]. Qed.

(** ** Header turns *)

Section Reader.
Context {S : Type} `{BitReader S}.
Implicit Types s : S.
Lemma BITS_set n l h b s : 0 <= n -> 0 <= h < 2 ^ 32 -> BITS n (rd_set l h b s) = h mod 2 ^ n.
Proof. intros Hn Hh. unfold BITS, low_bits. by rewrite rd_hold_set, land_ones_mod, u32_small by done. Qed.
Lemma drop_bits_set n l h b s :
  0 <= n <= b -> b <= 64 -> drop_bits n (rd_set l h b s) = (rd_set l (h / 2 ^ n) (b - n) s, inr tt).
Proof.
  intros Hn Hb. unfold drop_bits, modify.
  by rewrite rd_next_set, rd_hold_set, rd_bits_set, rd_set_set, u32_small, Z.shiftr_div_pow2 by lia.
Qed.
Lemma bytebits_set l h b s :
  0 <= b <= 64 -> BYTEBITS (rd_set l h b s) = (rd_set l (h / 2 ^ (b mod 8)) (8 * (b / 8)) s, inr tt).
Proof.
  intros Hb. unfold BYTEBITS, modify. rewrite rd_next_set, rd_hold_set, rd_bits_set, rd_set_set.
  rewrite (land_ones_mod 3), Z.shiftr_div_pow2 by (try apply Z.mod_pos_bound; lia). change (2 ^ 3) with 8.
  do 3 f_equal. pose proof (Z.div_mod b 8). lia.
Qed.
Lemma pull_set l b h k s :
  is_byte b -> 0 <= k <= 56 -> 0 <= h < 2 ^ k ->
  PULLBYTE (rd_set (b :: l) h k s) = (rd_set l (h + 2 ^ k * b) (k + 8) s, inr tt).
Proof.
  intros Hb Hk Hh. unfold is_byte in Hb. unfold PULLBYTE. rewrite rd_next_set, rd_hold_set, rd_bits_set, rd_set_set.
  assert (2 ^ k * 256 <= 2 ^ 64).
  { change 256 with (2 ^ 8). rewrite <- Z.pow_add_r by lia. apply Z.pow_le_mono_r; lia. }
  rewrite Z.shiftl_mul_pow2, (Z.mul_comm b) by lia.
  rewrite (u64_small (2 ^ k * b)) by nia. rewrite u64_small by nia. by rewrite u32_small by lia.
Qed.
Lemma needbits_pull f n l b h k s :
  is_byte b -> 0 <= k <= 56 -> 0 <= h < 2 ^ k -> k < n ->
  needbits_loop (Datatypes.S f) n (rd_set (b :: l) h k s) = needbits_loop f n (rd_set l (h + 2 ^ k * b) (k + 8) s).
Proof.
  intros Hb Hk Hh Hn. cbn [needbits_loop]. rewrite bind_gets, rd_bits_set.
  destruct (Z.ltb_spec k n); [|lia]. by rewrite (bind_inr _ _ _ _ _ (pull_set l b h k s Hb Hk Hh)).
Qed.
Lemma needbits_have f n l h k s :
  n <= k -> needbits_loop (Datatypes.S f) n (rd_set l h k s) = (rd_set l h k s, inr tt).
Proof.
  intros Hn. cbn [needbits_loop]. rewrite bind_gets, rd_bits_set. destruct (Z.ltb_spec k n); [lia|done].
Qed.
Lemma aligned_eq s l : aligned s l -> s = rd_set l 0 0 s.
Proof. intros (A & B & C & _). rewrite <- (rd_set_get s) at 1. by rewrite A, B, C. Qed.
(** the length and its complement of a stored block *)
Lemma needbits_lens n l s :
  0 <= n < 65536 -> NEEDBITS 32 (rd_set (le16 n ++ le16 (65535 - n) ++ l) 0 0 s)
  = (rd_set l (n + 2 ^ 16 * (65535 - n)) 32 s, inr tt).
Proof.
  intros Hn. unfold le16. cbn [app].
  assert (D : forall x, 0 <= x < 65536 -> is_byte (x mod 256) /\ is_byte (x / 256) /\ x = x mod 256 + 256 * (x / 256)).
  { intros x Hx. unfold is_byte. pose proof (Z.div_mod x 256 ltac:(lia)). pose proof (Z.mod_pos_bound x 256 ltac:(lia)).
    split_and!; lia. }
  destruct (D n Hn) as (A1 & A2 & A3). destruct (D (65535 - n) ltac:(lia)) as (B1 & B2 & B3). clear D.
  set (x0 := n mod 256) in *. set (x1 := n / 256) in *. set (y0 := (65535 - n) mod 256) in *. set (y1 := (65535 - n) / 256) in *.
  clearbody x0 x1 y0 y1. unfold is_byte in *. unfold NEEDBITS. change (Datatypes.S (Z.to_nat 32)) with 33%nat.
  rewrite needbits_pull; [|done|lia|lia|lia]. change (2 ^ 0) with 1. change (0 + 8) with 8.
  rewrite needbits_pull; [|done|lia|change (2 ^ 8) with 256; lia|lia]. change (2 ^ 8) with 256. change (8 + 8) with 16.
  rewrite needbits_pull; [|done|lia|change (2 ^ 16) with 65536; lia|lia]. change (2 ^ 16) with 65536. change (16 + 8) with 24.
  rewrite needbits_pull; [|done|lia|change (2 ^ 24) with 16777216; lia|lia]. change (2 ^ 24) with 16777216. change (24 + 8) with 32.
  rewrite needbits_have by lia. do 2 f_equal. lia.
Qed.
End Reader.

(** the check of the two lengths *)
Lemma stored_lens n (h := n + 2 ^ 16 * (65535 - n)) :
  0 <= n < 65536 -> u32 h = h /\ Z.land h 0xffff = n /\ Z.lxor (Z.shiftr h 16) 0xffff = n.
Proof.
  intros Hn. split; [apply u32_small; lia|]. split.
  { rewrite (land_ones_mod 16) by lia. unfold h. by rewrite (Z.mul_comm (2 ^ 16)), Z.mod_add, Z.mod_small by lia. }
  unfold h. rewrite Z.shiftr_div_pow2, (Z.mul_comm (2 ^ 16)), Z.div_add, Z.div_small, Z.add_0_l by lia.
  apply Z.bits_inj'. intros i Hi. rewrite Z.lxor_spec.
  replace (65535 - n) with (Z.lnot n mod 2 ^ 16) by (symmetry; apply (Z.mod_unique _ _ (-1)); unfold Z.lnot; lia).
  destruct (Z.lt_ge_cases i 16) as [Hlt'|Hge].
  - rewrite Z.mod_pow2_bits_low, Z.lnot_spec by lia. change 65535 with (Z.ones 16).
    rewrite Z.ones_spec_low by lia. by destruct (Z.testbit n i).
  - rewrite Z.mod_pow2_bits_high by lia. change 65535 with (Z.ones 16). rewrite Z.ones_spec_high by lia.
    rewrite <- (Z.mod_small n (2 ^ 16)), Z.mod_pow2_bits_high by lia. done.
Qed.

Section Blocks.
Context (indet : ins_locals -> ins_locals).
Abbreviation turn := (turn indet).
Abbreviation turns flush := (steps (turn flush)).

(** the state with the fields of a block header set *)
Definition open_block (st : deflate_state) (last : Z) (t : tree_type) (m : DM.deflate_mode) : deflate_state :=
  st <| bl_tree := ∅ |> <| dyn_ltree := ∅ |> <| dyn_dtree := ∅ |> <| last_ := last |>
     <| ttype := t |> <| mode := m |>.

Lemma set_mode_mode (st : deflate_state) m m' : st <| mode := m |> <| mode := m' |> = st <| mode := m' |>.
Proof. reflexivity. Qed.
Lemma open_block_mode st last t m m' : open_block st last t m <| mode := m' |> = open_block st last t m'.
Proof. unfold open_block. by rewrite set_mode_mode. Qed.

Lemma turn_TYPE flush s last (fixed : bool) l :
  (mode (d_state s) = DM.TYPE \/ mode (d_state s) = DM.TYPEDO) -> flush <> Z_BLOCK -> flush <> Z_TREES ->
  last_ (d_state s) = 0 -> last_ok last ->
  aligned s ((if fixed then last + 2 else last) :: l) ->
  exists s', turn flush s = (s', inr tt) /\ same_block s s'
    /\ d_next s' = l /\ d_hold s' = 0 /\ d_bits s' = 5
    /\ d_state s' = open_block (d_state s) last (if fixed then FIXED else STORE)
                      (if fixed then DM.SKPI_HEADER_END else DM.STORED).
Proof.
  intros Hm Hf1 Hf2 Hlast0 Hlast Ha. rewrite turn_eq. set (s0 := s <| d_locals := _ |>).
  replace (match mode (d_state s) with DM.HEAD => _ | _ => _ end s0) with (h_TYPEDO flush s0).
  2:{ destruct Hm as [Hm|Hm]; rewrite Hm; [|done]. unfold h_TYPE.
      destruct (Z.eqb_spec flush Z_BLOCK); [done|]. destruct (Z.eqb_spec flush Z_TREES); done. }
  unfold h_TYPEDO. rewrite bind_upd.
  match goal with |- context [(gets ?g ≫= ?m) ?x] => set (s1 := x) end. rewrite bind_gets.
  change (last_ (d_state s1)) with (last_ (d_state s)). rewrite Hlast0. change (negb (0 =? 0)) with false. cbv iota.
  assert (Ha1 : aligned s1 ((if fixed then last + 2 else last) :: l)) by exact Ha.
  rewrite (bind_inr _ _ _ _ _ (needbits_byte 3 _ l s1 Ha1 ltac:(lia))), bind_gets, bind_upd.
  rewrite BITS_set by (unfold last_ok in Hlast; destruct fixed; lia).
  set (v := if fixed then last + 2 else last) in *.
  assert (Hv : v mod 2 = last /\ v / 2 = if fixed then 1 else 0).
  { unfold last_ok in Hlast. subst v. destruct fixed, Hlast as [-> | ->]; done. }
  destruct Hv as [Hv1 Hv2]. change (2 ^ 1) with 2. rewrite Hv1.
  set (s2 := s1 <| d_state := d_state s1 <| last_ := last |> |>).
  match goal with |- context [(drop_bits 1 ≫= ?m) ?x] => change x with (rd_set l v 8 s2) end.
  rewrite (bind_inr _ _ _ _ _ (drop_bits_set 1 l v 8 s2 ltac:(lia) ltac:(lia))), bind_gets.
  change (2 ^ 1) with 2. rewrite Hv2. change (8 - 1) with 7.
  rewrite BITS_set by (destruct fixed; lia).
  assert (Hd : forall x, drop_bits 2 (rd_set l (if fixed then 1 else 0) 7 x) = (rd_set l 0 5 x, inr tt)).
  { intros x. rewrite drop_bits_set by lia. by destruct fixed. }
  destruct fixed; cbn [Z.modulo Z.pow]; change (1 mod 2 ^ 2) with 1; change (0 mod 2 ^ 2) with 0;
    cbn [Z.eqb Pos.eqb]; rewrite !bind_bind; mstep.
  - rewrite bind_bind. mstep. destruct (Z.eqb_spec flush Z_TREES); [done|]. unfold when, skip. rewrite bind_ret.
    match goal with |- context [drop_bits 2 ?x] => change x with (rd_set l 1 7 (s2 <| d_state := d_state x |>)) end.
    rewrite Hd. eexists. split; [reflexivity|]. split; [by split|]. by split_and!.
  - match goal with |- context [drop_bits 2 ?x] => change x with (rd_set l 0 7 (s2 <| d_state := d_state x |>)) end.
    rewrite Hd. eexists. split; [reflexivity|]. split; [by split|]. by split_and!.
Qed.

(** a dynamic block: the three bits at the head of the stream *)
Lemma take_field n x rest (s : dm) :
  reader_ok s -> 0 <= n <= 31 -> n <= d_bits s -> 0 <= x < 2 ^ n -> stream s = bits_of (Z.to_nat n) x ++ rest ->
  BITS n s = x /\ exists s', drop_bits n s = (s', inr tt) /\ reader_ok s' /\ stream s' = rest /\ rest_of s' = rest_of s /\ d_bits s' = d_bits s - n.
Proof.
  intros Hs Hn Hb Hx Hw. split.
  { rewrite BITS_spec by (done || lia). rewrite Hw, take_app_length' by (by rewrite length_bits_of).
    rewrite val_of_bits_of, Z2Nat.id by lia. by apply Z.mod_small. }
  destruct (drop_bits_spec n s Hs) as (s' & E & O & T & R & _ & B); [change (rd_bits s) with (d_bits s); lia|].
  exists s'. split_and!; try done. rewrite T, Hw. apply drop_app_length'. by rewrite length_bits_of.
Qed.
Lemma turn_TYPE_dynamic flush s last w :
  (mode (d_state s) = DM.TYPE \/ mode (d_state s) = DM.TYPEDO) -> flush <> Z_BLOCK -> flush <> Z_TREES ->
  last_ (d_state s) = 0 -> last_ok last -> reader_ok s -> d_bits s = 0 -> stream s = bits_of 3 (4 + last) ++ w ->
  exists s', turn flush s = (s', inr tt) /\ same_block s s' /\ reader_ok s' /\ d_bits s' < 8 /\ stream s' = w
    /\ d_state s' = open_block (d_state s) last DYNAMIC DM.TABLE.
Proof.
  intros Hm Hf1 Hf2 Hlast0 Hlast Hs Hb Hw. rewrite turn_eq. set (s0 := s <| d_locals := _ |>).
  replace (match mode (d_state s) with DM.HEAD => _ | _ => _ end s0) with (h_TYPEDO flush s0).
  2:{ destruct Hm as [Hm|Hm]; rewrite Hm; [|done]. unfold h_TYPE.
      destruct (Z.eqb_spec flush Z_BLOCK); [done|]. destruct (Z.eqb_spec flush Z_TREES); done. }
  assert (E3 : bits_of 3 (4 + last) = bits_of 1 last ++ bits_of 2 2) by (destruct Hlast as [-> | ->]; reflexivity).
  rewrite E3, <- app_assoc in Hw. assert (Hl : 0 <= last < 2 ^ 1) by (destruct Hlast as [-> | ->]; lia). assert (H2 : 0 <= 2 < 2 ^ 2) by lia.
  unfold h_TYPEDO. rewrite bind_upd. match goal with |- context [(gets ?g ≫= ?m) ?x] => set (s1 := x) end.
  rewrite bind_gets. change (last_ (d_state s1)) with (last_ (d_state s)). rewrite Hlast0. change (negb (0 =? 0)) with false. cbv iota.
  assert (Hs1 : reader_ok s1) by (destruct Hs; by split).
  destruct (needbits_enough 3 s1 Hs1) as (s2 & [O2 S2 R2] & E2 & B2 & C2); [lia| |].
  { change (stream s1) with (stream s). rewrite Hw, !length_app, !length_bits_of. lia. }
  change (stream s1) with (stream s) in S2. change (rd_bits s1) with (d_bits s) in C2. change (rd_bits s2) with (d_bits s2) in *. rewrite Hw in S2.
  rewrite (bind_inr _ _ _ _ _ E2), bind_gets, bind_upd. set (s3 := s2 <| d_state := d_state s2 <| last_ := last |> |>).
  assert (O3 : reader_ok s3) by (destruct O2; by split). assert (B3 : d_bits s3 = d_bits s2) by done.
  destruct (take_field 1 last _ s3 O3 ltac:(lia) ltac:(lia) Hl S2) as (V3 & s4 & E4 & O4 & S4 & R4 & B4).
  change (BITS 1 s2) with (BITS 1 s3). rewrite V3. fold s3. rewrite (bind_inr _ _ _ _ _ E4), bind_gets.
  destruct (take_field 2 2 _ s4 O4 ltac:(lia) ltac:(lia) H2 S4) as (V4 & _). rewrite V4. cbn [Z.eqb Pos.eqb]. rewrite bind_bind, bind_set_mode, bind_upd.
  match goal with |- context [drop_bits 2 ?x] => set (s5 := x) end. assert (O5 : reader_ok s5) by (destruct O4; by split).
  assert (B5 : d_bits s5 = d_bits s4) by done.
  destruct (take_field 2 2 w s5 O5 ltac:(lia) ltac:(lia) H2 S4) as (_ & s6 & E6 & O6 & S6 & R6 & B6).
  exists s6. split; [exact E6|]. assert (R5 : rest_of s5 = rest_of (s1 <| d_state := open_block (d_state s) last DYNAMIC DM.TABLE |>)).
  { transitivity (rest_of s4 <| d_state := d_state (rest_of s4) <| mode := DM.TABLE |> <| ttype := DYNAMIC |> |>); [reflexivity|].
    rewrite R4. transitivity (rest_of s2 <| d_state := d_state (rest_of s2) <| last_ := last |> <| mode := DM.TABLE |> <| ttype := DYNAMIC |> |>); [reflexivity|].
    rewrite R2. unfold open_block. by destruct s as [zs st ? ? ? ? ? ? ? ?]; destruct st. }
  rewrite R5 in R6. split; [split|split; [done|split; [lia|split; [done|]]]].
  - exact (f_equal d_strm R6). - exact (f_equal d_in R6). - exact (f_equal d_out R6). - exact (f_equal d_ret R6).
  - exact (f_equal d_state R6).
Qed.

(** STORED: the lengths are read and checked *)
Lemma turn_STORED flush s data l :
  mode (d_state s) = DM.STORED -> stored_len data < 65536 -> bytes_ok l ->
  d_next s = le16 (stored_len data) ++ le16 (65535 - stored_len data) ++ l -> d_hold s = 0 -> d_bits s = 5 ->
  exists s', turn flush s = (s', inr tt) /\ same_block s s' /\ aligned s' l
    /\ d_state s' = d_state s <| length_ := stored_len data |> <| mode := DM.SKPI_HEADER_END |>.
Proof.
  intros Hm Hlt Hl Hn Hh Hb. rewrite turn_eq, Hm. set (s0 := s <| d_locals := _ |>).
  assert (Hn0 : 0 <= stored_len data) by (unfold stored_len; lia).
  set (n := stored_len data) in *. clearbody n.
  assert (E0 : s0 = rd_set (le16 n ++ le16 (65535 - n) ++ l) 0 5 s0).
  { rewrite <- (rd_set_get s0) at 1. change (rd_next s0) with (d_next s). change (rd_hold s0) with (d_hold s).
    change (rd_bits s0) with (d_bits s). by rewrite Hn, Hh, Hb. }
  rewrite E0. unfold h_STORED.
  rewrite (bind_inr _ _ _ _ _ (bytebits_set _ 0 5 s0 ltac:(lia))). change (0 / 2 ^ (5 mod 8)) with 0. change (8 * (5 / 8)) with 0.
  rewrite (bind_inr _ _ _ _ _ (needbits_lens n l s0 ltac:(lia))), bind_gets.
  change (d_hold (rd_set l ?h 32 s0)) with h.
  destruct (stored_lens n ltac:(lia)) as (-> & -> & ->).
  rewrite Z.eqb_refl. cbn [negb]. rewrite bind_upd. unfold INITBITS. rewrite bind_modify.
  eexists. split; [reflexivity|]. split; [by split|]. split; [by split_and!|reflexivity].
Qed.

(** the marker [0xaa 0xff] is skipped *)
Lemma skip_marker {A} (k : unit -> M dm A) l s :
  aligned s (ins_end ++ l) -> (NEEDBITS 16;; drop_bits 16;; k tt) s = k tt (rd_set l 0 0 s).
Proof.
  intros Ha. rewrite (bind_inr _ _ _ _ _ (needbits_2bytes 0xaa 0xff l s Ha)).
  by rewrite (bind_inr _ _ _ _ _ (drop_bits_set 16 l _ 16 s ltac:(lia) ltac:(lia))).
Qed.
Lemma aligned_tail s l : aligned s (ins_end ++ l) -> bytes_ok l.
Proof. intros (_ & _ & _ & H). by apply Forall_app in H as [_ H]. Qed.

(** BYTEBITS with less than a byte held *)
Lemma bytebits_clear {S} `{BitReader S} (s : S) :
  0 <= rd_bits s < 8 -> 0 <= rd_hold s < 2 ^ rd_bits s -> BYTEBITS s = (rd_set (rd_next s) 0 0 s, inr tt).
Proof.
  intros Hb Hh. rewrite <- (rd_set_get s) at 1. rewrite bytebits_set by lia. rewrite Z.mod_small, !Z.div_small by lia. done.
Qed.
Lemma turn_SKPI flush s l :
  mode (d_state s) = DM.SKPI_HEADER_END -> bytes_ok l ->
  d_next s = ins_end ++ l -> 0 <= d_bits s < 8 -> 0 <= d_hold s < 2 ^ d_bits s ->
  exists s', turn flush s = (s', inr tt) /\ same_block s s' /\ aligned s' l
    /\ d_state s' = d_state s <| mode := match ttype (d_state s) with STORE => DM.COPY_ | _ => DM.LEN_ end |>.
Proof.
  intros Hm Hl Hn Hb Hh. rewrite turn_eq, Hm. set (s0 := s <| d_locals := _ |>). unfold h_SKPI_HEADER_END.
  assert (E : BYTEBITS s0 = (rd_set (ins_end ++ l) 0 0 s0, inr tt)).
  { rewrite <- Hn. exact (bytebits_clear s0 Hb Hh). }
  rewrite (bind_inr _ _ _ _ _ E), (skip_marker (fun _ => t ← _; _) l), bind_gets.
  - eexists. split; [reflexivity|]. split; [by split|]. split; [by split_and!|reflexivity].
  - apply aligned_set. apply Forall_app_2; [|done]. repeat constructor; unfold is_byte; lia.
Qed.

(** LEN_ reads the first symbol in the same turn *)
Lemma turn_LEN_ flush s l :
  mode (d_state s) = DM.LEN_ -> aligned s l -> turn flush s = turn flush (s <| d_state := d_state s <| mode := DM.LEN |> |>).
Proof.
  intros Hm Ha. rewrite !turn_eq, Hm. unfold h_LEN_, INITBITS. rewrite bind_modify, bind_set_mode.
  change (mode (d_state (s <| d_state := _ |>))) with DM.LEN. cbv iota. f_equal.
  set (s0 := s <| d_locals := _ |>). assert (Ha0 : aligned s0 l) by exact Ha.
  assert (E : rd_set (rd_next s0) 0 0 s0 = s0).
  { rewrite <- (rd_set_get s0) at 3. destruct Ha0 as (_ & -> & -> & _). done. }
  by rewrite E.
Qed.
Lemma turns_fixed flush s xs l :
  mode (d_state s) = DM.LEN_ -> aligned s (instrs xs ++ l) -> Forall symbol_ok xs ->
  sym_next (d_state s) = 0 -> 3 * Z.of_nat (length xs) < sym_end (d_state s) <= 2 ^ 32 ->
  exists n s', turns flush n s s' /\ (n <= 2 * length xs + 1)%nat /\ same_block s s'
    /\ mode (d_state s') = DM.ENDOFBLOCK /\ aligned s' l
    /\ work_frame (d_state s') = work_frame (tally_all (d_state s <| mode := DM.LEN |>) xs).
Proof.
  intros Hm Ha Hxs Hn He. set (s1 := s <| d_state := d_state s <| mode := DM.LEN |> |>).
  destruct (collect_block_run indet flush s1 xs l) as (n & s' & T & Hle & B & M' & A & W); try done.
  exists n, s'. split_and!; try done; [|destruct B; by split].
  assert (Em : mode (d_state s1) = DM.LEN) by reflexivity.
  pose proof (turn_LEN_ flush s _ Hm Ha) as Et. fold s1 in Et. clearbody s1.
  destruct T as [|n s1 s2 s3 T1 T2]; [congruence|]. econstructor; [|exact T2]. by rewrite Et.
Qed.

(** COPY_ and COPY: the data are moved behind the symbols, and the marker is skipped *)
Definition with_data (st : deflate_state) (data : list Z) : deflate_state :=
  st <| pending_buf := awrite (pending_buf st) (sym_buf st) data |> <| sym_next := stored_len data |>.
Lemma copy_end s l :
  length_ (d_state s) = 0 -> aligned s (ins_end ++ l) ->
  exists s', h_COPY s = (s', inr tt) /\ same_block s s' /\ aligned s' l
    /\ d_state s' = d_state s <| mode := DM.ENDOFBLOCK |>.
Proof.
  intros H0 Ha. unfold h_COPY. rewrite bind_gets, H0. change (negb (0 =? 0)) with false. cbv iota zeta.
  rewrite (skip_marker (fun _ => set_mode DM.ENDOFBLOCK) l s Ha).
  pose proof (aligned_tail _ _ Ha). eexists. split; [reflexivity|]. split; [by split|]. split; [by split_and!|reflexivity].
Qed.
Lemma copy_data s data l :
  data <> [] -> length_ (d_state s) = stored_len data -> sym_next (d_state s) = 0 -> stored_len data < 65536 ->
  aligned s (data ++ l) ->
  exists s', h_COPY s = (s', inr tt) /\ same_block s s' /\ aligned s' l
    /\ d_state s' = with_data (d_state s) data <| length_ := 0 |>.
Proof.
  intros Hne Hlen Hn Hlt Ha. unfold h_COPY. rewrite bind_gets, Hlen. cbv zeta.
  assert (Hd : 0 < stored_len data) by (destruct data; [done|]; unfold stored_len; cbn; lia).
  destruct (Z.eqb_spec (stored_len data) 0); [lia|]. cbn [negb]. rewrite bind_gets.
  pose proof Ha as (Hnx & Hh & Hb & Hy).
  replace (have_in (id s)) with (stored_len data + Z.of_nat (length l))
    by (unfold have_in, id; rewrite Hnx, length_app; unfold stored_len; lia).
  destruct (Z.gtb_spec (stored_len data) (stored_len data + Z.of_nat (length l))); [lia|].
  destruct (Z.eqb_spec (stored_len data) 0); [lia|].
  rewrite bind_upd, bind_modify. change (d_next (id s)) with (rd_next s). rewrite Hnx.
  replace (Z.to_nat (stored_len data)) with (length data) by (unfold stored_len; lia).
  rewrite take_app_length. eexists. split; [reflexivity|]. split; [by split|].
  split.
  - split_and!; try done; [|by apply Forall_app in Hy as [_ Hy]].
    change (drop (length data) (rd_next s) = l). by rewrite Hnx, drop_app_length.
  - cbn [d_state]. unfold with_data. rewrite Hn, Z.add_0_r.
    change (u32 (sym_next ?a + stored_len data)) with (u32 (sym_next (d_state s) + stored_len data)).
    change (length_ ?a - stored_len data) with (length_ (d_state s) - stored_len data).
    rewrite Hn, Hlen, Z.sub_diag, u32_small by lia. reflexivity.
Qed.
Lemma turns_copy flush s data l :
  mode (d_state s) = DM.COPY_ -> length_ (d_state s) = stored_len data -> sym_next (d_state s) = 0 ->
  stored_len data < 65536 -> aligned s (data ++ ins_end ++ l) ->
  exists n s', turns flush n s s' /\ (n <= 2)%nat /\ same_block s s' /\ mode (d_state s') = DM.ENDOFBLOCK
    /\ aligned s' l /\ work_frame (d_state s') = work_frame (with_data (d_state s) data).
Proof.
  intros Hm Hlen Hn Hlt Ha. destruct (decide (data = [])) as [->|Hne].
  - set (s1 := s <| d_locals := indet (d_locals s) |> <| d_state := d_state s <| mode := DM.COPY |> |>).
    destruct (copy_end s1 l Hlen Ha) as (s' & E & B & A & D).
    exists 1%nat, s'. split_and!; [|lia|destruct B; by split|by rewrite D|done|].
    + apply steps_1. rewrite turn_eq, Hm. exact E.
    + rewrite D. clear -Hn. subst s1. cbn [d_state]. destruct (d_state s). cbn in Hn. subst. reflexivity.
  - set (s1 := s <| d_locals := indet (d_locals s) |> <| d_state := d_state s <| mode := DM.COPY |> |>).
    destruct (copy_data s1 data (ins_end ++ l) Hne Hlen Hn Hlt Ha) as (s2 & E2 & B2 & A2 & D2).
    set (s3 := s2 <| d_locals := indet (d_locals s2) |>).
    assert (H0 : length_ (d_state s3) = 0) by (change (d_state s3) with (d_state s2); by rewrite D2).
    assert (A3 : aligned s3 (ins_end ++ l)) by exact A2.
    destruct (copy_end s3 l H0 A3) as (s' & E & B & A & D).
    exists 2%nat, s'. split_and!; [|lia|destruct B, B2; split; etransitivity; done|by rewrite D|done|].
    + eapply steps_S; [rewrite turn_eq, Hm; exact E2|]. apply steps_1.
      assert (Hm2 : mode (d_state s2) = DM.COPY) by (by rewrite D2). rewrite turn_eq, Hm2. exact E.
    + rewrite D, work_frame_mode. change (d_state s3) with (d_state s2). rewrite D2, work_frame_length. reflexivity.
Qed.

(** ** From the header of a block to its end *)

Definition block_type (b : block) : tree_type := match b with Stored _ => STORE | Fixed _ => FIXED | Dynamic _ _ => DYNAMIC end.
(** the state with the contents of the block behind [sym_buf] *)
Definition load_block (st : deflate_state) (b : block) : deflate_state :=
  match b with Stored data => with_data st data | Fixed xs | Dynamic _ xs => tally_all st xs end.
Definition block_syms (b : block) : list symbol := match b with Stored _ => [] | Fixed xs | Dynamic _ xs => xs end.
(** the block fits buffers of [lit_bufsize = lb]: the output of a dynamic block, whose header may become longer, has to
    stay behind the symbols *)
Definition block_fits (lb : Z) (b : block) : Prop :=
  match b with
  | Stored data => lb + stored_len data <= 16 * lb
  | Fixed xs => 7 * Z.of_nat (length xs) + 3 <= 8 * lb
  | Dynamic h xs =>
      let n := 10 + Z.of_nat (length (header_bits (rle_header h))) in
      3 * Z.of_nat (length xs) < 12 * (lb - 1) /\ n <= 8 * lb
      /\ stays_behind n lb (dyn_tree (dh_lit h)) (dyn_tree (dh_dist h)) xs
  end.
Lemma length_instrs xs : (length xs + 2 <= length (instrs xs))%nat.
Proof.
  unfold instrs. rewrite length_app. cbn [ins_end length].
  enough (length xs <= length (flat_map instr xs))%nat by lia.
  induction xs as [|x xs IH]; [done|]. cbn [flat_map length]. rewrite length_app.
  assert (1 <= length (instr x))%nat; [|lia].
  destruct x as [b0|]; cbn [instr]; [unfold ins_literal; destruct (b0 =? 0xaa)|]; cbn; lia.
Qed.
(** the block the encoder makes of a block: it chooses the runs of a dynamic header itself *)
Definition rle_block (b : block) : block := match b with Dynamic h xs => Dynamic (rle_header h) xs | _ => b end.
(** a block whose encoding is shorter than the buffer fits it *)
Lemma short_fits lb pos last b :
  block_ok b -> Z.of_nat (length (block_enc pos last (rle_block b))) + 7 <= 8 * lb -> Z.of_nat (length (body_ins b)) <= lb -> 2 <= lb ->
  block_fits lb b.
Proof.
  intros Hb He Hi Hlb. destruct b as [data|xs|h xs]; cbn [block_ok rle_block block_enc body_ins block_fits] in *.
  - rewrite length_app in Hi. unfold stored_len. lia.
  - pose proof (length_instrs xs). lia.
  - pose proof (length_instrs xs). unfold dyn_head, block_bits in He. rewrite !length_app, length_bits_of in He.
    split; [lia|]. split; [lia|]. intros k Hk. change (dh_lit (rle_header h)) with (dh_lit h) in He. change (dh_dist (rle_header h)) with (dh_dist h) in He.
    rewrite <- (take_drop k xs), flat_map_app, length_app in He. lia.
Qed.
Definition block_turns (b : block) : nat :=
  match b with Stored _ => 5 | Fixed xs => 2 * length xs + 3 | Dynamic _ xs => 2 * length xs + 4 end.

Lemma work_frame_data st data : work_frame (with_data st data) = with_data (work_frame st) data.
Proof. reflexivity. Qed.
Lemma stored_ins last data l :
  header_ins last (Stored data) ++ body_ins (Stored data) ++ l
  = last :: le16 (stored_len data) ++ le16 (65535 - stored_len data) ++ ins_end ++ data ++ ins_end ++ l.
Proof. cbn [body_ins]. rewrite <- (app_assoc data). reflexivity. Qed.
(** the settings a block does not change *)
Definition settings (st : deflate_state) : Z * Z * Z * Z * Z :=
  (sym_buf st, sym_end st, wrap st, status st, last_ st).
(** the output of a state: position and waiting bits *)
Definition output (st : deflate_state) : Z * Z * Z * Z := (pending st, bi_valid st, bi_buf st, pending_out st).
(** the trees of a header are those of the state *)
Record has_trees (h : dyn_header) (st : deflate_state) : Prop := {
  ht_bl : aget ct_zero (bl_tree st) = dyn_tree (dh_bl h);
  ht_lit : aget ct_zero (dyn_ltree st) = dyn_tree (dh_lit h);
  ht_dist : aget ct_zero (dyn_dtree st) = dyn_tree (dh_dist h);
  ht_lmax : l_max_code st = nlit h;
  ht_dmax : d_max_code st = ndists h;
  ht_ncode : ncode st = dh_ncode h }.
(** [st1] is the state behind the header of a block *)
Record opened (st st1 : deflate_state) (last : Z) (b : block) : Prop := {
  od_type : ttype st1 = block_type b;
  od_set : settings st1 = settings (st <| last_ := last |>);
  od_out : output st1 = output st;
  od_sym : sym_next st1 = sym_next st;
  od_trees : match b with Dynamic h _ => has_trees h st1 | _ => True end }.
Lemma turns_block_stored flush s last data l :
  (mode (d_state s) = DM.TYPE \/ mode (d_state s) = DM.TYPEDO) -> flush <> Z_BLOCK -> flush <> Z_TREES ->
  last_ (d_state s) = 0 -> last_ok last -> block_ok (Stored data) -> sym_next (d_state s) = 0 ->
  aligned s (header_ins last (Stored data) ++ body_ins (Stored data) ++ l) ->
  exists n s' st1, turns flush n s s' /\ (n <= 5)%nat /\ same_block s s'
    /\ mode (d_state s') = DM.ENDOFBLOCK /\ aligned s' l /\ opened (d_state s) st1 last (Stored data)
    /\ work_frame (d_state s') = work_frame (load_block st1 (Stored data)).
Proof.
  intros Hm Hf1 Hf2 Hl0 Hl [Hd Hlt] Hn Ha. rewrite stored_ins in Ha.
  destruct (turn_TYPE flush s last false _ Hm Hf1 Hf2 Hl0 Hl Ha) as (s1 & T1 & B1 & N1 & H1 & K1 & D1).
  assert (Hy : bytes_ok (ins_end ++ data ++ ins_end ++ l)).
  { destruct Ha as (_ & _ & _ & Hy). apply Forall_cons_1 in Hy as [_ Hy].
    apply Forall_app in Hy as [_ Hy]. by apply Forall_app in Hy as [_ Hy]. }
  destruct (turn_STORED flush s1 data _ ltac:(by rewrite D1) Hlt Hy N1 H1 K1) as (s2 & T2 & B2 & A2 & D2).
  destruct A2 as (N2 & H2 & K2 & Y2). change (rd_hold s2) with (d_hold s2) in H2. change (rd_bits s2) with (d_bits s2) in K2.
  destruct (turn_SKPI flush s2 (data ++ ins_end ++ l) ltac:(by rewrite D2) ltac:(by apply Forall_app in Hy as [_ Hy]) N2
    ltac:(rewrite K2; lia) ltac:(rewrite K2, H2; lia)) as (s3 & T3 & B3 & A3 & D3).
  assert (Ht : ttype (d_state s2) = STORE) by (rewrite D2, D1; reflexivity). rewrite Ht in D3.
  assert (F3 : work_frame (d_state s3) = work_frame (open_block (d_state s) last STORE DM.LEN)).
  { rewrite D3, work_frame_mode, D2, work_frame_mode, work_frame_length, D1. reflexivity. }
  destruct (turns_copy flush s3 data l) as (n & s4 & T4 & L4 & B4 & M4 & A4 & W4).
  { by rewrite D3. } { rewrite D3, D2. reflexivity. } { etransitivity; [exact (f_equal sym_next F3)|exact Hn]. }
  { done. } { done. }
  exists (1 + (1 + (1 + n)))%nat, s4, (open_block (d_state s) last STORE DM.LEN).
  split; [|split; [lia|split; [|split; [exact M4|split; [exact A4|split; [by split|]]]]]].
  + repeat (eapply steps_S; [eassumption|]). exact T4.
  + eapply same_block_trans; [exact B1|]. eapply same_block_trans; [exact B2|]. by eapply same_block_trans.
  + rewrite W4, work_frame_data, F3, <- work_frame_data. reflexivity.
Qed.
Lemma turns_block_fixed flush s last xs l :
  (mode (d_state s) = DM.TYPE \/ mode (d_state s) = DM.TYPEDO) -> flush <> Z_BLOCK -> flush <> Z_TREES ->
  last_ (d_state s) = 0 -> last_ok last -> Forall symbol_ok xs -> sym_next (d_state s) = 0 ->
  3 * Z.of_nat (length xs) < sym_end (d_state s) <= 2 ^ 32 -> aligned s (header_ins last (Fixed xs) ++ body_ins (Fixed xs) ++ l) ->
  exists n s' st1, turns flush n s s' /\ (n <= 2 * length xs + 3)%nat /\ same_block s s'
    /\ mode (d_state s') = DM.ENDOFBLOCK /\ aligned s' l /\ opened (d_state s) st1 last (Fixed xs)
    /\ work_frame (d_state s') = work_frame (load_block st1 (Fixed xs)).
Proof.
  intros Hm Hf1 Hf2 Hl0 Hl Hb Hn Hse Ha.
  change (header_ins last (Fixed xs) ++ body_ins (Fixed xs) ++ l) with ((last + 2) :: ins_end ++ instrs xs ++ l) in Ha.
  destruct (turn_TYPE flush s last true _ Hm Hf1 Hf2 Hl0 Hl Ha) as (s1 & T1 & B1 & N1 & H1 & K1 & D1).
  assert (Hy : bytes_ok (instrs xs ++ l)).
  { destruct Ha as (_ & _ & _ & Hy). apply Forall_cons_1 in Hy as [_ Hy]. by apply Forall_app in Hy as [_ Hy]. }
  destruct (turn_SKPI flush s1 (instrs xs ++ l) ltac:(by rewrite D1) Hy N1 ltac:(rewrite K1; lia) ltac:(rewrite K1, H1; lia))
    as (s2 & T2 & B2 & A2 & D2).
  assert (Ht : ttype (d_state s1) = FIXED) by (rewrite D1; reflexivity). rewrite Ht, D1 in D2.
  destruct (turns_fixed flush s2 xs l) as (n & s3 & T3 & L3 & B3 & M3 & A3 & W3); try done.
  { by rewrite D2. } { rewrite D2. exact Hn. }
  { assert (Es : sym_end (d_state s2) = sym_end (d_state s)) by (rewrite D2; reflexivity). rewrite Es. lia. }
  exists (1 + (1 + n))%nat, s3, (open_block (d_state s) last FIXED DM.LEN).
  split; [|split; [lia|split; [|split; [exact M3|split; [exact A3|split; [by split|]]]]]].
  + repeat (eapply steps_S; [eassumption|]). exact T3.
  + eapply same_block_trans; [exact B1|]. by eapply same_block_trans.
  + assert (Eo : d_state s2 <| mode := DM.LEN |> = open_block (d_state s) last FIXED DM.LEN) by (by rewrite D2, !open_block_mode).
    by rewrite W3, Eo.
Qed.

Lemma padding_length n : (n + Z.of_nat (length (padding n))) mod 8 = 0.
Proof.
  unfold padding. rewrite repeat_length. pose proof (Z.mod_pos_bound (- n) 8 ltac:(lia)). rewrite Z2Nat.id by lia.
  rewrite Z.add_mod_idemp_r by lia. by rewrite Z.add_opp_diag_r.
Qed.
(** the bytes behind the padding of a header *)
Lemma behind_padding (s : dm) n l :
  reader_ok s -> d_bits s < 8 -> stream s = padding n ++ bytes_bits l -> bytes_ok l -> (n + Z.of_nat (length (stream s))) mod 8 = 0 ->
  d_next s = l.
Proof.
  intros [A B C] Hb Hw Hl Hn. change (rd_bits s) with (d_bits s) in *. change (rd_next s) with (d_next s) in *.
  pose proof Hw as Hlen. apply (f_equal (fun l => Z.of_nat (length l))) in Hlen. rewrite length_stream in Hlen by apply A.
  rewrite length_app, length_bytes_bits, Nat2Z.inj_add in Hlen. change (rd_bits s) with (d_bits s) in Hlen.
  pose proof (padding_length n) as Hp. assert (Hps : Z.of_nat (length (padding n)) < 8).
  { unfold padding. rewrite repeat_length. pose proof (Z.mod_pos_bound (- n) 8 ltac:(lia)). lia. }
  assert (E : Z.of_nat (length (padding n)) = d_bits s) by lia.
  unfold stream in Hw. apply app_inj_1 in Hw as [_ Hw]; [|rewrite length_bits_of; change (rd_bits s) with (d_bits s); lia].
  by apply bytes_bits_inj.
Qed.
Lemma turns_dynamic flush s last h xs l :
  (mode (d_state s) = DM.TYPE \/ mode (d_state s) = DM.TYPEDO) -> flush <> Z_BLOCK -> flush <> Z_TREES -> d_ret s = Z_OK ->
  last_ (d_state s) = 0 -> last_ok last -> header_ok h -> Forall symbol_ok xs -> sym_next (d_state s) = 0 ->
  3 * Z.of_nat (length xs) < sym_end (d_state s) <= 2 ^ 32 -> aligned s (header_ins last (Dynamic h xs) ++ body_ins (Dynamic h xs) ++ l) ->
  exists n s' st1, turns flush n s s' /\ (n <= 2 * length xs + 4)%nat /\ same_block s s'
    /\ mode (d_state s') = DM.ENDOFBLOCK /\ aligned s' l /\ opened (d_state s) st1 last (Dynamic h xs)
    /\ work_frame (d_state s') = work_frame (load_block st1 (Dynamic h xs)).
Proof.
  intros Hm Hf1 Hf2 Hret Hl0 Hl Hh Hb Hn Hse Ha. 
  change (header_ins last (Dynamic h xs) ++ body_ins (Dynamic h xs) ++ l) with ((pack (dyn_head last h) ++ ins_end) ++ instrs xs ++ l) in Ha.
  rewrite <- app_assoc in Ha. destruct Ha as (An & Ah & Ab & Ay). set (l' := ins_end ++ instrs xs ++ l) in *.
  destruct (pack_spec (dyn_head last h)) as [P1 P2]. set (w := padding (Z.of_nat (length (dyn_head last h))) ++ bytes_bits l').
  assert (Hw : stream s = bits_of 3 (4 + last) ++ header_bits h ++ w).
  { unfold stream. rewrite An, Ab. change (bits_of (Z.to_nat 0) (rd_hold s)) with (@nil bool). rewrite app_nil_l, bytes_bits_app, P2.
    unfold w, dyn_head. by rewrite <- !app_assoc. }
  assert (Hs : reader_ok s) by (split; rewrite ?Ab, ?Ah, ?An; [lia|lia|done]).
  apply Forall_app in Ay as [_ Ay]. pose proof Ay as Ay'. apply Forall_app in Ay' as [_ Ay'].
  destruct (turn_TYPE_dynamic flush s last _ Hm Hf1 Hf2 Hl0 Hl Hs Ab Hw) as (s1 & T1 & B1 & O1 & K1 & W1 & D1).
  destruct (turn_TABLE indet flush s1 h w Hh) as (s2 & T2 & B2 & O2 & K2 & W2 & M2 & F2 & V1 & V2 & V3 & V4 & V5 & V6); try done;
    try (rewrite D1; done). { destruct B1 as [_ _ _ B1]. congruence. }
  assert (N2 : d_next s2 = l').
  { apply (behind_padding s2 (Z.of_nat (length (dyn_head last h)))); try done. rewrite W2. unfold w.
    rewrite length_app, length_bytes_bits, Nat2Z.inj_add, Z.add_assoc, Nat2Z.inj_mul, (Z.mul_comm (Z.of_nat 8)), Z.mod_add by lia. apply padding_length. }
  destruct O2 as [Q1 Q2 Q3].
  destruct (turn_SKPI flush s2 (instrs xs ++ l) M2 Ay' N2 ltac:(split; [apply Q1|exact K2]) Q2) as (s3 & T3 & B3 & A3 & D3).
  assert (Et : ttype (d_state s2) = DYNAMIC) by (rewrite D1 in F2; exact (f_equal ttype F2)). rewrite Et in D3.
  assert (Es : (sym_next (d_state s3), sym_end (d_state s3)) = (sym_next (d_state s), sym_end (d_state s))).
  { rewrite D3. rewrite D1 in F2. exact (f_equal (fun st => (sym_next st, sym_end st)) F2). }
  injection Es as Es1 Es2.
  destruct (turns_fixed flush s3 xs l) as (n & s4 & T4 & L4 & B4 & M4 & A4 & W4); try done; try congruence; [by rewrite D3|].
  exists (1 + (1 + (1 + n)))%nat, s4, (d_state s3 <| mode := DM.LEN |>).
  split; [|split; [lia|split; [|split; [exact M4|split; [exact A4|split; [|exact W4]]]]]].
  - repeat (eapply steps_S; [eassumption|]). exact T4.
  - eapply same_block_trans; [exact B1|]. eapply same_block_trans; [exact B2|]. by eapply same_block_trans.
  - rewrite D3. rewrite D1 in F2. split.
    + exact Et.
    + exact (f_equal settings F2).
    + exact (f_equal output F2).
    + exact (f_equal sym_next F2).
    + by split.
Qed.
Lemma turns_block flush s last b l :
  (mode (d_state s) = DM.TYPE \/ mode (d_state s) = DM.TYPEDO) -> flush <> Z_BLOCK -> flush <> Z_TREES -> d_ret s = Z_OK ->
  last_ (d_state s) = 0 -> last_ok last -> block_ok b -> sym_next (d_state s) = 0 ->
  block_fits (sym_buf (d_state s)) b -> sym_end (d_state s) = 12 * (sym_buf (d_state s) - 1) ->
  8 <= sym_buf (d_state s) <= 2 ^ 24 -> aligned s (header_ins last b ++ body_ins b ++ l) ->
  exists n s' st1, turns flush n s s' /\ (n <= block_turns b)%nat /\ same_block s s'
    /\ mode (d_state s') = DM.ENDOFBLOCK /\ aligned s' l /\ opened (d_state s) st1 last b
    /\ work_frame (d_state s') = work_frame (load_block st1 b).
Proof.
  intros Hm Hf1 Hf2 Hret Hl0 Hl Hb Hn Hfit Hse Hsb Ha.
  destruct b as [data|xs|h xs]; cbn [block_ok block_fits block_turns] in *.
  - by apply turns_block_stored.
  - apply turns_block_fixed; try done. lia.
  - destruct Hb as (Hh & Hx & _). apply turns_dynamic; try done. lia.
Qed.

(** ** The end of a block *)

(** between blocks nothing is pending but the bits of an unfinished byte *)
Record idle (st : deflate_state) : Prop := {
  id_ok : bits_ok st;
  id_sym : sym_next st = 0;
  id_pending : pending st = 0;
  id_out : pending_out st = 0;
  id_valid : bi_valid st < 8 }.
(** all that has been written, delivered or not *)
Definition written (s : dm) : list bool := bytes_bits (next_out (d_strm s)) ++ unsent (d_state s).

Lemma empty_unsent st : pending st = 0 -> unsent st = bits_of (Z.to_nat (bi_valid st)) (bi_buf st).
Proof. intros Hp. unfold unsent. by rewrite Hp. Qed.
Lemma length_idle st : idle st -> Z.of_nat (length (unsent st)) = bi_valid st.
Proof.
  intros H. rewrite empty_unsent, length_bits_of by apply H. destruct (id_ok _ H) as (_ & ? & _). lia.
Qed.
Lemma padding_short n : Z.of_nat (length (padding n)) < 8.
Proof. unfold padding. rewrite repeat_length. pose proof (Z.mod_pos_bound (- n) 8 ltac:(lia)). lia. Qed.

Lemma length_unsent st :
  pending_ok st -> Z.of_nat (length (unsent st)) = 8 * pending st + bi_valid st.
Proof.
  intros ((? & ? & _) & _). unfold unsent. rewrite length_app, length_bytes_bits, length_aread, length_bits_of. lia.
Qed.

Lemma turn_ENDOFBLOCK flush s l bits (st := d_state s <| mode := DM.TYPE |>) :
  mode (d_state s) = DM.ENDOFBLOCK -> aligned s l -> bits_ok st -> pending_out st = 0 ->
  last_ok (last_ st) -> block_ready st (last_ st) (ttype st) bits ->
  out_pos st + Z.of_nat (length bits) + 8 <= 8 * avail_out (d_strm s) ->
  exists s', turn flush s = (s', inr tt) /\ aligned s' l /\ d_ret s' = d_ret s /\ d_in s' = d_in s /\ d_out s' = d_out s
    /\ written s' = written s ++ bits ++ (if last_ st =? 0 then [] else padding (out_pos st + Z.of_nat (length bits)))
    /\ avail_out (d_strm s') + Z.of_nat (length (next_out (d_strm s')))
       = avail_out (d_strm s) + Z.of_nat (length (next_out (d_strm s)))
    /\ idle (d_state s') /\ settings (d_state s') = settings st /\ mode (d_state s') = DM.TYPE
    /\ next_in (d_strm s') = next_in (d_strm s).
Proof.
  intros Hm Ha Hok Hpo Hlast Hr Hroom. rewrite turn_eq, Hm. set (s0 := s <| d_locals := _ |>).
  unfold h_ENDOFBLOCK. rewrite bind_set_mode, bind_upd, bind_gets.
  match goal with |- context [id ?x] => set (s1 := x) end. change (id s1) with s1.
  assert (E1 : d_state s1 = tr_flush_block_my st (sym_buf st) (sym_next st) (ttype st) (last_ st)) by reflexivity.
  assert (E2 : d_strm s1 = d_strm s) by reflexivity. rewrite E1, E2.
  pose proof (flush_block_run st (ttype st) (last_ st) bits Hok Hlast Hr) as F.
  set (pad := if last_ st =? 0 then [] else _) in *.
  assert (Hpad : Z.of_nat (length pad) < 8) by (subst pad; destruct (last_ st =? 0); [cbn; lia|apply padding_short]).
  set (fb := tr_flush_block_my st (sym_buf st) (sym_next st) (ttype st) (last_ st)) in *. clearbody fb.
  destruct F as [Fb Fo Fs Ff].
  assert (Fpo : pending_out fb = 0) by (rewrite <- Hpo; exact (f_equal pending_out Ff)).
  assert (Fset : settings fb = settings st) by exact (f_equal settings Ff).
  assert (Fm : mode fb = DM.TYPE) by exact (f_equal mode Ff).
  pose proof (flush_pending_run (d_strm s) fb) as P.
  destruct (flush_pending (d_strm s) fb) as [zs fp] eqn:Ep.
  assert (Hout : out_pos st <= 8 * avail_out (d_strm s)) by lia.
  assert (0 <= out_pos st) by (destruct Hok as (? & ? & _); unfold out_pos; lia).
  destruct P as (Pb & Pl & Pa & Pe & Pk & Pv & Pz & Pi & Pf); [split; [done|]; split; [lia|by left]|lia|].
  rewrite (unsent_out_bits fb Fpo), Fb in Pb.
  assert (Hst : unsent (d_state s) = out_bits st) by (rewrite <- (unsent_out_bits st Hpo); reflexivity).
  pose proof (f_equal (fun l => Z.of_nat (length l)) Pb) as Hlen. cbv beta in Hlen.
  rewrite !length_app, !length_bytes_bits, !Nat2Z.inj_add, (length_unsent fp Pk), (length_out_bits st Hok) in Hlen.
  unfold out_pos in *. destruct Pk as (Pk & Pk0 & Pk'). pose proof Pk as (Pk1 & Pk2 & _).
  assert (Hav : avail_out zs <> 0) by (intros E; lia).
  assert (Hp0 : pending fp = 0) by (destruct Pe; [lia|done]).
  rewrite bind_modify. destruct (Z.eqb_spec (avail_out zs) 0); [lia|]. unfold when.
  eexists. split; [reflexivity|]. split; [exact Ha|]. do 3 (split; [reflexivity|]).
  split.
  { match goal with |- written ?x = _ => change (written x) with (bytes_bits (next_out zs) ++ unsent fp) end.
    unfold written. rewrite Pb, Hst, <- !app_assoc. reflexivity. }
  split; [exact Pl|]. split; [|split; [|split; [exact (eq_trans (f_equal mode Pf) Fm)|exact Pi]]].
  - split; [done| |done|by apply Pz|done]. exact (eq_trans (f_equal sym_next Pf) Fs).
  - rewrite <- Fset. exact (f_equal settings Pf).
Qed.

Lemma load_output st b :
  block_ok b -> sym_next st = 0 -> 3 * Z.of_nat (length (block_syms b)) < 2 ^ 32 ->
  output (load_block st b) = output st /\ settings (load_block st b) = settings st
  /\ ttype (load_block st b) = ttype st.
Proof.
  intros Hb Hn Hx. destruct b as [data|xs|h xs]; [done|..]; cbn [load_block block_ok block_syms] in *.
  - destruct (tally_all_spec st xs Hn Hb Hx) as (_ & _ & _ & F).
    split_and!; [exact (f_equal output F)|exact (f_equal settings F)|exact (f_equal ttype F)].
  - destruct Hb as (_ & Hb & _). destruct (tally_all_spec st xs Hn Hb Hx) as (_ & _ & _ & F).
    split_and!; [exact (f_equal output F)|exact (f_equal settings F)|exact (f_equal ttype F)].
Qed.
Lemma syms_at_work st st' l : work_frame st = work_frame st' -> syms_at st' 0 l -> syms_at st 0 l.
Proof.
  intros W H k x Hk. specialize (H k x Hk). unfold sym_at, sym_get in *.
  rewrite (f_equal pending_buf W : pending_buf st = pending_buf st'), (f_equal sym_buf W : sym_buf st = sym_buf st'). exact H.
Qed.

Lemma stays_behind_mono pos pos' lim lt dt l : pos <= pos' -> stays_behind pos' lim lt dt l -> stays_behind pos lim lt dt l.
Proof. intros H B k Hk. specialize (B k Hk). lia. Qed.
Lemma load_ready st0 st b last :
  work_frame st = work_frame (load_block st0 b) -> block_ok b -> idle st0 ->
  block_fits (sym_buf st0) b -> 8 <= sym_buf st0 <= 2 ^ 24 ->
  match b with Dynamic h _ => has_trees h st0 | _ => True end ->
  out_pos st = bi_valid st0 ->
  block_ready st last (block_type b) (block_enc (bi_valid st0) last (rle_block b)).
Proof.
  intros W Hb [Hok Hn Hp _ Hv] Hf Hs Ht Hpos. destruct Hok as (_ & Hv0 & _).
  destruct b as [data|xs|h xs]; cbn [load_block block_ok block_fits block_enc block_type rle_block] in *.
  - assert (En : sym_next st = stored_len data) by exact (f_equal sym_next W).
    assert (Es : sym_buf st = sym_buf st0) by exact (f_equal sym_buf W).
    assert (Eb : pending_buf st = awrite (pending_buf st0) (sym_buf st0) data) by exact (f_equal pending_buf W).
    replace data with (aread 0 (pending_buf st) (sym_buf st) (length data)) at 1
      by (rewrite Eb, Es; apply aread_awrite).
    rewrite <- Hpos. apply ready_stored; [by rewrite En|apply Hb|rewrite Es; lia].
  - destruct (tally_all_spec st0 xs Hn Hb ltac:(lia)) as (A & B & _ & D).
    assert (En : sym_next st = 3 * Z.of_nat (length xs)) by (rewrite <- B; exact (f_equal sym_next W)).
    assert (Es : sym_buf st = sym_buf st0) by exact (eq_trans (f_equal sym_buf W) (f_equal sym_buf D)).
    apply ready_fixed; [done|by eapply syms_at_work|done|rewrite Es; lia|].
    apply fixed_behind; [done|]. rewrite Hpos, Es. lia.
  - destruct Hb as (Hh & Hb & _). destruct Hf as (Hf & Hle & Hst). change (dh_lit (rle_header h)) with (dh_lit h). change (dh_dist (rle_header h)) with (dh_dist h).
    destruct (tally_all_spec st0 xs Hn Hb ltac:(lia)) as (A & B & _ & D).
    assert (En : sym_next st = 3 * Z.of_nat (length xs)) by (rewrite <- B; exact (f_equal sym_next W)).
    assert (Es : sym_buf st = sym_buf st0) by exact (eq_trans (f_equal sym_buf W) (f_equal sym_buf D)).
    assert (Ht' : has_trees h st).
    { set (trees := fun st => (bl_tree st, dyn_ltree st, dyn_dtree st, l_max_code st, d_max_code st, ncode st)).
      assert (E : trees st = trees st0) by exact (eq_trans (f_equal trees W) (f_equal trees D)).
      unfold trees in E. injection E as E1 E2 E3 E4 E5 E6. destruct Ht. split; congruence. }
    destruct Ht' as [T1 T2 T3 T4 T5 T6]. unfold dyn_head. rewrite <- app_assoc.
    pose proof (ho_lens _ Hh) as Hl. apply Forall_app in Hl as [Hl Hd]. pose proof (ho_lit _ Hh). pose proof (ho_dist _ Hh). pose proof (ho_ncode _ Hh).
    assert (Eh : header_bits (rle_header h) = trees_bits (aget ct_zero (bl_tree st)) (aget ct_zero (dyn_ltree st)) (aget ct_zero (dyn_dtree st))
      (l_max_code st) (d_max_code st) (ncode st)) by (rewrite T1, T2, T3, T4, T5, T6; by apply header_trees).
    rewrite Eh, <- T2, <- T3. apply ready_dynamic; rewrite <- ?Eh, ?T4, ?T5, ?T6, ?Es; try done; try lia.
    + by eapply syms_at_work.
    + rewrite T1. apply dyn_tree_ok, bl_lens, Hh.
    + intros c. rewrite T1. apply bl_small, Hh.
    + rewrite T2. by apply dyn_tree_ok.
    + rewrite T3. by apply dyn_tree_ok.
    + rewrite T2, T3. eapply stays_behind_mono; [|exact Hst]. lia.
Qed.

(** between two blocks *)
Record between (s : dm) (l : list Z) : Prop := {
  bw_mode : mode (d_state s) = DM.TYPE \/ mode (d_state s) = DM.TYPEDO;
  bw_in : aligned s l;
  bw_ret : d_ret s = Z_OK;
  bw_idle : idle (d_state s);
  bw_last : last_ (d_state s) = 0;
  bw_end : sym_end (d_state s) = 12 * (sym_buf (d_state s) - 1);
  bw_buf : 8 <= sym_buf (d_state s) <= 2 ^ 24 }.
(** what a block leaves: its bits [e], and the settings with [last] *)
Record block_done (s s' : dm) (l : list Z) (last : Z) (e : list bool) : Prop := {
  bd_in : aligned s' l;
  bd_ret : (d_ret s', d_in s', d_out s') = (d_ret s, d_in s, d_out s);
  bd_written : written s' = written s ++ e;
  bd_room : avail_out (d_strm s') + Z.of_nat (length (next_out (d_strm s')))
            = avail_out (d_strm s) + Z.of_nat (length (next_out (d_strm s)));
  bd_idle : idle (d_state s');
  bd_set : settings (d_state s') = settings (d_state s <| last_ := last |>);
  bd_mode : mode (d_state s') = DM.TYPE;
  bd_next : next_in (d_strm s') = next_in (d_strm s) }.

Lemma block_enc_turns flush s b last l (e := block_enc (bi_valid (d_state s)) last (rle_block b)) :
  between s (header_ins last b ++ body_ins b ++ l) -> flush <> Z_BLOCK -> flush <> Z_TREES ->
  last_ok last -> block_ok b -> block_fits (sym_buf (d_state s)) b ->
  bi_valid (d_state s) + Z.of_nat (length e) + 8 <= 8 * avail_out (d_strm s) ->
  exists n s', turns flush n s s' /\ (n <= block_turns b + 1)%nat
    /\ block_done s s' l last (e ++ if last =? 0 then [] else padding (bi_valid (d_state s) + Z.of_nat (length e))).
Proof.
  intros [Hm Ha Hret Hi Hl0 Hse Hsb] Hf1 Hf2 Hl Hb Hfit Hroom.
  destruct (turns_block flush s last b l) as (n & s1 & st0 & T1 & L1 & B1 & M1 & A1 & [D1 D2 D3 D4 D5] & W1); try done; [apply Hi|].
  set (st1 := d_state s1 <| mode := DM.TYPE |>).
  assert (W : work_frame st1 = work_frame (load_block st0 b)) by (rewrite <- W1; apply work_frame_mode).
  assert (Hn0 : sym_next st0 = 0) by exact (eq_trans D4 (id_sym _ Hi)).
  destruct (load_output st0 b Hb Hn0) as (Eo & Es & Et).
  { clear - Hfit Hsb. destruct b; cbn in *; lia. }
  rewrite D2 in Es. rewrite D1 in Et. rewrite D3 in Eo.
  assert (Eo1 : output st1 = output (d_state s)) by exact (eq_trans (f_equal output W) Eo).
  assert (Ht1 : ttype st1 = block_type b) by exact (eq_trans (f_equal ttype W) Et).
  assert (Hl1 : last_ st1 = last) by exact (eq_trans (f_equal last_ W) (f_equal snd Es)).
  assert (Esb : sym_buf st0 = sym_buf (d_state s)) by exact (f_equal (fun x => x.1.1.1.1) D2).
  assert (Hi0 : idle st0 /\ bi_valid st0 = bi_valid (d_state s)).
  { injection D3 as Ep Ev Eb Eq. destruct Hi as [Hok Hn Hp Hpo Hv]. split; [|done].
    split; [unfold bits_ok in *; by rewrite Ep, Ev, Eb|congruence|congruence|congruence|congruence]. }
  destruct Hi0 as [Hi0 Ebv]. destruct Hi as [Hok Hn Hp Hpo Hv]. unfold output in Eo1. injection Eo1 as Ep Ev Eb Eq.
  assert (Hok1 : bits_ok st1).
  { change (pending st1 = pending (d_state s)) in Ep. change (bi_valid st1 = bi_valid (d_state s)) in Ev.
    change (bi_buf st1 = bi_buf (d_state s)) in Eb. clearbody st1. unfold bits_ok in *. by rewrite Ep, Ev, Eb. }
  assert (Hpos : out_pos st1 = bi_valid (d_state s)) by (unfold out_pos; change (pending st1) with (pending (d_state s1)); change (bi_valid st1) with (bi_valid (d_state s1)); rewrite Ep, Ev, Hp; lia).
  assert (Hr : block_ready st1 last (block_type b) e).
  { unfold e. rewrite <- Ebv. apply (load_ready st0 st1 b last W Hb); try done; rewrite ?Esb, ?Ebv; done. }
  destruct (turn_ENDOFBLOCK flush s1 l e M1 A1 Hok1) as (s2 & T2 & A2 & R2 & I2 & O2 & Wr & Av & Id & Se & Mt & Ni); fold st1.
  { exact (eq_trans Eq Hpo). } { by rewrite Hl1. } { by rewrite Hl1, Ht1. }
  { rewrite Hpos. destruct B1 as [Bs _ _ _]. by rewrite Bs. }
  fold st1 in Wr, Se. rewrite Hl1, Hpos in Wr. destruct B1 as [Bs Bi Bo Br].
  assert (Hw : written s1 = written s).
  { unfold written. rewrite Bs. f_equal.
    rewrite (empty_unsent (d_state s1)) by exact (eq_trans Ep Hp). rewrite (empty_unsent (d_state s)) by exact Hp.
    change (bi_valid (d_state s1)) with (bi_valid st1). change (bi_buf (d_state s1)) with (bi_buf st1).
    by rewrite (Ev : bi_valid st1 = _), (Eb : bi_buf st1 = _). }
  exists (n + 1)%nat, s2. split; [eapply steps_trans; [exact T1|by apply steps_1]|]. split; [lia|].
  split; try done.
  - by rewrite R2, I2, O2, Br, Bi, Bo.
  - by rewrite Wr, Hw.
  - by rewrite Av, Bs.
  - rewrite Se. exact (eq_trans (f_equal settings W) Es).
  - by rewrite Ni, Bs.
Qed.

(** ** A whole stream *)

Lemma stream_enc_mod bs b k pos : stream_enc (8 * k + pos) bs b = stream_enc pos bs b.
Proof.
  revert pos. induction bs as [|c bs IH]; intros pos; cbn [stream_enc]; rewrite block_enc_mod, <- Z.add_assoc.
  - by rewrite padding_mod.
  - by rewrite IH.
Qed.
Lemma stream_enc_eq pos pos' bs b : (pos - pos') mod 8 = 0 -> stream_enc pos bs b = stream_enc pos' bs b.
Proof.
  intros H. replace pos with (8 * ((pos - pos') / 8) + pos') by (pose proof (Z.div_mod (pos - pos') 8); lia).
  apply stream_enc_mod.
Qed.

Lemma stream_enc_length pos bs b : (pos + Z.of_nat (length (stream_enc pos bs b))) mod 8 = 0.
Proof.
  revert pos. induction bs as [|c bs IH]; intros pos; cbn [stream_enc]; cbv zeta; rewrite length_app, Nat2Z.inj_add, Z.add_assoc.
  - apply padding_length.
  - apply IH.
Qed.

(** the position behind a block *)
Lemma block_done_pos s s' l last e :
  block_done s s' l last e -> idle (d_state s) ->
  8 * avail_out (d_strm s') - bi_valid (d_state s') + Z.of_nat (length e) + bi_valid (d_state s) = 8 * avail_out (d_strm s)
  /\ (bi_valid (d_state s') - (bi_valid (d_state s) + Z.of_nat (length e))) mod 8 = 0.
Proof.
  intros [_ _ W R I' _ _ _] I. pose proof (f_equal (fun l => Z.of_nat (length l)) W) as E. cbv beta in E.
  unfold written in E. rewrite !length_app, !Nat2Z.inj_add, !length_idle, !length_bytes_bits in E by done.
  split; [lia|]. apply Z.mod_divide; [lia|].
  exists (Z.of_nat (length (next_out (d_strm s))) - Z.of_nat (length (next_out (d_strm s')))). lia.
Qed.

Definition stream_turns (bs : list block) (b : block) : nat :=
  list_sum (map (fun c => block_turns c + 1)%nat bs) + block_turns b + 1.
Lemma stream_enc_turns flush bs b l :
  flush <> Z_BLOCK -> flush <> Z_TREES -> forall s,
  Forall (fun c => block_ok c /\ block_fits (sym_buf (d_state s)) c) (bs ++ [b]) ->
  between s (stream_ins bs b ++ l) ->
  bi_valid (d_state s) + Z.of_nat (length (stream_enc (bi_valid (d_state s)) (map rle_block bs) (rle_block b))) + 8 <= 8 * avail_out (d_strm s) ->
  exists n s', turns flush n s s' /\ (n <= stream_turns bs b)%nat
    /\ block_done s s' l 1 (stream_enc (bi_valid (d_state s)) (map rle_block bs) (rle_block b)).
Proof.
  intros Hf1 Hf2. induction bs as [|c bs IH]; intros s Hall Hb Hroom; cbn [stream_ins stream_enc app map] in *.
  - apply Forall_cons_1 in Hall as [[Hok Hfit] _]. cbv zeta in Hroom. rewrite length_app in Hroom. rewrite <- app_assoc in Hb.
    destruct (block_enc_turns flush s b 1 l Hb Hf1 Hf2) as (n & s' & T & L & D); try done; [by right|lia|].
    exists n, s'. split; [done|]. split; [unfold stream_turns; cbn; lia|exact D].
  - apply Forall_cons_1 in Hall as [[Hok Hfit] Hall]. cbv zeta in Hroom. rewrite length_app in Hroom. rewrite <- !app_assoc in Hb.
    destruct (block_enc_turns flush s c 0 _ Hb Hf1 Hf2) as (n & s1 & T & L & D); try done; [by left|lia|].
    rewrite app_nil_r in D. destruct (block_done_pos _ _ _ _ _ D (bw_idle _ _ Hb)) as [Hav Hpos].
    set (e := block_enc _ 0 (rle_block c)) in *.
    rewrite <- (stream_enc_eq _ _ (map rle_block bs) (rle_block b) Hpos) in *. pose proof (bd_set _ _ _ _ _ D) as Hset.
    assert (S1 : sym_buf (d_state s1) = sym_buf (d_state s)) by exact (f_equal (fun x => x.1.1.1.1) Hset).
    assert (S2 : sym_end (d_state s1) = sym_end (d_state s)) by exact (f_equal (fun x => x.1.1.1.2) Hset).
    assert (S3 : last_ (d_state s1) = 0) by exact (f_equal snd Hset).
    destruct Hb as [_ _ Hret I _ He Hsb].
    destruct (IH s1) as (n2 & s2 & T2 & L2 & D2).
    + by rewrite S1.
    + split; [left; apply D|apply D|exact (eq_trans (f_equal (fun x => x.1.1) (bd_ret _ _ _ _ _ D)) Hret)|apply D|done|by rewrite S1, S2|by rewrite S1].
    + rewrite Nat2Z.inj_add in Hroom. lia.
    + exists (n + n2)%nat, s2. split; [by eapply steps_trans|]. split; [unfold stream_turns, list_sum in *; cbn [map fold_right] in *; lia|].
      destruct D as [Da Db Dc Dd De Df Dg Dh], D2 as [Ea Eb Ec Ed Ee Ef Eg Eh]. split; try done; try congruence.
      * by rewrite Ec, Dc, app_assoc.
      * rewrite Ef. unfold settings in Df |- *. injection Df as F1 F2 F3 F4 F5.
        change (last_ (_ <| last_ := 1 |>)) with 1. cbn. by rewrite F1, F2, F3, F4.
Qed.

(** the end of the stream: no wrapper, so nothing follows *)
Lemma turn_last flush s l :
  mode (d_state s) = DM.TYPE -> flush <> Z_BLOCK -> flush <> Z_TREES -> last_ (d_state s) = 1 -> aligned s l ->
  exists s', turn flush s = (s', inr tt) /\ same_block s s' /\ aligned s' l /\ mode (d_state s') = DM.DONE
    /\ output (d_state s') = output (d_state s) /\ settings (d_state s') = settings (d_state s)
    /\ pending_buf (d_state s') = pending_buf (d_state s).
Proof.
  intros Hm Hf1 Hf2 Hl Ha. rewrite turn_eq, Hm. set (s0 := s <| d_locals := _ |>). unfold h_TYPE.
  destruct (Z.eqb_spec flush Z_BLOCK); [done|]. destruct (Z.eqb_spec flush Z_TREES); [done|]. cbn [orb].
  unfold h_TYPEDO. rewrite bind_upd. match goal with |- context [(gets ?g ≫= ?m) ?x] => set (s1 := x) end.
  rewrite bind_gets. change (last_ (d_state s1)) with (last_ (d_state s)). rewrite Hl. change (negb (1 =? 0)) with true. cbv iota.
  assert (Ha1 : aligned s1 l) by exact Ha. rewrite (aligned_eq s1 l Ha1).
  rewrite (bind_inr _ _ _ _ _ (bytebits_set l 0 0 s1 ltac:(lia))).
  eexists. split; [reflexivity|]. split; [by split|]. split; [split_and!; try done; apply Ha|]. by split_and!.
Qed.
Lemma turn_DONE flush s :
  mode (d_state s) = DM.DONE -> wrap (d_state s) = 0 ->
  turn flush s = (s <| d_locals := indet (d_locals s) |> <| d_ret := Z_STREAM_END |>, inl Leave).
Proof.
  intros Hm Hw. rewrite turn_eq, Hm. unfold h_DONE. rewrite bind_gets.
  match goal with |- context [wrap ?x] => change (wrap x) with (wrap (d_state s)) end. rewrite Hw. reflexivity.
Qed.

Lemma block_turns_bound last b : (block_turns b + 1 <= 4 * length (header_ins last b ++ body_ins b))%nat.
Proof.
  rewrite length_app. destruct b as [data|xs|h xs]; cbn [block_turns body_ins]; unfold header_ins; rewrite !length_app; cbn [length ins_end].
  - lia.
  - pose proof (length_instrs xs). lia.
  - pose proof (length_instrs xs). lia.
Qed.
Lemma stream_turns_bound bs b : (stream_turns bs b <= 4 * length (stream_ins bs b))%nat.
Proof.
  unfold stream_turns, list_sum. induction bs as [|c bs IH]; cbn [map fold_right stream_ins].
  - pose proof (block_turns_bound 1 b). lia.
  - pose proof (block_turns_bound 0 c). rewrite app_assoc, length_app. lia.
Qed.

(** a state as the initialisation leaves it for a raw stream *)
Record fresh (st : deflate_state) : Prop := {
  fr_mode : mode st = DM.HEAD;
  fr_wrap : wrap st = 0;
  fr_last : last_ st = 0;
  fr_hold : hold st = 0;
  fr_bits : bits st = 0;
  fr_idle : idle st;
  fr_valid : bi_valid st = 0;
  fr_end : sym_end st = 12 * (sym_buf st - 1);
  fr_buf : 8 <= sym_buf st <= 2 ^ 24 }.

(** the whole run of the machine *)
Lemma run_stream flush zs st g l0 out0 bs b rest f :
  fresh st -> flush <> Z_BLOCK -> flush <> Z_TREES ->
  Forall (fun c => block_ok c /\ block_fits (sym_buf st) c) (bs ++ [b]) ->
  next_in zs = stream_ins bs b ++ rest -> bytes_ok (next_in zs) ->
  Z.of_nat (length (stream_enc 0 (map rle_block bs) (rle_block b))) + 8 <= 8 * avail_out zs ->
  (stream_turns bs b + 2 < f)%nat ->
  let s := LOAD (mk_dm zs st g l0 [] 0 0 0 out0 Z_OK) in
  let s := s <| d_in := have_in s |> in
  exists s', run indet f flush s = (s', Leave) /\ d_next s' = rest /\ d_hold s' = 0 /\ d_bits s' = 0
    /\ d_ret s' = Z_STREAM_END /\ bytes_bits (next_out (d_strm s')) = bytes_bits (next_out zs) ++ stream_enc 0 (map rle_block bs) (rle_block b)
    /\ pending (d_state s') = 0
    /\ avail_out (d_strm s') + Z.of_nat (length (next_out (d_strm s'))) = avail_out zs + Z.of_nat (length (next_out zs)).
Proof.
  intros Hfr Hf1 Hf2 Hall Hin Hy Hroom Hfuel. cbv zeta.
  set (s := LOAD _ <| d_in := _ |>).
  assert (T0 : exists s0, turn flush s = (s0, inr tt) /\ d_strm s0 = zs /\ d_state s0 = st <| mode := DM.TYPEDO |>
    /\ aligned s0 (stream_ins bs b ++ rest) /\ d_ret s0 = Z_OK).
  { destruct Hfr as [Hm Hw _ Hh Hb _ _ _ _]. rewrite turn_eq. change (mode (d_state s)) with (mode st). rewrite Hm.
    unfold h_HEAD. rewrite bind_gets. match goal with |- context [wrap ?x] => change (wrap x) with (wrap st) end. rewrite Hw.
    eexists. split; [reflexivity|]. split; [reflexivity|]. split; [reflexivity|]. split; [|reflexivity].
    split; [exact Hin|]. split; [exact Hh|]. split; [exact Hb|]. by rewrite <- Hin. }
  destruct T0 as (s0 & T0 & Z0 & S0 & A0 & R0).
  destruct Hfr as [Hm Hw Hl Hh Hb Hi Hv He Hsb].
  assert (B0 : between s0 (stream_ins bs b ++ rest)).
  { split; rewrite ?S0; [by right|done|done| |done|done|done]. destruct Hi as [? ? ? ? ?]. by split. }
  destruct (stream_enc_turns flush bs b rest Hf1 Hf2 s0) as (n & s1 & T1 & L1 & D1).
  { rewrite S0. exact Hall. } { exact B0. }
  { rewrite S0. change (bi_valid (st <| mode := DM.TYPEDO |>)) with (bi_valid st). rewrite Hv, Z0. lia. }
  assert (Hset : settings (d_state s1) = settings (st <| last_ := 1 |>)) by (rewrite (bd_set _ _ _ _ _ D1), S0; reflexivity).
  assert (Hl1 : last_ (d_state s1) = 1) by exact (f_equal snd Hset).
  assert (Hw1 : wrap (d_state s1) = 0) by (rewrite <- Hw; exact (f_equal (fun x => x.1.1.2) Hset)).
  destruct (turn_last flush s1 rest (bd_mode _ _ _ _ _ D1) Hf1 Hf2 Hl1 (bd_in _ _ _ _ _ D1))
    as (s2 & T2 & B2 & A2 & M2 & O2 & Se2 & P2).
  assert (Hw2 : wrap (d_state s2) = 0) by (rewrite <- Hw1; exact (f_equal (fun x => x.1.1.2) Se2)).
  pose proof (turn_DONE flush s2 M2 Hw2) as T3.
  assert (TT : turns flush (1 + (n + 1)) s s2) by (econstructor; [exact T0|]; eapply steps_trans; [exact T1|by apply steps_1]).
  eexists. split; [eapply forever_leave; [exact TT|exact T3|lia]|].
  destruct A2 as (N2 & H2 & K2 & _). split; [exact N2|]. split; [exact H2|]. split; [exact K2|]. split; [reflexivity|].
  pose proof (bd_idle _ _ _ _ _ D1) as I1. pose proof (id_pending _ I1) as P1.
  split; [|split; [transitivity (pending (d_state s1)); [exact (f_equal (fun x => x.1.1.1) O2)|exact P1]|]].
  2:{ destruct B2 as [Bs _ _ _]. change (avail_out (d_strm s2) + Z.of_nat (length (next_out (d_strm s2))) = avail_out zs + Z.of_nat (length (next_out zs))).
      by rewrite Bs, (bd_room _ _ _ _ _ D1), Z0. }
  assert (W1 : written s1 = bytes_bits (next_out zs) ++ stream_enc 0 (map rle_block bs) (rle_block b)).
  { rewrite (bd_written _ _ _ _ _ D1), S0. change (bi_valid (st <| mode := DM.TYPEDO |>)) with (bi_valid st). rewrite Hv. f_equal.
    unfold written. rewrite Z0, S0, empty_unsent by (exact (id_pending _ Hi)).
    change (bi_valid (st <| mode := DM.TYPEDO |>)) with (bi_valid st). rewrite Hv. apply app_nil_r. }
  destruct B2 as [Bs _ _ _]. change (bytes_bits (next_out (d_strm s2)) = bytes_bits (next_out zs) ++ stream_enc 0 (map rle_block bs) (rle_block b)).
  rewrite Bs, <- W1. unfold written.
  enough (E : unsent (d_state s1) = []) by (by rewrite E, app_nil_r).
  pose proof (f_equal (fun l => Z.of_nat (length l)) W1) as E. cbv beta in E. unfold written in E.
  rewrite !length_app, !Nat2Z.inj_add, (length_idle _ I1), !length_bytes_bits in E.
  pose proof (stream_enc_length 0 (map rle_block bs) (rle_block b)) as M. destruct (id_ok _ I1) as (_ & V0 & _). pose proof (id_valid _ I1) as V1.
  apply Z.mod_divide in M as [q M]; [|lia].
  rewrite empty_unsent by done. replace (bi_valid (d_state s1)) with 0 by lia. reflexivity.
Qed.
End Blocks.

(** ** Blocks for examples *)

(** a block of each type *)
Definition demo_blocks : list block := [Stored [1; 2; 3]; Dynamic demo_dynamic [Lit 65; Match 1 3]].
Lemma demo_blocks_ok : Forall block_ok (demo_blocks ++ [Fixed demo_symbols]).
Proof.
  constructor; [|constructor; [|constructor; [exact demo_symbols_ok|constructor]]].
  - split; [|reflexivity]. repeat constructor; unfold is_byte; lia.
  - split; [exact demo_dynamic_ok|]. split; repeat constructor; unfold is_byte, MIN_MATCH, MAX_MATCH; lia.
Qed.
Lemma demo_blocks_rle : Forall (fun c => rle_block c = c) (demo_blocks ++ [Fixed demo_symbols]).
Proof. repeat constructor. Qed.
Lemma demo_blocks_fit lb : 64 <= lb -> Forall (fun c => block_ok c /\ block_fits lb c) (demo_blocks ++ [Fixed demo_symbols]).
Proof.
  intros Hlb. pose proof demo_blocks_ok as Hok.
  assert (Hs : Forall (fun c => Z.of_nat (length (block_enc 0 0 (rle_block c))) <= 400 /\ Z.of_nat (length (body_ins c)) <= 64) (demo_blocks ++ [Fixed demo_symbols]))
    by (repeat constructor; vm_compute; discriminate).
  induction (demo_blocks ++ [Fixed demo_symbols]) as [|c l IH]; [done|].
  apply Forall_cons_1 in Hok as [Hok1 Hok]. apply Forall_cons_1 in Hs as [[Hs1 Hs2] Hs].
  constructor; [|by apply IH]. split; [done|]. apply (short_fits lb 0 0); try done; lia.
Qed.

(** ** The captured header is short *)

Lemma token_bits_short bl t : bl_ok bl -> token_ok t -> (length (token_bits (dyn_tree bl) t) <= 14)%nat.
Proof.
  intros Hb Ht. pose proof (dyn_tree_ok bl (bl_lens bl Hb)) as Hk.
  assert (L : forall c, (length (code_bits (dyn_tree bl c)) <= 7)%nat).
  { intros c. pose proof (code_bits_length (dyn_tree bl) c Hk). pose proof (bl_small bl Hb c). lia. }
  destruct t as [l|n|n]; cbn [token_bits]; [specialize (L l); lia|rewrite length_app, length_bits_of; specialize (L REP_3_6); lia|].
  destruct (n <=? 10); rewrite length_app, length_bits_of; [specialize (L REPZ_3_10)|specialize (L REPZ_11_138)]; lia.
Qed.
Lemma flat_map_short {A B} (f : A -> list B) (P : A -> Prop) n l :
  (forall x, P x -> (length (f x) <= n)%nat) -> Forall P l -> (length (flat_map f l) <= n * length l)%nat.
Proof.
  intros Hf Hl. induction Hl as [|x l Hx Hl IH]; [cbn; lia|]. cbn [flat_map length]. rewrite length_app. specialize (Hf x Hx). lia.
Qed.
Lemma header_bits_short h : header_ok h -> (length (header_bits h) <= 4495)%nat.
Proof.
  intros Hh. unfold header_bits. rewrite !length_app, !length_bits_of. pose proof (ho_ncode _ Hh) as H1.
  pose proof (ho_lit _ Hh) as H2. pose proof (ho_dist _ Hh) as H3. unfold nlit, ndists in *.
  assert (T : Forall token_ok (dh_toks h)) by (refine (List.Forall_impl _ _ (ho_toks _ Hh)); by intros t []).
  pose proof (tokens_length (-1) _ T) as Hn. rewrite (ho_expand _ Hh), length_app in Hn.
  pose proof (flat_map_short _ _ 14 _ (fun t => token_bits_short (dh_bl h) t (ho_bl _ Hh)) T) as L1. fold (tokens_bits (dh_bl h) (dh_toks h)) in L1.
  assert (L2 : (length (ranks_bits (dh_bl h) (seq 0 (Z.to_nat (dh_ncode h)))) <= 3 * 19)%nat).
  { etransitivity; [apply (flat_map_short _ (fun _ => True)); [intros r _; by rewrite length_bits_of|by apply Forall_true]|].
    rewrite length_seq. lia. }
  lia.
Qed.
Lemma length_pack l : (8 * length (pack l) < length l + 8)%nat.
Proof.
  destruct (pack_spec l) as [_ P]. apply (f_equal length) in P. rewrite length_bytes_bits, length_app in P.
  pose proof (padding_short (Z.of_nat (length l))). lia.
Qed.

