(* ===== verification/Recode.v ===== *)
(** * One call of the re-encoder (partial/libz_j/deflate.c: j_deflateInit2_, j_deflate)

    A freshly initialised raw stream, given the instruction stream of stored and
    fixed blocks and an output buffer that is large enough, is re-encoded in one
    call of [j_deflate]. *)
From S2P Require Import Prelude Adler32 DeflateTables Zlib Bitstream InflateState Inffast Format.
From S2P Require Import DeflateState Trees Encode Rle Deflate Flush Reencode Headers Blocks.

(** ** Initialisation *)

(** the stream's pointers are set and it owns the state *)
Record callable (zs : z_stream) (st : deflate_state) : Prop := {
  ca_alloc : zalloc_set zs = true;
  ca_free : zfree_set zs = true;
  ca_strm : ds_strm st = zs_addr zs;
  ca_status : status st = INIT_STATE }.
Lemma callable_check zs st : callable zs st -> deflateStateCheck zs (Some st) = false.
Proof.
  intros [A B C D]. unfold deflateStateCheck. rewrite A, B, C, D. cbn [negb orb]. rewrite Z.eqb_refl. reflexivity.
Qed.

(** what [j_deflateInit2_] hands to the reset function *)
Definition init_state (mem : deflate_state) (addr level_ windowBits memLevel strategy_ : Z) : deflate_state :=
  let s := mem <| ds_strm := addr |> <| status := INIT_STATE |> <| wrap := 0 |> <| gzhead := 0 |>
               <| w_bits := windowBits |> <| w_size := Z.shiftl 1 windowBits |> <| w_mask := Z.shiftl 1 windowBits - 1 |> in
  let s := s <| hash_bits := memLevel + 7 |> <| hash_size := Z.shiftl 1 (memLevel + 7) |>
             <| hash_mask := Z.shiftl 1 (memLevel + 7) - 1 |> <| hash_shift := (memLevel + 7 + MIN_MATCH - 1) / MIN_MATCH |> in
  let s := s <| high_water := 0 |> <| lit_bufsize := Z.shiftl 1 (memLevel + 6) |> in
  let s := s <| pending_buf_size := lit_bufsize s * 16 |> in
  let s := s <| sym_buf := lit_bufsize s |> <| sym_end := (lit_bufsize s - 1) * 12 |> in
  let s := s <| level := (if level_ =? Z_DEFAULT_COMPRESSION then 6 else level_) |>
             <| strategy := strategy_ |> <| method := u8 Z_DEFLATED |> in
  s <| mode := DM.HEAD |>.
Lemma init_raw zs state mem level windowBits memLevel strategy :
  -1 <= level <= 9 -> -15 <= windowBits <= -9 -> 1 <= memLevel <= 9 -> 0 <= strategy <= 4 ->
  j_deflateInit2_ zs state (Some mem) true level Z_DEFLATED windowBits memLevel strategy
  = let zs := zs <| msg := None |> <| zalloc_set := true |> <| zfree_set := true |> in
    j_deflateReset zs (Some (init_state mem (zs_addr zs) level (- windowBits) memLevel strategy)).
Proof.
  intros Hlv Hw Hm Hs. unfold j_deflateInit2_, Z_DEFAULT_COMPRESSION, MAX_MEM_LEVEL, Z_FIXED. cbv zeta.
  destruct (Z.ltb_spec windowBits 0); [|lia]. destruct (Z.ltb_spec windowBits (-15)); [lia|].
  rewrite (Z.abs_neq windowBits) by lia.
  set (lv := if level =? -1 then 6 else level).
  assert (Hlv' : 0 <= lv <= 9) by (subst lv; destruct (Z.eqb_spec level (-1)); lia).
  replace ((memLevel <? 1) || (memLevel >? 9) || negb (Z_DEFLATED =? Z_DEFLATED) || (- windowBits <? 8)
    || (- windowBits >? 15) || (lv <? 0) || (lv >? 9) || (strategy <? 0) || (strategy >? 4)
    || ((- windowBits =? 8) && negb (0 =? 1))) with false.
  2:{ symmetry. rewrite !orb_false_iff, andb_false_iff. unfold Z_DEFLATED. cbn. lia. }
  destruct (Z.eqb_spec (- windowBits) 8); [lia|]. cbn [negb]. reflexivity.
Qed.

(** the reset of a state that passes the check *)
Definition reset_state (st : deflate_state) : deflate_state :=
  j_tr_init (st <| pending := 0 |> <| pending_out := 0 |> <| status := INIT_STATE |> <| last_flush := -2 |>).
Lemma reset_ok zs st :
  callable zs st -> wrap st = 0 ->
  j_deflateReset zs (Some st)
  = (zs <| total_in := 0 |> <| total_out := 0 |> <| msg := None |> <| data_type := Z_UNKNOWN |> <| adler := adler32 0 None |>,
     Some (reset_state st), Z_OK).
Proof.
  intros Hc Hw. unfold j_deflateReset, j_deflateResetKeep. rewrite (callable_check _ _ Hc). cbv zeta.
  match goal with |- context [wrap ?x <? 0] => change (wrap x) with (wrap st) end. rewrite Hw. reflexivity.
Qed.

Lemma init_fresh_run zs state mem level windowBits memLevel strategy :
  last_ mem = 0 -> hold mem = 0 -> bits mem = 0 ->
  -1 <= level <= 9 -> -15 <= windowBits <= -9 -> 1 <= memLevel <= 9 -> 0 <= strategy <= 4 ->
  exists zs' st,
    j_deflateInit2_ zs state (Some mem) true level Z_DEFLATED windowBits memLevel strategy = (zs', Some st, Z_OK)
    /\ callable zs' st /\ fresh st
    /\ sym_buf st = 2 ^ (memLevel + 6) /\ pending_buf_size st = 16 * sym_buf st /\ w_size st = 2 ^ (- windowBits)
    /\ next_in zs' = next_in zs /\ next_out zs' = next_out zs /\ avail_out zs' = avail_out zs.
Proof.
  intros Hl Hh Hb Hlv Hw Hm Hs. rewrite init_raw by done. cbv zeta.
  set (zs1 := zs <| msg := None |> <| zalloc_set := true |> <| zfree_set := true |>).
  set (st := init_state mem (zs_addr zs1) level (- windowBits) memLevel strategy).
  assert (Hc : callable zs1 st) by by split.
  rewrite (reset_ok zs1 st Hc eq_refl). eexists _, _. split; [reflexivity|].
  assert (Hsb : sym_buf (reset_state st) = 2 ^ (memLevel + 6)).
  { change (Z.shiftl 1 (memLevel + 6) = 2 ^ (memLevel + 6)). rewrite Z.shiftl_mul_pow2 by lia. lia. }
  assert (Hse : sym_end (reset_state st) = 12 * (sym_buf (reset_state st) - 1)).
  { change ((Z.shiftl 1 (memLevel + 6) - 1) * 12 = 12 * (Z.shiftl 1 (memLevel + 6) - 1)). lia. }
  assert (Hr : 2 ^ 7 <= 2 ^ (memLevel + 6) <= 2 ^ 15) by (split; apply Z.pow_le_mono_r; lia).
  split; [by split|]. split.
  { split; [reflexivity|reflexivity|exact Hl|exact Hh|exact Hb| |reflexivity|exact Hse|rewrite Hsb; lia].
    split; try reflexivity. change (0 <= 0 /\ 0 <= 0 <= 16 /\ 0 <= 0 < 2 ^ 0). lia. }
  split; [exact Hsb|]. split.
  { change (Z.shiftl 1 (memLevel + 6) * 16 = 16 * Z.shiftl 1 (memLevel + 6)). lia. }
  split; [|by split_and!].
  change (Z.shiftl 1 (- windowBits) = 2 ^ (- windowBits)). rewrite Z.shiftl_mul_pow2 by lia. lia.
Qed.

(** C18. [j_deflateInit2_] for a raw stream accepts every window size from 9 to 15, level, memory level and
    strategy of the documentation, and leaves the machine at its first state with empty buffers whose
    sizes follow from the memory level: provided the memory it is given is zero where the function
    leaves it unset ([last], [hold] and [bits]). *)
Theorem init_fresh zs state mem level windowBits memLevel strategy :
  last_ mem = 0 -> hold mem = 0 -> bits mem = 0 ->
  -1 <= level <= 9 -> -15 <= windowBits <= -9 -> 1 <= memLevel <= 9 -> 0 <= strategy <= 4 ->
  exists zs' st,
    j_deflateInit2_ zs state (Some mem) true level Z_DEFLATED windowBits memLevel strategy = (zs', Some st, Z_OK)
    /\ callable zs' st /\ fresh st
    /\ sym_buf st = 2 ^ (memLevel + 6) /\ pending_buf_size st = 16 * sym_buf st /\ w_size st = 2 ^ (- windowBits)
    /\ next_in zs' = next_in zs /\ next_out zs' = next_out zs /\ avail_out zs' = avail_out zs.
Proof. apply init_fresh_run. Qed.
(** the memory zeroed, as [calloc] gives it *)
Definition zero_state : deflate_state :=
  mk_ds 0 0 ∅ 0 0 0 0 0 0 0 0 0 0 0 0 0 0 0 0 ∅ ∅ ∅ 0 0 0 0 0 0 0 0 0 0 0 0 0 STORE 0 0 0 0 0 0 0 0 0 ∅ 0 0 0 0 ∅ ∅ DM.HEAD.
Lemma init_fresh_witness :
  exists zs' st,
    j_deflateInit2_ (demo_stream [1] 10) None (Some zero_state) true 9 Z_DEFLATED (-15) 8 0 = (zs', Some st, Z_OK)
    /\ fresh st /\ sym_buf st = 16384 /\ pending_buf_size st = 262144.
Proof.
  destruct (init_fresh (demo_stream [1] 10) None zero_state 9 (-15) 8 0) as (zs' & st & E & _ & F & S & P & _);
    try reflexivity; try lia.
  exists zs', st. split; [exact E|]. split; [exact F|]. rewrite P, S. split; reflexivity.
Defined.

(** ** One call *)

Section Call.
Context (indet : ins_locals -> ins_locals) (out0 : Z).

Lemma deflate_my_stream flush zs st g l0 bs b rest :
  fresh st -> 0 <= flush <= Z_FINISH -> next_out_null zs = false -> next_in_null zs = false ->
  Forall (fun c => block_ok c /\ block_fits (sym_buf st) c) (bs ++ [b]) ->
  next_in zs = stream_ins bs b ++ rest -> bytes_ok (next_in zs) ->
  Z.of_nat (length (stream_enc 0 (map rle_block bs) (rle_block b))) + 8 <= 8 * avail_out zs ->
  exists zs' st' g', deflate_my indet out0 zs st g l0 flush = Some (zs', st', g', Z_STREAM_END)
    /\ next_in zs' = rest /\ pending st' = 0
    /\ bytes_bits (next_out zs') = bytes_bits (next_out zs) ++ stream_enc 0 (map rle_block bs) (rle_block b)
    /\ avail_out zs' + Z.of_nat (length (next_out zs')) = avail_out zs + Z.of_nat (length (next_out zs)).
Proof.
  intros Hfr Hfl Hno Hni Hall Hin Hy Hroom. unfold deflate_my. rewrite Hno, Hni. cbn [orb andb].
  rewrite bool_decide_eq_false_2 by (rewrite (fr_mode _ Hfr); discriminate). cbv zeta.
  set (s := LOAD _ <| d_in := _ |>).
  destruct (run_stream indet flush zs st g l0 out0 bs b rest (deflate_fuel s) Hfr) as (s' & E & N & _ & _ & R & W & P & A); try done.
  { unfold Z_FINISH, Z_BLOCK in *. lia. } { unfold Z_FINISH, Z_TREES in *. lia. }
  { unfold deflate_fuel. change (d_next s) with (next_in zs). rewrite Hin, length_app.
    pose proof (stream_turns_bound bs b). lia. }
  change (run indet (deflate_fuel s) flush s = (s', Leave)) in E. rewrite E. unfold inf_leave. cbv zeta.
  match goal with |- context [d_ret ?x] => change (d_ret x) with (d_ret s') end. rewrite R.
  change (Z_STREAM_END =? Z_OK) with false. rewrite andb_false_r.
  eexists _, _, _. split; [reflexivity|]. split; [exact N|]. split; [exact P|]. split; [exact W|exact A].
Qed.

Lemma reencode_stream_run flush zs st g l0 bs b rest :
  callable zs st -> fresh st -> 0 <= flush <= Z_FINISH -> next_out_null zs = false -> next_in_null zs = false ->
  Forall (fun c => block_ok c /\ block_fits (sym_buf st) c) (bs ++ [b]) ->
  next_in zs = stream_ins bs b ++ rest -> bytes_ok (next_in zs) ->
  Z.of_nat (length (stream_enc 0 (map rle_block bs) (rle_block b))) + 8 <= 8 * avail_out zs ->
  exists zs' st' g', j_deflate indet out0 zs (Some st) g l0 flush = Some (zs', Some st', g', Z_STREAM_END)
    /\ next_in zs' = rest
    /\ bytes_bits (next_out zs') = bytes_bits (next_out zs) ++ stream_enc 0 (map rle_block bs) (rle_block b)
    /\ avail_out zs' + Z.of_nat (length (next_out zs')) = avail_out zs + Z.of_nat (length (next_out zs)).
Proof.
  intros Hc Hfr Hfl Hno Hni Hall Hin Hy Hroom. unfold j_deflate. rewrite (callable_check _ _ Hc).
  unfold Z_FINISH in Hfl. destruct (Z.gtb_spec flush Z_BLOCK); [unfold Z_BLOCK in *; lia|].
  destruct (Z.ltb_spec flush 0); [lia|]. cbn [orb]. rewrite Hno, Hni, (ca_status _ _ Hc), andb_false_r. cbn [orb andb].
  change (INIT_STATE =? FINISH_STATE) with false. cbn [andb].
  destruct (Z.eqb_spec (avail_out zs) 0); [lia|]. cbv zeta.
  set (st1 := st <| last_flush := flush |>).
  change (pending st1) with (pending st). rewrite (id_pending _ (fr_idle _ Hfr)). change (negb (0 =? 0)) with false. cbv iota.
  assert (Hav : avail_in zs <> 0).
  { unfold avail_in. rewrite Hin, length_app. pose proof (stream_turns_bound bs b). unfold stream_turns in *. lia. }
  destruct (Z.eqb_spec (avail_in zs) 0); [done|]. cbn [andb].
  assert (F1 : fresh st1).
  { destruct Hfr as [A1 A2 A3 A4 A5 [B1 B2 B3 B4 B5] A7 A8 A9].
    split; [exact A1|exact A2|exact A3|exact A4|exact A5| |exact A7|exact A8|exact A9].
    split; [exact B1|exact B2|exact B3|exact B4|exact B5]. }
  destruct (deflate_my_stream flush zs st1 g l0 bs b rest F1) as (zs' & st' & g' & E & N & P & W & A); try done.
  rewrite E. change (negb (Z_STREAM_END =? Z_OK)) with true. change (negb (Z_STREAM_END =? Z_STREAM_END)) with false.
  cbn [andb]. rewrite P. by exists zs', st', g'.
Qed.

(** C3. Re-encoding a stream of stored, fixed and dynamic blocks: one call of [j_deflate] on the instruction
    stream returns [Z_STREAM_END] and has written exactly the deflate stream of these blocks, padded to
    a byte, where the code lengths in the header of a dynamic block are sent with the runs the encoder chooses; what follows the stream in the input stays unread, and [avail_out] counts the bytes.  The machine needs no more turns than
    its fuel. *)
Theorem reencode_stream flush zs st g l0 bs b rest :
  callable zs st -> fresh st -> 0 <= flush <= Z_FINISH -> next_out_null zs = false -> next_in_null zs = false ->
  Forall (fun c => block_ok c /\ block_fits (sym_buf st) c) (bs ++ [b]) ->
  next_in zs = stream_ins bs b ++ rest -> bytes_ok (next_in zs) ->
  Z.of_nat (length (stream_enc 0 (map rle_block bs) (rle_block b))) + 8 <= 8 * avail_out zs ->
  exists zs' st' g', j_deflate indet out0 zs (Some st) g l0 flush = Some (zs', Some st', g', Z_STREAM_END)
    /\ next_in zs' = rest
    /\ bytes_bits (next_out zs') = bytes_bits (next_out zs) ++ stream_enc 0 (map rle_block bs) (rle_block b)
    /\ avail_out zs' + Z.of_nat (length (next_out zs')) = avail_out zs + Z.of_nat (length (next_out zs)).
Proof. apply reencode_stream_run. Qed.
End Call.

(** a stored, a dynamic and a fixed block *)
Lemma reencode_stream_witness :
  let zs := demo_stream (stream_ins demo_blocks (Fixed demo_symbols) ++ [7]) 100 in
  exists zs' st' g', j_deflate id 0 zs (Some blank_state) (mk_dg ∅ ∅) (mk_il 0 0 0) Z_NO_FLUSH
      = Some (zs', Some st', g', Z_STREAM_END)
    /\ next_in zs' = [7]
    /\ bytes_bits (next_out zs') = stream_enc 0 demo_blocks (Fixed demo_symbols).
Proof.
  cbv zeta.
  destruct (reencode_stream id 0 Z_NO_FLUSH (demo_stream (stream_ins demo_blocks (Fixed demo_symbols) ++ [7]) 100)
           blank_state (mk_dg ∅ ∅) (mk_il 0 0 0) demo_blocks (Fixed demo_symbols) [7])
    as (zs' & st' & g' & E & N & W & _).
  - by split.
  - split; try reflexivity; [|cbn; lia]. split; try reflexivity. apply blank_ok.
  - unfold Z_NO_FLUSH, Z_FINISH. lia.
  - reflexivity.
  - reflexivity.
  - apply demo_blocks_fit. vm_compute. discriminate.
  - reflexivity.
  - vm_compute. repeat constructor; discriminate.
  - vm_compute. discriminate.
  - exists zs', st', g'. split; [exact E|]. split; [exact N|exact W].
Defined.

Definition demo_other_runs : dyn_header :=
  mk_header (dh_ncode demo_dynamic) (dh_bl demo_dynamic) (dh_lit demo_dynamic) (dh_dist demo_dynamic)
    [TZero 65; TLen 1; TZero 100; TZero 90; TLen 2; TLen 2; TLen 1; TLen 1].
(** C39. The runs of a header are not kept: a dynamic block whose header cuts its run of 190 zero lengths into 100 and
    90, which is as long and as valid as the encoder's 138 and 52, is re-encoded to other bits than it had. *)
Theorem runs_not_kept :
  exists zs' st' g', block_ok (Dynamic demo_other_runs [Lit 65])
    /\ j_deflate id 0 (demo_stream (stream_ins [] (Dynamic demo_other_runs [Lit 65])) 100) (Some blank_state) (mk_dg ∅ ∅) (mk_il 0 0 0) Z_NO_FLUSH
       = Some (zs', Some st', g', Z_STREAM_END)
    /\ bytes_bits (next_out zs') <> stream_enc 0 [] (Dynamic demo_other_runs [Lit 65]).
Proof.
  assert (Hh : header_ok demo_other_runs).
  { destruct demo_dynamic_ok as [H1 H2 H3 H4 H5 H6 _ _ H9 H10 H11 H12].
    split; [exact H1|exact H2|exact H3|exact H4|exact H5|exact H6|vm_compute; reflexivity| |exact H9|exact H10|exact H11|exact H12].
    vm_compute. repeat constructor; discriminate. }
  assert (Hok : block_ok (Dynamic demo_other_runs [Lit 65])) by (split; [exact Hh|split; repeat constructor; unfold is_byte; lia]).
  destruct (reencode_stream_run id 0 Z_NO_FLUSH (demo_stream (stream_ins [] (Dynamic demo_other_runs [Lit 65])) 100) blank_state
    (mk_dg ∅ ∅) (mk_il 0 0 0) [] (Dynamic demo_other_runs [Lit 65]) []) as (zs' & st' & g' & E & _ & W & _).
  - by split.
  - split; try reflexivity; [|cbn; lia]. split; try reflexivity. apply blank_ok.
  - unfold Z_NO_FLUSH, Z_FINISH. lia.
  - reflexivity.
  - reflexivity.
  - constructor; [|done]. split; [exact Hok|]. apply (short_fits _ 0 1); [exact Hok|vm_compute; discriminate..].
  - by rewrite app_nil_r.
  - change (bytes_ok (stream_ins [] (Dynamic demo_other_runs [Lit 65]))). vm_compute. repeat constructor; discriminate.
  - vm_compute. discriminate.
  - exists zs', st', g'. split; [exact Hok|]. split; [exact E|]. rewrite W. vm_compute. discriminate.
Qed.
