(* ===== verification/Bytes.v ===== *)
(** * Only bytes are written (all of deflate.c and trees.c)

    Whatever the input, the state and the results of the table builder, the
    re-encoder keeps its output buffer an array of bytes and delivers only bytes:
    the invariant of every handler, by the rules of the monad. *)
From S2P Require Import Prelude DeflateTables Inftrees Zlib Bitstream DeflateState Trees Deflate.

(** ** The buffers *)

Definition cells_ok (a : arr Z) : Prop := forall i, is_byte (aget 0 a i).
Abbreviation buffer_ok st := (cells_ok (pending_buf st)).

Lemma cells_set a i v : cells_ok a -> is_byte v -> cells_ok (aset a i v).
Proof. intros Ha Hv j. rewrite aget_aset. by destruct (i =? j). Qed.
Lemma cells_write a off l : cells_ok a -> bytes_ok l -> cells_ok (awrite a off l).
Proof. intros Ha Hl. exact (aget_awrite_all 0 is_byte a off l Ha Hl). Qed.
Lemma cells_copy a dest src n : cells_ok a -> cells_ok (zmemcpy a dest src n).
Proof.
  revert a dest src. induction n as [|n IH]; intros a dest src Ha; [done|]. cbn [zmemcpy]. apply IH. by apply cells_set.
Qed.
Lemma cells_read a off n : cells_ok a -> bytes_ok (aread 0 a off n).
Proof. intros Ha. unfold aread. induction (seq 0 n) as [|i l IH]; constructor; [apply Ha|done]. Qed.

Create HintDb buffer.
#[export] Hint Resolve u8_range cells_set cells_write cells_copy cells_read : buffer.

(** ** trees.c *)

Lemma put_byte_buffer s c : buffer_ok s -> buffer_ok (put_byte s c).
Proof. intros H. apply cells_set; [done|apply u8_range]. Qed.
#[export] Hint Resolve put_byte_buffer : buffer.
Lemma put_short_buffer s w : buffer_ok s -> buffer_ok (put_short s w).
Proof. intros H. unfold put_short. auto with buffer. Qed.
#[export] Hint Resolve put_short_buffer : buffer.
Lemma send_bits_buffer s v n : buffer_ok s -> buffer_ok (send_bits s v n).
Proof. intros H. unfold send_bits. destruct (_ >? _); [|done]. by apply put_short_buffer. Qed.
#[export] Hint Resolve send_bits_buffer : buffer.
Lemma send_code_buffer s c t : buffer_ok s -> buffer_ok (send_code s c t).
Proof. apply send_bits_buffer. Qed.
#[export] Hint Resolve send_code_buffer : buffer.
Lemma bi_flush_buffer s : buffer_ok s -> buffer_ok (bi_flush s).
Proof. intros H. unfold bi_flush. destruct (_ =? 16); [by apply put_short_buffer|]. destruct (_ >=? 8); [by apply put_byte_buffer|done]. Qed.
Lemma bi_windup_buffer s : buffer_ok s -> buffer_ok (bi_windup s).
Proof. intros H. unfold bi_windup. destruct (_ >? 8); [by apply put_short_buffer|]. destruct (_ >? 0); [by apply put_byte_buffer|done]. Qed.
#[export] Hint Resolve bi_flush_buffer bi_windup_buffer : buffer.

Lemma send_repeat_buffer n s c : buffer_ok s -> buffer_ok (send_repeat n s c).
Proof. revert s. induction n as [|n IH]; intros s H; [done|]. cbn [send_repeat]. auto with buffer. Qed.
#[export] Hint Resolve send_repeat_buffer : buffer.
Lemma send_tree_step_buffer tree v n : buffer_ok (st_s v) -> buffer_ok (st_s (send_tree_step tree v n)).
Proof.
  intros H. unfold send_tree_step. cbv zeta. destruct (_ && _); [done|].
  assert (E : forall s (p : Z * Z) a b c, st_s (let '(mx, mn) := p in mk_stl s a b c mx mn) = s) by by intros ? [] *.
  rewrite E. destruct (_ <? _); [by auto with buffer|]. destruct (negb (_ =? 0)).
  - destruct (negb (_ =? _)); auto with buffer.
  - destruct (_ <=? _); auto with buffer.
Qed.
Lemma send_tree_buffer s tree n : buffer_ok s -> buffer_ok (send_tree s tree n).
Proof.
  intros H. unfold send_tree. cbv zeta.
  destruct (if _ =? _ then _ else _) as [mx mn].
  apply (foldl_keeps (fun v => buffer_ok (st_s v))); [|exact H]. intros v n' Hv. by apply send_tree_step_buffer.
Qed.
#[export] Hint Resolve send_tree_buffer : buffer.
Lemma send_all_trees_buffer s a b c : buffer_ok s -> buffer_ok (send_all_trees s a b c).
Proof.
  intros H. unfold send_all_trees. cbv zeta. apply send_tree_buffer, send_tree_buffer.
  apply (foldl_keeps (fun s => buffer_ok s)); [|by auto with buffer]. intros s1 r H1. auto with buffer.
Qed.
Lemma stored_block_buffer s buf n last : buffer_ok s -> buffer_ok (j_tr_stored_block s buf n last).
Proof. intros H. unfold j_tr_stored_block. cbv zeta. apply (cells_copy _ _ _ _). auto with buffer. Qed.
Lemma compress_sym_buffer s sx lt dt : buffer_ok s -> buffer_ok (compress_sym s sx lt dt).
Proof.
  intros H. unfold compress_sym. cbv zeta. destruct (_ =? 0); [by auto with buffer|].
  destruct (negb _); destruct (negb _); auto with buffer.
Qed.
Lemma compress_block_buffer s lt dt : buffer_ok s -> buffer_ok (compress_block s lt dt).
Proof.
  intros H. unfold compress_block. cbv zeta. apply send_code_buffer. destruct (negb _); [|done].
  assert (F : forall fuel s sx, buffer_ok s -> buffer_ok (compress_loop fuel s sx lt dt)).
  { induction fuel as [|fuel IH]; intros s1 sx H1; [done|]. cbn [compress_loop]. cbv zeta.
    destruct (_ <? _); [apply IH|]; by apply compress_sym_buffer. }
  by apply F.
Qed.
#[export] Hint Resolve send_all_trees_buffer stored_block_buffer compress_block_buffer : buffer.
Lemma flush_block_buffer s buf n t last : buffer_ok s -> buffer_ok (tr_flush_block_my s buf n t last).
Proof.
  intros H. unfold tr_flush_block_my. cbv zeta.
  assert (F : buffer_ok match t with
    | STORE => j_tr_stored_block s buf n last
    | FIXED => compress_block (send_bits s (Z.shiftl STATIC_TREES 1 + last) 3) static_l static_d
    | DYNAMIC => compress_block (send_all_trees (send_bits s (Z.shiftl DYN_TREES 1 + last) 3)
        (l_max_code (send_bits s (Z.shiftl DYN_TREES 1 + last) 3)) (d_max_code (send_bits s (Z.shiftl DYN_TREES 1 + last) 3))
        (ncode (send_bits s (Z.shiftl DYN_TREES 1 + last) 3)))
        (aget ct_zero (dyn_ltree (send_all_trees (send_bits s (Z.shiftl DYN_TREES 1 + last) 3)
          (l_max_code (send_bits s (Z.shiftl DYN_TREES 1 + last) 3)) (d_max_code (send_bits s (Z.shiftl DYN_TREES 1 + last) 3))
          (ncode (send_bits s (Z.shiftl DYN_TREES 1 + last) 3)))))
        (aget ct_zero (dyn_dtree (send_all_trees (send_bits s (Z.shiftl DYN_TREES 1 + last) 3)
          (l_max_code (send_bits s (Z.shiftl DYN_TREES 1 + last) 3)) (d_max_code (send_bits s (Z.shiftl DYN_TREES 1 + last) 3))
          (ncode (send_bits s (Z.shiftl DYN_TREES 1 + last) 3)))))
    end) by (destruct t; auto 6 with buffer).
  destruct (last =? 0); [exact F|]. apply bi_windup_buffer. exact F.
Qed.

(** ** deflate.c *)

Lemma sym_put_buffer s c : buffer_ok s -> buffer_ok (sym_put s c).
Proof. intros H. apply cells_set; [done|apply u8_range]. Qed.
#[export] Hint Resolve sym_put_buffer : buffer.
Lemma tally_lit_buffer s c : buffer_ok s -> buffer_ok (tr_tally_lit_my s c).1.
Proof. intros H. unfold tr_tally_lit_my. cbn [fst]. auto with buffer. Qed.
Lemma tally_dist_buffer s d l : buffer_ok s -> buffer_ok (tr_tally_dist_my s d l).1.
Proof. intros H. unfold tr_tally_dist_my. cbn [fst]. auto with buffer. Qed.

(** the stream's output is bytes *)
Abbreviation out_ok zs := (bytes_ok (next_out zs)).
Lemma flush_pending_bytes zs s :
  buffer_ok s -> out_ok zs ->
  out_ok (flush_pending zs s).1 /\ buffer_ok (flush_pending zs s).2 /\ next_in (flush_pending zs s).1 = next_in zs.
Proof.
  intros Hs Hz. unfold flush_pending. cbv zeta. unfold j_tr_flush_bits. pose proof (bi_flush_buffer s Hs) as H1.
  generalize dependent (bi_flush s). intros s1 H1. destruct (_ =? 0); [done|]. cbn [fst snd].
  split; [|split; [by destruct (_ =? 0)|done]]. apply Forall_app_2; [exact Hz|]. by apply cells_read.
Qed.

(** what every handler keeps *)
Definition writes_bytes (s : dm) : Prop :=
  bytes_ok (d_next s) /\ buffer_ok (d_state s) /\ out_ok (d_strm s).
Abbreviation ok := (keeps writes_bytes).

Lemma writes_bytes_reader s h b n : writes_bytes s -> writes_bytes (rd_set (drop n (rd_next s)) h b s).
Proof. intros (A & B & C). split; [by apply Forall_drop|by split]. Qed.
Lemma ok_upd g : (forall st, buffer_ok st -> buffer_ok (g st)) -> ok (upd g).
Proof. intros H. apply keeps_modify. intros s (A & B & C). split; [done|]. split; [by apply H|done]. Qed.
Lemma ok_set_mode m : ok (set_mode m).
Proof. by apply ok_upd. Qed.
Lemma ok_upd_glob g : ok (upd_glob g).
Proof. apply keeps_modify. by intros s (A & B & C). Qed.
Lemma ok_bad t : ok (bad t).
Proof. apply keeps_bind; [|intros []; apply ok_set_mode]. apply keeps_modify. by intros s (A & B & C). Qed.
Lemma ok_set_ret r : ok (set_ret r).
Proof. apply keeps_modify. by intros s (A & B & C). Qed.
Lemma ok_NEEDBITS n : ok (NEEDBITS n).
Proof. apply keeps_NEEDBITS, writes_bytes_reader. Qed.
Lemma ok_drop_bits n : ok (drop_bits n).
Proof. apply keeps_drop_bits, writes_bytes_reader. Qed.
Lemma ok_BYTEBITS : ok BYTEBITS.
Proof. apply keeps_BYTEBITS, writes_bytes_reader. Qed.
Lemma ok_INITBITS : ok INITBITS.
Proof. apply keeps_INITBITS, writes_bytes_reader. Qed.
Lemma ok_lookup {A} fuel (f : dm -> A) need : ok (lookup_loop fuel f need).
Proof. apply keeps_lookup, writes_bytes_reader. Qed.
#[export] Hint Resolve ok_set_mode ok_upd_glob ok_bad ok_set_ret ok_NEEDBITS ok_drop_bits ok_BYTEBITS ok_INITBITS ok_lookup : keeps.
(** an update that does not touch the buffer *)
#[export] Hint Extern 3 (keeps writes_bytes (upd _)) => (apply ok_upd; intros ? ?; assumption) : keeps.
Ltac ok := repeat keeps_step.

Lemma ok_take_bits n : ok (take_bits n).
Proof. unfold take_bits. ok. Qed.
#[export] Hint Resolve ok_take_bits : keeps.
Lemma ok_set_locals l : ok (set_locals l).
Proof. apply keeps_modify. by intros s (A & B & C). Qed.
Lemma ok_set_de_ins i v : ok (set_de_ins i v).
Proof. apply ok_upd_glob. Qed.
Lemma ok_set_insbuf i v : ok (set_insbuf i v).
Proof. apply ok_upd_glob. Qed.
Lemma ok_get_insbuf i : ok (get_insbuf i).
Proof. apply keeps_gets. Qed.
#[export] Hint Resolve ok_set_locals ok_set_de_ins ok_set_insbuf ok_get_insbuf : keeps.

Lemma map_u8_bytes l : bytes_ok (map u8 l).
Proof. induction l; constructor; [apply u8_range|done]. Qed.
Lemma ok_SENDINS : ok h_SENDINS.
Proof.
  unfold h_SENDINS. apply keeps_bind_gets. intros s Hs. change (id s) with s. cbv zeta.
  destruct (avail_out (d_strm s) =? 0); [exact Hs|].
  match goal with |- writes_bytes (_ s).1 => cut (ok (gets d_locals ≫= fun l => when (de_ins_buf_index l =? de_ins_buf_have l)
    (if de_ins_type l =? 0 then set_mode DM.TYPE else if de_ins_type l =? 1 then set_ret Z_STREAM_END;; leave else skip))) end.
  - intros K. apply K. destruct Hs as (A & B & C). split; [done|]. split; [done|].
    apply Forall_app_2; [exact C|apply map_u8_bytes].
  - ok.
Qed.
#[export] Hint Resolve ok_SENDINS : keeps.
Lemma ok_HEAD : ok h_HEAD.
Proof. unfold h_HEAD. ok. Qed.
Lemma ok_DONE : ok h_DONE.
Proof. unfold h_DONE. ok. Qed.
Lemma ok_ENDOFBLOCK : ok h_ENDOFBLOCK.
Proof.
  unfold h_ENDOFBLOCK. apply keeps_bind; [ok|intros _]. apply keeps_bind; [apply ok_upd; intros st H; by apply flush_block_buffer|intros _].
  apply keeps_bind_gets. intros s (A & B & C). change (id s) with s.
  destruct (flush_pending_bytes (d_strm s) (d_state s) B C) as (D & E & _). destruct (flush_pending _ _) as [zs st].
  rewrite bind_modify. apply (keeps_when writes_bytes); [apply keeps_exit|]. by split.
Qed.
Lemma ok_tally f : (forall st, buffer_ok st -> buffer_ok (f st).1) -> ok (tally f).
Proof.
  intros Hf. unfold tally. apply keeps_bind_gets. intros s (A & B & C). specialize (Hf _ B). destruct (f (d_state s)) as [st b].
  cbn [fst] in Hf. assert (K : ok (if b then exit_with (Return 1) else set_mode DM.LEN)) by ok.
  apply K. by split.
Qed.
Lemma ok_LIT : ok h_LIT.
Proof. apply ok_tally. intros. by apply tally_lit_buffer. Qed.
Lemma ok_MATCH : ok h_MATCH.
Proof. apply ok_tally. intros. by apply tally_dist_buffer. Qed.
#[export] Hint Resolve ok_HEAD ok_DONE ok_ENDOFBLOCK ok_LIT ok_MATCH : keeps.
Lemma ok_INS2 : ok h_INS2.
Proof. unfold h_INS2. ok. Qed.
#[export] Hint Resolve ok_INS2 : keeps.
Lemma ok_INS1 : ok h_INS1.
Proof. unfold h_INS1. ok. Qed.
#[export] Hint Resolve ok_INS1 : keeps.
Lemma ok_LEN : ok h_LEN.
Proof. unfold h_LEN. ok. Qed.
#[export] Hint Resolve ok_LEN : keeps.
Lemma ok_LEN_ : ok h_LEN_.
Proof. unfold h_LEN_. ok. Qed.
Lemma ok_SKPI : ok h_SKPI_HEADER_END.
Proof. unfold h_SKPI_HEADER_END. ok. Qed.
#[export] Hint Resolve ok_LEN_ ok_SKPI : keeps.
Lemma put_lens_buffer n len st : buffer_ok st -> buffer_ok (put_lens n len st).
Proof. revert st. induction n as [|n IH]; intros st H; [done|]. cbn [put_lens]. by apply IH. Qed.
Lemma zero_lens_buffer n st : buffer_ok st -> buffer_ok (zero_lens n st).
Proof. revert st. induction n as [|n IH]; intros st H; [done|]. cbn [zero_lens]. destruct (_ <? _); [by apply IH|done]. Qed.
Lemma ok_put_lens n len : ok (upd (put_lens n len)).
Proof. apply ok_upd. intros st H. by apply put_lens_buffer. Qed.
Lemma ok_zero_lens n : ok (upd (zero_lens n)).
Proof. apply ok_upd. intros st H. by apply zero_lens_buffer. Qed.
#[export] Hint Resolve ok_put_lens ok_zero_lens : keeps.
Lemma ok_codelens_turn : ok codelens_turn.
Proof.
  unfold codelens_turn. apply keeps_bind; [apply keeps_gets|intros st]. apply keeps_if; [|ok].
  apply keeps_bind; [ok|intros here]. apply keeps_if; [ok|]. apply keeps_bind; [apply keeps_gets|intros st']. apply keeps_bind; [ok|].
  intros [[len copy]|]; [|ok]. apply keeps_if; [ok|]. apply keeps_bind; [apply ok_put_lens|]. intros _. ok.
Qed.
#[export] Hint Resolve ok_codelens_turn : keeps.
Lemma ok_build_table type off n nbits set_bits tree set_tree :
  (forall b st, pending_buf (set_bits b st) = pending_buf st) -> (forall t st, pending_buf (set_tree t st) = pending_buf st) ->
  ok (build_table type off n nbits set_bits tree set_tree).
Proof.
  intros Hb Ht. unfold build_table. apply keeps_bind; [apply keeps_gets|intros st]. destruct (inflate_table_my _ _ _ _ _ _ _ _) as [r|]; [|ok].
  apply keeps_bind; [|intros _; ok]. apply ok_upd. intros st' H. rewrite Ht, Hb. exact H.
Qed.
#[export] Hint Extern 3 (keeps writes_bytes (build_table _ _ _ _ _ _ _)) => (apply ok_build_table; reflexivity) : keeps.
Lemma ok_CODELENS flush : ok (h_CODELENS flush).
Proof.
  unfold h_CODELENS. apply keeps_bind; [apply keeps_repeat, ok_codelens_turn|intros _]. apply keeps_bind; [apply keeps_gets|intros st].
  destruct (bool_decide _); [apply keeps_ret|]. ok.
Qed.
#[export] Hint Resolve ok_CODELENS : keeps.
Lemma ok_lenlens_turn : ok lenlens_turn.
Proof. unfold lenlens_turn. ok. Qed.
#[export] Hint Resolve ok_lenlens_turn : keeps.
Lemma ok_LENLENS flush : ok (h_LENLENS flush).
Proof. unfold h_LENLENS. ok. Qed.
#[export] Hint Resolve ok_LENLENS : keeps.
Lemma ok_TABLE flush : ok (h_TABLE flush).
Proof. unfold h_TABLE. ok. Qed.
Lemma ok_COPY : ok h_COPY.
Proof.
  unfold h_COPY. apply keeps_bind; [apply keeps_gets|intros st]. apply keeps_if; [|ok]. apply keeps_bind_gets.
  intros s (A & B & C). change (id s) with s. cbv zeta. destruct (_ =? 0); [by split|]. unfold upd. rewrite !bind_modify.
  split; [by apply Forall_drop|]. split; [|done]. apply cells_write; [exact B|]. by apply Forall_take.
Qed.
#[export] Hint Resolve ok_COPY : keeps.
Lemma ok_COPY_ : ok h_COPY_.
Proof. unfold h_COPY_. ok. Qed.
Lemma ok_STORED : ok h_STORED.
Proof. unfold h_STORED. ok. Qed.
Lemma ok_TYPEDO flush : ok (h_TYPEDO flush).
Proof. unfold h_TYPEDO. ok. Qed.
#[export] Hint Resolve ok_TYPEDO ok_TABLE ok_COPY_ ok_STORED : keeps.
Lemma ok_TYPE flush : ok (h_TYPE flush).
Proof. unfold h_TYPE. ok. Qed.
#[export] Hint Resolve ok_TYPE : keeps.
Lemma ok_BAD : ok h_BAD.
Proof. unfold h_BAD. ok. Qed.
#[export] Hint Resolve ok_BAD : keeps.
Lemma ok_dispatch flush : ok (dispatch flush).
Proof.
  unfold dispatch. apply keeps_bind; [apply keeps_gets|intros m]. destruct m; auto with keeps.
Qed.

(** ** One call *)

Section Call.
Context (indet : ins_locals -> ins_locals) (out0 : Z).

Lemma ok_turn flush : ok (turn indet flush).
Proof. intros s (A & B & C). apply ok_dispatch. by split. Qed.

Lemma deflate_my_bytes zs st g l flush zs' st' g' ret :
  bytes_ok (next_in zs) -> buffer_ok st -> out_ok zs -> deflate_my indet out0 zs st g l flush = Some (zs', st', g', ret) ->
  buffer_ok st' /\ out_ok zs'.
Proof.
  intros Hi Hb Ho. unfold deflate_my. destruct (_ || _); [intros [= <- <- _ _]; done|]. cbv zeta.
  set (st1 := if bool_decide _ then _ else _). assert (Hb1 : buffer_ok st1) by (subst st1; by destruct (bool_decide _)).
  match goal with |- context [run indet (deflate_fuel ?x) flush ?x] => set (s := x) end.
  assert (Hs : writes_bytes s) by by split. pose proof (keeps_forever writes_bytes (turn indet flush) (deflate_fuel s) s (ok_turn flush) Hs) as K.
  change (forever (turn indet flush) (deflate_fuel s) s) with (run indet (deflate_fuel s) flush s) in K.
  clearbody s. destruct (run indet (deflate_fuel s) flush s) as [s1 e]. destruct K as (A & B & C). cbn [fst] in A, B, C.
  destruct e as [|r|]; [|intros [= <- <- _ _]; done|done].
  destruct (inf_leave flush s1) as [s2 r] eqn:E. unfold inf_leave in E. cbv zeta in E. injection E as <- _. intros [= <- <- _ _]. done.
Qed.

Lemma j_deflate_bytes zs st g l flush zs' st' g' ret :
  bytes_ok (next_in zs) -> buffer_ok st -> out_ok zs ->
  j_deflate indet out0 zs (Some st) g l flush = Some (zs', Some st', g', ret) -> buffer_ok st' /\ out_ok zs'.
Proof.
  intros Hi Hb Ho. unfold j_deflate. destruct (_ || _); [intros [= <- <- _ _]; done|].
  destruct (_ || _); [intros [= <- <- _ _]; done|]. destruct (_ =? _); [intros [= <- <- _ _]; done|]. cbv zeta.
  assert (G : forall zs1 st1, bytes_ok (next_in zs1) -> buffer_ok st1 -> out_ok zs1 ->
    match deflate_my indet out0 zs1 st1 g l flush with
    | None => None
    | Some (zs, s, g, ret) =>
        if negb (ret =? Z_OK) && negb (ret =? Z_STREAM_END) then Some (zs, Some s, g, ret)
        else Some (zs, Some s, g, if negb (pending s =? 0) then Z_OK else Z_STREAM_END)
    end = Some (zs', Some st', g', ret) -> buffer_ok st' /\ out_ok zs').
  { intros zs1 st1 H1 H2 H3 E. destruct (deflate_my indet out0 zs1 st1 g l flush) as [[[[zs2 st2] g2] r]|] eqn:D; [|done].
    destruct (deflate_my_bytes _ _ _ _ _ _ _ _ _ H1 H2 H3 D) as [P Q]. destruct (_ && _); injection E as <- <- _ _; done. }
  set (st1 := st <| last_flush := flush |>). assert (Hb1 : buffer_ok st1) by done. clearbody st1.
  destruct (negb _).
  - destruct (flush_pending_bytes zs st1 Hb1 Ho) as (D & E & F). destruct (flush_pending zs st1) as [zs2 st2]. cbn [fst snd] in D, E, F.
    destruct (_ =? _); [intros [= <- <- _ _]; done|]. apply G; [by rewrite F|done|done].
  - destruct (_ && _); [intros [= <- <- _ _]; done|]. by apply G.
Qed.
End Call.

