(* ===== verification/Fastpath.v ===== *)
(** * The fast decoding loop on a block (partial/libz_j/inffast.c)

    [inflate_fast] decodes symbols of a block from tables for its code trees, and
    writes their instructions: it reads only bytes of the input, gives back the
    bytes it does not need, and stops in the middle of the block or behind its end
    code. *)
From S2P Require Import Prelude DeflateTables Inftrees Zlib Trees Format Bitstream InflateState Inffast Inflate Codebook.

(** ** The loop's variables as a bit reader *)

Section Reader.
Context (input : list Z).
Abbreviation len := (Z.of_nat (length input)).

Definition rdr (s : fast) : reader := mk_reader (drop (Z.to_nat (f_in s)) input) (f_hold s) (f_bits s).
Definition fstream (s : fast) : list bool := stream (rdr s).
Definition pos (s : fast) : Z := 8 * f_in s - f_bits s.
Record fast_ok (s : fast) : Prop := {
  fo_reader : reader_ok (rdr s);
  fo_in : 0 <= f_in s <= len }.
(** what only the writes change *)
Definition fouts (s : fast) : list Z * option IM.inflate_mode * option String.string := (f_put s, f_mode s, f_msg s).

(** [s'] is [s] with more of the input in [f_hold] *)
Record fmore (s s' : fast) : Prop := {
  fm_ok : fast_ok s';
  fm_stream : fstream s' = fstream s;
  fm_outs : fouts s' = fouts s;
  fm_pos : pos s' = pos s;
  fm_bits : f_bits s <= f_bits s' }.
Lemma fmore_refl s : fast_ok s -> fmore s s.
Proof. intros. split; [done..|lia]. Qed.
Lemma fmore_trans s1 s2 s3 : fmore s1 s2 -> fmore s2 s3 -> fmore s1 s3.
Proof. intros [A B C D E] [F G H I J]. split; [done|congruence|congruence|congruence|lia]. Qed.

Lemma fast_pull_spec s :
  fast_ok s -> f_in s < len -> f_bits s <= 56 -> fmore s (fast_pull input s) /\ f_bits (fast_pull input s) = f_bits s + 8.
Proof.
  intros [Hr Hi] Hlt Hb.
  assert (En : rd_next (rdr s) = tget 0 input (f_in s) :: drop (Z.to_nat (f_in s + 1)) input).
  { change (drop (Z.to_nat (f_in s)) input = tget 0 input (f_in s) :: drop (Z.to_nat (f_in s + 1)) input).
    unfold tget. destruct (Z.ltb_spec (f_in s) 0); [lia|].
    replace (Z.to_nat (f_in s + 1)) with (S (Z.to_nat (f_in s))) by lia.
    apply drop_S. 
    destruct (nth_lookup_or_length input (Z.to_nat (f_in s)) 0) as [->|]; [done|lia]. }
  destruct (pullbyte_spec (rdr s) _ _ Hr Hb En) as (s' & E & Hok & Hs & _ & Hn & Hb').
  assert (Es : s' = rdr (fast_pull input s)).
  { unfold PULLBYTE in E. rewrite En in E. injection E as <-. unfold rdr, fast_pull. reflexivity. }
  subst s'. assert (Eb : f_bits (fast_pull input s) = f_bits s + 8) by exact Hb'.
  assert (Ei : f_in (fast_pull input s) = f_in s + 1) by reflexivity.
  split; [|exact Eb]. split; [|exact Hs|done|unfold pos; rewrite Eb, Ei; lia|rewrite Eb; lia].
  split; [done|]. rewrite Ei. lia.
Qed.

Lemma pull_below_spec n s :
  fast_ok s -> 0 <= n <= 15 -> pos s + n <= 8 * len ->
  fmore s (pull_below input n s) /\ (n <= 8 -> n <= f_bits (pull_below input n s))
  /\ f_bits (pull_below input n s) <= Z.max (f_bits s) (n + 7) /\ Z.min n (f_bits s + 8) <= f_bits (pull_below input n s).
Proof.
  intros Hok Hn Hp. unfold pull_below. pose proof (ro_bits _ (fo_reader _ Hok)) as Hb. cbn in Hb.
  destruct (Z.ltb_spec (f_bits s) n) as [Hlt|Hge].
  - destruct (fast_pull_spec s Hok) as [M E]; [unfold pos in Hp; lia|lia|]. rewrite E. split; [done|]. lia.
  - split; [by apply fmore_refl|]. lia.
Qed.
Lemma pull15_spec s :
  fast_ok s -> pos s + 23 <= 8 * len ->
  fmore s (pull15 input s) /\ 15 <= f_bits (pull15 input s) <= Z.max (f_bits s) 30.
Proof.
  intros Hok Hp. unfold pull15. pose proof (ro_bits _ (fo_reader _ Hok)) as Hb. cbn in Hb.
  destruct (Z.ltb_spec (f_bits s) 15) as [Hlt|Hge]; [|split; [by apply fmore_refl|lia]].
  destruct (fast_pull_spec s Hok) as [M1 E1]; [unfold pos in Hp; lia|lia|].
  destruct (fast_pull_spec (fast_pull input s) (fm_ok _ _ M1)) as [M2 E2];
    [pose proof (fm_pos _ _ M1); unfold pos in *; lia|lia|].
  split; [by eapply fmore_trans|]. lia.
Qed.

(** dropping bits *)
Lemma fast_drop_spec n s w rest :
  fast_ok s -> fstream s = w ++ rest -> Z.of_nat (length w) = n -> n <= f_bits s ->
  let s' := fast_drop n s in
  fast_ok s' /\ fstream s' = rest /\ fouts s' = fouts s /\ pos s' = pos s + n /\ f_bits s' = f_bits s - n.
Proof.
  intros [Hr Hi] Hs Hn Hle s'. destruct (drop_bits_spec n (rdr s) Hr) as (t & E & Hok & Ht & _ & _ & Hb); [cbn; lia|].
  assert (Es : t = rdr s') by (unfold drop_bits, modify in E; injection E as <-; reflexivity). subst t.
  split; [by split|]. unfold fstream in *. rewrite Ht, Hs, drop_app_length' by lia. split; [done|]. split; [done|].
  assert (Eb : f_bits s' = f_bits s - n) by exact Hb. split; [|exact Eb].
  unfold pos. rewrite Eb. change (f_in s') with (f_in s). lia.
Qed.

(** the low bits of [f_hold] *)
Lemma fast_hold n s : fast_ok s -> 0 <= n <= f_bits s -> Z.land (f_hold s) (2 ^ n - 1) = value (rdr s) mod 2 ^ n.
Proof. intros [Hr _] Hn. rewrite land_ones_mod by lia. exact (hold_mod n (rdr s) Hr Hn). Qed.
Lemma fast_low n s v rest :
  fast_ok s -> fstream s = bits_of (Z.to_nat n) v ++ rest -> 0 <= n <= f_bits s -> n <= 32 -> 0 <= v < 2 ^ n ->
  low_bits (f_hold s) n = v.
Proof.
  intros Hok Hs Hn H32 Hv. unfold low_bits. rewrite land_ones_mod by lia. unfold u32. rewrite mod_pow_le by lia.
  pose proof (fast_hold n s Hok ltac:(lia)) as E. rewrite land_ones_mod in E by lia. rewrite E.
  pose proof (value_app (rdr s) _ _ Hs) as V. rewrite length_bits_of, val_of_bits_of, Z2Nat.id in V by lia.
  rewrite V. by apply Z.mod_small.
Qed.
Lemma fast_put l s : fast_ok s -> fast_ok (fast_write l s).
Proof. intros [A B]. by split. Qed.
End Reader.

(** ** Codes of the block *)

Section Symbols.
Context (input : list Z) (lcode dcode : Z -> code) (lroot droot : Z) (lt dt : Z -> ct_data).
Context (Hl : table_for lcode lroot lt 286 lit_entry) (Hd : table_for dcode droot dt 30 dist_entry).
Context (Hlt : tree_ok lt) (Hdt : tree_ok dt).
Abbreviation len := (Z.of_nat (length input)).
Abbreviation fstream := (fstream input).
Abbreviation fast_ok := (fast_ok input).
Abbreviation fmore := (fmore input).
Abbreviation rdr := (rdr input).
Abbreviation dodist := (dodist input dcode).
Abbreviation dolen := (dolen input lcode dcode (2 ^ droot - 1)).

(** the first entry looked up *)
Lemma fast_first at_ root s :
  table_ok at_ root -> fast_ok s -> 15 <= f_bits s ->
  at_ (Z.land (f_hold s) (2 ^ root - 1)) = first_level at_ root (value (rdr s)).
Proof. intros Ht Hok Hb. pose proof (tb_root _ _ Ht). by rewrite (fast_hold input) by (done || lia). Qed.
(** the entry a link leads to *)
Lemma fast_second at_ root s (v := value (rdr s)) :
  table_ok at_ root -> fast_ok s -> 15 <= f_bits s -> is_link (first_level at_ root v) ->
  root + op (first_level at_ root v) <= 15 ->
  at_ (fast_link (first_level at_ root v) (fast_drop root s)) = second_level at_ root v.
Proof.
  intros Ht Hok Hb Hlk Ho. pose proof (tb_root _ _ Ht). unfold is_link in Hlk.
  unfold second_level, fast_link. cbv zeta. do 2 f_equal. set (o := op _) in *.
  change (f_hold (fast_drop root s)) with (Z.shiftr (f_hold s) root). rewrite Z.shiftr_div_pow2, land_ones_mod by lia.
  rewrite !div_mod_pow by lia. f_equal. exact (hold_mod (root + o) (rdr s) (fo_reader _ _ Hok) ltac:(cbn; lia)).
Qed.

(** the extra bits and the write of a distance *)
Lemma dodist_base k n b e x l s w rest :
  fast_ok s -> fstream s = w ++ bits_of (Z.to_nat e) x ++ rest -> Z.of_nat (length w) = n -> n <= f_bits s ->
  0 <= e <= 13 -> 0 <= x < 2 ^ e -> pos s + n + e <= 8 * len ->
  exists s', dodist (S k) (mk_code (16 + e) n b) l s = Some (false, fast_write (ins_match (b + x) l) s')
    /\ fast_ok s' /\ fstream s' = rest /\ fouts s' = fouts s /\ pos s' = pos s + n + e.
Proof.
  intros Hok Hs Hw Hn He Hx Hp. cbn [Inffast.dodist cbits op val].
  destruct (fast_drop_spec input n s w _ Hok Hs Hw Hn) as (O1 & S1 & F1 & P1 & B1). set (s1 := fast_drop n s) in *. clearbody s1.
  assert (E16 : negb (Z.land (16 + e) 16 =? 0) = true /\ Z.land (16 + e) 15 = e).
  { assert (A : all_below 14 (fun e => negb (Z.land (16 + e) 16 =? 0) && (Z.land (16 + e) 15 =? e)) = true) by (vm_compute; reflexivity).
    pose proof (all_below_spec _ _ A e ltac:(lia)) as B. cbv beta in B. apply andb_true_iff in B as [B C].
    split; [exact B|]. by apply Z.eqb_eq in C. }
  destruct E16 as [-> ->].
  assert (X : exists s2, (if f_bits s1 <? e then pull_below input e (fast_pull input s1) else s1) = s2
    /\ fmore s1 s2 /\ e <= f_bits s2).
  { eexists. split; [reflexivity|]. pose proof (ro_bits _ (fo_reader _ _ O1)) as Hb. cbn in Hb.
    destruct (Z.ltb_spec (f_bits s1) e) as [Hlt'|Hge]; [|split; [by apply fmore_refl|done]].
    destruct (fast_pull_spec input s1 O1) as [M1 E1]; [unfold pos in *; lia|lia|].
    destruct (pull_below_spec input e (fast_pull input s1) (fm_ok _ _ _ M1)) as (M2 & _ & _ & B2);
      [lia|rewrite (fm_pos _ _ _ M1); lia|]. split; [by eapply fmore_trans|]. lia. }
  destruct X as (s2 & -> & [O2 S2 F2 P2 _] & B2).
  rewrite (fast_low input e s2 x rest); [|done|congruence|lia|lia|lia].
  destruct (fast_drop_spec input e s2 (bits_of (Z.to_nat e) x) rest O2) as (O3 & S3 & F3 & P3 & _);
    [congruence|rewrite length_bits_of; lia|lia|].
  eexists. split; [reflexivity|]. split; [done|]. split; [done|]. split; [congruence|]. lia.
Qed.

(** a code split at the first level *)
Lemma code_split t c m :
  tree_ok t -> 0 <= m <= dl (t c) ->
  exists w1 w2, code_bits (t c) = w1 ++ w2 /\ Z.of_nat (length w1) = m /\ Z.of_nat (length w2) = dl (t c) - m.
Proof.
  intros Ht Hm. unfold code_bits. exists (bits_of (Z.to_nat m) (fc (t c))), (bits_of (Z.to_nat (dl (t c) - m)) (Z.shiftr (fc (t c)) (Z.of_nat (Z.to_nat m)))).
  rewrite <- bits_of_add, !length_bits_of. split; [f_equal; lia|]. lia.
Qed.
Lemma link_op h : is_link h -> Z.land (op h) 16 = 0 /\ Z.land (op h) 64 = 0 /\ op h <> 0.
Proof.
  unfold is_link. intros H.
  assert (A : all_below 16 (fun o => (Z.land o 16 =? 0) && (Z.land o 64 =? 0)) = true) by (vm_compute; reflexivity).
  pose proof (all_below_spec _ _ A (op h) ltac:(lia)) as B. cbv beta in B. apply andb_true_iff in B as [B C].
  apply Z.eqb_eq in B, C. split_and!; (done || lia).
Qed.

(** the walk through the levels of a table: [step] is what [dodist] or [dolen] do with an entry *)
Lemma fast_walk {R} (at_ : Z -> code) root t n entry (step : nat -> code -> fast -> option R) c s rest :
  table_for at_ root t n entry -> tree_ok t -> 0 <= c < n -> 0 < dl (t c) ->
  fast_ok s -> 15 <= f_bits s -> fstream s = code_bits (t c) ++ rest ->
  (forall k h s, is_link h -> step (S k) h s = step k (at_ (fast_link h (fast_drop (cbits h) s))) (fast_drop (cbits h) s)) ->
  exists k m w s', step 16%nat (at_ (Z.land (f_hold s) (2 ^ root - 1))) s = step (S k) (mk_code (entry c).1 m (entry c).2) s'
    /\ fast_ok s' /\ fstream s' = w ++ rest /\ Z.of_nat (length w) = m /\ m <= f_bits s' /\ fouts s' = fouts s
    /\ pos s' + m = pos s + dl (t c) /\ f_bits s - 15 <= f_bits s' - m.
Proof.
  intros Ht Hto Hc Hd0 Hok Hb Hs Hstep. pose proof (tf_ok _ _ _ _ _ Ht) as Htb.
  rewrite (fast_first at_ root s Htb Hok Hb).
  pose proof (code_value (rdr s) t c rest Hto Hs) as Hv.
  pose proof (table_find at_ root t n entry c _ Ht Hto Hc Hd0 Hv) as Hf. destruct (Hto c) as [Hl15 _].
  destruct (find_cases _ _ _ _ _ _ Htb Hf) as [[_ E]|(Hlk & Hcb & Ho & Hn & E)].
  - rewrite E. exists 15%nat, (dl (t c)), (code_bits (t c)), s. split; [done|]. split; [done|]. split; [done|].
    split; [by apply code_bits_length|]. split; [lia|]. split; [done|]. lia.
  - rewrite Hstep by done. rewrite Hcb, (fast_second at_ root s Htb Hok Hb Hlk Ho), E.
    pose proof (tb_root _ _ Htb). destruct (code_split t c root Hto ltac:(lia)) as (w1 & w2 & Ew & L1 & L2).
    rewrite Ew, <- app_assoc in Hs. destruct (fast_drop_spec input root s w1 _ Hok Hs L1) as (O1 & S1 & F1 & P1 & B1); [lia|].
    exists 14%nat, (dl (t c) - root), w2, (fast_drop root s). split; [done|]. split; [done|]. split; [done|]. split; [done|].
    split; [unfold is_link in Hlk; lia|]. split; [done|]. lia.
Qed.

Lemma dodist_spec s c x l rest (e := tget 0 extra_dbits c) :
  fast_ok s -> 15 <= f_bits s -> 0 <= c < 30 -> 0 < dl (dt c) -> 0 <= e <= 13 -> 0 <= x < 2 ^ e ->
  fstream s = code_bits (dt c) ++ bits_of (Z.to_nat e) x ++ rest -> pos s + dl (dt c) + e <= 8 * len ->
  exists s', dodist 16 (dcode (Z.land (f_hold s) (2 ^ droot - 1))) l s
      = Some (false, fast_write (ins_match (tget 0 dbase c + x) l) s')
    /\ fast_ok s' /\ fstream s' = rest /\ fouts s' = fouts s /\ pos s' = pos s + dl (dt c) + e.
Proof.
  intros Hok Hb Hc Hd0 He Hx Hs Hp.
  destruct (fast_walk dcode droot dt 30 dist_entry (fun k h s => dodist k h l s) c s _ Hd Hdt Hc Hd0 Hok Hb Hs)
    as (k & m & w & s1 & E & O1 & S1 & L1 & B1 & F1 & P1 & _).
  { intros k h s1 Hlk. destruct (link_op h Hlk) as (A & B & _). cbn [Inffast.dodist]. cbv zeta. by rewrite A, B. }
  destruct (dist_entry_spec c Hc) as [Eo Ev]. unfold dist_entry in E. cbn [fst snd] in E. rewrite Eo in E. fold e in E.
  destruct (dodist_base k m (tget 0 dbase c) e x l s1 w rest) as (s2 & E2 & O2 & S2 & F2 & P2); try done; [lia|].
  exists s2. cbv beta in E. rewrite E, E2. split; [done|]. split; [done|]. split; [done|]. split; [congruence|]. lia.
Qed.

(** ** Symbols *)

Lemma dolen_walk c s rest :
  0 <= c < 286 -> 0 < dl (lt c) -> fast_ok s -> 15 <= f_bits s -> fstream s = code_bits (lt c) ++ rest ->
  exists k m w s', dolen 16 (lcode (Z.land (f_hold s) (2 ^ lroot - 1))) s
      = dolen (S k) (mk_code (lit_entry c).1 m (lit_entry c).2) s'
    /\ fast_ok s' /\ fstream s' = w ++ rest /\ Z.of_nat (length w) = m /\ m <= f_bits s' /\ fouts s' = fouts s
    /\ pos s' + m = pos s + dl (lt c) /\ f_bits s - 15 <= f_bits s' - m.
Proof.
  intros Hc Hd0 Hok Hb Hs.
  apply (fast_walk lcode lroot lt 286 lit_entry (fun k h s => dolen k h s) c s rest Hl Hlt Hc Hd0 Hok Hb Hs).
  intros k h s1 Hlk. destruct (link_op h Hlk) as (A & B & C). cbn [Inffast.dolen]. cbv zeta.
  destruct (Z.eqb_spec (op h) 0); [done|]. by rewrite A, B.
Qed.

Lemma dolen_lit b s rest :
  is_byte b -> 0 < dl (lt b) -> fast_ok s -> 15 <= f_bits s -> fstream s = code_bits (lt b) ++ rest ->
  exists s', dolen 16 (lcode (Z.land (f_hold s) (2 ^ lroot - 1))) s = Some (false, fast_write (ins_literal b) s')
    /\ fast_ok s' /\ fstream s' = rest /\ fouts s' = fouts s /\ pos s' = pos s + dl (lt b).
Proof.
  intros Hb Hd0 Hok H15 Hs. unfold is_byte in Hb.
  destruct (dolen_walk b s rest) as (k & m & w & s1 & E & O1 & S1 & L1 & B1 & F1 & P1 & _); try done; [lia|].
  rewrite E. unfold lit_entry. destruct (Z.ltb_spec b 256); [|lia]. cbn [fst snd Inffast.dolen cbits op val]. cbv zeta.
  change (0 =? 0) with true. cbv iota. destruct (fast_drop_spec input m s1 w rest O1 S1 L1 B1) as (O2 & S2 & F2 & P2 & _).
  eexists. split; [reflexivity|]. split; [done|]. split; [done|]. split; [congruence|]. lia.
Qed.
Lemma dolen_end s rest :
  0 < dl (lt END_BLOCK) -> fast_ok s -> 15 <= f_bits s -> fstream s = code_bits (lt END_BLOCK) ++ rest ->
  exists s', dolen 16 (lcode (Z.land (f_hold s) (2 ^ lroot - 1))) s
      = Some (true, fast_write ins_end (s' <| f_mode := Some IM.TYPE |>))
    /\ fast_ok s' /\ fstream s' = rest /\ fouts s' = fouts s /\ pos s' = pos s + dl (lt END_BLOCK).
Proof.
  intros Hd0 Hok H15 Hs.
  destruct (dolen_walk END_BLOCK s rest) as (k & m & w & s1 & E & O1 & S1 & L1 & B1 & F1 & P1 & _);
    try done.
  rewrite E. change (lit_entry END_BLOCK) with (96, 0). cbn [fst snd Inffast.dolen cbits op val]. cbv zeta.
  change (96 =? 0) with false. change (negb (Z.land 96 16 =? 0)) with false. change (Z.land 96 64 =? 0) with false.
  change (negb (Z.land 96 32 =? 0)) with true. cbv iota.
  destruct (fast_drop_spec input m s1 w rest O1 S1 L1 B1) as (O2 & S2 & F2 & P2 & _).
  eexists. split; [reflexivity|]. split; [done|]. split; [done|]. split; [congruence|]. lia.
Qed.

(** the extra bits of a length *)
Lemma len_extra e x b s rest :
  fast_ok s -> fstream s = bits_of (Z.to_nat e) x ++ rest -> 0 <= e <= 5 -> 0 <= x < 2 ^ e ->
  pos s + e <= 8 * len ->
  exists s', (if negb (e =? 0) then
                let s := pull_below input e s in (b + low_bits (f_hold s) e, fast_drop e s)
              else (b, s)) = (b + x, s')
    /\ fast_ok s' /\ fstream s' = rest /\ fouts s' = fouts s /\ pos s' = pos s + e.
Proof.
  intros Hok Hs He Hx Hp. destruct (Z.eqb_spec e 0) as [->|Hne]; cbn [negb].
  - exists s. replace x with 0 by (change (2 ^ 0) with 1 in Hx; lia). rewrite Z.add_0_r. split; [done|]. split; [done|].
    split; [exact Hs|]. split; [done|]. lia.
  - destruct (pull_below_spec input e s Hok) as ([O1 S1 F1 P1 _] & B1 & _ & _); [lia|lia|].
    specialize (B1 ltac:(lia)). cbv zeta. set (s1 := pull_below input e s) in *. clearbody s1.
    rewrite (fast_low input e s1 x rest); [|done|by rewrite S1|lia|lia|lia].
    destruct (fast_drop_spec input e s1 (bits_of (Z.to_nat e) x) rest O1) as (O2 & S2 & F2 & P2 & _);
      [by rewrite S1|rewrite length_bits_of; lia|lia|].
    eexists. split; [reflexivity|]. split; [done|]. split; [done|]. split; [congruence|]. lia.
Qed.

(** the value of the extra bits, zero when there are none *)
Definition extra_value (e x : Z) : Z := if e =? 0 then 0 else x.
Lemma extra_bits e x : bits_of (Z.to_nat e) x = bits_of (Z.to_nat e) (extra_value e x).
Proof. unfold extra_value. by destruct (Z.eqb_spec e 0) as [->|]. Qed.
Lemma extra_range e x : 0 <= e -> (e <> 0 -> 0 <= x < 2 ^ e) -> 0 <= extra_value e x < 2 ^ e.
Proof. unfold extra_value. intros He H. destruct (Z.eqb_spec e 0) as [->|Hn]; [lia|by apply H]. Qed.

(** a match's codes and extra bits *)
Record match_codes (dist n : Z) (lc dc el ed xl xd : Z) : Prop := {
  mc_lc : 0 <= lc < 29;
  mc_dc : 0 <= dc < 30;
  mc_el : 0 <= el <= 5;
  mc_ed : 0 <= ed <= 13;
  mc_xl : 0 <= xl < 2 ^ el;
  mc_xd : 0 <= xd < 2 ^ ed;
  mc_len : lit_entry (lc + LITERALS + 1) = (16 + el, n - xl);
  mc_dist : dist_entry dc = (16 + ed, dist - xd);
  mc_eld : ed = tget 0 extra_dbits dc;
  mc_bits : sym_bits lt dt (Match dist n) =
    code_bits (lt (lc + LITERALS + 1)) ++ bits_of (Z.to_nat el) xl ++ code_bits (dt dc) ++ bits_of (Z.to_nat ed) xd }.
Lemma match_codes_ok dist n :
  symbol_ok (Match dist n) ->
  exists el ed xl xd, match_codes dist n (length_code n) (dist_code dist) el ed xl xd.
Proof.
  intros [Hdist Hn]. unfold MIN_MATCH, MAX_MATCH in Hn.
  assert (Hb : is_byte (n - MIN_MATCH)) by (unfold is_byte, MIN_MATCH; lia).
  destruct (length_code_spec _ Hb) as (A & B & C). destruct (length_entry _ Hb) as [D E].
  destruct (dist_code_spec (dist - 1) ltac:(lia)) as (F & G & H).
  fold (length_code n) in *. fold (dist_code dist) in *. unfold LENGTH_CODES, D_CODES in *.
  destruct (dist_entry_spec (dist_code dist) ltac:(lia)) as [I J].
  set (el := tget 0 extra_lbits (length_code n)) in *. set (ed := tget 0 extra_dbits (dist_code dist)) in *.
  exists el, ed, (extra_value el (n - MIN_MATCH - tget 0 base_length (length_code n))),
    (extra_value ed (dist - 1 - tget 0 base_dist (dist_code dist))).
  split; try lia.
  - apply extra_range; [lia|done].
  - apply extra_range; [lia|done].
  - unfold lit_entry, LITERALS. destruct (Z.ltb_spec (length_code n + 256 + 1) 256); [lia|].
    destruct (Z.eqb_spec (length_code n + 256 + 1) 256); [lia|].
    replace (length_code n + 256 + 1 - 257) with (length_code n) by lia. rewrite D. f_equal.
    unfold extra_value, MIN_MATCH in *. lia.
  - unfold dist_entry. rewrite I, J. f_equal. unfold extra_value. destruct (Z.eqb_spec ed 0) as [E0|]; [|lia].
    pose proof (dist_no_extra (dist - 1) ltac:(lia) E0). fold (dist_code dist) in *. lia.
  - cbn [sym_bits]. cbv zeta. fold el. fold ed. by rewrite <- !extra_bits.
Qed.

Lemma dolen_match dist n s rest :
  symbol_ok (Match dist n) -> has_codes lt dt (Match dist n) -> fast_ok s -> 15 <= f_bits s ->
  fstream s = sym_bits lt dt (Match dist n) ++ rest -> pos s + 48 <= 8 * len ->
  exists s', dolen 16 (lcode (Z.land (f_hold s) (2 ^ lroot - 1))) s = Some (false, fast_write (ins_match dist n) s')
    /\ fast_ok s' /\ fstream s' = rest /\ fouts s' = fouts s
    /\ pos s' = pos s + Z.of_nat (length (sym_bits lt dt (Match dist n))).
Proof.
  intros Hx [Hcl Hcd] Hok H15 Hs Hp. destruct (match_codes_ok dist n Hx) as (el & ed & xl & xd & M).
  set (lc := length_code n) in *. set (dc := dist_code dist) in *.
  destruct M as [Mlc Mdc Mel Med Mxl Mxd Mlen Mdist Mde Mb]. rewrite Mb in *.
  rewrite <- !app_assoc in Hs. unfold LITERALS in *.
  destruct (dolen_walk (lc + 256 + 1) s _ ltac:(lia) Hcl Hok H15 Hs) as (k & m & w & s1 & E & O1 & S1 & L1 & B1 & F1 & P1 & _).
  rewrite E, Mlen. cbn [fst snd Inffast.dolen cbits op val]. cbv zeta.
  assert (Eop : (16 + el =? 0) = false /\ negb (Z.land (16 + el) 16 =? 0) = true /\ Z.land (16 + el) 15 = el).
  { assert (A : all_below 6 (fun e => negb (16 + e =? 0) && negb (Z.land (16 + e) 16 =? 0) && (Z.land (16 + e) 15 =? e)) = true)
      by (vm_compute; reflexivity).
    pose proof (all_below_spec _ _ A el ltac:(lia)) as B. cbv beta in B. rewrite !andb_true_iff in B.
    destruct B as [[B C] D]. apply negb_true_iff in B. by apply Z.eqb_eq in D. }
  destruct Eop as (-> & -> & ->).
  destruct (Hlt (lc + 256 + 1)) as [Ll _]. destruct (Hdt dc) as [Ld _].
  destruct (fast_drop_spec input m s1 w _ O1 S1 L1 B1) as (O2 & S2 & F2 & P2 & _).
  set (s2 := fast_drop m s1) in *. clearbody s2.
  destruct (len_extra el xl (n - xl) s2 _ O2 S2 Mel Mxl ltac:(lia)) as (s3 & E3 & O3 & S3 & F3 & P3).
  cbv zeta in E3. rewrite E3. replace (n - xl + xl) with n by lia.
  destruct (pull15_spec input s3 O3 ltac:(lia)) as ([O4 S4 F4 P4 _] & B4).
  set (s4 := pull15 input s3) in *. clearbody s4. rewrite Mde in Med, Mxd, Mdist |- *.
  rewrite S3 in S4. rewrite Mde in S4.
  destruct (dodist_spec s4 dc xd n rest O4 (proj1 B4) Mdc Hcd Med Mxd S4) as (s5 & E5 & O5 & S5 & F5 & P5); [lia|].
  unfold dist_entry in Mdist. injection Mdist as _ Mdb. rewrite Mdb in E5. replace (dist - xd + xd) with dist in E5 by lia.
  exists s5. split; [exact E5|]. split; [done|]. split; [done|]. split; [congruence|].
  rewrite !length_app, !length_bits_of, !Nat2Z.inj_add, !code_bits_length by done. lia.
Qed.

(** one symbol in one turn *)
Lemma dolen_symbol x s rest :
  symbol_ok x -> has_codes lt dt x -> fast_ok s -> 15 <= f_bits s ->
  fstream s = sym_bits lt dt x ++ rest -> pos s + 48 <= 8 * len ->
  exists s', dolen 16 (lcode (Z.land (f_hold s) (2 ^ lroot - 1))) s = Some (false, s')
    /\ fast_ok s' /\ fstream s' = rest /\ f_put s' = f_put s ++ instr x /\ f_mode s' = f_mode s /\ f_msg s' = f_msg s
    /\ pos s' = pos s + Z.of_nat (length (sym_bits lt dt x)).
Proof.
  intros Hx Hc Hok H15 Hs Hp. destruct x as [b|dist n].
  - destruct (dolen_lit b s rest Hx Hc Hok H15 Hs) as (s' & E & O & S & F & P). injection F as F1 F2 F3.
    eexists. split; [exact E|]. split; [by apply fast_put|]. split; [exact S|]. cbn [f_put f_mode f_msg fast_write set_field].
    change (sym_bits lt dt (Lit b)) with (code_bits (lt b)). rewrite code_bits_length by done.
    split; [cbn; by rewrite F1|]. split; [exact F2|]. split; [exact F3|]. exact P.
  - destruct (dolen_match dist n s rest Hx Hc Hok H15 Hs Hp) as (s' & E & O & S & F & P). injection F as F1 F2 F3.
    eexists. split; [exact E|]. split; [by apply fast_put|]. split; [exact S|].
    split; [cbn; by rewrite F1|]. split; [exact F2|]. split; [exact F3|]. exact P.
Qed.

(** ** The loop *)

Lemma length_instr x : (1 <= length (instr x) <= 4)%nat.
Proof. destruct x as [b|]; cbn [instr]; [unfold ins_literal; destruct (b =? 0xaa)|unfold ins_match]; cbn; lia. Qed.

(** how far the loop comes in the block [syms]: it decodes [pre], or the whole block *)
Inductive loop_result (syms : list symbol) (rest : list bool) (s s' : fast) : Prop :=
| lr_part pre suf :
    syms = pre ++ suf -> pre <> [] -> fstream s' = block_bits lt dt suf ++ rest ->
    f_put s' = f_put s ++ flat_map instr pre -> f_mode s' = None -> f_msg s' = None ->
    pos s' = pos s + Z.of_nat (length (flat_map (sym_bits lt dt) pre)) -> loop_result syms rest s s'
| lr_all :
    fstream s' = rest -> f_put s' = f_put s ++ instrs syms -> f_mode s' = Some IM.TYPE -> f_msg s' = None ->
    pos s' = pos s + Z.of_nat (length (block_bits lt dt syms)) -> loop_result syms rest s s'.

Lemma fast_loop_spec fuel avail syms rest s :
  Forall symbol_ok syms -> Forall (has_codes lt dt) syms -> 0 < dl (lt END_BLOCK) ->
  fast_ok s -> f_mode s = None -> f_msg s = None -> fstream s = block_bits lt dt syms ++ rest ->
  f_in s + 6 <= len -> Z.of_nat (length (f_put s)) + 258 <= avail -> avail <= Z.of_nat (length (f_put s) + fuel) ->
  exists s', fast_loop input lcode dcode (2 ^ lroot - 1) (2 ^ droot - 1) fuel avail s = Some s'
    /\ fast_ok s' /\ loop_result syms rest s s' /\ Z.of_nat (length (f_put s')) <= avail.
Proof.
  intros Hsy Hco He. revert fuel s. induction syms as [|x syms IH]; intros fuel s Hok Hm Hg Hs Hin Hroom Hfuel.
  all: destruct fuel as [|fuel]; [lia|]; cbn [fast_loop]; cbv zeta.
  all: pose proof (ro_bits _ (fo_reader _ _ Hok)) as Hb; cbn in Hb.
  all: destruct (pull15_spec input s Hok) as ([O1 S1 F1 P1 _] & B1); [unfold pos; lia|].
  all: set (s1 := pull15 input s) in *; clearbody s1; injection F1 as F1 F2 F3; rewrite Hs in S1.
  - unfold block_bits in S1. cbn [flat_map app] in S1.
    destruct (dolen_end s1 rest He O1 (proj1 B1) S1) as (s2 & E & O2 & S2 & G & P2). rewrite E. injection G as G1 G2 G3.
    eexists. split; [reflexivity|]. split; [by apply fast_put; destruct O2; split|]. split.
    + apply lr_all; [exact S2| |done|cbn; congruence|].
      * cbn. rewrite G1, F1. reflexivity.
      * change (pos (fast_write ins_end (s2 <| f_mode := Some IM.TYPE |>))) with (pos s2).
        unfold block_bits. cbn [flat_map app]. rewrite code_bits_length by done. lia.
    + cbn. rewrite length_app, G1, F1. cbn. lia.
  - apply Forall_cons_1 in Hsy as [Hx Hsy]. apply Forall_cons_1 in Hco as [Hcx Hco].
    unfold block_bits in S1. cbn [flat_map] in S1. rewrite <- !app_assoc in S1. rewrite app_assoc in S1 at 1.
    rewrite <- app_assoc in S1.
    destruct (dolen_symbol x s1 _ Hx Hcx O1 (proj1 B1) S1) as (s2 & E & O2 & S2 & U2 & M2 & G2 & P2); [unfold pos in *; lia|].
    rewrite app_assoc in S2. change (flat_map (sym_bits lt dt) syms ++ code_bits (lt END_BLOCK)) with (block_bits lt dt syms) in S2.
    rewrite E. pose proof (length_instr x) as Hlx.
    assert (Hlen : Z.of_nat (length (f_put s2)) = Z.of_nat (length (f_put s)) + Z.of_nat (length (instr x)))
      by (rewrite U2, length_app, F1; lia).
    destruct (Z.ltb_spec (f_in s2) (len - 5)) as [Hi|Hi]; [|cbn [andb]].
    + destruct (Z.ltb_spec (Z.of_nat (length (f_put s2))) (avail - 257)) as [Ho|Ho]; cbn [andb].
      * destruct (IH Hsy Hco fuel s2 O2) as (s' & E' & O' & R & L); [congruence|congruence|done|lia|lia|lia|].
        exists s'. split; [done|]. split; [done|]. split; [|done].
        destruct R as [pre suf -> Hp HS HU HM HG HP|HS HU HM HG HP].
        -- apply (lr_part _ _ _ _ (x :: pre) suf); try done.
           ++ rewrite HU, U2, F1, <- app_assoc. done.
           ++ cbn [flat_map]. rewrite length_app. lia.
        -- apply lr_all; try done.
           ++ rewrite HU, U2, F1, <- app_assoc. unfold instrs. cbn [flat_map]. by rewrite <- app_assoc.
           ++ unfold block_bits in *. cbn [flat_map]. rewrite <- app_assoc, length_app. lia.
      * exists s2. split; [done|]. split; [done|]. split; [|lia].
        apply (lr_part _ _ _ _ [x] syms); try done; [by rewrite U2, F1; cbn; rewrite app_nil_r|congruence|congruence|].
        cbn [flat_map]. rewrite app_nil_r. lia.
    + exists s2. split; [done|]. split; [done|]. split; [|lia].
      apply (lr_part _ _ _ _ [x] syms); try done; [by rewrite U2, F1; cbn; rewrite app_nil_r|congruence|congruence|].
      cbn [flat_map]. rewrite app_nil_r. lia.
Qed.
End Symbols.

(** ** The bytes given back *)

(** the bits held are those of the input up to [f_in]: [T] is the stream at the start, at bit [b0] of a byte *)
Lemma fast_unused_spec input s b0 h0 w :
  fast_ok input s -> 0 <= b0 < 8 -> 0 <= h0 < 2 ^ b0 -> bytes_ok input ->
  bits_of (Z.to_nat b0) h0 ++ bytes_bits input = w ++ fstream input s -> Z.of_nat (length w) = pos s + b0 ->
  let s' := fast_unused s in
  fast_ok input s' /\ fstream input s' = fstream input s /\ fouts s' = fouts s /\ f_bits s' < 8.
Proof.
  intros [Hr Hi] Hb0 Hh0 Hin HT Hw s'. pose proof (ro_bits _ Hr) as Hb. pose proof (ro_hold _ Hr) as Hh. cbn in Hb, Hh.
  unfold pos in Hw. set (q := Z.shiftr (f_bits s) 3) in *.
  assert (Eq : q = f_bits s / 8) by (unfold q; rewrite Z.shiftr_div_pow2 by lia; done).
  assert (Ebits : f_bits s' = f_bits s mod 8).
  { change (f_bits s') with (f_bits s - Z.shiftl q 3). rewrite Z.shiftl_mul_pow2, Eq by lia. change (2 ^ 3) with 8.
    pose proof (Z.div_mod (f_bits s) 8 ltac:(lia)). lia. }
  set (r := f_bits s mod 8) in *. assert (Hr8 : 0 <= r < 8) by (apply Z.mod_pos_bound; lia).
  assert (Hbr : f_bits s = 8 * q + r) by (rewrite Eq; apply Z.div_mod; lia).
  assert (Ein : f_in s' = f_in s - q) by reflexivity.
  assert (Ehold : f_hold s' = f_hold s mod 2 ^ r).
  { change (f_hold s') with (Z.land (f_hold s) (2 ^ (f_bits s') - 1)). rewrite Ebits, land_ones_mod by lia. done. }
  assert (Hq : 0 <= f_in s - q) by lia.
  assert (Hok : fast_ok input s').
  { split; [|rewrite Ein; lia]. split.
    - change (0 <= f_bits s' <= 64). rewrite Ebits. lia.
    - change (0 <= f_hold s' < 2 ^ f_bits s'). rewrite Ehold, Ebits. apply Z.mod_pos_bound. lia.
    - by apply Forall_drop. }
  split; [done|]. split; [|split; [done|rewrite Ebits; lia]].
  change (bits_of (Z.to_nat (f_bits s')) (f_hold s') ++ bytes_bits (drop (Z.to_nat (f_in s')) input)
    = bits_of (Z.to_nat (f_bits s)) (f_hold s) ++ bytes_bits (drop (Z.to_nat (f_in s)) input)).
  rewrite Ebits, Ehold, Ein.
  replace (2 ^ r) with (2 ^ Z.of_nat (Z.to_nat r)) by (rewrite Z2Nat.id; lia). rewrite bits_of_mod.
  rewrite Hbr. replace (Z.to_nat (8 * q + r)) with (Z.to_nat r + Z.to_nat (8 * q))%nat by lia.
  rewrite bits_of_add, <- app_assoc. f_equal.
  (* the whole bytes held are those before [f_in] *)
  apply (f_equal (drop (Z.to_nat (pos s + b0 + r)))) in HT. unfold pos in HT.
  rewrite drop_app_ge in HT by (rewrite length_bits_of; lia). rewrite length_bits_of in HT.
  rewrite drop_app_ge in HT by lia.
  change (fstream input s) with (bits_of (Z.to_nat (f_bits s)) (f_hold s) ++ bytes_bits (drop (Z.to_nat (f_in s)) input)) in HT.
  replace (Z.to_nat (8 * f_in s - f_bits s + b0 + r) - length w)%nat with (Z.to_nat r) in HT by lia.
  rewrite drop_app_le in HT by (rewrite length_bits_of; lia). rewrite bits_of_drop in HT by lia.
  replace (Z.to_nat (f_bits s) - Z.to_nat r)%nat with (Z.to_nat (8 * q)) in HT by lia. rewrite <- HT.
  replace (Z.to_nat (8 * f_in s - f_bits s + b0 + r) - Z.to_nat b0)%nat with (8 * Z.to_nat (f_in s - q))%nat by lia.
  rewrite <- (take_drop (Z.to_nat (f_in s - q)) input) at 2. rewrite bytes_bits_app.
  rewrite drop_app_length'; [done|]. rewrite length_bytes_bits, length_take. lia.
Qed.

(** ** [inflate_fast] *)

(** what a block leaves alone in the state and in the stream *)
Definition inf_ctx (st : inflate_state) :=
  (is_strm st, last_ st, wrap st, flags st, header_flag st, (lencode st, distcode st, lenbits st, distbits st), codes st).
Definition strm_ctx (zs : z_stream) := (next_in_null zs, next_out_null zs, zalloc_set zs, zfree_set zs, zs_addr zs, msg zs).
Definition srdr (zs : z_stream) (st : inflate_state) : reader := mk_reader (next_in zs) (hold st) (bits st).

Lemma inflate_fast_run zs st lt dt syms rest :
  table_for (code_at st (lencode st)) (lenbits st) lt 286 lit_entry ->
  table_for (code_at st (distcode st)) (distbits st) dt 30 dist_entry ->
  tree_ok lt -> tree_ok dt -> Forall symbol_ok syms -> Forall (has_codes lt dt) syms -> 0 < dl (lt END_BLOCK) ->
  reader_ok (srdr zs st) -> bits st < 8 -> stream (srdr zs st) = block_bits lt dt syms ++ rest ->
  (6 <= length (next_in zs))%nat -> 258 <= avail_out zs < 2 ^ 32 ->
  exists zs' st' put, inflate_fast zs st = Some (zs', st')
    /\ reader_ok (srdr zs' st') /\ bits st' < 8 /\ inf_ctx st' = inf_ctx st /\ strm_ctx zs' = strm_ctx zs
    /\ next_out zs' = next_out zs ++ put /\ avail_out zs' = avail_out zs - Z.of_nat (length put)
    /\ Z.of_nat (length put) <= avail_out zs
    /\ ((exists pre suf, syms = pre ++ suf /\ pre <> [] /\ put = flat_map instr pre
           /\ stream (srdr zs' st') = block_bits lt dt suf ++ rest /\ mode st' = mode st)
        \/ (put = instrs syms /\ stream (srdr zs' st') = rest /\ mode st' = IM.TYPE)).
Proof.
  intros Hl Hd Hlt Hdt Hsy Hco He Hr Hb8 Hs Hlen Hav. unfold inflate_fast. cbv zeta.
  set (s0 := mk_fast 0 [] (hold st) (bits st) None None).
  assert (O0 : fast_ok (next_in zs) s0) by (split; [exact Hr|cbn; lia]).
  destruct (fast_loop_spec (next_in zs) _ _ _ _ lt dt Hl Hd Hlt Hdt (Z.to_nat (avail_out zs)) (avail_out zs) syms rest s0)
    as (s & E & O & R & L); try done; [cbn; lia|cbn; lia|cbn; lia|].
  rewrite E. pose proof (ro_bits _ Hr) as Hb0. pose proof (ro_hold _ Hr) as Hh0. pose proof (ro_next _ Hr) as Hby. cbn in Hb0, Hh0, Hby.
  assert (U : fast_ok (next_in zs) (fast_unused s) /\ fstream (next_in zs) (fast_unused s) = fstream (next_in zs) s
    /\ fouts (fast_unused s) = fouts s /\ f_bits (fast_unused s) < 8).
  { destruct R as [pre suf Ey Hp HS HU HM HG HP|HS HU HM HG HP].
    - apply (fast_unused_spec _ s (bits st) (hold st) (flat_map (sym_bits lt dt) pre)); try done; try lia.
      + rewrite HS. etransitivity; [exact Hs|]. rewrite Ey. unfold block_bits. by rewrite flat_map_app, <- !app_assoc.
      + rewrite HP. unfold pos, s0. cbn [f_in f_bits]. lia.
    - apply (fast_unused_spec _ s (bits st) (hold st) (block_bits lt dt syms)); try done; try lia.
      + rewrite HS. exact Hs.
      + rewrite HP. unfold pos, s0. cbn [f_in f_bits]. lia. }
  destruct U as (O' & S' & F' & B'). set (s' := fast_unused s) in *. clearbody s'. injection F' as F1 F2 F3.
  rewrite F1, F2, F3.
  assert (Eav : u32 (avail_out zs - Z.of_nat (length (f_put s))) = avail_out zs - Z.of_nat (length (f_put s)))
    by (apply u32_small; lia).
  assert (Hg : f_msg s = None) by (destruct R; done). rewrite Hg, Eav.
  eexists _, _, (f_put s). split; [reflexivity|].
  assert (Hrd : forall m, srdr (zs <| next_in := drop (Z.to_nat (f_in s')) (next_in zs) |> <| next_out := next_out zs ++ f_put s |>
       <| avail_out := avail_out zs - Z.of_nat (length (f_put s)) |>)
      (match m with Some m => st <| mode := m |> | None => st end <| hold := f_hold s' |> <| bits := f_bits s' |>)
      = rdr (next_in zs) s') by (intros [m|]; reflexivity).
  rewrite Hrd. split; [apply O'|]. split; [exact B'|]. split; [by destruct (f_mode s)|]. split; [done|]. split; [done|]. split; [done|].
  split; [exact L|]. change (stream (rdr (next_in zs) s')) with (fstream (next_in zs) s'). rewrite S'.
  destruct R as [pre suf Ey Hp HS HU HM HG HP|HS HU HM HG HP]; rewrite HM.
  - left. by exists pre, suf.
  - right. done.
Qed.
