(* ===== verification/Decoding.v ===== *)
(** * Decoding the symbols of a block (partial/libz_j/inflate.c: LEN .. SENDINS)

    From tables that decode the codes of two trees, [j_inflate] turns the bits of a
    block into its instructions, by the fast loop and by the states LEN, LENEXT,
    DIST, DISTEXT, LIT, MATCH and SENDINS in any mixture, when the output is large
    enough. *)
From S2P Require Import Prelude DeflateTables Inftrees Zlib Trees Format Encode Bitstream InflateState Inffast Inflate.
From S2P Require Import Codebook Fastpath.

(** ** The machine apart from the state and the reader *)

Definition im_rest (s : im) := (strm s, glob s, l_put s, l_left s, (l_in s, l_out s, l_ret s)).

Lemma more_state (s s' : im) : more s s' -> state s' = state s.
Proof. intros [H _]. by apply pulled_state. Qed.
Lemma more_rest (s s' : im) : more s s' -> im_rest s' = im_rest s.
Proof. intros [H _]. exact (f_equal im_rest (pu_rest _ _ H)). Qed.

Section Binds.
Context {A : Type} (k : unit -> M im A).
Lemma im_bind_upd g s : (upd g ≫= k) s = k tt (s <| state := g (state s) |>).
Proof. reflexivity. Qed.
Lemma im_bind_set_mode x s : (set_mode x ≫= k) s = k tt (s <| state := state s <| mode := x |> |>).
Proof. reflexivity. Qed.
End Binds.

(** ** Bits outside a header *)

Lemma DROPBITS_plain n s w rest :
  reader_ok s -> header_flag (state s) = 0 -> stream s = w ++ rest -> Z.of_nat (length w) = n -> n <= l_bits s ->
  exists s', DROPBITS n s = (s', inr tt) /\ reader_ok s' /\ stream s' = rest /\ l_bits s' = l_bits s - n
    /\ state s' = state s /\ im_rest s' = im_rest s.
Proof.
  intros Hr Hf Hs Hw Hn. unfold DROPBITS, DROP_HEADER_BITS. rewrite bind_modify, Hf. change (negb (0 =? 0)) with false. cbv iota.
  destruct (drop_bits_spec n s Hr) as (s' & E & O & S & R & _ & B); [cbn; lia|].
  exists s'. split; [done|]. split; [done|]. split; [rewrite S, Hs, drop_app_length'; [done|lia]|]. split; [exact B|].
  split; [exact (f_equal state R)|exact (f_equal im_rest R)].
Qed.

(** [NEEDBITS(n); x = BITS(n); DROPBITS(n)] *)
Lemma read_plain {A} n x (k : Z -> M im A) s rest :
  reader_ok s -> header_flag (state s) = 0 -> 0 <= n <= 31 -> 0 <= x < 2 ^ n ->
  stream s = bits_of (Z.to_nat n) x ++ rest -> l_bits s < 8 ->
  exists s1 s', NEEDBITS n s = (s1, inr tt) /\ BITS n s1 = x /\ reader_ok s1 /\ stream s1 = stream s /\ n <= l_bits s1
    /\ l_bits s1 <= n + 7 /\ state s1 = state s /\ im_rest s1 = im_rest s
    /\ DROPBITS n s1 = (s', inr tt) /\ reader_ok s' /\ stream s' = rest /\ l_bits s' < 8
    /\ state s' = state s /\ im_rest s' = im_rest s.
Proof.
  intros Hr Hf Hn Hx Hs Hb. destruct (needbits_enough n s Hr) as (s1 & [O1 S1 R1] & E1 & B1 & C1); [lia| |].
  { rewrite Hs, length_app, length_bits_of. lia. }
  assert (T1 : state s1 = state s) by exact (f_equal state R1).
  destruct (DROPBITS_plain n s1 (bits_of (Z.to_nat n) x) rest) as (s' & E & O & S & B & T & I); [done|by rewrite T1|congruence|rewrite length_bits_of; lia|exact B1|].
  exists s1, s'. split; [done|]. split.
  { rewrite BITS_spec, S1, Hs, take_app_length', val_of_bits_of, Z2Nat.id by (done || lia || (rewrite length_bits_of; lia)).
    by apply Z.mod_small. }
  split; [done|]. split; [done|]. split; [exact B1|]. split; [cbn in C1; lia|]. split; [done|].
  split; [exact (f_equal im_rest R1)|]. split; [done|]. split; [done|]. split; [done|]. split; [cbn in *; lia|].
  split; [congruence|]. rewrite I. exact (f_equal im_rest R1).
Qed.

Lemma drop_code_plain n s w rest :
  reader_ok s -> header_flag (state s) = 0 -> stream s = w ++ rest -> Z.of_nat (length w) = n -> n <= l_bits s ->
  exists s', drop_code n s = (s', inr tt) /\ reader_ok s' /\ stream s' = rest /\ l_bits s' = l_bits s - n
    /\ state s' = state s <| back := back (state s) + n |> /\ im_rest s' = im_rest s.
Proof.
  intros Hr Hf Hs Hw Hn. destruct (DROPBITS_plain n s w rest Hr Hf Hs Hw Hn) as (s1 & E & [O1 O2 O3] & S & B & T & I).
  unfold drop_code. rewrite (bind_inr _ _ _ _ _ E). eexists. split; [reflexivity|].
  split; [by split|]. split; [exact S|]. split; [exact B|]. split; [cbn; by rewrite T|exact I].
Qed.

(** a code read in the slow path *)
Lemma slow_code {A} tab nbits (cond : code -> bool) t n entry c s rest (k : code -> M im A) :
  reader_ok s -> header_flag (state s) = 0 -> l_bits s < 8 ->
  table_for (code_at (state s) (tab (state s))) (nbits (state s)) t n entry -> tree_ok t ->
  0 <= c < n -> 0 < dl (t c) -> stream s = code_bits (t c) ++ rest ->
  (forall h, is_link h -> cond h = true) -> (forall b, cond (mk_code (entry c).1 b (entry c).2) = false) ->
  exists s' m bk,
    (here ← look tab nbits;
     here ← (if cond here then h2 ← look2 tab here; drop_code (cbits here);; mret h2 else mret here);
     drop_code (cbits here);; k here) s = k (mk_code (entry c).1 m (entry c).2) s'
    /\ reader_ok s' /\ stream s' = rest /\ l_bits s' < 8 /\ state s' = state s <| back := bk |> /\ im_rest s' = im_rest s.
Proof.
  intros Hr Hf Hb8 Ht Hto Hc Hd Hs Hc1 Hc2. pose proof (tf_ok _ _ _ _ _ Ht) as Htb.
  pose proof (table_find _ _ _ _ _ _ _ Ht Hto Hc Hd (code_value s t c rest Hto Hs)) as F.
  assert (Hlen : dl (t c) <= Z.of_nat (length (stream s))).
  { rewrite Hs, length_app, Nat2Z.inj_add, code_bits_length by done. lia. }
  destruct (find_cases _ _ _ _ _ _ Htb F) as [[_ E]|(Hlk & Hcb & Ho & Hn & E)].
  - destruct (look_spec tab nbits s Hr Htb) as (s1 & E1 & M1 & B1 & C1); [by rewrite E|]. rewrite E in *. cbn [cbits] in *.
    rewrite (bind_inr _ _ _ _ _ E1), Hc2. destruct M1 as [[O1 S1 R1] _].
    assert (T1 : state s1 = state s) by exact (f_equal state R1).
    rewrite bind_ret. cbn [cbits].
    destruct (drop_code_plain (dl (t c)) s1 (code_bits (t c)) rest) as (s2 & E2 & O2 & S2 & B2 & T2 & I2);
      [done|by rewrite T1|congruence|by apply code_bits_length|exact B1|].
    rewrite (bind_inr _ _ _ _ _ E2). exists s2, (dl (t c)), (back (state s1) + dl (t c)). split; [done|]. split; [done|].
    split; [done|]. split; [cbn in *; lia|]. split; [by rewrite T2, T1|]. rewrite I2. exact (f_equal im_rest R1).
  - destruct (look_spec tab nbits s Hr Htb) as (s1 & E1 & M1 & B1 & C1); [rewrite Hcb; lia|]. set (h := first_level _ _ _) in *.
    rewrite (bind_inr _ _ _ _ _ E1), (Hc1 h Hlk), bind_bind. destruct M1 as [[O1 S1 R1] _].
    assert (T1 : state s1 = state s) by exact (f_equal state R1).
    assert (V1 : value s1 = value s) by (unfold value; by rewrite S1).
    assert (Htb1 : table_ok (code_at (state s1) (tab (state s1))) (nbits (state s1))) by by rewrite T1.
    pose proof (look2_spec tab nbits s1 O1 Htb1) as L2. rewrite T1, V1 in L2. fold h in L2. cbv zeta in L2. rewrite E in L2.
    destruct L2 as (s2 & E2 & M2 & B2 & C2); [done|rewrite <- Hcb; exact B1|rewrite S1; cbn [cbits]; lia|].
    rewrite (bind_inr _ _ _ _ _ E2), bind_bind. destruct M2 as [[O2 S2 R2] _]. cbn [cbits] in *.
    assert (T2 : state s2 = state s1) by exact (f_equal state R2).
    destruct (code_split t c (nbits (state s)) Hto) as (w1 & w2 & Ew & W1 & W2).
    { pose proof (tb_root _ _ Htb). lia. }
    rewrite Ew, <- app_assoc in Hs. rewrite Hcb in *.
    destruct (drop_code_plain (nbits (state s)) s2 w1 (w2 ++ rest)) as (s3 & E3 & O3 & S3 & B3 & T3 & I3);
      [done|by rewrite T2, T1|congruence|done|cbn in *; lia|].
    rewrite (bind_inr _ _ _ _ _ E3), bind_ret. cbn [cbits].
    destruct (drop_code_plain (dl (t c) - nbits (state s)) s3 w2 rest) as (s4 & E4 & O4 & S4 & B4 & T4 & I4);
      [done|by rewrite T3; cbn; rewrite T2, T1|done|done|cbn in *; lia|].
    rewrite (bind_inr _ _ _ _ _ E4). eexists s4, _, (back (state s3) + (dl (t c) - nbits (state s))). split; [reflexivity|]. split; [done|].
    split; [done|]. split; [cbn in *; lia|]. split; [rewrite T4, T3, T2, T1; reflexivity|].
    rewrite I4, I3. etransitivity; [exact (f_equal im_rest R2)|exact (f_equal im_rest R1)].
Qed.

(** the extra bits of a length or distance: nothing is read when there are none *)
Lemma read_extra e x (f : Z -> inflate_state -> inflate_state) s rest :
  reader_ok s -> header_flag (state s) = 0 -> (forall v, inf_ctx (f v (state s)) = inf_ctx (state s)) ->
  0 <= e <= 13 -> 0 <= x < 2 ^ e -> stream s = bits_of (Z.to_nat e) x ++ rest -> l_bits s < 8 ->
  exists s' bk,
    when (negb (e =? 0))
      (NEEDBITS e;; v ← gets (BITS e); upd (f v);; DROPBITS e;; upd (fun st => st <| back := back st + e |>)) s = (s', inr tt)
    /\ reader_ok s' /\ stream s' = rest /\ l_bits s' < 8 /\ im_rest s' = im_rest s
    /\ state s' = if e =? 0 then state s else f x (state s) <| back := bk |>.
Proof.
  intros Hr Hf Hc He Hx Hs Hb. destruct (Z.eqb_spec e 0) as [->|Hne]; cbn [negb when].
  { exists s, 0. split; [done|]. split; [done|]. split; [done|]. done. }
  destruct (read_plain e x (fun _ => mret tt : M im unit) s rest Hr Hf ltac:(lia) Hx Hs Hb)
    as (s1 & _ & E1 & V1 & O1 & S1 & B1 & C1 & T1 & I1 & _).
  rewrite (bind_inr _ _ _ _ _ E1), bind_gets, V1, im_bind_upd.
  set (s2 := s1 <| state := f x (state s1) |>).
  assert (Hf2 : header_flag (state s2) = 0).
  { transitivity (header_flag (state s)); [|done]. change (state s2) with (f x (state s1)). rewrite T1.
    exact (f_equal (fun y => y.1.1.2) (Hc x)). }
  destruct (DROPBITS_plain e s2 (bits_of (Z.to_nat e) x) rest) as (s3 & E3 & [O3 H3 N3] & S3 & B3 & T3 & I3);
    [destruct O1; by split|done|rewrite <- Hs; exact S1|rewrite length_bits_of; lia|exact B1|].
  rewrite (bind_inr _ _ _ _ _ E3). eexists _, _. split; [reflexivity|]. split; [by split|]. split; [exact S3|].
  split; [cbn in *; lia|]. split; [etransitivity; [exact I3|exact I1]|].
  cbn. rewrite T3. cbn. by rewrite T1.
Qed.

(** ** Writing instructions *)

(** [s'] is [s] with the bytes [l] written; tables, wrapper and the other locals are the same *)
Record writes (s s' : im) (l : list Z) : Prop := {
  wr_ctx : inf_ctx (state s') = inf_ctx (state s);
  wr_strm : strm_ctx (strm s') = strm_ctx (strm s);
  wr_put : l_put s' = l_put s ++ l;
  wr_left : l_left s' = l_left s - Z.of_nat (length l);
  wr_locals : (l_in s', l_out s', l_ret s') = (l_in s, l_out s, l_ret s) }.
Lemma writes_trans s1 s2 s3 l l' : writes s1 s2 l -> writes s2 s3 l' -> writes s1 s3 (l ++ l').
Proof.
  intros [A B C D E] [F G H I J]. split; [congruence|congruence|by rewrite H, C, app_assoc|rewrite length_app; lia|congruence].
Qed.
Lemma writes_nil s s' : inf_ctx (state s') = inf_ctx (state s) -> im_rest s' = im_rest s -> writes s s' [].
Proof.
  intros A B. injection B as B1 B2 B3 B4 B5 B6 B7. split; [done|by rewrite B1|by rewrite B3, app_nil_r|cbn; lia|].
  by rewrite B5, B6, B7.
Qed.

(** the bytes waiting in the instruction buffer *)
Record loaded (s : im) (type : Z) (l : list Z) : Prop := {
  ld_index : ins_buffer_index (glob s) = 0;
  ld_have : ins_buffer_have (glob s) = Z.of_nat (length l);
  ld_type : ins_type (glob s) = type;
  ld_bytes : aread 0 (ins_buffer (glob s)) 0 (length l) = l }.
Lemma set_ins_run type l s :
  exists s', set_ins type l s = (s', inr tt) /\ loaded s' type l /\ state s' = state s
    /\ (strm s', l_put s', l_left s', (l_in s', l_out s', l_ret s')) = (strm s, l_put s, l_left s, (l_in s, l_out s, l_ret s))
    /\ (l_next s', l_hold s', l_bits s') = (l_next s, l_hold s, l_bits s).
Proof.
  eexists. split; [reflexivity|]. split; [|done]. split; [done..|].
  change (aread 0 (awrite (ins_buffer (glob s)) 0 l) 0 (length l) = l). apply aread_awrite.
Qed.
(** two machines that read the same *)
Lemma same_reader (s s' : im) :
  (l_next s', l_hold s', l_bits s') = (l_next s, l_hold s, l_bits s) ->
  (reader_ok s -> reader_ok s') /\ stream s' = stream s.
Proof.
  intros H. injection H as A B C. split.
  - intros [D E F]. split; cbn in *; by rewrite ?A, ?B, ?C.
  - unfold stream. cbn. by rewrite A, B, C.
Qed.

Definition after_ins (type : Z) : IM.inflate_mode :=
  if type =? 4 then IM.TYPE else if type =? 3 then IM.LENGTH else if negb (type =? 2) then IM.LEN else IM.TYPE.
Lemma SENDINS_run type l s :
  loaded s type l -> bytes_ok l -> l <> [] -> Z.of_nat (length l) <= l_left s < 2 ^ 32 ->
  exists s', h_SENDINS s = (s', inr tt) /\ writes s s' l /\ mode (state s') = after_ins type
    /\ (l_next s', l_hold s', l_bits s') = (l_next s, l_hold s, l_bits s).
Proof.
  intros [Hi Hh Ht Hb] Hy Hne Hroom. unfold h_SENDINS. rewrite bind_gets.
  assert (0 < Z.of_nat (length l)) by (destruct l; [done|cbn; lia]).
  destruct (Z.eqb_spec (l_left s) 0); [lia|]. rewrite bind_gets, Hi, Hh, Z.sub_0_r.
  destruct (Z.gtb_spec (Z.of_nat (length l)) (l_left s)); [lia|]. rewrite u32_small, Nat2Z.id, Hb by lia.
  assert (E8 : map u8 l = l).
  { clear -Hy. induction Hy as [|x l Hx _ IH]; [done|]. cbn [map]. rewrite IH. unfold is_byte in Hx. by rewrite u8_small by lia. }
  rewrite E8. unfold put_bytes. rewrite bind_modify. unfold upd_glob. rewrite bind_modify, bind_gets.
  match goal with |- context [ins_buffer_index (glob ?x)] => set (s1 := x) end.
  assert (E1 : ins_buffer_index (glob s1) = Z.of_nat (length l)) by (change (ins_buffer_index (glob s) + Z.of_nat (length l) = Z.of_nat (length l)); lia).
  assert (E2 : ins_buffer_have (glob s1) = Z.of_nat (length l)) by exact Hh.
  assert (E3 : ins_type (glob s1) = type) by exact Ht. rewrite E1, E2, E3, Z.eqb_refl.
  eexists. split; [reflexivity|]. split; [|split; [reflexivity|reflexivity]].
  split; try reflexivity. change (u32 (l_left s - Z.of_nat (length l)) = l_left s - Z.of_nat (length l)). apply u32_small. lia.
Qed.

(** ** One symbol in the slow path *)

Section Slow.
Context (flush : Z) (lt dt : Z -> ct_data) (Hlt : tree_ok lt) (Hdt : tree_ok dt).
Abbreviation turns := (steps (dispatch flush)).

(** the tables of the state decode the codes of the two trees *)
Definition tables (st : inflate_state) : Prop :=
  table_for (code_at st (lencode st)) (lenbits st) lt 286 lit_entry
  /\ table_for (code_at st (distcode st)) (distbits st) dt 30 dist_entry.
Lemma tables_ctx st st' : inf_ctx st' = inf_ctx st -> tables st -> tables st'.
Proof.
  intros H. unfold inf_ctx in H. injection H as _ _ _ _ _ H1 H2 H3 H4 H5. unfold tables.
  assert (E : forall p, code_at st' p = code_at st p) by (intros [off| |]; unfold code_at; by rewrite ?H5).
  by rewrite !E, H1, H2, H3, H4.
Qed.

(** inside a block, before a symbol *)
Record inblock (s : im) : Prop := {
  ib_mode : mode (state s) = IM.LEN;
  ib_reader : reader_ok s;
  ib_bits : l_bits s < 8;
  ib_flag : header_flag (state s) = 0;
  ib_tables : tables (state s) }.

Lemma turn_SENDINS s type l :
  mode (state s) = IM.SENDINS -> loaded s type l -> bytes_ok l -> l <> [] -> Z.of_nat (length l) <= l_left s < 2 ^ 32 ->
  exists s', dispatch flush s = (s', inr tt) /\ writes s s' l /\ mode (state s') = after_ins type
    /\ (l_next s', l_hold s', l_bits s') = (l_next s, l_hold s, l_bits s).
Proof. intros Hm. unfold dispatch. rewrite bind_gets, Hm. apply SENDINS_run. Qed.

(** the fast loop is not entered *)
Definition slow (s : im) : Prop := (have_in s >=? 6) && (l_left s >=? 258) = false.
Definition len_link (h : code) : bool := negb (op h =? 0) && (Z.land (op h) 0xf0 =? 0).
Definition dist_link (h : code) : bool := Z.land (op h) 0xf0 =? 0.
Lemma link_conds h : is_link h -> len_link h = true /\ dist_link h = true.
Proof.
  unfold is_link, len_link, dist_link. intros H.
  assert (A : all_below 16 (fun o => Z.land o 0xf0 =? 0) = true) by (vm_compute; reflexivity).
  rewrite (all_below_spec _ _ A (op h)) by lia. destruct (Z.eqb_spec (op h) 0); [lia|done].
Qed.
Lemma lit_no_link c b : 0 <= c < 286 -> len_link (mk_code (lit_entry c).1 b (lit_entry c).2) = false.
Proof.
  intros H. assert (A : all_below 286 (fun c => negb (len_link (mk_code (lit_entry c).1 0 (lit_entry c).2))) = true)
    by (vm_compute; reflexivity).
  pose proof (all_below_spec _ _ A c H) as B. cbv beta in B. by apply negb_true_iff in B.
Qed.
Lemma dist_no_link c b : 0 <= c < 30 -> dist_link (mk_code (dist_entry c).1 b (dist_entry c).2) = false.
Proof.
  intros H. assert (A : all_below 30 (fun c => negb (dist_link (mk_code (dist_entry c).1 0 (dist_entry c).2))) = true)
    by (vm_compute; reflexivity).
  pose proof (all_below_spec _ _ A c H) as B. cbv beta in B. by apply negb_true_iff in B.
Qed.

(** LEN up to the entry of the code *)
Lemma LEN_code c s rest :
  inblock s -> slow s -> 0 <= c < 286 -> 0 < dl (lt c) -> stream s = code_bits (lt c) ++ rest ->
  exists s' m, dispatch flush s = len_found (mk_code (lit_entry c).1 m (lit_entry c).2) s'
    /\ reader_ok s' /\ stream s' = rest /\ l_bits s' < 8 /\ inf_ctx (state s') = inf_ctx (state s) /\ im_rest s' = im_rest s.
Proof.
  intros [Hm Hr Hb Hf [Ht _]] Hs Hc Hd Hst. unfold dispatch. rewrite bind_gets, Hm. unfold h_LEN. rewrite bind_gets.
  change (id s) with s. rewrite Hs, im_bind_upd. set (s1 := s <| state := state s <| back := 0 |> |>).
  assert (Hr1 : reader_ok s1) by (destruct Hr; by split).
  destruct (slow_code lencode lenbits len_link lt 286 lit_entry c s1 rest len_found Hr1 Hf Hb Ht Hlt Hc Hd Hst)
    as (s' & m & bk & E & O & S & B & T & I).
  { intros h Hh. by apply link_conds. } { intros b. by apply lit_no_link. }
  exists s', m. split; [exact E|]. split; [done|]. split; [done|]. split; [done|]. split; [by rewrite T|exact I].
Qed.

(** the end of a symbol: what is in the instruction buffer is sent *)
Lemma send_symbol s l :
  mode (state s) = IM.LIT \/ mode (state s) = IM.MATCH \/ mode (state s) = IM.SENDINS ->
  forall type, loaded s type l -> bytes_ok l -> l <> [] -> Z.of_nat (length l) <= l_left s < 2 ^ 32 -> reader_ok s ->
  exists n s', turns n s s' /\ (n <= 2)%nat /\ writes s s' l /\ mode (state s') = after_ins type
    /\ reader_ok s' /\ stream s' = stream s /\ l_bits s' = l_bits s.
Proof.
  intros Hm type Hld Hy Hne Hroom Hr.
  assert (E : exists k s1, turns k s s1 /\ (k <= 1)%nat /\ mode (state s1) = IM.SENDINS /\ loaded s1 type l
    /\ writes s s1 [] /\ (l_next s1, l_hold s1, l_bits s1) = (l_next s, l_hold s, l_bits s) /\ l_left s1 = l_left s).
  { destruct Hm as [Hm|[Hm|Hm]].
    3:{ exists 0%nat, s. split_and!; try done; [constructor|lia|by apply writes_nil]. }
    all: exists 1%nat, (s <| state := state s <| mode := IM.SENDINS |> |>); split; [apply steps_1; unfold dispatch; rewrite bind_gets, Hm; reflexivity|].
    all: split; [lia|split; [reflexivity|split; [destruct Hld; by split|split; [by apply writes_nil|done]]]]. }
  destruct E as (k & s1 & T1 & K1 & M1 & L1 & W1 & R1 & F1).
  destruct (turn_SENDINS s1 type l M1 L1 Hy Hne) as (s2 & T2 & W2 & M2 & R2); [lia|].
  destruct (same_reader s s2) as [O2 S2]; [by rewrite R2, R1|].
  exists (k + 1)%nat, s2. split; [eapply steps_trans; [exact T1|by apply steps_1]|]. split; [lia|].
  split; [exact (writes_trans _ _ _ _ _ W1 W2)|]. split; [done|]. split; [by apply O2|]. split; [done|].
  injection R2 as _ _ ->. by injection R1.
Qed.

(** what a turn leaves before a symbol is sent *)
Record ready (s s' : im) (type : Z) (l : list Z) (rest : list bool) : Prop := {
  rd_loaded : loaded s' type l;
  rd_reader : reader_ok s';
  rd_stream : stream s' = rest;
  rd_short : l_bits s' < 8;
  rd_writes : writes s s' [] }.
Lemma set_ins_ready {A} type l (k : unit -> M im A) s0 s rest :
  reader_ok s -> stream s = rest -> l_bits s < 8 -> writes s0 s [] ->
  exists s', (set_ins type l ≫= k) s = k tt s' /\ ready s0 s' type l rest /\ state s' = state s.
Proof.
  intros Hr Hs Hb Hw. destruct (set_ins_run type l s) as (s' & E & L & T & R & I).
  rewrite (bind_inr _ _ _ _ _ E). exists s'. split; [done|]. split; [|done]. destruct (same_reader s s' I) as [O S].
  split; [done|by apply O|congruence|by injection I as _ _ ->|].
  rewrite <- (app_nil_r []). eapply writes_trans; [exact Hw|]. injection R as R1 R2 R3 R4 R5 R6.
  split; [by rewrite T|by rewrite R1|by rewrite R2, app_nil_r|cbn; lia|congruence].
Qed.
Lemma ready_send s0 s type l rest :
  mode (state s) = IM.LIT \/ mode (state s) = IM.MATCH \/ mode (state s) = IM.SENDINS ->
  ready s0 s type l rest -> bytes_ok l -> l <> [] -> Z.of_nat (length l) <= l_left s0 < 2 ^ 32 ->
  exists n s', turns n s s' /\ (n <= 2)%nat /\ writes s0 s' l /\ mode (state s') = after_ins type
    /\ reader_ok s' /\ stream s' = rest /\ l_bits s' < 8.
Proof.
  intros Hm [L O S B W] Hy Hne Hroom. pose proof (wr_left _ _ _ W) as Hl. cbn in Hl.
  destruct (send_symbol s l Hm type L Hy Hne) as (n & s' & T & N & W' & M' & O' & S' & B'); [lia|done|].
  exists n, s'. split; [done|]. split; [done|]. split; [exact (writes_trans _ _ _ _ _ W W')|]. split; [done|].
  split; [done|]. split; [congruence|lia].
Qed.
Lemma inblock_again s s' l :
  inblock s -> writes s s' l -> mode (state s') = IM.LEN -> reader_ok s' -> l_bits s' < 8 -> inblock s'.
Proof.
  intros [_ _ _ Hf Ht] W Hm Hr Hb. split; [done|done|done| |exact (tables_ctx _ _ (wr_ctx _ _ _ W) Ht)].
  transitivity (header_flag (state s)); [|done]. exact (f_equal (fun x => x.1.1.2) (wr_ctx _ _ _ W)).
Qed.

(** a literal *)
Lemma slow_lit b s rest :
  inblock s -> slow s -> is_byte b -> 0 < dl (lt b) -> stream s = code_bits (lt b) ++ rest ->
  exists s', dispatch flush s = (s', inr tt) /\ mode (state s') = IM.LIT /\ ready s s' 0 (ins_literal b) rest.
Proof.
  intros Hin Hs Hb Hd Hst. unfold is_byte in Hb.
  destruct (LEN_code b s rest Hin Hs ltac:(lia) Hd Hst) as (s1 & m & E & O & S & B & C & I).
  rewrite E. unfold lit_entry. destruct (Z.ltb_spec b 256); [|lia]. unfold len_found. cbn [fst snd op val].
  change (0 =? 0) with true. cbv iota. rewrite im_bind_upd, im_bind_set_mode.
  match goal with |- context [set_ins 0 _ ?x] => set (s2 := x) end.
  assert (El : (if b =? 170 then [b; b] else [b]) = ins_literal b) by (unfold ins_literal; by rewrite u8_small by lia).
  rewrite El. destruct (set_ins_ready 0 (ins_literal b) mret s s2 rest) as (s3 & E3 & R3 & T3).
  { destruct O; by split. } { exact S. } { exact B. } { apply writes_nil; [exact C|exact I]. }
  exists s3. split; [|split; [by rewrite T3|done]].
  destruct (set_ins_run 0 (ins_literal b) s2) as (s4 & E4 & _). rewrite (bind_inr _ _ _ _ _ E4) in E3. rewrite E4.
  by injection E3 as ->.
Qed.

(** what a block leaves at its end *)
Record block_end (s s' : im) (l : list Z) (rest : list bool) : Prop := {
  be_writes : writes s s' l;
  be_mode : mode (state s') = IM.TYPE;
  be_reader : reader_ok s';
  be_bits : l_bits s' < 8;
  be_stream : stream s' = rest }.

(** SETENDOFBLOCK writes the end marker in the same turn *)
Lemma turn_SETENDOFBLOCK s0 s l rest :
  mode (state s) = IM.SETENDOFBLOCK -> reader_ok s -> stream s = rest -> l_bits s < 8 -> writes s0 s l -> 2 <= l_left s < 2 ^ 32 ->
  exists s', dispatch flush s = (s', inr tt) /\ block_end s0 s' (l ++ ins_end) rest.
Proof.
  intros Hm O S B W Hroom. destruct (set_ins_ready 2 ins_end (fun _ => set_mode IM.SENDINS;; h_SENDINS) s s rest O S B) as (s5 & E5 & R5 & T5).
  { by apply writes_nil. }
  rewrite im_bind_set_mode in E5. set (s6 := s5 <| state := state s5 <| mode := IM.SENDINS |> |>) in E5.
  assert (R6 : ready s s6 2 ins_end rest).
  { destruct R5 as [[] [] ? ? []]. split; [by split|by split|done|done|by split]. }
  destruct R6 as [L6 O6 S6 B6 W6]. pose proof (wr_left _ _ _ W6) as Hl. cbn in Hl.
  destruct (SENDINS_run 2 ins_end s6 L6) as (s7 & E7 & W7 & M7 & I7).
  { repeat constructor; unfold is_byte; lia. } { done. } { cbn. lia. }
  destruct (same_reader s6 s7 I7) as [O7 S7]. exists s7. split.
  - unfold dispatch. rewrite bind_gets, Hm. unfold h_SETENDOFBLOCK. by rewrite E5.
  - split; [|done|by apply O7|by injection I7 as _ _ ->|congruence].
    eapply writes_trans; [exact W|]. exact (writes_trans _ _ _ _ _ W6 W7).
Qed.

(** the end of the block *)
Lemma slow_end s rest :
  inblock s -> slow s -> 0 < dl (lt END_BLOCK) -> stream s = code_bits (lt END_BLOCK) ++ rest -> 2 <= l_left s < 2 ^ 32 ->
  exists s', turns 2 s s' /\ block_end s s' ins_end rest.
Proof.
  intros Hin Hs Hd Hst Hroom. destruct (LEN_code END_BLOCK s rest Hin Hs ltac:(done) Hd Hst) as (s1 & m & E & O & S & B & C & I).
  change (lit_entry END_BLOCK) with (96, 0) in E. unfold len_found in E. cbn [fst snd op val] in E.
  change (96 =? 0) with false in E. change (negb (Z.land 96 32 =? 0)) with true in E. cbv iota in E.
  rewrite im_bind_upd, im_bind_upd in E. match type of E with _ = set_mode _ ?x => set (s3 := x) in E end.
  set (s4 := s3 <| state := state s3 <| mode := IM.SETENDOFBLOCK |> |>). change (dispatch flush s = (s4, inr tt)) in E.
  assert (W : writes s s4 []) by (apply writes_nil; [exact C|exact I]).
  pose proof (wr_left _ _ _ W) as Hl. cbn in Hl.
  destruct (turn_SETENDOFBLOCK s s4 [] rest) as (s7 & E7 & R7); try done; [by destruct O|cbn; lia|].
  exists s7. split; [|done]. eapply steps_S; [exact E|]. by apply steps_1.
Qed.
(** the [op] of a length *)
Lemma len_op e : 0 <= e <= 5 ->
  (16 + e =? 0) = false /\ negb (Z.land (16 + e) 32 =? 0) = false /\ negb (Z.land (16 + e) 64 =? 0) = false
  /\ Z.land (16 + e) 15 = e.
Proof.
  intros H. assert (A : all_below 6 (fun e => negb (16 + e =? 0) && (Z.land (16 + e) 32 =? 0) && (Z.land (16 + e) 64 =? 0)
    && (Z.land (16 + e) 15 =? e)) = true) by (vm_compute; reflexivity).
  pose proof (all_below_spec _ _ A e ltac:(lia)) as B. cbv beta in B. rewrite !andb_true_iff in B.
  destruct B as [[[B C] D] F]. apply negb_true_iff in B. rewrite C, D. by apply Z.eqb_eq in F.
Qed.
Lemma dist_op e : 0 <= e <= 13 -> negb (Z.land (16 + e) 64 =? 0) = false /\ Z.land (16 + e) 15 = e.
Proof.
  intros H. assert (A : all_below 14 (fun e => (Z.land (16 + e) 64 =? 0) && (Z.land (16 + e) 15 =? e)) = true) by (vm_compute; reflexivity).
  pose proof (all_below_spec _ _ A e ltac:(lia)) as B. cbv beta in B. rewrite !andb_true_iff in B.
  destruct B as [D F]. rewrite D. by apply Z.eqb_eq in F.
Qed.

(** the distance of a match, from DIST on *)
Lemma DIST_rest dist n dc ed xd s0 s rest :
  tables (state s) -> header_flag (state s) = 0 -> reader_ok s -> l_bits s < 8 -> writes s0 s [] ->
  0 <= dc < 30 -> 0 < dl (dt dc) -> dist_entry dc = (16 + ed, dist - xd) -> 0 <= ed <= 13 -> 0 <= xd < 2 ^ ed ->
  0 <= dist < 2 ^ 32 -> length_ (state s) = n -> stream s = code_bits (dt dc) ++ bits_of (Z.to_nat ed) xd ++ rest ->
  exists s', h_DIST s = (s', inr tt) /\ mode (state s') = IM.SENDINS /\ ready s0 s' 1 (ins_match dist n) rest.
Proof.
  intros Ht Hf Hr Hb Hw Hdc Hcd Hde Hed Hxd Hdist Hn Hs.
  destruct (slow_code distcode distbits dist_link dt 30 dist_entry dc s (bits_of (Z.to_nat ed) xd ++ rest) dist_found)
    as (s1 & m & bk & E1 & O1 & S1 & B1 & T1 & I1); try done.
  { apply Ht. } { intros h Hh. by apply link_conds. } { intros b. by apply dist_no_link. }
  change (h_DIST s = dist_found (mk_code (dist_entry dc).1 m (dist_entry dc).2) s1) in E1. rewrite E1, Hde.
  unfold dist_found. cbn [fst snd op val]. destruct (dist_op ed Hed) as [-> ->]. cbv iota.
  rewrite im_bind_upd, im_bind_set_mode. unfold h_DISTEXT. rewrite bind_gets.
  match goal with |- context [when _ _ ≫= ?k] => set (K := k) end.
  match goal with |- context [(_ ≫= K) ?x] => set (s2 := x) end. change (extra (state s2)) with ed.
  destruct (read_extra ed xd (fun v st => st <| offset := u32 (offset st + v) |>) s2 rest)
    as (s3 & bk3 & E3 & O3 & S3 & B3 & I3 & T3); try done.
  { destruct O1; by split. } { change (header_flag (state s1) = 0). by rewrite T1. }
  rewrite (bind_inr _ _ _ _ _ E3). subst K. cbv beta. rewrite im_bind_set_mode, bind_gets.
  assert (F3 : offset (state s3) = dist).
  { rewrite T3. destruct (Z.eqb_spec ed 0) as [->|].
    - change (2 ^ 0) with 1 in Hxd. change (dist - xd = dist). lia.
    - change (u32 (dist - xd + xd) = dist). rewrite u32_small by lia. lia. }
  assert (L3 : length_ (state s3) = n).
  { rewrite T3, <- Hn. transitivity (length_ (state s1)); [by destruct (ed =? 0)|by rewrite T1]. }
  assert (C3 : inf_ctx (state s3) = inf_ctx (state s)).
  { rewrite T3. transitivity (inf_ctx (state s1)); [by destruct (ed =? 0)|by rewrite T1]. }
  match goal with |- context [set_ins 1 ?l ≫= _] => replace l with (ins_match dist n) by (cbn [state set_field]; by rewrite <- F3, <- L3) end.
  match goal with |- context [(_ ≫= _) ?x] => set (s4 := x) end.
  destruct (set_ins_ready 1 (ins_match dist n) (fun _ => h_MATCH) s0 s4 rest) as (s5 & E5 & R5 & T5).
  { destruct O3; by split. } { done. } { done. }
  { rewrite <- (app_nil_r []). eapply writes_trans; [exact Hw|]. apply writes_nil; [exact C3|]. transitivity (im_rest s1); [exact I3|exact I1]. }
  rewrite E5. eexists. split; [reflexivity|]. split; [reflexivity|].
  destruct R5 as [[] [] ? ? []]. split; [by split|by split|done|done|by split].
Qed.

(** a length and distance *)
Lemma slow_match dist n s rest :
  inblock s -> slow s -> symbol_ok (Match dist n) -> has_codes lt dt (Match dist n) ->
  stream s = sym_bits lt dt (Match dist n) ++ rest ->
  exists s', dispatch flush s = (s', inr tt) /\ mode (state s') = IM.SENDINS /\ ready s s' 1 (ins_match dist n) rest.
Proof.
  intros Hin Hs Hx [Hcl Hcd] Hst. pose proof (ib_flag _ Hin) as Hf0. pose proof (ib_tables _ Hin) as Ht0.
  destruct (match_codes_ok lt dt dist n Hx) as (el & ed & xl & xd & M).
  set (lc := length_code n) in *. set (dc := dist_code dist) in *.
  destruct M as [Mlc Mdc Mel Med Mxl Mxd Mlen Mdist _ Mb]. rewrite Mb, <- !app_assoc in Hst. unfold LITERALS in *.
  assert (Hn : 0 <= n < 2 ^ 32) by (destruct Hx as [_ Hx]; unfold MIN_MATCH, MAX_MATCH in Hx; lia).
  assert (Hdd : 0 <= dist < 2 ^ 32) by (destruct Hx as [Hx _]; lia). clear Hx Mb.
  destruct (LEN_code (lc + 256 + 1) s _ Hin Hs ltac:(lia) Hcl Hst) as (s1 & m & E & O1 & S1 & B1 & C1 & I1).
  rewrite E, Mlen. unfold len_found. cbn [fst snd op val]. destruct (len_op el Mel) as (-> & -> & -> & ->). cbv iota.
  rewrite !im_bind_upd, im_bind_set_mode. unfold h_LENEXT. rewrite bind_gets.
  match goal with |- context [when _ _ ≫= ?k] => set (K := k) end.
  match goal with |- context [(_ ≫= K) ?x] => set (s2 := x) end. change (extra (state s2)) with el.
  assert (C2 : inf_ctx (state s2) = inf_ctx (state s)) by exact C1.
  assert (I2 : im_rest s2 = im_rest s) by exact I1.
  destruct (read_extra el xl (fun v st => st <| length_ := u32 (length_ st + v) |>) s2 (code_bits (dt dc) ++ bits_of (Z.to_nat ed) xd ++ rest))
    as (s3 & bk & E3 & O3 & S3 & B3 & I3 & T3); try done.
  { destruct O1; by split. } { transitivity (header_flag (state s)); [exact (f_equal (fun y => y.1.1.2) C1)|done]. } { lia. }
  rewrite (bind_inr _ _ _ _ _ E3). subst K. cbv beta. rewrite im_bind_upd, im_bind_set_mode.
  assert (L3 : length_ (state s3) = n).
  { rewrite T3. destruct (Z.eqb_spec el 0) as [->|].
    - change (2 ^ 0) with 1 in Mxl. change (n - xl = n). lia.
    - change (u32 (n - xl + xl) = n). rewrite u32_small by lia. lia. }
  assert (C3 : inf_ctx (state s3) = inf_ctx (state s)) by (rewrite T3; destruct (el =? 0); exact C2).
  match goal with |- context [h_DIST ?x] => set (s4 := x) end.
  destruct (DIST_rest dist n dc ed xd s s4 rest) as (s' & E' & M' & R'); try done.
  { apply (tables_ctx (state s)); [exact C3|done]. }
  { transitivity (header_flag (state s)); [exact (f_equal (fun y => y.1.1.2) C3)|done]. }
  { destruct O3; by split. }
  { apply writes_nil; [exact C3|]. transitivity (im_rest s2); [exact I3|exact I2]. }
  by exists s'.
Qed.
(** one symbol in the slow path *)
Lemma instr_bytes_ne x : symbol_ok x -> bytes_ok (instr x) /\ instr x <> [].
Proof. intros H. split; [by apply instr_bytes|]. pose proof (length_instr x). by destruct (instr x); [cbn in *; lia|]. Qed.
Lemma slow_symbol x s rest :
  inblock s -> slow s -> symbol_ok x -> has_codes lt dt x -> stream s = sym_bits lt dt x ++ rest ->
  Z.of_nat (length (instr x)) <= l_left s < 2 ^ 32 ->
  exists n s', turns n s s' /\ (n <= 3)%nat /\ writes s s' (instr x) /\ inblock s' /\ stream s' = rest.
Proof.
  intros Hin Hs Hx Hc Hst Hroom. destruct (instr_bytes_ne x Hx) as [Hy Hne].
  assert (T : exists s1 type, dispatch flush s = (s1, inr tt) /\ after_ins type = IM.LEN
    /\ (mode (state s1) = IM.LIT \/ mode (state s1) = IM.MATCH \/ mode (state s1) = IM.SENDINS) /\ ready s s1 type (instr x) rest).
  { destruct x as [b|dist n].
    - destruct (slow_lit b s rest Hin Hs Hx Hc Hst) as (s1 & E & M & R). exists s1, 0. split; [done|]. split; [done|]. by split; [left|].
    - destruct (slow_match dist n s rest Hin Hs Hx Hc Hst) as (s1 & E & M & R). exists s1, 1. split; [done|]. split; [done|].
      by split; [right; right|]. }
  destruct T as (s1 & type & E & Ha & M & R).
  destruct (ready_send s s1 type (instr x) rest M R Hy Hne Hroom) as (n & s' & T & N & W & M' & O & S & B).
  exists (1 + n)%nat, s'. split; [by eapply steps_S|]. split; [lia|]. split; [done|]. split; [|done].
  eapply inblock_again; try done. congruence.
Qed.

(** ** Any mixture of the fast loop and the slow path *)

Lemma fast_turn s syms rest :
  inblock s -> ~ slow s -> Forall symbol_ok syms -> Forall (has_codes lt dt) syms -> 0 < dl (lt END_BLOCK) ->
  stream s = block_bits lt dt syms ++ rest -> l_left s < 2 ^ 32 ->
  exists s', dispatch flush s = (s', inr tt)
    /\ ((exists pre suf, syms = pre ++ suf /\ pre <> [] /\ writes s s' (flat_map instr pre) /\ inblock s'
           /\ stream s' = block_bits lt dt suf ++ rest)
        \/ block_end s s' (instrs syms) rest).
Proof.
  intros Hin Hs Hsy Hco He Hst Hl32. destruct Hin as [Hm Hr Hb Hf [Ht1 Ht2]] eqn:Hin'.
  unfold slow in Hs. apply not_false_is_true in Hs.
  unfold dispatch. rewrite bind_gets, Hm. unfold h_LEN. rewrite bind_gets. change (id s) with s. rewrite Hs.
  apply andb_true_iff in Hs as [Hi Hl]. rewrite bind_modify, bind_gets. set (s1 := RESTORE s). change (id s1) with s1.
  destruct (inflate_fast_run (strm s1) (state s1) lt dt syms rest) as (zs & st & put & E & O & B & C & G & P & A & L & R); try done.
  { destruct Hr; by split. } { unfold have_in in Hi. change (next_in (strm s1)) with (l_next s). change (rd_next s) with (l_next s) in Hi. lia. }
  { change (avail_out (strm s1)) with (l_left s). lia. }
  rewrite E, bind_modify. eexists. split; [reflexivity|].
  match goal with |- context [inblock ?x] => set (s2 := x) end.
  assert (Em : mode (state s2) = mode st).
  { change (mode (if bool_decide (mode st = IM.TYPE) then st <| back := -1 |> else st) = mode st). by destruct (bool_decide _). }
  assert (Ec : inf_ctx (state s2) = inf_ctx (state s)).
  { transitivity (inf_ctx st); [|exact C].
    change (inf_ctx (if bool_decide (mode st = IM.TYPE) then st <| back := -1 |> else st) = inf_ctx st). by destruct (bool_decide _). }
  assert (Er : reader_ok s2) by (destruct O; by split).
  assert (Eb : l_bits s2 < 8) by exact B.
  assert (Es : stream s2 = stream (srdr zs st)) by reflexivity.
  assert (W : writes s s2 put).
  { split; [exact Ec|exact G|exact P|exact A|reflexivity]. }
  clearbody s2. destruct R as [(pre & suf & -> & Hp & -> & Sx & Mx)|(-> & Sx & Mx)].
  - left. exists pre, suf. split; [done|]. split; [done|]. split; [done|].
    split; [|congruence]. eapply inblock_again; try done. rewrite Em, Mx. exact Hm.
  - right. split; [done|congruence|done|done|congruence].
Qed.

Lemma instrs_app pre suf : instrs (pre ++ suf) = flat_map instr pre ++ instrs suf.
Proof. unfold instrs. by rewrite flat_map_app, <- app_assoc. Qed.

Lemma decode_symbols k : forall syms s rest,
  (length syms <= k)%nat -> inblock s -> Forall symbol_ok syms -> Forall (has_codes lt dt) syms -> 0 < dl (lt END_BLOCK) ->
  stream s = block_bits lt dt syms ++ rest -> Z.of_nat (length (instrs syms)) <= l_left s < 2 ^ 32 ->
  exists n s', turns n s s' /\ (n <= 3 * length syms + 2)%nat /\ block_end s s' (instrs syms) rest.
Proof.
  induction k as [|k IH]; intros syms s rest Hk Hin Hsy Hco He Hst Hroom.
  all: destruct (decide (slow s)) as [Hs|Hs];
    [|destruct (fast_turn s syms rest Hin Hs Hsy Hco He Hst (proj2 Hroom)) as (s1 & E1 & [(pre & suf & -> & Hp & W1 & I1 & S1)|R1]);
      [|exists 1%nat, s1; split; [by apply steps_1|split; [lia|done]]]].
  - destruct syms; [|cbn in Hk; lia]. destruct (slow_end s rest Hin Hs He Hst ltac:(cbn in *; lia)) as (s' & T & R).
    by exists 2%nat, s'.
  - destruct pre; [done|cbn in Hk; lia].
  - destruct syms as [|x syms].
    { destruct (slow_end s rest Hin Hs He Hst ltac:(cbn in *; lia)) as (s' & T & R).
      by exists 2%nat, s'. }
    apply Forall_cons_1 in Hsy as [Hx Hsy]. apply Forall_cons_1 in Hco as [Hcx Hco].
    unfold block_bits in Hst. cbn [flat_map] in Hst. rewrite <- app_assoc in Hst. rewrite <- app_assoc in Hst.
    change (instrs (x :: syms)) with ((instr x ++ flat_map instr syms) ++ ins_end) in Hroom |- *.
    rewrite <- app_assoc, length_app in Hroom. fold (instrs syms) in Hroom.
    destruct (slow_symbol x s _ Hin Hs Hx Hcx Hst ltac:(lia)) as (n1 & s1 & T1 & N1 & W1 & I1 & S1).
    rewrite app_assoc in S1. fold (block_bits lt dt syms) in S1. pose proof (wr_left _ _ _ W1).
    destruct (IH syms s1 rest ltac:(cbn in Hk; lia) I1 Hsy Hco He S1 ltac:(lia)) as (n2 & s2 & T2 & N2 & [W2 M2 O2 B2 S2]).
    exists (n1 + n2)%nat, s2. split; [by eapply steps_trans|]. split; [cbn; lia|].
    split; try done. rewrite <- app_assoc. fold (instrs syms). by eapply writes_trans.
  - apply Forall_app in Hsy as [_ Hsy]. apply Forall_app in Hco as [_ Hco]. rewrite length_app in Hk |- *.
    rewrite instrs_app, length_app in Hroom. pose proof (wr_left _ _ _ W1).
    assert (1 <= length pre)%nat by (destruct pre; [done|cbn; lia]).
    destruct (IH suf s1 rest ltac:(lia) I1 Hsy Hco He S1 ltac:(lia)) as (n2 & s2 & T2 & N2 & [W2 M2 O2 B2 S2]).
    exists (1 + n2)%nat, s2. split; [by eapply steps_S|]. split; [lia|]. rewrite instrs_app. split; try done. by eapply writes_trans.
Qed.
End Slow.

(** C11. Decoding the symbols of a block: when the tables of the state decode the codes of two trees, the bits
    of any sequence of symbols with codes, followed by the end code, make the machine write exactly the
    instructions of the symbols and the end mark, and stop in front of the next block's header, for any
    split of the input between the fast loop and the slow path; at most three turns per symbol. *)
Theorem decode_block flush lt dt syms s rest :
  tree_ok lt -> tree_ok dt -> inblock lt dt s -> Forall symbol_ok syms -> Forall (has_codes lt dt) syms -> 0 < dl (lt END_BLOCK) ->
  stream s = block_bits lt dt syms ++ rest -> Z.of_nat (length (instrs syms)) <= l_left s < 2 ^ 32 ->
  exists n s', steps (dispatch flush) n s s' /\ (n <= 3 * length syms + 2)%nat /\ block_end s s' (instrs syms) rest.
Proof. intros Hlt Hdt. by apply (decode_symbols flush lt dt Hlt Hdt (length syms)). Qed.
(** the fixed tables, the symbols of the re-encoder's example, two bits behind the block *)
Definition demo_im : im :=
  mk_im (mk_stream [] 0 [] 0 0 None 0 0 false false true true 0)
    (mk_is 0 IM.LEN 0 0 0 0 0 0 0 None 0 0 0 0 true 0 0 0 0 0 Lenfix Distfix 9 5 0 0 0 0 0 ∅ ∅ ∅ 0 0 0 ∅ 0 0 0 0 0 1)
    (mk_ig ∅ 0 0 0 0) [] 100 [142; 171; 64; 104; 244; 254; 127; 0] 0 0 0 0 0.
Lemma decode_block_witness :
  exists n s', steps (dispatch Z_NO_FLUSH) n demo_im s' /\ (n <= 14)%nat
    /\ block_end demo_im s' (instrs demo_symbols) [false; false].
Proof.
  apply (decode_block Z_NO_FLUSH static_l static_d demo_symbols demo_im [false; false]).
  - apply static_l_ok.
  - apply static_d_ok.
  - split; [reflexivity| |reflexivity|reflexivity|split; [apply lenfix_table|apply distfix_table]].
    split; [cbn; lia|cbn; lia|repeat constructor; unfold is_byte; lia].
  - apply demo_symbols_ok.
  - repeat constructor.
  - reflexivity.
  - vm_compute. reflexivity.
  - split; [apply Z.leb_le|apply Z.ltb_lt]; reflexivity.
Defined.
