(* ===== verification/Capture.v ===== *)
(** * Capturing a block header (partial/libz_j/inflate.c: my_send_bits, my_bi_windup, SEND_HEADER)

    Between TYPEDO and SEND_HEADER, DROPBITS copies every bit it drops into
    [header_buf].  The copy is a bit writer with the same code as that of trees.c,
    so its lemmas are used; SEND_HEADER pads the bits to bytes and writes them,
    followed by the marker. *)
From S2P Require Import Prelude DeflateTables Zlib DeflateState Trees Encode Bitstream.
From S2P Require Import InflateState Inffast Format Inflate Codebook Fastpath Decoding.

(** ** The header writer is the bit writer of trees.c *)

Definition as_out (st : inflate_state) : deflate_state :=
  mk_ds 0 0 (header_buf st) 0 0 (header_have st) 0 0 0 0 0 0 0 0 0 0 0 0 0 ∅ ∅ ∅ 0 0 0 0 0 0 0 0 0
    (my_bi_buf st) (my_bi_valid st) 0 0 STORE 0 0 0 0 0 0 0 0 0 ∅ 0 0 0 0 ∅ ∅ DM.HEAD.
Lemma as_out_put_byte st c : as_out (my_put_byte st c) = put_byte (as_out st) c.
Proof. reflexivity. Qed.
Lemma as_out_put_short st w : as_out (my_put_short st w) = put_short (as_out st) w.
Proof. unfold my_put_short, put_short. rewrite !as_out_put_byte. f_equal. f_equal. apply u8_small. rewrite (land_ones_mod 8) by lia. apply Z.mod_pos_bound. lia. Qed.

(** what is captured so far *)
Definition captured (st : inflate_state) : list bool := out_bits (as_out st).
Record capture_ok (st : inflate_state) : Prop := {
  co_ok : bits_ok (as_out st);
  co_bytes : bytes_ok (pend_bytes (as_out st)) }.
(** the state apart from the capture *)
Definition uncaptured (st : inflate_state) : inflate_state :=
  st <| header_buf := ∅ |> <| header_have := 0 |> <| my_bi_buf := 0 |> <| my_bi_valid := 0 |>.
Record captures (st st' : inflate_state) (l : list bool) : Prop := {
  ca_bits : captured st' = captured st ++ l;
  ca_ok : capture_ok st';
  ca_rest : uncaptured st' = uncaptured st }.
Lemma captures_trans s1 s2 s3 l l' : captures s1 s2 l -> captures s2 s3 l' -> captures s1 s3 (l ++ l').
Proof. intros [A B C] [D E F]. split; [by rewrite D, A, app_assoc|done|congruence]. Qed.

Lemma put_byte_bytes s c : 0 <= pending s -> bytes_ok (pend_bytes s) -> bytes_ok (pend_bytes (put_byte s c)).
Proof. intros Hp H. rewrite pend_bytes_put by done. apply Forall_app_2; [done|]. repeat constructor; apply u8_range. Qed.
Lemma put_short_bytes s w : 0 <= pending s -> bytes_ok (pend_bytes s) -> bytes_ok (pend_bytes (put_short s w)).
Proof. intros Hp H. unfold put_short. apply put_byte_bytes; [cbn; lia|]. by apply put_byte_bytes. Qed.
(** the pending bytes depend on two fields *)
Lemma pend_bytes_ok_eq s s' :
  pending_buf s' = pending_buf s -> pending s' = pending s -> bytes_ok (pend_bytes s) -> bytes_ok (pend_bytes s').
Proof. intros A B. unfold pend_bytes. by rewrite A, B. Qed.
Lemma send_bits_bytes s v n : 0 <= pending s -> bytes_ok (pend_bytes s) -> bytes_ok (pend_bytes (send_bits s v n)).
Proof.
  intros Hp H. unfold send_bits. destruct (_ >? _); cbv zeta; [|by apply (pend_bytes_ok_eq s)].
  set (s1 := s <| bi_buf := _ |>). apply (pend_bytes_ok_eq (put_short s1 (bi_buf s1))); [reflexivity..|].
  apply put_short_bytes; [exact Hp|]. by apply (pend_bytes_ok_eq s).
Qed.
Lemma bi_windup_bytes s : 0 <= pending s -> bytes_ok (pend_bytes s) -> bytes_ok (pend_bytes (bi_windup s)).
Proof.
  intros Hp H. unfold bi_windup. cbv zeta. destruct (_ >? 8); [|destruct (_ >? 0)].
  - apply (pend_bytes_ok_eq (put_short s (bi_buf s))); [reflexivity..|]. by apply put_short_bytes.
  - apply (pend_bytes_ok_eq (put_byte s (bi_buf s))); [reflexivity..|]. by apply put_byte_bytes.
  - by apply (pend_bytes_ok_eq s).
Qed.

Lemma as_out_send_bits st v n : as_out (my_send_bits st v n) = send_bits (as_out st) v n.
Proof.
  unfold my_send_bits, send_bits. change (bi_valid (as_out st)) with (my_bi_valid st). change Buf_size with my_Buf_size.
  destruct (my_bi_valid st >? my_Buf_size - n); [|reflexivity]. cbv zeta.
  set (st1 := st <| my_bi_buf := _ |>).
  change (as_out st <| bi_buf := _ |>) with (as_out st1). change (bi_buf (as_out st1)) with (my_bi_buf st1).
  rewrite <- as_out_put_short. reflexivity.
Qed.
Lemma as_out_windup st : as_out (my_bi_windup st) = bi_windup (as_out st).
Proof.
  unfold my_bi_windup, bi_windup. change (bi_valid (as_out st)) with (my_bi_valid st).
  change (bi_buf (as_out st)) with (my_bi_buf st).
  destruct (my_bi_valid st >? 8); [rewrite <- as_out_put_short; reflexivity|]. by destruct (my_bi_valid st >? 0).
Qed.

Lemma send_captures st v n :
  capture_ok st -> 0 <= n <= 16 -> 0 <= v < 2 ^ n -> captures st (my_send_bits st v n) (bits_of (Z.to_nat n) v).
Proof.
  intros [Ho Hb] Hn Hv. pose proof (send_bits_emits (as_out st) v n Ho Hn Hv) as [E1 E2 _ _ _].
  rewrite <- as_out_send_bits in E1, E2. split; [exact E1| |].
  - split; [done|]. rewrite as_out_send_bits. apply send_bits_bytes; [apply Ho|done].
  - unfold my_send_bits. by destruct (_ >? _).
Qed.
Lemma windup_captures st : capture_ok st -> captures st (my_bi_windup st) (padding (my_bi_valid st)) /\ my_bi_valid (my_bi_windup st) = 0.
Proof.
  intros [Ho Hb]. pose proof (bi_windup_emits (as_out st) Ho) as [E1 E2 _ _ _]. rewrite <- as_out_windup in E1, E2.
  split; [|done]. split; [exact E1| |].
  - split; [done|]. rewrite as_out_windup. apply bi_windup_bytes; [apply Ho|done].
  - unfold my_bi_windup. destruct (_ >? 8); [done|]. by destruct (_ >? 0).
Qed.
Lemma captured_length st : capture_ok st -> Z.of_nat (length (captured st)) = 8 * header_have st + my_bi_valid st.
Proof. intros [Ho _]. exact (length_out_bits _ Ho). Qed.

(** ** Reading header bits *)

(** the machine apart from the state and the reader; the header bit counter is not read by anything *)
Definition im_outer (s : im) :=
  (strm s, (ins_buffer (glob s), ins_buffer_index (glob s), ins_buffer_have (glob s), ins_type (glob s)), l_put s, l_left s, (l_in s, l_out s, l_ret s)).

Lemma DROPBITS_header n s w rest :
  reader_ok s -> header_flag (state s) = 1 -> capture_ok (state s) -> stream s = w ++ rest -> Z.of_nat (length w) = n -> n <= l_bits s ->
  n <= 16 ->
  exists s', DROPBITS n s = (s', inr tt) /\ reader_ok s' /\ stream s' = rest /\ l_bits s' = l_bits s - n
    /\ captures (state s) (state s') w /\ im_outer s' = im_outer s.
Proof.
  intros Hr Hf Hc Hs Hw Hn H16. unfold DROPBITS, DROP_HEADER_BITS. rewrite bind_modify, Hf. change (negb (1 =? 0)) with true. cbv iota.
  assert (E : BITS n s = val_of w).
  { rewrite BITS_spec by (try exact Hr; try lia; exact Hn). by rewrite Hs, take_app_length' by lia. }
  rewrite E. set (s1 := s <| state := _ |> <| glob := _ |>).
  assert (Hr1 : reader_ok s1) by (destruct Hr; by split).
  destruct (drop_bits_spec n s1 Hr1) as (s' & E' & O & S & R & _ & B); [cbn; lia|].
  exists s'. split; [done|]. split; [done|]. split; [rewrite S; change (stream s1) with (stream s); rewrite Hs, drop_app_length'; [done|lia]|].
  split; [exact B|]. split; [|exact (f_equal im_outer R)].
  assert (T : state s' = my_send_bits (state s) (val_of w) n) by exact (f_equal state R). rewrite T.
  replace w with (bits_of (Z.to_nat n) (val_of w)) at 2.
  - apply send_captures; [done|lia|]. rewrite <- Hw. apply val_of_bound.
  - replace (Z.to_nat n) with (length w) by lia. apply bits_of_val_of.
Qed.

(** ** SEND_HEADER *)

(** what the header of a block sets and its body uses *)
Definition block_ctx (st : inflate_state) :=
  (is_strm st, last_ st, wrap st, flags st, (lencode st, distcode st, lenbits st, distbits st), codes st, length_ st).

(** the header bytes: the bits [h] padded *)
Definition packs (hb : list Z) (h : list bool) : Prop :=
  bytes_ok hb /\ bytes_bits hb = h ++ padding (Z.of_nat (length h)).

(** the header is complete: its bits are padded and the marker is put behind them *)
Definition close_header (st : inflate_state) : inflate_state :=
  my_put_byte (my_put_byte (my_bi_windup st) 0xaa) 0xff <| header_flag := 0 |>.
Lemma as_out_flag st v : as_out (st <| header_flag := v |>) = as_out st.
Proof. reflexivity. Qed.
Lemma header_read st : aread 0 (header_buf st) 0 (Z.to_nat (header_have st)) = pend_bytes (as_out st).
Proof. reflexivity. Qed.
Lemma close_header_bytes st hb :
  capture_ok st -> packs hb (captured st) ->
  aread 0 (header_buf (close_header st)) 0 (Z.to_nat (header_have (close_header st))) = hb ++ ins_end
  /\ header_have (close_header st) = Z.of_nat (length hb) + 2.
Proof.
  intros Hc [Hb Hp]. destruct (windup_captures st Hc) as [[E1 [E2 E3] _] E4].
  assert (Ep : padding (my_bi_valid st) = padding (Z.of_nat (length (captured st)))).
  { rewrite captured_length by done. by rewrite padding_mod. }
  rewrite Ep, <- Hp in E1. unfold captured, out_bits in E1.
  change (bi_valid (as_out (my_bi_windup st))) with (my_bi_valid (my_bi_windup st)) in E1. rewrite E4 in E1.
  change (bits_of (Z.to_nat 0) _) with (@nil bool) in E1. rewrite app_nil_r in E1.
  apply bytes_bits_inj in E1; [|done..].
  assert (H0 : 0 <= header_have (my_bi_windup st)) by apply E2.
  assert (E5 : header_have (my_bi_windup st) = Z.of_nat (length hb)) by (rewrite <- E1; symmetry; apply length_pend_bytes; exact H0).
  rewrite header_read. unfold close_header. rewrite as_out_flag, !as_out_put_byte.
  split; [|change (header_have (my_bi_windup st) + 1 + 1 = Z.of_nat (length hb) + 2); lia].
  assert (H1 : 0 <= pending (as_out (my_bi_windup st))) by exact H0.
  rewrite !pend_bytes_put by first [exact H1|cbn [put_byte pending set_field]; lia].
  rewrite E1, <- app_assoc. reflexivity.
Qed.

Lemma close_header_ctx st :
  header_flag (close_header st) = 0 /\ header_index (close_header st) = header_index st
  /\ block_ctx (close_header st) = block_ctx st /\ itree_type (close_header st) = itree_type st.
Proof. unfold close_header, my_bi_windup. cbv zeta. by destruct (_ >? 8); [|destruct (_ >? 0)]. Qed.

Lemma put_ins (l : list Z) left : Z.of_nat (length l) <= left < 2 ^ 32 -> u32 (left - Z.of_nat (length l)) = left - Z.of_nat (length l).
Proof. intros. apply u32_small. lia. Qed.
(** the rest of the turn, once the header is complete *)
Lemma SEND_HEADER_rest s st l :
  state s = st -> header_flag st = 0 -> header_index st = 0 -> header_have st = Z.of_nat (length l) ->
  aread 0 (header_buf st) 0 (Z.to_nat (header_have st)) = l ->
  l <> [] -> Z.of_nat (length l) <= l_left s < 2 ^ 32 ->
  exists s', h_SEND_HEADER s = (s', inr tt) /\ l_put s' = l_put s ++ l /\ l_left s' = l_left s - Z.of_nat (length l)
    /\ state s' = st <| header_index := Z.of_nat (length l) |>
                          <| mode := if itree_type st =? 0 then IM.COPY_ else IM.LEN_ |>
    /\ (strm s', (l_in s', l_out s', l_ret s')) = (strm s, (l_in s, l_out s, l_ret s))
    /\ (l_next s', l_hold s', l_bits s') = (l_next s, l_hold s, l_bits s).
Proof.
  intros Est Hf Hi Hh Hl Hne Hroom. subst st. assert (0 < Z.of_nat (length l)) by (destruct l; [done|cbn; lia]).
  unfold h_SEND_HEADER. rewrite im_bind_upd, Hf. change (0 =? 1) with false. cbv iota.
  set (s0 := s <| state := state s |>). rewrite bind_gets. change (l_left s0) with (l_left s).
  destruct (Z.eqb_spec (l_left s) 0); [lia|]. rewrite bind_gets. change (state s0) with (state s).
  rewrite Hi, Z.sub_0_r. destruct (Z.gtb_spec (header_have (state s)) (l_left s)); [lia|].
  rewrite u32_small by lia. rewrite Hl. unfold put_bytes. rewrite bind_modify, im_bind_upd.
  set (st1 := state s <| header_index := Z.of_nat (length l) |>).
  match goal with |- context [upd ?g ?x] => set (s1 := x) end.
  assert (E1 : state s1 = st1).
  { unfold s1, st1. cbn [state set_field]. change (state s0) with (state s). by rewrite Hi, Hh. }
  assert (E2 : l_left s1 = l_left s - Z.of_nat (length l)) by (apply put_ins; lia).
  assert (E3 : (l_put s1, (strm s1, (l_in s1, l_out s1, l_ret s1)), (l_next s1, l_hold s1, l_bits s1))
    = (l_put s ++ l, (strm s, (l_in s, l_out s, l_ret s)), (l_next s, l_hold s, l_bits s))) by reflexivity.
  clearbody s1. eexists. split; [reflexivity|]. injection E3 as F1 F2 F3 F4 F5 F6 F7 F8.
  split; [exact F1|]. split; [exact E2|]. split.
  - cbn [state set_field]. rewrite E1. change (header_have st1) with (header_have (state s)).
    change (header_index st1) with (Z.of_nat (length l)). by rewrite Hh, Z.eqb_refl.
  - split; cbn; congruence.
Qed.
Lemma SEND_HEADER_close s :
  header_flag (state s) = 1 -> h_SEND_HEADER s = h_SEND_HEADER (s <| state := close_header (state s) |>).
Proof.
  intros Hf. destruct (close_header_ctx (state s)) as (E3 & _). unfold h_SEND_HEADER. rewrite !im_bind_upd.
  assert (F : forall st, (if header_flag st =? 1 then my_put_byte (my_put_byte (my_bi_windup st) 0xaa) 0xff <| header_flag := 0 |> else st)
    = if header_flag st =? 1 then close_header st else st) by reflexivity.
  rewrite !F, Hf, Z.eqb_refl. generalize dependent (close_header (state s)). intros st E3.
  cbn [state set_field]. rewrite E3. reflexivity.
Qed.
Lemma dispatch_SEND_HEADER flush s : mode (state s) = IM.SEND_HEADER -> dispatch flush s = h_SEND_HEADER s.
Proof. intros Hm. unfold dispatch. by rewrite bind_gets, Hm. Qed.
Lemma turn_SEND_HEADER flush s hb :
  mode (state s) = IM.SEND_HEADER -> header_flag (state s) = 1 -> header_index (state s) = 0 -> capture_ok (state s) ->
  packs hb (captured (state s)) -> Z.of_nat (length (hb ++ ins_end)) <= l_left s < 2 ^ 32 ->
  exists s', dispatch flush s = (s', inr tt) /\ l_put s' = l_put s ++ hb ++ ins_end
    /\ l_left s' = l_left s - Z.of_nat (length (hb ++ ins_end))
    /\ mode (state s') = (if itree_type (state s) =? 0 then IM.COPY_ else IM.LEN_)
    /\ header_flag (state s') = 0 /\ block_ctx (state s') = block_ctx (state s)
    /\ (strm s', (l_in s', l_out s', l_ret s')) = (strm s, (l_in s, l_out s, l_ret s))
    /\ (l_next s', l_hold s', l_bits s') = (l_next s, l_hold s, l_bits s).
Proof.
  intros Hm Hf Hi Hc Hp Hroom. destruct (close_header_bytes _ hb Hc Hp) as [E1 E2].
  destruct (close_header_ctx (state s)) as (E3 & E4 & E5 & E6).
  pose proof (SEND_HEADER_close s Hf) as E.
  assert (E7 : header_have (close_header (state s)) = Z.of_nat (length (hb ++ ins_end))) by (rewrite E2, length_app; cbn; lia).
  rewrite (dispatch_SEND_HEADER flush s Hm), E, <- E6. clear E E2. rewrite Hi in E4.
  generalize dependent (close_header (state s)). intros st E1 E3 E4 E5 E6 E7.
  assert (Hne : hb ++ ins_end <> []) by by destruct hb.
  match goal with |- context [h_SEND_HEADER ?x] => pose (s2 := x) end.
  destruct (SEND_HEADER_rest s2 st (hb ++ ins_end) eq_refl E3 E4 E7 E1 Hne Hroom)
    as (s' & E' & P & L & T & X & R).
  exists s'. split; [exact E'|]. split; [exact P|]. split; [exact L|]. rewrite T.
  split; [reflexivity|]. split; [exact E3|]. split; [exact E5|]. split; [exact X|exact R].
Qed.

(** ** TYPEDO *)

(** the state behind the three bits of a block header: [v] is the type *)
Definition typed (v last : Z) (st : inflate_state) : inflate_state :=
  let st := st <| header_flag := 1 |> <| header_index := 0 |> <| last_ := last |> in
  if v =? 0 then st <| mode := IM.STORED |> <| itree_type := 0 |>
  else if v =? 1 then fixedtables st <| itree_type := 1 |> <| mode := IM.SEND_HEADER |>
  else st <| mode := IM.TABLE |> <| itree_type := 2 |>.
Definition start_header (st : inflate_state) : inflate_state :=
  st <| header_flag := 1 |> <| header_index := 0 |> <| header_have := 0 |> <| my_bi_buf := 0 |> <| my_bi_valid := 0 |>.
Lemma start_header_ok st :
  capture_ok (start_header st) /\ captured (start_header st) = []
  /\ uncaptured (start_header st) = uncaptured (st <| header_flag := 1 |> <| header_index := 0 |>).
Proof. split; [|done]. split; [|constructor]. unfold bits_ok. cbn. lia. Qed.

(** the state changes of a header turn do not touch the capture *)
Lemma captures_upd st st' l : as_out st' = as_out st -> capture_ok st -> captured st = l -> capture_ok st' /\ captured st' = l.
Proof. intros E [A B] C. split; [by split; rewrite E|]. unfold captured in *. by rewrite E. Qed.

(** the first bit, and the type looked at *)
Lemma TYPEDO_read s last v rest :
  reader_ok s -> header_flag (state s) = 1 -> capture_ok (state s) -> captured (state s) = [] -> l_bits s < 8 -> 0 <= last < 2 -> 0 <= v < 4 ->
  stream s = bits_of 1 last ++ bits_of 2 v ++ rest ->
  exists s1 s2, NEEDBITS 3 s = (s1, inr tt) /\ BITS 1 s1 = last /\ state s1 = state s /\ im_outer s1 = im_outer s
    /\ DROPBITS 1 (s1 <| state := state s1 <| last_ := last |> |>) = (s2, inr tt) /\ BITS 2 s2 = v
    /\ capture_ok (state s2) /\ captured (state s2) = bits_of 1 last
    /\ uncaptured (state s2) = uncaptured (state s <| last_ := last |>) /\ im_outer s2 = im_outer s
    /\ reader_ok s2 /\ stream s2 = bits_of 2 v ++ rest /\ 2 <= l_bits s2 < 10.
Proof.
  intros Hr Hf Hc H0 Hb Hl Hv Hs. destruct (needbits_enough 3 s Hr) as (s1 & [O1 S1 R1] & E1 & B1 & C1); [lia| |].
  { rewrite Hs, !length_app, !length_bits_of. lia. }
  assert (T1 : state s1 = state s) by exact (f_equal state R1).
  set (s1' := s1 <| state := state s1 <| last_ := last |> |>).
  destruct (DROPBITS_header 1 s1' (bits_of 1 last) (bits_of 2 v ++ rest)) as (s2 & E2 & O2 & S2 & B2 & [K1 K2 K3] & I2); try done.
  { destruct O1; by split. } { change (header_flag (state s1) = 1). by rewrite T1. }
  { change (capture_ok (state s1 <| last_ := last |>)). rewrite T1. apply (captures_upd (state s) _ []); done. }
  { rewrite <- Hs. exact S1. } { change (l_bits s1') with (l_bits s1). cbn in B1. lia. }
  exists s1, s2. split; [done|]. split.
  { rewrite BITS_spec by (done || lia). rewrite S1, Hs, take_app_length' by (by rewrite length_bits_of).
    rewrite val_of_bits_of. apply Z.mod_small. cbn. lia. }
  split; [done|]. split; [exact (f_equal im_outer R1)|]. split; [exact E2|]. change (l_bits s1') with (l_bits s1) in B2. cbn in B1, C1.
  split.
  { rewrite BITS_spec by (done || (cbn; lia)). rewrite S2, take_app_length' by (by rewrite length_bits_of).
    rewrite val_of_bits_of. apply Z.mod_small. cbn. lia. }
  split; [done|]. change (state s1') with (state s1 <| last_ := last |>) in K1, K3. rewrite T1 in K1, K3.
  split; [rewrite K1; change (captured (state s <| last_ := last |>)) with (captured (state s)); by rewrite H0|].
  split; [exact K3|]. split; [rewrite I2; exact (f_equal im_outer R1)|]. split; [done|]. split; [done|]. lia.
Qed.
(** the type dropped, after a change [st'] of the state *)
Lemma TYPEDO_drop s st' l v rest :
  reader_ok s -> header_flag st' = 1 -> capture_ok st' -> captured st' = l -> stream s = bits_of 2 v ++ rest -> 2 <= l_bits s < 10 ->
  exists s', DROPBITS 2 (s <| state := st' |>) = (s', inr tt) /\ reader_ok s' /\ stream s' = rest /\ l_bits s' < 8
    /\ capture_ok (state s') /\ captured (state s') = l ++ bits_of 2 v /\ uncaptured (state s') = uncaptured st'
    /\ im_outer s' = im_outer s.
Proof.
  intros Hr Hf Hc Hl Hs Hb. pose (s1 := s <| state := st' |>).
  destruct (DROPBITS_header 2 s1 (bits_of 2 v) rest) as (s' & E & O & S & B & [K1 K2 K3] & I); try done.
  { destruct Hr; by split. } { apply Hb. }
  exists s'. split; [exact E|]. split; [done|]. split; [done|]. change (l_bits s1) with (l_bits s) in B. split; [lia|].
  split; [done|]. split; [rewrite K1; change (state s1) with st'; by rewrite Hl|]. split; [exact K3|exact I].
Qed.

Record header_done (s s' : im) (l : list bool) (st : inflate_state) (rest : list bool) : Prop := {
  hd_reader : reader_ok s';
  hd_stream : stream s' = rest;
  hd_bits : l_bits s' < 8;
  hd_ok : capture_ok (state s');
  hd_captured : captured (state s') = l;
  hd_state : uncaptured (state s') = uncaptured st;
  hd_outer : im_outer s' = im_outer s }.

Lemma uncaptured_last st x : uncaptured (st <| last_ := x |>) = uncaptured st <| last_ := x |>.
Proof. reflexivity. Qed.
Lemma dispatch_TYPEDO flush s :
  mode (state s) = IM.TYPE \/ mode (state s) = IM.TYPEDO -> flush <> Z_BLOCK -> flush <> Z_TREES ->
  dispatch flush s = h_TYPEDO flush s.
Proof.
  intros Hm Hf1 Hf2. unfold dispatch. rewrite bind_gets. destruct Hm as [-> | ->]; [|done].
  unfold h_TYPE. destruct (Z.eqb_spec flush Z_BLOCK); [done|]. destruct (Z.eqb_spec flush Z_TREES); done.
Qed.
Lemma turn_TYPEDO flush s last v rest :
  mode (state s) = IM.TYPE \/ mode (state s) = IM.TYPEDO -> flush <> Z_BLOCK -> flush <> Z_TREES ->
  last_ (state s) = 0 -> 0 <= last < 2 -> 0 <= v < 3 -> reader_ok s -> l_bits s < 8 ->
  stream s = bits_of 1 last ++ bits_of 2 v ++ rest ->
  exists s', dispatch flush s = (s', inr tt)
    /\ header_done s s' (bits_of 1 last ++ bits_of 2 v) (typed v last (state s)) rest.
Proof.
  intros Hm Hf1 Hf2 Hl0 Hl Hv Hr Hb Hs. rewrite (dispatch_TYPEDO flush s Hm Hf1 Hf2). clear Hm.
  unfold h_TYPEDO. rewrite im_bind_upd. change (state s <| header_flag := 1 |> <| header_index := 0 |> <| header_have := 0 |>
    <| my_bi_buf := 0 |> <| my_bi_valid := 0 |>) with (start_header (state s)).
  destruct (start_header_ok (state s)) as (C0 & C1 & C2).
  set (s0 := s <| state := start_header (state s) |>). rewrite bind_gets.
  change (last_ (state s0)) with (last_ (state s)). rewrite Hl0. change (negb (0 =? 0)) with false. cbv iota.
  destruct (TYPEDO_read s0 last v rest) as (s1 & s2 & E1 & V1 & T1 & I1 & E2 & V2 & K2 & L2 & U2 & I2 & O2 & S2 & B2); try done; [by destruct Hr|lia|].
  rewrite (bind_inr _ _ _ _ _ E1), bind_gets, V1, im_bind_upd, (bind_inr _ _ _ _ _ E2), bind_gets, V2.
  rewrite uncaptured_last in U2. change (state s0) with (start_header (state s)) in U2. rewrite C2 in U2.
  change (im_outer s0) with (im_outer s) in I2. clearbody s0. clear E1 E2 V1 V2 T1 I1 s1 C0 C1 C2.
  assert (Hf : header_flag (state s2) = 1) by exact (f_equal header_flag U2).
  set (st0 := state s <| header_flag := 1 |> <| header_index := 0 |>) in *. rewrite <- uncaptured_last in U2.
  assert (D : forall g : inflate_state -> inflate_state, (forall st, header_flag (g st) = header_flag st) ->
    (forall st, as_out (g st) = as_out st) -> (forall st, uncaptured (g st) = g (uncaptured st)) ->
    exists s', DROPBITS 2 (s2 <| state := g (state s2) |>) = (s', inr tt)
      /\ header_done s s' (bits_of 1 last ++ bits_of 2 v) (g (st0 <| last_ := last |>)) rest).
  { intros g G1 G2 G3. destruct (captures_upd (state s2) (g (state s2)) _ (G2 _) K2 L2) as [K3 L3].
    destruct (TYPEDO_drop s2 (g (state s2)) (bits_of 1 last) v rest O2 ltac:(by rewrite G1) K3 L3 S2 B2)
      as (s' & E & O & S & B & K & L & U & I). exists s'. split; [exact E|]. split; try done; [|congruence].
    by rewrite U, !G3, U2. }
  assert (Hcase : v = 0 \/ v = 1 \/ v = 2) by lia. destruct Hcase as [-> | [-> | ->]];
    cbn [Z.eqb Pos.eqb]; rewrite !bind_bind; rewrite ?im_bind_set_mode.
  - destruct (D (fun st => st <| mode := IM.STORED |> <| itree_type := 0 |>)) as (s' & E & H); try done.
    exists s'. split; [exact E|exact H].
  - destruct (D (fun st => fixedtables st <| itree_type := 1 |> <| mode := IM.SEND_HEADER |>)) as (s' & E & H); try done.
    exists s'. split; [|exact H]. rewrite im_bind_upd, bind_bind, im_bind_upd, bind_bind, im_bind_set_mode.
    destruct (Z.eqb_spec flush Z_TREES); [done|]. exact E.
  - destruct (D (fun st => st <| mode := IM.TABLE |> <| itree_type := 2 |>)) as (s' & E & H); try done.
    exists s'. split; [exact E|exact H].
Qed.
