(* ===== verification/HeaderIn.v ===== *)
(** * The header of a dynamic block in the decoder (partial/libz_j/inflate.c)

    TABLE, LENLENS and CODELENS of [j_inflate] are the programs of Headers.v on
    the machine's own state, whose DROPBITS captures the header: the instance,
    the equations, and the turn that reads a header. *)
From Stdlib Require Import FunctionalExtensionality.
From S2P Require Import Prelude DeflateTables Inftrees Zlib Trees Format Encode Rle Bitstream.
From S2P Require DeflateState Deflate HeaderOut.
From S2P Require Import InflateState Inffast Inflate Codebook Huffman Builds Headers Decoding Capture.

(** ** The instance *)

Abbreviation im_fields := (view code_ptr IM.inflate_mode).
Definition state_view (st : inflate_state) (ret : Z) : im_fields :=
  mk_view code_ptr IM.inflate_mode (nlen st) (ndist st) (ncode st) (have st) (lens st) (codes st) (work st) (next st)
    (lencode st) (lenbits st) (distcode st) (distbits st) (mode st) ret ∅ ∅ ∅ 0 0.
Definition state_with (v : im_fields) (st : inflate_state) : inflate_state :=
  st <| nlen := v_nlen v |> <| ndist := v_ndist v |> <| ncode := v_ncode v |> <| have := v_have v |>
      <| lens := v_lens v |> <| codes := v_codes v |> <| work := v_work v |> <| next := v_next v |>
      <| lencode := v_lencode v |> <| lenbits := v_lenbits v |> <| distcode := v_distcode v |> <| distbits := v_distbits v |>
      <| mode := v_mode v |>.
Definition im_view (s : im) : im_fields := state_view (state s) (l_ret s).
Definition im_with (v : im_fields) (s : im) : im := s <| state := state_with v (state s) |> <| l_ret := v_ret v |>.
(** a header is being captured *)
Record capturing (s : im) : Prop := {
  cp_reader : reader_ok s;
  cp_flag : header_flag (state s) = 1;
  cp_ok : capture_ok (state s) }.
#[export] Instance im_header : HeaderOps im code_ptr IM.inflate_mode := {
  hm_get := im_view; hm_set := im_with; hm_my := false; hm_limit := true; hm_ptr := Codes;
  hm_at s i := code_at (state s) (lencode (state s)) i;
  hm_lenlens := IM.LENLENS; hm_codelens := IM.CODELENS; hm_done := IM.SEND_HEADER;
  hm_is_bad m := bool_decide (m = IM.BAD); hm_bad := bad; hm_drop := DROPBITS;
  hm_ok := capturing; hm_took w s s' := captures (state s) (state s') w /\ im_outer s' = im_outer s }.

Lemma state_with_with v v' st : state_with v (state_with v' st) = state_with v st.
Proof. destruct st. reflexivity. Qed.
Lemma state_with_view st ret : state_with (state_view st ret) st = st.
Proof. destruct st. reflexivity. Qed.
Lemma captures_same st : capture_ok st -> captures st st [].
Proof. intros H. split; [by rewrite app_nil_r|done|done]. Qed.
Lemma uncaptured_with v st : uncaptured (state_with v st) = state_with v (uncaptured st).
Proof. reflexivity. Qed.
Lemma captures_with v st st' w : captures st st' w -> captures (state_with v st) (state_with v st') w.
Proof.
  intros [A B C]. destruct (captures_upd st' (state_with v st') _ eq_refl B A) as [D E]. split; [exact E|exact D|].
  by rewrite !uncaptured_with, C.
Qed.
#[export] Instance im_header_laws : HeaderLaws im code_ptr IM.inflate_mode.
Proof.
  split; cbn [hm_get hm_set hm_my hm_limit hm_ptr hm_at hm_codelens hm_is_bad hm_drop hm_ok hm_took im_header].
  - intros v s. destruct v. reflexivity.
  - intros v v' s. unfold im_with. cbn [state set_field]. by rewrite state_with_with.
  - intros s. unfold im_with, im_view. cbn [state_view v_ret]. rewrite state_with_view. by destruct s.
  - done.
  - done.
  - done.
  - intros v s [[A B C] D [E F]]. split; [by split|exact D|by split].
  - by intros s [? _ _].
  - intros s s' [A B C] [D _ E]. assert (T : state s' = state s) by exact (f_equal state E).
    split; [split; [done|by rewrite T..]|]. split; [rewrite T; by apply captures_same|exact (f_equal im_outer E)].
  - intros w w' s1 s2 s3 [A B] [C D]. split; [by eapply captures_trans|congruence].
  - intros w v s s' [A B]. split; [by apply captures_with|].
    unfold im_outer in *. injection B as B1 B2 B3 B4 B5 B6 B7 B8 B9 B10.
    cbn [im_with strm glob l_put l_left l_in l_out l_ret set_field]. congruence.
  - intros w s s' [[_ _ A] B].
    transitivity (state_view (uncaptured (state s')) (l_ret s')); [reflexivity|]. rewrite A.
    assert (R : l_ret s' = l_ret s) by exact (f_equal (fun x => x.2.2) B). by rewrite R.
  - intros n w rest s [A B C] Hw Hl Hb Hn. destruct (DROPBITS_header n s w rest A B C Hw Hl Hb Hn) as (s' & E & O & T & D & K & I).
    exists s'. split; [done|]. split; [split; [done| |by destruct K]|done].
    rewrite <- B. exact (f_equal header_flag (ca_rest _ _ _ K)).
  - intros o i s E. unfold im_view in E. cbn [state_view v_lencode] in E. rewrite E. reflexivity.
  - done.
Qed.

(** ** The handlers are the programs *)

Lemma im_put_lens_run : put_lens = fun n x st => let p := put_run n x (lens st, have st) in st <| lens := p.1 |> <| have := p.2 |>.
Proof.
  extensionality n; extensionality x; extensionality st. revert st.
  induction n as [|n IH]; intros st; cbn [put_lens put_run]; [by destruct st|]. by rewrite IH.
Qed.
Lemma im_zero_lens_run n st : zero_lens n st = let p := zero_run n (lens st, have st) in st <| lens := p.1 |> <| have := p.2 |>.
Proof.
  revert st. induction n as [|n IH]; intros st; cbn [zero_lens zero_run fst snd]; [by destruct st|].
  destruct (_ <? _); [by rewrite IH|by destruct st].
Qed.
Lemma im_upd_zero_lens n : upd (zero_lens n) = mod_view (on_run (zero_run n)).
Proof. extensionality s. unfold upd, mod_view, modify. rewrite im_zero_lens_run. reflexivity. Qed.
Lemma im_lenlens_program : lenlens_turn = g_lenlens_turn.
Proof. reflexivity. Qed.
Lemma im_codelens_program : codelens_turn = g_codelens_turn.
Proof. unfold codelens_turn. rewrite im_put_lens_run. reflexivity. Qed.
#[local] Opaque inflate_table_gen.
Lemma im_CODELENS_program flush : h_CODELENS flush = g_CODELENS flush.
Proof. unfold h_CODELENS, g_CODELENS. rewrite im_codelens_program. reflexivity. Qed.
Lemma im_LENLENS_program flush : h_LENLENS flush = g_LENLENS flush.
Proof.
  unfold h_LENLENS, g_LENLENS. rewrite im_lenlens_program, im_upd_zero_lens.
  do 3 (apply bind_cong; [reflexivity|intros _]). apply bind_cong; [reflexivity|intros ret].
  destruct (negb _); [reflexivity|]. rewrite im_CODELENS_program. reflexivity.
Qed.
Lemma im_TABLE_program flush : h_TABLE flush = g_TABLE flush.
Proof. unfold h_TABLE, g_TABLE. rewrite im_LENLENS_program. reflexivity. Qed.

(** ** The turn *)

Lemma view_tables h st ret : tables_of h (state_view st ret) -> tables (dyn_tree (dh_lit h)) (dyn_tree (dh_dist h)) st.
Proof.
  intros [_ _ (o & E & T) (o' & E' & T') _]. unfold tables.
  change (v_lencode (state_view st ret)) with (lencode st) in E. change (v_distcode (state_view st ret)) with (distcode st) in E'.
  rewrite E, E'. split; [exact T|exact T'].
Qed.
Lemma turn_TABLE_in flush s h rest :
  header_ok h -> mode (state s) = IM.TABLE -> flush <> Z_TREES -> capturing s -> l_bits s < 8 -> l_ret s = Z_OK ->
  stream s = header_bits h ++ rest ->
  exists s' v, dispatch flush s = (s', inr tt) /\ capturing s' /\ l_bits s' < 8 /\ stream s' = rest
    /\ captured (state s') = captured (state s) ++ header_bits h /\ uncaptured (state s') = uncaptured (state_with v (state s))
    /\ mode (state s') = IM.SEND_HEADER /\ im_outer s' = im_outer s
    /\ tables (dyn_tree (dh_lit h)) (dyn_tree (dh_dist h)) (state s').
Proof.
  intros Hh Hm Hf Hs Hb Hret Hw. unfold dispatch. rewrite bind_gets, Hm, im_TABLE_program.
  assert (Hs0 : hm_ok (P := code_ptr) (Mo := IM.inflate_mode) s) by exact Hs.
  destruct (TABLE_run (S := im) (P := code_ptr) (Mo := IM.inflate_mode) flush s h rest Hh Hs0 Hf Hb eq_refl eq_refl eq_refl Hw)
    as (s' & E & [R1 _ (v & [K1 _ K3] & K4)] & T & B & V & _ & _).
  exists s', v. split; [exact E|]. split; [exact R1|]. split; [exact B|]. split; [exact T|]. split; [exact K1|]. split; [exact K3|].
  split; [exact (to_mode _ _ V)|]. split; [|exact (view_tables _ _ _ V)].
  pose proof (to_ret _ _ V : l_ret s' = 0) as R. unfold im_outer in *. injection K4 as F1 F2 F3 F4 F5 F6 F7 F8 F9 _.
  cbn [im_with strm glob l_put l_left l_in l_out l_ret set_field] in *. rewrite Hret. change Z_OK with 0. congruence.
Qed.

(** C35. Capturing a dynamic header: one turn in the mode TABLE, on input that starts with the bits of any well-formed
    header, reads exactly these bits, appends them to the captured ones, and leaves tables that decode the canonical
    codes of the two sets of lengths; the output and everything outside the header's fields is as before. *)
Theorem header_captured flush s h rest :
  header_ok h -> mode (state s) = IM.TABLE -> flush <> Z_TREES -> capturing s -> l_bits s < 8 -> l_ret s = Z_OK ->
  stream s = header_bits h ++ rest ->
  exists s' v, dispatch flush s = (s', inr tt) /\ capturing s' /\ l_bits s' < 8 /\ stream s' = rest
    /\ captured (state s') = captured (state s) ++ header_bits h /\ uncaptured (state s') = uncaptured (state_with v (state s))
    /\ mode (state s') = IM.SEND_HEADER /\ im_outer s' = im_outer s
    /\ tables (dyn_tree (dh_lit h)) (dyn_tree (dh_dist h)) (state s').
Proof. apply turn_TABLE_in. Qed.
Definition demo_table_im : im :=
  demo_im <| state := state demo_im <| mode := IM.TABLE |> <| header_flag := 1 |> |> <| l_next := pack (header_bits demo_dynamic) |>.
Lemma header_captured_witness :
  exists s' v, dispatch Z_NO_FLUSH demo_table_im = (s', inr tt) /\ captured (state s') = header_bits demo_dynamic
    /\ uncaptured (state s') = uncaptured (state_with v (state demo_table_im))
    /\ tables (dyn_tree (dh_lit demo_dynamic)) (dyn_tree (dh_dist demo_dynamic)) (state s').
Proof.
  destruct (header_captured Z_NO_FLUSH demo_table_im demo_dynamic (padding (Z.of_nat (length (header_bits demo_dynamic)))) demo_dynamic_ok)
    as (s' & v & E & _ & _ & _ & C & U & _ & _ & T); try reflexivity.
  - discriminate.
  - split; [split; [cbn; lia|cbn; lia|apply pack_spec]|reflexivity|]. split; [unfold bits_ok; cbn; lia|constructor].
  - exists s', v. split; [exact E|]. split; [exact C|]. split; [exact U|exact T].
Defined.

