(* ===== verification/Instructions.v ===== *)
(** * Whole streams through [j_inflate] (partial/libz_j/inflate.c)

    From the bits of a stream of blocks [j_inflate] writes the instruction stream
    that [deflate_my] reads: the turns of the machine through the header, the body
    and the end of a block, for the three types of blocks, and one call on a whole
    stream. *)
From S2P Require Import Prelude DeflateTables Zlib Trees Encode Bitstream.
From S2P Require Import Builds Headers Blocks.
From S2P Require Import InflateState Inffast Format Inflate Codebook Fastpath Decoding Capture HeaderIn.

(** ** Stored blocks *)

Lemma lens_value n : 0 <= n < 65536 -> val_of (bits_of 16 n ++ bits_of 16 (Z.lnot n)) = n + 2 ^ 16 * (65535 - n).
Proof.
  intros Hn. rewrite val_of_app, length_bits_of, !val_of_bits_of. rewrite Z.mod_small by lia. do 2 f_equal.
  symmetry. apply (Z.mod_unique _ _ (-1)); unfold Z.lnot; lia.
Qed.
(** what is left to read tells how many bits of a byte are held *)
Lemma bits_mod8 {S} `{BitReader S} (s : S) : 0 <= rd_bits s -> rd_bits s mod 8 = Z.of_nat (length (stream s)) mod 8.
Proof. intros Hb. rewrite length_stream by done. by rewrite (Z.mul_comm 8), Z.mod_add. Qed.

(** the input at a byte boundary, up to the lengths of a stored block *)
Lemma STORED_read s w n rest :
  reader_ok s -> l_bits s < 8 -> Z.of_nat (length w) = l_bits s -> 0 <= n < 65536 ->
  stream s = w ++ bits_of 16 n ++ bits_of 16 (Z.lnot n) ++ rest ->
  forall g : inflate_state -> inflate_state,
  exists s1 s2, BYTEBITS s = (s1, inr tt) /\ NEEDBITS 32 (s1 <| state := g (state s1) |>) = (s2, inr tt)
    /\ l_hold s2 = n + 2 ^ 16 * (65535 - n) /\ reader_ok s2 /\ l_bits s2 = 32
    /\ stream s2 = bits_of 16 n ++ bits_of 16 (Z.lnot n) ++ rest
    /\ state s2 = g (state s) /\ im_outer s2 = im_outer s.
Proof.
  intros Hr Hb Hw Hn Hs g. destruct (bytebits_spec s Hr) as (s1 & E1 & O1 & S1 & R1 & _ & B1).
  pose proof (ro_bits _ Hr) as Hb0. change (rd_bits s) with (l_bits s) in *. change (rd_bits s1) with (l_bits s1) in *.
  rewrite Z.mod_small in S1 by lia. rewrite Z.div_small in B1 by lia.
  rewrite Hs, drop_app_length' in S1 by lia.
  set (s1' := s1 <| state := g (state s1) |>). assert (Hr1 : reader_ok s1') by (destruct O1; by split).
  destruct (needbits_enough 32 s1' Hr1) as (s2 & [O2 S2 R2] & E2 & B2 & C2); [lia| |].
  { change (stream s1') with (stream s1). rewrite S1, !length_app, !length_bits_of. lia. }
  change (stream s1') with (stream s1) in S2. change (rd_bits s2) with (l_bits s2) in *. change (rd_bits s1') with (l_bits s1) in *.
  assert (H32 : l_bits s2 = 32).
  { pose proof (bits_mod8 s1 (proj1 (ro_bits _ O1))) as M1. pose proof (bits_mod8 s2 (proj1 (ro_bits _ O2))) as M2.
    rewrite S2, <- M1 in M2. change (l_bits s2 mod 8 = l_bits s1 mod 8) in M2. rewrite B1 in M2. change (8 * 0 mod 8) with 0 in M2.
    apply Z.mod_divide in M2 as [q Hq]; lia. }
  exists s1, s2. split; [exact E1|]. split; [exact E2|]. split.
  { pose proof (hold_value s2 O2) as V. change (rd_bits s2) with (l_bits s2) in V. rewrite H32 in V.
    etransitivity; [exact V|]. rewrite S1, app_assoc in S2. pose proof (value_app s2 _ _ S2) as W.
    rewrite length_app, !length_bits_of in W. change (Z.of_nat (16 + 16)) with 32 in W. by rewrite W, lens_value. }
  split; [done|]. split; [done|]. split; [congruence|]. split.
  - assert (T2 : state s2 = state s1') by exact (f_equal state R2). rewrite T2.
    change (g (state s1) = g (state s)). f_equal. exact (f_equal state R1).
  - etransitivity; [exact (f_equal im_outer R2)|exact (f_equal im_outer R1)].
Qed.

Lemma turn_STORED_header flush s w n l rest :
  mode (state s) = IM.STORED -> header_flag (state s) = 1 -> capture_ok (state s) -> captured (state s) = l ->
  reader_ok s -> l_bits s < 8 -> Z.of_nat (length w) = l_bits s -> 0 <= n < 65536 ->
  stream s = w ++ bits_of 16 n ++ bits_of 16 (Z.lnot n) ++ rest ->
  exists s', dispatch flush s = (s', inr tt)
    /\ header_done s s' (l ++ padding (Z.of_nat (length l)) ++ bits_of 16 n ++ bits_of 16 (Z.lnot n))
         (state s <| length_ := n |> <| mode := IM.SEND_HEADER |>) rest
    /\ l_bits s' = 0.
Proof.
  intros Hm Hf Hc Hl Hr Hb Hw Hn Hs. unfold dispatch. rewrite bind_gets, Hm. unfold h_STORED.
  destruct (STORED_read s w n rest Hr Hb Hw Hn Hs my_bi_windup) as (s1 & s2 & E1 & E2 & V & O2 & B2 & S2 & T2 & I2).
  rewrite (bind_inr _ _ _ _ _ E1), im_bind_upd, (bind_inr _ _ _ _ _ E2), bind_gets, V.
  destruct (stored_lens n Hn) as (-> & -> & ->). rewrite Z.eqb_refl. cbn [negb]. rewrite im_bind_upd.
  destruct (windup_captures _ Hc) as [[K1 K2 K3] _].
  assert (Ep : padding (my_bi_valid (state s)) = padding (Z.of_nat (length l))).
  { rewrite <- Hl, captured_length by done. by rewrite padding_mod. }
  rewrite Ep, Hl, <- T2 in K1. rewrite <- T2 in K2, K3. clear E1 E2 V s1 T2 Ep.
  pose (st3 := state s2 <| length_ := n |>). destruct (captures_upd (state s2) st3 _ eq_refl K2 K1) as [K4 K5].
  assert (Hf2 : header_flag (state s2) = 1) by (rewrite <- Hf; exact (f_equal header_flag K3)).
  match goal with |- context [(DROPBITS 16 ≫= _) ?x] => set (s3 := x) end.
  assert (Hr3 : reader_ok s3) by (destruct O2; by split).
  destruct (DROPBITS_header 16 s3 (bits_of 16 n) (bits_of 16 (Z.lnot n) ++ rest) Hr3 Hf2 K4 S2)
    as (s4 & E4 & O4 & S4 & B4 & [D1 D2 D3] & I4); [done|cbn; lia|lia|].
  rewrite (bind_inr _ _ _ _ _ E4).
  destruct (DROPBITS_header 16 s4 (bits_of 16 (Z.lnot n)) rest O4) as (s5 & E5 & O5 & S5 & B5 & [F1 F2 F3] & I5); try done.
  { rewrite <- Hf2. exact (f_equal header_flag D3). } { rewrite B4. cbn. lia. }
  rewrite (bind_inr _ _ _ _ _ E5). eexists. split; [reflexivity|].
  assert (B6 : l_bits s5 = 0) by (rewrite B5, B4; cbn; lia).
  assert (L5 : captured (state s5) = l ++ padding (Z.of_nat (length l)) ++ bits_of 16 n ++ bits_of 16 (Z.lnot n)).
  { rewrite F1, D1. change (state s3) with st3. by rewrite K5, <- !app_assoc. }
  pose (st6 := state s5 <| mode := IM.SEND_HEADER |>). destruct (captures_upd (state s5) st6 _ eq_refl F2 L5) as [G1 G2].
  split; [|exact B6]. split; [destruct O5; by split|exact S5|cbn; lia|exact G1|exact G2| |].
  - change (uncaptured (state s5) <| mode := IM.SEND_HEADER |> = uncaptured (state s) <| length_ := n |> <| mode := IM.SEND_HEADER |>).
    rewrite F3, D3. change (uncaptured (state s2) <| length_ := n |> <| mode := IM.SEND_HEADER |>
      = uncaptured (state s) <| length_ := n |> <| mode := IM.SEND_HEADER |>). by rewrite K3.
  - transitivity (im_outer s5); [done|]. by rewrite I5, I4.
Qed.

(** ** COPY *)

Lemma aligned_bytes (s : im) data rest :
  reader_ok s -> l_bits s = 0 -> bytes_ok data -> stream s = bytes_bits data ++ rest ->
  exists l, l_next s = data ++ l /\ bytes_bits l = rest.
Proof.
  intros [_ _ Hy] Hb Hd Hs. unfold stream in Hs. change (rd_bits s) with (l_bits s) in Hs. rewrite Hb in Hs.
  change (bits_of (Z.to_nat 0) (rd_hold s)) with (@nil bool) in Hs. cbn [app] in Hs. change (rd_next s) with (l_next s) in *.
  assert (Hlen : (length data <= length (l_next s))%nat).
  { apply (f_equal length) in Hs. rewrite length_app, !length_bytes_bits in Hs. lia. }
  rewrite <- (take_drop (length data) (l_next s)), bytes_bits_app in Hs.
  apply app_inj_1 in Hs as [H1 H2]; [|rewrite !length_bytes_bits, length_take; lia].
  exists (drop (length data) (l_next s)). split; [|done]. rewrite <- (take_drop (length data) (l_next s)) at 1.
  f_equal. apply bytes_bits_inj; [by apply Forall_take|done|done].
Qed.

(** one turn copies the data *)
Lemma COPY_data s data rest :
  data <> [] -> length_ (state s) = stored_len data -> l_bits s = 0 -> reader_ok s -> bytes_ok data ->
  stream s = bytes_bits data ++ rest -> stored_len data <= l_left s < 2 ^ 32 ->
  exists s', h_COPY s = (s', inr tt) /\ writes s s' data /\ mode (state s') = mode (state s) /\ length_ (state s') = 0
    /\ reader_ok s' /\ l_bits s' = 0 /\ stream s' = rest.
Proof.
  intros Hne Hl Hb Hr Hd Hs Hroom. destruct (aligned_bytes s data rest Hr Hb Hd Hs) as (l & En & El).
  assert (H0 : 0 < stored_len data) by (destruct data; [done|]; unfold stored_len; cbn; lia).
  unfold h_COPY. rewrite bind_gets, Hl. cbv zeta. destruct (Z.eqb_spec (stored_len data) 0); [lia|]. cbn [negb].
  rewrite bind_gets. change (id s) with s.
  replace (have_in s) with (stored_len data + Z.of_nat (length l)).
  2:{ unfold have_in. change (rd_next s) with (l_next s). rewrite En, length_app. unfold stored_len. lia. }
  destruct (Z.gtb_spec (stored_len data) (stored_len data + Z.of_nat (length l))); [lia|].
  destruct (Z.gtb_spec (stored_len data) (l_left s)); [lia|]. destruct (Z.eqb_spec (stored_len data) 0); [lia|].
  unfold stored_len in *. rewrite Nat2Z.id, En, take_app_length. unfold put_bytes, skip_in. rewrite !bind_modify.
  eexists. split; [reflexivity|].
  split; [split; try reflexivity; apply put_ins; lia|]. split; [reflexivity|].
  split; [change (length_ (state s) - Z.of_nat (length data) = 0); lia|].
  assert (Ed : drop (Z.to_nat (Z.of_nat (length data))) (l_next s) = l) by (by rewrite Nat2Z.id, En, drop_app_length).
  split; [|split; [exact Hb|]].
  - destruct Hr as [R1 R2 R3]. split; [exact R1|exact R2|]. change (bytes_ok (drop (Z.to_nat (Z.of_nat (length data))) (l_next s))).
    by apply Forall_drop.
  - unfold stream. change (rd_bits _) with (l_bits s). change (rd_next _) with (drop (Z.to_nat (Z.of_nat (length data))) (l_next s)).
    by rewrite Hb, Ed.
Qed.
Lemma COPY_end s : length_ (state s) = 0 -> h_COPY s = (s <| state := state s <| mode := IM.SETENDOFBLOCK |> |>, inr tt).
Proof. intros H. unfold h_COPY. by rewrite bind_gets, H. Qed.
Lemma COPY_start flush s : mode (state s) = IM.COPY_ -> dispatch flush s = h_COPY (s <| state := state s <| mode := IM.COPY |> |>).
Proof. intros H. unfold dispatch. by rewrite bind_gets, H. Qed.

Lemma turns_stored flush s data rest :
  mode (state s) = IM.COPY_ -> length_ (state s) = stored_len data -> l_bits s = 0 -> reader_ok s -> bytes_ok data ->
  stream s = bytes_bits data ++ rest -> stored_len data + 2 <= l_left s < 2 ^ 32 ->
  exists n s', steps (dispatch flush) n s s' /\ (n <= 3)%nat /\ block_end s s' (data ++ ins_end) rest.
Proof.
  intros Hm Hl Hb Hr Hd Hs Hroom.
  assert (Hfin : forall s1 l, mode (state s1) = IM.COPY -> length_ (state s1) = 0 -> writes s s1 l -> reader_ok s1 ->
    l_bits s1 = 0 -> stream s1 = rest -> Z.of_nat (length l) + 2 <= l_left s ->
    exists s2 s', h_COPY s1 = (s2, inr tt) /\ dispatch flush s2 = (s', inr tt) /\ block_end s s' (l ++ ins_end) rest).
  { intros s1 l M1 L1 W1 O1 B1 S1 R1. pose proof (COPY_end s1 L1) as E. set (s2 := s1 <| state := _ |>) in E.
    assert (W2 : writes s s2 l) by (destruct W1; by split). pose proof (wr_left _ _ _ W2).
    destruct (turn_SETENDOFBLOCK flush s s2 l rest) as (s' & E' & R'); try done; [by destruct O1|change (l_bits s1 < 8); lia|lia|].
    by exists s2, s'. }
  set (s0 := s <| state := state s <| mode := IM.COPY |> |>). assert (W0 : writes s s0 []) by by apply writes_nil.
  assert (O0 : reader_ok s0) by (destruct Hr; by split). pose proof (COPY_start flush s Hm) as E0. fold s0 in E0.
  destruct (decide (data = [])) as [->|Hne].
  - destruct (Hfin s0 []) as (s2 & s' & E2 & E' & R'); try done; [unfold stored_len in *; cbn in *; lia|].
    exists 2%nat, s'. split; [|split; [lia|done]]. eapply steps_S; [by rewrite E0|]. by apply steps_1.
  - destruct (COPY_data s0 data rest Hne Hl Hb O0 Hd Hs) as (s1 & E1 & W1 & M1 & L1 & O1 & B1 & S1).
    { change (l_left s0) with (l_left s). unfold stored_len in *. lia. }
    destruct (Hfin s1 data) as (s2 & s' & E2 & E' & R'); try done; [exact (writes_trans _ _ _ _ _ W0 W1)|unfold stored_len in *; lia|].
    exists 3%nat, s'. split; [|split; [lia|done]]. eapply steps_S; [rewrite E0; exact E1|].
    eapply steps_S; [|by apply steps_1]. unfold dispatch. by rewrite bind_gets, M1.
Qed.

(** ** From one block to the next *)

(** what reading a block leaves: its instructions [l] are written *)
Record block_read (s s' : im) (l : list Z) (last : Z) (rest : list bool) : Prop := {
  br_put : l_put s' = l_put s ++ l;
  br_left : l_left s' = l_left s - Z.of_nat (length l);
  br_strm : strm_ctx (strm s') = strm_ctx (strm s);
  br_locals : (l_in s', l_out s', l_ret s') = (l_in s, l_out s, l_ret s);
  br_set : (is_strm (state s'), wrap (state s'), flags (state s')) = (is_strm (state s), wrap (state s), flags (state s));
  br_last : last_ (state s') = last;
  br_mode : mode (state s') = IM.TYPE;
  br_reader : reader_ok s';
  br_bits : l_bits s' < 8;
  br_stream : stream s' = rest }.

(** a header is sent, then the body is read *)
Record header_sent (s s' : im) (l : list Z) (last : Z) (m : IM.inflate_mode) (st : inflate_state) (rest : list bool) : Prop := {
  hs_put : l_put s' = l_put s ++ l;
  hs_left : l_left s' = l_left s - Z.of_nat (length l);
  hs_strm : strm s' = strm s;
  hs_locals : (l_in s', l_out s', l_ret s') = (l_in s, l_out s, l_ret s);
  hs_mode : mode (state s') = m;
  hs_flag : header_flag (state s') = 0;
  hs_ctx : block_ctx (state s') = block_ctx (st <| last_ := last |>);
  hs_reader : reader_ok s';
  hs_stream : stream s' = rest }.
Lemma header_body s s1 s2 l l' last m st rest rest' :
  header_sent s s1 l last m st rest -> (is_strm st, wrap st, flags st) = (is_strm (state s), wrap (state s), flags (state s)) ->
  block_end s1 s2 l' rest' -> block_read s s2 (l ++ l') last rest'.
Proof.
  intros [A B C D _ _ E _ _] Hst [[F G H I J] K L M N]. unfold block_ctx in E. unfold inf_ctx in F.
  injection E as E1 E2 E3 E4 E5 E6 E7 E8 E9 E10. injection F as F1 F2 F3 F4 F5 F6 F7 F8 F9 F10. injection Hst as S1 S2 S3.
  split; try done.
  - by rewrite H, A, app_assoc.
  - rewrite length_app. lia.
  - by rewrite G, C.
  - congruence.
  - rewrite F1, F3, F4, E1, E3, E4. cbn. congruence.
  - rewrite F2, E2. done.
Qed.

(** the end of a header: from [header_done] on *)
Lemma send_header flush s s1 l last v hb m st rest :
  header_done s s1 l (st <| length_ := v |> <| mode := IM.SEND_HEADER |>) rest ->
  header_flag st = 1 -> header_index st = 0 -> last_ st = last -> packs hb l -> Z.of_nat (length (hb ++ ins_end)) <= l_left s < 2 ^ 32 ->
  m = (if itree_type st =? 0 then IM.COPY_ else IM.LEN_) ->
  exists s2, dispatch flush s1 = (s2, inr tt) /\ header_sent s s2 (hb ++ ins_end) last m (st <| length_ := v |>) rest
    /\ l_bits s2 = l_bits s1.
Proof.
  intros [O S B C L U I] Hf Hi Hl Hp Hroom ->. unfold im_outer in I. injection I as I1 I2 I3 I4 I5 I6 I7 I8 I9 I10.
  assert (T1 : mode (state s1) = IM.SEND_HEADER) by exact (f_equal mode U).
  assert (T2 : header_flag (state s1) = 1) by (rewrite <- Hf; exact (f_equal header_flag U)).
  assert (T3 : header_index (state s1) = 0) by (rewrite <- Hi; exact (f_equal header_index U)).
  assert (T4 : itree_type (state s1) = itree_type st) by exact (f_equal itree_type U).
  assert (T5 : block_ctx (state s1) = block_ctx (st <| length_ := v |>)) by exact (f_equal block_ctx U).
  destruct (turn_SEND_HEADER flush s1 hb T1 T2 T3 C) as (s2 & E & P & A & M & F & X & Y & R); [by rewrite L|by rewrite I7|].
  injection Y as Y1 Y2 Y3 Y4. destruct (same_reader s1 s2 R) as [O2 S2].
  exists s2. split; [done|]. split; [|by injection R as _ _ ->]. split; try congruence; try (by apply O2); [by rewrite M, T4|].
  rewrite X, T5. subst last. reflexivity.
Qed.

(** ** The headers of the two kinds *)

Lemma head_bits v last : last_ok last -> 0 <= v < 3 -> bits_of 3 (2 * v + last) = bits_of 1 last ++ bits_of 2 v.
Proof.
  intros [-> | ->] Hv; assert (E : v = 0 \/ v = 1 \/ v = 2) by lia; destruct E as [-> | [-> | ->]]; reflexivity.
Qed.
Lemma le16_bits n : 0 <= n < 65536 -> bytes_bits (le16 n) = bits_of 16 n /\ bytes_ok (le16 n).
Proof.
  intros Hn. unfold le16, bytes_bits. cbn [flat_map]. rewrite app_nil_r. split.
  - change 16%nat with (8 + 8)%nat. rewrite bits_of_add, Z.shiftr_div_pow2 by lia. f_equal. apply (bits_of_mod 8).
  - pose proof (Z.mod_pos_bound n 256 ltac:(lia)). repeat constructor; try lia; [by apply Z.div_pos; lia|apply Z.div_lt_upper_bound; lia].
Qed.
Lemma bits_lnot n : 0 <= n < 65536 -> bits_of 16 (Z.lnot n) = bits_of 16 (65535 - n).
Proof.
  intros Hn. apply bits_of_ext. change (2 ^ Z.of_nat 16) with 65536. rewrite (Z.mod_small (65535 - n)) by lia.
  symmetry. apply (Z.mod_unique _ _ (-1)); unfold Z.lnot; lia.
Qed.
Lemma packs_stored last n (h := bits_of 1 last ++ bits_of 2 0) :
  last_ok last -> 0 <= n < 65536 ->
  packs ([last] ++ le16 n ++ le16 (65535 - n)) (h ++ padding (Z.of_nat (length h)) ++ bits_of 16 n ++ bits_of 16 (Z.lnot n)).
Proof.
  intros Hl Hn. assert (Hh : length h = 3%nat) by done.
  assert (padding_3 : length (padding (Z.of_nat (length h))) = 5%nat) by done.
  assert (E : h ++ padding (Z.of_nat (length h)) = bytes_bits [last]) by (subst h; destruct Hl as [-> | ->]; reflexivity).
  clearbody h. destruct (le16_bits n Hn) as [A B]. destruct (le16_bits (65535 - n) ltac:(lia)) as [C D]. split.
  - apply Forall_app_2; [|by apply Forall_app_2]. repeat constructor; destruct Hl; subst; unfold is_byte; lia.
  - rewrite !bytes_bits_app, A, C, (bits_lnot n Hn). rewrite <- E, <- app_assoc.
    replace (padding (Z.of_nat (length (h ++ _ ++ _ ++ _)))) with (@nil bool); [by rewrite app_nil_r|].
    rewrite !length_app, !length_bits_of, padding_3, Hh. reflexivity.
Qed.
Lemma packs_fixed last : last_ok last -> packs [last + 2] (bits_of 1 last ++ bits_of 2 1).
Proof. intros [-> | ->]; (split; [repeat constructor; unfold is_byte; lia|reflexivity]). Qed.

(** the symbols of RFC 1951 all have fixed codes *)
Lemma static_coded x : symbol_ok x -> has_codes static_l static_d x.
Proof.
  destruct x as [b|dist n]; cbn [has_codes].
  - intros Hb. unfold symbol_ok, is_byte in Hb. apply static_dl_pos. lia.
  - intros Hx. destruct (match_codes_ok static_l static_d dist n Hx) as (el & ed & xl & xd & M).
    destruct M as [M1 M2 _ _ _ _ _ _ _ _]. unfold LITERALS. split; apply static_dl_pos; lia.
Qed.

Lemma padding_mod8 pos n k : 0 <= k < 8 -> (pos + n) mod 8 = 0 -> k = n mod 8 -> Z.of_nat (length (padding pos)) = k.
Proof.
  intros Hk H E. unfold padding. rewrite repeat_length, Z2Nat.id by (apply Z.mod_pos_bound; lia). rewrite E.
  apply Z.mod_divide in H as [q Hq]; [|lia]. replace (- pos) with (n + (- q) * 8) by lia. by rewrite Z.mod_add.
Qed.

(** ** A block, from TYPE to TYPE *)

Definition read_turns (b : block) : nat := match b with Stored _ => 6 | Fixed xs => 3 * length xs + 4 | Dynamic _ xs => 3 * length xs + 5 end.

(** LEN_ looks at the first symbol in the same turn *)
Lemma turns_LEN_ flush n s s' :
  mode (state s) = IM.LEN_ -> mode (state s') = IM.TYPE ->
  steps (dispatch flush) n (s <| state := state s <| mode := IM.LEN |> |>) s' -> steps (dispatch flush) n s s'.
Proof.
  intros Hm Hm' T. set (s1 := s <| state := _ |>) in T. assert (M1 : mode (state s1) = IM.LEN) by done.
  assert (E : dispatch flush s = dispatch flush s1).
  { unfold dispatch. rewrite !bind_gets, Hm, M1. reflexivity. }
  clearbody s1. destruct T as [s1|n s1 s2 s3 T1 T2]; [congruence|]. econstructor; [|exact T2]. by rewrite E.
Qed.

(** the body of a block of symbols, from LEN_ on: for any tables of the state *)
Lemma read_symbols flush s lt dt xs rest :
  mode (state s) = IM.LEN_ -> header_flag (state s) = 0 -> reader_ok s -> l_bits s < 8 -> tables lt dt (state s) ->
  tree_ok lt -> tree_ok dt -> Forall symbol_ok xs -> Forall (has_codes lt dt) xs -> 0 < dl (lt END_BLOCK) ->
  stream s = block_bits lt dt xs ++ rest -> Z.of_nat (length (instrs xs)) <= l_left s < 2 ^ 32 ->
  exists n s', steps (dispatch flush) n s s' /\ (n <= 3 * length xs + 2)%nat /\ block_end s s' (instrs xs) rest.
Proof.
  intros Hm Hf Hr Hb Ht Hlt Hdt Hsy Hco He Hs Hroom. set (s1 := s <| state := state s <| mode := IM.LEN |> |>).
  assert (I1 : inblock lt dt s1) by (split; [done|by destruct Hr|done|done|by apply (tables_ctx lt dt (state s))]).
  destruct (decode_symbols flush lt dt Hlt Hdt (length xs) xs s1 rest (le_n _) I1 Hsy Hco He Hs Hroom) as (n & s' & T & N & R).
  exists n, s'. split; [apply turns_LEN_; [done|apply R|done]|]. split; [done|]. destruct R as [W M O B S].
  split; try done. change (instrs xs) with ([] ++ instrs xs). eapply writes_trans; [|exact W]. by apply writes_nil.
Qed.

Lemma fixed_tables st :
  (lencode st, distcode st, lenbits st, distbits st) = (Lenfix, Distfix, 9, 5) -> tables static_l static_d st.
Proof. intros E. injection E as E1 E2 E3 E4. unfold tables. rewrite E1, E2, E3, E4. split; [exact lenfix_table|exact distfix_table]. Qed.
(** the state in front of SEND_HEADER in a fixed block *)
Definition fixed_header (st : inflate_state) (last : Z) : inflate_state :=
  fixedtables (st <| header_flag := 1 |> <| header_index := 0 |> <| last_ := last |>) <| itree_type := 1 |>.
Lemma fixed_header_spec st last (st0 := fixed_header st last) :
  typed 1 last st = st0 <| length_ := length_ st |> <| mode := IM.SEND_HEADER |>
  /\ header_flag st0 = 1 /\ header_index st0 = 0 /\ last_ st0 = last /\ itree_type st0 = 1
  /\ (lencode st0, distcode st0, lenbits st0, distbits st0) = (Lenfix, Distfix, 9, 5)
  /\ (is_strm st0, wrap st0, flags st0) = (is_strm st, wrap st, flags st).
Proof. subst st0. destruct st. unfold typed, fixed_header, fixedtables. cbn. done. Qed.
Lemma header_done_length s s1 s2 l n m st rest :
  uncaptured (state s1) = uncaptured st -> im_outer s1 = im_outer s ->
  header_done s1 s2 l (state s1 <| length_ := n |> <| mode := m |>) rest -> header_done s s2 l (st <| length_ := n |> <| mode := m |>) rest.
Proof.
  intros E E' [A B C D F G H]. split; [done|done|done|done|done| |congruence]. rewrite G.
  change (uncaptured (state s1) <| length_ := n |> <| mode := m |> = uncaptured st <| length_ := n |> <| mode := m |>). by rewrite E.
Qed.
(** the tables of a state are in the context of its block *)
Lemma tables_block lt dt st st' : block_ctx st' = block_ctx st -> tables lt dt st -> tables lt dt st'.
Proof.
  intros E [A B]. unfold block_ctx in E. injection E as _ _ _ _ E1 E2 E3 E4 E5 _. unfold tables.
  assert (C : forall p, code_at st' p = code_at st p) by (intros [o| |]; unfold code_at; by rewrite ?E5).
  by rewrite !C, E1, E2, E3, E4.
Qed.
Section Block.
Context (flush : Z) (Hf1 : flush <> Z_BLOCK) (Hf2 : flush <> Z_TREES).
Abbreviation turns := (steps (dispatch flush)).

Lemma read_stored s last data pos rest :
  mode (state s) = IM.TYPE \/ mode (state s) = IM.TYPEDO -> last_ (state s) = 0 -> last_ok last ->
  block_ok (Stored data) -> reader_ok s -> l_bits s < 8 ->
  stream s = block_enc pos last (Stored data) ++ rest -> (pos + Z.of_nat (length (stream s))) mod 8 = 0 ->
  Z.of_nat (length (header_ins last (Stored data) ++ body_ins (Stored data))) <= l_left s < 2 ^ 32 ->
  exists n s', turns n s s' /\ (n <= 6)%nat
    /\ block_read s s' (header_ins last (Stored data) ++ body_ins (Stored data)) last rest.
Proof.
  intros Hm Hl0 Hl [Hd Hlt] Hr Hb Hs Hpos Hroom. cbn [block_enc] in Hs. unfold stored_bits in Hs.
  rewrite (head_bits 0 last Hl ltac:(lia) : bits_of 3 last = _), <- !app_assoc in Hs.
  fold (stored_len data) in Hs. set (n := stored_len data) in Hs. assert (Hn : 0 <= n < 65536) by (unfold n, stored_len; lia).
  assert (Hl2 : 0 <= last < 2) by (destruct Hl; lia). assert (H03 : 0 <= 0 < 3) by lia.
  destruct (turn_TYPEDO flush s last 0 _ Hm Hf1 Hf2 Hl0 Hl2 H03 Hr Hb Hs) as (s1 & T1 & [O1 S1 B1 C1 L1 U1 I1]).
  assert (Hw : Z.of_nat (length (padding (pos + 3))) = l_bits s1).
  { pose proof (ro_bits _ O1) as Hb1. change (rd_bits s1) with (l_bits s1) in Hb1.
    apply (padding_mod8 _ (Z.of_nat (length (stream s1)))); [lia| |].
    - rewrite S1. rewrite Hs in Hpos. rewrite !length_app, !length_bits_of in Hpos. rewrite !length_app, !length_bits_of.
      etransitivity; [|exact Hpos]. apply (f_equal (fun x => x mod 8)). lia.
    - rewrite <- bits_mod8 by apply Hb1. symmetry. apply Z.mod_small. lia. }
  destruct (turn_STORED_header flush s1 _ n _ _ (f_equal mode U1 : _ = IM.STORED) (f_equal header_flag U1 : _ = 1) C1 L1 O1 B1 Hw Hn S1)
    as (s2 & T2 & D2 & B2).
  apply (header_done_length s _ _ _ _ _ _ _ U1 I1) in D2.
  assert (F1 : header_flag (typed 0 last (state s)) = 1 /\ header_index (typed 0 last (state s)) = 0 /\ last_ (typed 0 last (state s)) = last
    /\ itree_type (typed 0 last (state s)) = 0 /\ length_ (typed 0 last (state s) <| length_ := n |>) = n) by done.
  assert (F2 : (is_strm (typed 0 last (state s)), wrap (typed 0 last (state s)), flags (typed 0 last (state s)))
    = (is_strm (state s), wrap (state s), flags (state s))) by done.
  clear U1. generalize dependent (typed 0 last (state s)). intros st1 D2 (F1 & F2 & F3 & F4 & F5) F6.
  rewrite length_app in Hroom.
  destruct (send_header flush s s2 _ last n _ IM.COPY_ st1 _ D2 F1 F2 F3 (packs_stored last n Hl Hn)) as (s3 & T3 & H3 & B3).
  { unfold header_ins in Hroom. fold n in Hroom. lia. } { by rewrite F4. }
  destruct (turns_stored flush s3 data rest) as (k & s4 & T4 & K4 & R4).
  { exact (hs_mode _ _ _ _ _ _ _ H3). }
  { etransitivity; [|exact F5]. exact (f_equal snd (hs_ctx _ _ _ _ _ _ _ H3)). }
  { by rewrite B3. } { apply H3. } { done. } { apply H3. }
  { pose proof (hs_left _ _ _ _ _ _ _ H3) as E. cbn [body_ins] in Hroom. rewrite length_app in Hroom.
    unfold header_ins in Hroom. fold n in Hroom. change (length ins_end) with 2%nat in Hroom. unfold stored_len. lia. }
  exists (1 + (1 + (1 + k)))%nat, s4. split; [repeat (eapply steps_S; [eassumption|]); exact T4|]. split; [lia|].
  exact (header_body _ _ _ _ _ _ _ _ _ _ H3 F6 R4).
Qed.

Lemma read_fixed s last xs pos rest :
  mode (state s) = IM.TYPE \/ mode (state s) = IM.TYPEDO -> last_ (state s) = 0 -> last_ok last ->
  block_ok (Fixed xs) -> reader_ok s -> l_bits s < 8 -> stream s = block_enc pos last (Fixed xs) ++ rest ->
  Z.of_nat (length (header_ins last (Fixed xs) ++ body_ins (Fixed xs))) <= l_left s < 2 ^ 32 ->
  exists n s', turns n s s' /\ (n <= 3 * length xs + 4)%nat
    /\ block_read s s' (header_ins last (Fixed xs) ++ body_ins (Fixed xs)) last rest.
Proof.
  intros Hm Hl0 Hl Hx Hr Hb Hs Hroom. cbn [block_enc block_ok] in Hs, Hx.
  assert (H13 : 0 <= 1 < 3) by lia. change (2 + last) with (2 * 1 + last) in Hs.
  rewrite (head_bits 1 last Hl H13), <- !app_assoc in Hs.
  assert (Hl2 : 0 <= last < 2) by (destruct Hl; lia).
  destruct (turn_TYPEDO flush s last 1 _ Hm Hf1 Hf2 Hl0 Hl2 H13 Hr Hb Hs) as (s1 & T1 & D1).
  destruct (fixed_header_spec (state s) last) as (F0 & F1 & F2 & F3 & F4 & Ft & F6). rewrite F0 in D1.
  generalize dependent (fixed_header (state s) last). intros st0 D1 _ F1 F2 F3 F4 Ft F6.
  rewrite length_app in Hroom. cbn [body_ins] in Hroom.
  destruct (send_header flush s s1 _ last (length_ (state s)) _ IM.LEN_ st0 _ D1 F1 F2 F3 (packs_fixed last Hl)) as (s2 & T2 & H2 & B2).
  { unfold header_ins in Hroom. lia. } { by rewrite F4. }
  destruct (read_symbols flush s2 static_l static_d xs rest) as (k & s3 & T3 & K3 & R3); try apply H2.
  { rewrite B2. apply D1. } { apply fixed_tables. rewrite <- Ft. exact (f_equal (fun x => x.1.1.2) (hs_ctx _ _ _ _ _ _ _ H2)). } { apply static_l_ok. } { apply static_d_ok. } { done. }
  { exact (Forall_impl _ static_coded Hx). } { vm_compute. reflexivity. }
  { pose proof (hs_left _ _ _ _ _ _ _ H2) as E. unfold header_ins in Hroom. lia. }
  exists (1 + (1 + k))%nat, s3. split; [repeat (eapply steps_S; [eassumption|]); exact T3|]. split; [lia|].
  exact (header_body _ _ _ _ _ _ _ _ _ _ H2 F6 R3).
Qed.

(** a dynamic block, up to the captured header *)
Lemma dynamic_header s last h rest :
  mode (state s) = IM.TYPE \/ mode (state s) = IM.TYPEDO -> last_ (state s) = 0 -> last_ok last -> l_ret s = Z_OK ->
  header_ok h -> reader_ok s -> l_bits s < 8 -> stream s = dyn_head last h ++ rest ->
  exists s' st, turns 2 s s' /\ header_done s s' (dyn_head last h) (st <| length_ := length_ st |> <| mode := IM.SEND_HEADER |>) rest
    /\ header_flag st = 1 /\ header_index st = 0 /\ last_ st = last /\ itree_type st = 2
    /\ (is_strm st, wrap st, flags st) = (is_strm (state s), wrap (state s), flags (state s))
    /\ tables (dyn_tree (dh_lit h)) (dyn_tree (dh_dist h)) (st <| length_ := length_ st |> <| last_ := last |>).
Proof.
  intros Hm Hl0 Hl Hret Hh Hr Hb Hs. unfold dyn_head in *. assert (H23 : 0 <= 2 < 3) by lia. change (4 + last) with (2 * 2 + last) in *.
  rewrite (head_bits 2 last Hl H23) in *. rewrite <- !app_assoc in Hs.
  assert (Hl2 : 0 <= last < 2) by (destruct Hl; lia).
  destruct (turn_TYPEDO flush s last 2 _ Hm Hf1 Hf2 Hl0 Hl2 H23 Hr Hb Hs) as (s1 & T1 & [O1 S1 B1 C1 L1 U1 I1]).
  assert (Hc : capturing s1) by (split; [done|exact (f_equal header_flag U1)|done]).
  assert (R1 : l_ret s1 = Z_OK) by (rewrite <- Hret; exact (f_equal (fun x => x.2.2) I1)).
  destruct (turn_TABLE_in flush s1 h rest Hh (f_equal mode U1 : _ = IM.TABLE) Hf2 Hc B1 R1 S1)
    as (s2 & v & T2 & [O2 F2 C2] & B2 & S2 & K2 & U2 & M2 & I2 & V2).
  set (st := state_with v (typed 2 last (state s))).
  assert (U : uncaptured (state s2) = uncaptured st).
  { unfold st. rewrite U2, !uncaptured_with, U1. reflexivity. }
  assert (Ms : mode st = IM.SEND_HEADER) by (rewrite <- M2; symmetry; exact (f_equal mode U)).
  assert (Fs : header_flag st = 1 /\ header_index st = 0 /\ last_ st = last /\ itree_type st = 2
    /\ (is_strm st, wrap st, flags st) = (is_strm (state s), wrap (state s), flags (state s))) by done.
  clearbody st. destruct Fs as (X1 & X2 & X3 & X4 & X5). exists s2, st.
  split; [eapply steps_S; [exact T1|by apply steps_1]|]. split.
  { split; try done; [by rewrite K2, L1, <- app_assoc|rewrite U; destruct st; cbn in Ms; by subst|congruence]. }
  do 5 (split; [done|]). apply (tables_ctx _ _ (state s2)); [|exact V2].
  assert (E : st <| length_ := length_ st |> <| last_ := last |> = st) by (destruct st; cbn in X3; by subst).
  rewrite E. symmetry. exact (f_equal inf_ctx U).
Qed.
Lemma read_dynamic s last h xs pos rest :
  mode (state s) = IM.TYPE \/ mode (state s) = IM.TYPEDO -> last_ (state s) = 0 -> last_ok last -> l_ret s = Z_OK ->
  block_ok (Dynamic h xs) -> reader_ok s -> l_bits s < 8 -> stream s = block_enc pos last (Dynamic h xs) ++ rest ->
  Z.of_nat (length (header_ins last (Dynamic h xs) ++ body_ins (Dynamic h xs))) <= l_left s < 2 ^ 32 ->
  exists n s', turns n s s' /\ (n <= 3 * length xs + 5)%nat
    /\ block_read s s' (header_ins last (Dynamic h xs) ++ body_ins (Dynamic h xs)) last rest.
Proof.
  intros Hm Hl0 Hl Hret (Hh & Hx & Hc) Hr Hb Hs Hroom. cbn [block_enc] in Hs. rewrite <- app_assoc in Hs.
  destruct (dynamic_header s last h _ Hm Hl0 Hl Hret Hh Hr Hb Hs) as (s1 & st & T1 & D1 & F1 & F2 & F3 & F4 & F6 & V).
  rewrite length_app in Hroom. cbn [body_ins] in Hroom.
  destruct (send_header flush s s1 _ last (length_ st) (pack (dyn_head last h)) IM.LEN_ st _ D1 F1 F2 F3 (pack_spec _)) as (s2 & T2 & H2 & B2).
  { unfold header_ins in Hroom. lia. } { by rewrite F4. }
  pose proof (ho_lens _ Hh) as Hlens. apply Forall_app in Hlens as [Hlit Hdist].
  destruct (read_symbols flush s2 (dyn_tree (dh_lit h)) (dyn_tree (dh_dist h)) xs rest) as (k & s3 & T3 & K3 & R3); try apply H2; try done.
  { rewrite B2. apply D1. }
  { apply (tables_block _ _ _ _ (hs_ctx _ _ _ _ _ _ _ H2) V). }
  { by apply dyn_tree_ok. } { by apply dyn_tree_ok. }
  { rewrite dyn_tree_len by done. pose proof (ho_end _ Hh). pose proof (ho_lit _ Hh). unfold nlit in *. unfold END_BLOCK.
    destruct (Z.leb_spec 0 256), (Z.ltb_spec 256 (Z.of_nat (length (dh_lit h)))); lia || done. }
  { pose proof (hs_left _ _ _ _ _ _ _ H2) as E. unfold header_ins in Hroom. lia. }
  exists (2 + (1 + k))%nat, s3. split; [eapply steps_trans; [exact T1|]; eapply steps_S; [exact T2|exact T3]|]. split; [lia|].
  exact (header_body _ _ _ _ _ _ _ _ _ _ H2 F6 R3).
Qed.

Lemma read_block s last b pos rest :
  mode (state s) = IM.TYPE \/ mode (state s) = IM.TYPEDO -> last_ (state s) = 0 -> last_ok last -> l_ret s = Z_OK ->
  block_ok b -> reader_ok s -> l_bits s < 8 ->
  stream s = block_enc pos last b ++ rest -> (pos + Z.of_nat (length (stream s))) mod 8 = 0 ->
  Z.of_nat (length (header_ins last b ++ body_ins b)) <= l_left s < 2 ^ 32 ->
  exists n s', turns n s s' /\ (n <= read_turns b)%nat /\ block_read s s' (header_ins last b ++ body_ins b) last rest.
Proof.
  intros. destruct b as [data|xs|h xs]; [by eapply read_stored|by eapply read_fixed|by eapply read_dynamic].
Qed.
End Block.

(** ** A whole stream *)

Definition stream_reads (bs : list block) (b : block) : nat := list_sum (map read_turns bs) + read_turns b.

Lemma block_read_trans s1 s2 s3 l l' last last' rest rest' :
  block_read s1 s2 l last rest -> block_read s2 s3 l' last' rest' -> block_read s1 s3 (l ++ l') last' rest'.
Proof.
  intros [A B C D E F _ _ _ _] [A' B' C' D' E' F' G H I J]. split; try done; try congruence.
  - by rewrite A', A, app_assoc.
  - rewrite length_app. lia.
Qed.

Section Stream.
Context (flush : Z) (Hf1 : flush <> Z_BLOCK) (Hf2 : flush <> Z_TREES).
Abbreviation turns := (steps (dispatch flush)).

Lemma read_stream bs b rest : Forall block_ok (bs ++ [b]) -> forall s pos,
  mode (state s) = IM.TYPE \/ mode (state s) = IM.TYPEDO -> last_ (state s) = 0 -> l_ret s = Z_OK -> reader_ok s -> l_bits s < 8 ->
  stream s = stream_enc pos bs b ++ rest -> (pos + Z.of_nat (length (stream s))) mod 8 = 0 ->
  Z.of_nat (length (stream_ins bs b)) <= l_left s < 2 ^ 32 ->
  exists n s' pad, turns n s s' /\ (n <= stream_reads bs b)%nat
    /\ block_read s s' (stream_ins bs b) 1 (pad ++ rest) /\ Z.of_nat (length pad) = l_bits s'.
Proof.
  induction bs as [|c bs IH]; intros Hok s pos Hm Hl0 Hret Hr Hb Hs Hpos Hroom; cbn [stream_enc stream_ins app] in *; cbv zeta in Hs.
  all: apply Forall_cons_1 in Hok as [Hc Hok]; rewrite <- app_assoc in Hs.
  - destruct (read_block flush Hf1 Hf2 s 1 b pos _ Hm Hl0 (or_intror eq_refl) Hret Hc Hr Hb Hs Hpos Hroom) as (n & s' & T & N & R).
    eexists n, s', _. split; [done|]. split; [unfold stream_reads; cbn; lia|]. split; [exact R|].
    pose proof (br_reader _ _ _ _ _ R) as O. pose proof (ro_bits _ O) as B. change (rd_bits s') with (l_bits s') in B.
    pose proof (br_bits _ _ _ _ _ R). apply (padding_mod8 _ (Z.of_nat (length (stream s')))); [lia| |].
    + rewrite (br_stream _ _ _ _ _ R). rewrite Hs in Hpos. rewrite length_app in Hpos. etransitivity; [|exact Hpos].
      apply (f_equal (fun x => x mod 8)). lia.
    + rewrite <- bits_mod8 by apply B. symmetry. apply Z.mod_small. lia.
  - rewrite app_assoc, length_app in Hroom.
    assert (Hroom1 : Z.of_nat (length (header_ins 0 c ++ body_ins c)) <= l_left s < 2 ^ 32) by lia.
    destruct (read_block flush Hf1 Hf2 s 0 c pos _ Hm Hl0 (or_introl eq_refl) Hret Hc Hr Hb Hs Hpos Hroom1) as (n & s1 & T & N & R).
    pose proof (br_left _ _ _ _ _ R). pose proof (br_stream _ _ _ _ _ R) as Es.
    destruct (IH Hok s1 (pos + Z.of_nat (length (block_enc pos 0 c)))) as (k & s2 & pad & T2 & K2 & R2 & P2);
      [left; apply R|apply R|exact (eq_trans (f_equal snd (br_locals _ _ _ _ _ R)) Hret)|apply R|apply R|exact Es| |lia|].
    { rewrite Es. rewrite Hs, length_app in Hpos. etransitivity; [|exact Hpos]. apply (f_equal (fun x => x mod 8)). lia. }
    exists (n + k)%nat, s2, pad. split; [by eapply steps_trans|].
    split; [unfold stream_reads, list_sum in *; cbn [map fold_right]; lia|]. split; [|done].
    rewrite app_assoc. by eapply block_read_trans.
Qed.

(** without a wrapper there is no trailer to check *)
Lemma CHECK_raw s :
  wrap (state s) = 0 -> dispatch flush (s <| state := state s <| mode := IM.CHECK |> |>)
    = (s <| state := state s <| mode := IM.DONE |> |> <| l_ret := Z_STREAM_END |>, inl Leave).
Proof.
  intros Hw. set (s1 := s <| state := _ |>). change (dispatch flush s1) with (h_CHECK s1). unfold h_CHECK. rewrite bind_gets.
  change (wrap (state s1)) with (wrap (state s)). rewrite Hw. change (negb (0 =? 0)) with false. cbv iota. rewrite im_bind_set_mode.
  set (s2 := s1 <| state := _ |>). unfold h_LENGTH. rewrite bind_gets. change (wrap (state s2)) with (wrap (state s)). rewrite Hw.
  reflexivity.
Qed.
(** behind the last block: the bits up to the byte boundary are dropped, and the stream ends *)
Lemma turn_end s pad rest :
  mode (state s) = IM.TYPE -> last_ (state s) = 1 -> wrap (state s) = 0 -> reader_ok s -> l_bits s < 8 ->
  stream s = pad ++ rest -> Z.of_nat (length pad) = l_bits s ->
  exists s1 s2, dispatch flush s = (s1, inr tt) /\ dispatch flush s1 = (s2, inl Leave)
    /\ bytes_bits (l_next s2) = rest /\ bytes_ok (l_next s2) /\ l_bits s2 = 0 /\ l_hold s2 = 0 /\ l_ret s2 = Z_STREAM_END /\ wrap (state s2) = 0
    /\ (strm s2, l_put s2, l_left s2, l_in s2, l_out s2) = (strm s, l_put s, l_left s, l_in s, l_out s).
Proof.
  intros Hm Hl Hw Hr Hb Hs Hp. rewrite (dispatch_TYPEDO flush s (or_introl Hm) Hf1 Hf2). unfold h_TYPEDO. rewrite im_bind_upd, bind_gets.
  match goal with |- context [last_ (state ?x)] => set (s0 := x) end.
  change (last_ (state s0)) with (last_ (state s)). rewrite Hl. change (negb (1 =? 0)) with true. cbv iota.
  assert (Hr0 : reader_ok s0) by (destruct Hr; by split).
  destruct (bytebits_spec s0 Hr0) as (s1 & E1 & O1 & S1 & R1 & _ & B1). rewrite (bind_inr _ _ _ _ _ E1).
  pose proof (ro_bits _ Hr) as Hb0. change (rd_bits s0) with (l_bits s) in *. change (rd_bits s) with (l_bits s) in *.
  change (rd_bits s1) with (l_bits s1) in *. rewrite Z.div_small in B1 by lia. rewrite Z.mod_small in S1 by lia.
  change (stream s0) with (stream s) in S1. rewrite Hs, drop_app_length' in S1 by lia.
  assert (W1 : wrap (state s1) = 0) by (rewrite <- Hw; exact (f_equal (fun x => wrap (state x)) R1)).
  assert (X1 : (strm s1, l_put s1, l_left s1, l_in s1, l_out s1) = (strm s, l_put s, l_left s, l_in s, l_out s))
    by exact (f_equal (fun x => (strm x, l_put x, l_left x, l_in x, l_out x)) R1).
  exists (s1 <| state := state s1 <| mode := IM.CHECK |> |>), (s1 <| state := state s1 <| mode := IM.DONE |> |> <| l_ret := Z_STREAM_END |>).
  split; [reflexivity|]. split; [by apply CHECK_raw|].
  assert (Hh : l_hold s1 = 0).
  { destruct O1 as [_ O _]. change (0 <= l_hold s1 < 2 ^ l_bits s1) in O. rewrite B1 in O. change (2 ^ (8 * 0)) with 1 in O. lia. }
  split; [|split; [exact (ro_next _ O1)|split; [exact B1|split; [exact Hh|split; [reflexivity|split; [exact W1|exact X1]]]]]].
  change (bytes_bits (l_next s1) = rest). rewrite <- S1. unfold stream. change (rd_bits s1) with (l_bits s1). by rewrite B1.
Qed.
End Stream.

(** ** One call *)

(** the stream's pointers are set and it owns the state *)
Definition owned (zs : z_stream) (st : inflate_state) : Prop :=
  zalloc_set zs = true /\ zfree_set zs = true /\ is_strm st = zs_addr zs.
Lemma owned_check zs st : owned zs st -> inflateStateCheck zs (Some st) = false.
Proof. intros (A & B & C). unfold inflateStateCheck. by rewrite A, B, C, Z.eqb_refl. Qed.

(** a state as the initialisation leaves it for a raw stream *)
Record started (st : inflate_state) : Prop := {
  sd_mode : mode st = IM.HEAD;
  sd_wrap : wrap st = 0;
  sd_last : last_ st = 0;
  sd_hold : hold st = 0;
  sd_bits : bits st = 0 }.

Lemma turn_HEAD flush s :
  mode (state s) = IM.HEAD -> wrap (state s) = 0 -> dispatch flush s = (s <| state := state s <| mode := IM.TYPEDO |> |>, inr tt).
Proof. intros Hm Hw. unfold dispatch. rewrite bind_gets, Hm. unfold h_HEAD. by rewrite bind_gets, Hw. Qed.
Lemma stream_reads_bound bs b : (stream_reads bs b + 2 <= 4 * length (stream_ins bs b))%nat.
Proof.
  assert (H : forall last c, (read_turns c + 2 <= 4 * length (header_ins last c ++ body_ins c))%nat).
  { intros last c. rewrite length_app. destruct c as [data|xs|h xs]; cbn [read_turns body_ins]; unfold header_ins; rewrite !length_app; cbn [length ins_end].
    - lia.
    - pose proof (length_instrs xs). lia.
    - pose proof (length_instrs xs). lia. }
  unfold stream_reads, list_sum. induction bs as [|c bs IH]; cbn [map fold_right stream_ins].
  - pose proof (H 1 b). lia.
  - pose proof (H 0 c). rewrite app_assoc, length_app. lia.
Qed.

(** the loop on a stream of blocks *)
Lemma run_inflate flush zs st g d rest bs b (s := LOAD (mk_im zs st g [] 0 [] 0 0 0 0 Z_OK) <| l_in := avail_in zs |> <| l_out := avail_out zs |>) f :
  started st -> flush <> Z_BLOCK -> flush <> Z_TREES -> Forall block_ok (bs ++ [b]) ->
  next_in zs = d ++ rest -> bytes_ok (next_in zs) -> bytes_bits d = stream_enc 0 bs b ->
  Z.of_nat (length (stream_ins bs b)) <= avail_out zs < 2 ^ 32 -> (4 * length (stream_ins bs b) < f)%nat ->
  exists s', run f flush s = (s', Leave) /\ l_next s' = rest /\ l_bits s' = 0 /\ l_hold s' = 0 /\ wrap (state s') = 0
    /\ l_put s' = next_out zs ++ stream_ins bs b /\ l_left s' = avail_out zs - Z.of_nat (length (stream_ins bs b))
    /\ l_ret s' = Z_STREAM_END.
Proof.
  intros [Hm Hw Hl Hh Hb] Hf1 Hf2 Hok Hin Hy Hd Hroom Hf. unfold run.
  pose proof (turn_HEAD flush s Hm Hw) as T0. set (s0 := s <| state := state s <| mode := IM.TYPEDO |> |>) in T0.
  assert (Hbits : l_bits s0 = 0) by exact Hb. assert (Hhold : l_hold s0 = 0) by exact Hh.
  assert (Hr : reader_ok s0).
  { split; [change (0 <= l_bits s0 <= 64); lia|change (0 <= l_hold s0 < 2 ^ l_bits s0); rewrite Hbits, Hhold; lia|exact Hy]. }
  assert (Hs : stream s0 = stream_enc 0 bs b ++ bytes_bits rest).
  { unfold stream. change (rd_bits s0) with (l_bits s0). rewrite Hbits. change (rd_next s0) with (next_in zs).
    by rewrite Hin, bytes_bits_app, Hd. }
  destruct (read_stream flush Hf1 Hf2 bs b (bytes_bits rest) Hok s0 0) as (n & s1 & pad & T1 & N1 & R1 & P1);
    [by right|exact Hl|done|exact Hr|rewrite Hbits; lia|exact Hs| |exact Hroom|].
  { rewrite Hs, length_app, length_bytes_bits, Z.add_0_l, Nat2Z.inj_add. pose proof (stream_enc_length 0 bs b) as M. rewrite Z.add_0_l in M.
    apply Z.mod_divide in M as [q M]; [|lia]. rewrite M. apply Z.mod_divide; [lia|]. exists (q + Z.of_nat (length rest)). lia. }
  assert (Hw1 : wrap (state s1) = 0) by (rewrite <- Hw; exact (f_equal (fun x => x.1.2) (br_set _ _ _ _ _ R1))).
  destruct (turn_end flush Hf1 Hf2 s1 pad (bytes_bits rest) (br_mode _ _ _ _ _ R1) (br_last _ _ _ _ _ R1) Hw1
    (br_reader _ _ _ _ _ R1) (br_bits _ _ _ _ _ R1) (br_stream _ _ _ _ _ R1) P1)
    as (s2 & s3 & T2 & T3 & S3 & Y3 & B3 & H3 & E3 & W3 & X3).
  injection X3 as X1 X2 X3 X4 X5.
  assert (TT : steps (dispatch flush) (1 + (n + 1)) s s2).
  { econstructor; [exact T0|]. eapply steps_trans; [exact T1|by apply steps_1]. }
  exists s3. split; [eapply forever_leave; [exact TT|exact T3|]; pose proof (stream_reads_bound bs b); lia|].
  split; [|split; [exact B3|split; [exact H3|split; [exact W3|split; [by rewrite X2, (br_put _ _ _ _ _ R1)|
    split; [by rewrite X3, (br_left _ _ _ _ _ R1)|exact E3]]]]]].
  apply bytes_bits_inj; [exact Y3| |exact S3]. rewrite Hin in Hy. by apply Forall_app in Hy as [_ Hy].
Qed.

Lemma inflate_stream_run flush zs st g d rest bs b :
  owned zs st -> started st -> next_out_null zs = false -> next_in_null zs = false -> flush <> Z_BLOCK -> flush <> Z_TREES ->
  Forall block_ok (bs ++ [b]) -> next_in zs = d ++ rest -> bytes_ok (next_in zs) -> bytes_bits d = stream_enc 0 bs b ->
  Z.of_nat (length (stream_ins bs b)) <= avail_out zs < 2 ^ 32 ->
  exists zs' st' g', j_inflate zs (Some st) g flush = Some (zs', Some st', g', Z_STREAM_END)
    /\ next_in zs' = rest /\ next_out zs' = next_out zs ++ stream_ins bs b
    /\ avail_out zs' = avail_out zs - Z.of_nat (length (stream_ins bs b)) /\ hold st' = 0 /\ bits st' = 0.
Proof.
  intros Ho Hst Hno Hni Hf1 Hf2 Hok Hin Hy Hd Hroom. unfold j_inflate. rewrite (owned_check _ _ Ho), Hno, Hni. cbn [orb andb].
  rewrite bool_decide_eq_false_2 by (rewrite (sd_mode _ Hst); discriminate). cbv zeta.
  match goal with |- context [run (inflate_fuel ?x) flush ?x] => set (s := x) end.
  destruct (run_inflate flush zs st g d rest bs b (inflate_fuel s) Hst Hf1 Hf2 Hok Hin Hy Hd Hroom) as (s' & E & N & B & H & W & P & L & R).
  { unfold inflate_fuel. change (l_left s) with (avail_out zs). lia. }
  change (run (inflate_fuel s) flush s = (s', Leave)) in E. rewrite E. unfold inf_leave. cbv zeta.
  match goal with |- context [Z.land (wrap ?x) 4] => change (wrap x) with (wrap (state s')) end. rewrite W.
  change (negb (Z.land 0 4 =? 0)) with false. cbn [andb].
  match goal with |- context [l_ret ?x] => change (l_ret x) with (l_ret s') end. rewrite R.
  change (Z_STREAM_END =? Z_OK) with false. rewrite andb_false_r.
  eexists _, _, _. split; [reflexivity|]. split; [exact N|]. split; [exact P|]. split; [exact L|]. split; [exact H|exact B].
Qed.

(** ** Initialisation *)

(** the window sizes of the documentation: raw, or with a wrapper request in the bits above the low four *)
Definition window_ok (windowBits : Z) : bool :=
  if windowBits <? 0 then (-15 <=? windowBits) && (windowBits <=? -8)
  else (windowBits <? 48) && ((windowBits mod 16 =? 0) || (8 <=? windowBits mod 16)).
Lemma window_request_ok windowBits :
  match window_request windowBits with
  | None => window_ok windowBits = false
  | Some (w, b) => window_ok windowBits = negb (negb (b =? 0) && ((b <? 8) || (b >? 15)))
      /\ (windowBits < 0 -> w = 0)
  end.
Proof.
  unfold window_request, window_ok. destruct (Z.ltb_spec windowBits 0) as [Hneg|Hpos].
  - destruct (Z.ltb_spec windowBits (-15)); [lia|]. split; [|done].
    destruct (Z.eqb_spec (- windowBits) 0), (Z.ltb_spec (- windowBits) 8), (Z.gtb_spec (- windowBits) 15),
      (Z.leb_spec (-15) windowBits), (Z.leb_spec windowBits (-8)); cbn; lia || done.
  - split; [|lia]. destruct (Z.ltb_spec windowBits 48); cbn [andb].
    + rewrite (land_ones_mod 4) by lia. change (2 ^ 4) with 16. pose proof (Z.mod_pos_bound windowBits 16 ltac:(lia)).
      destruct (Z.eqb_spec (windowBits mod 16) 0), (Z.ltb_spec (windowBits mod 16) 8), (Z.gtb_spec (windowBits mod 16) 15),
        (Z.leb_spec 8 (windowBits mod 16)); cbn; lia || done.
    + destruct (Z.eqb_spec windowBits 0), (Z.ltb_spec windowBits 8), (Z.gtb_spec windowBits 15); cbn; lia || done.
Qed.

Lemma reset_started zs st :
  owned zs st -> exists zs' st', j_inflateReset zs (Some st) = (zs', Some st', Z_OK)
    /\ owned zs' st' /\ mode st' = IM.HEAD /\ last_ st' = 0 /\ hold st' = 0 /\ bits st' = 0 /\ wrap st' = wrap st
    /\ next_in zs' = next_in zs /\ next_out zs' = next_out zs /\ avail_out zs' = avail_out zs
    /\ (next_in_null zs', next_out_null zs') = (next_in_null zs, next_out_null zs).
Proof.
  intros Ho. unfold j_inflateReset, j_inflateResetKeep. rewrite (owned_check _ _ Ho).
  rewrite owned_check by exact Ho. eexists _, _. split; [reflexivity|]. cbv zeta.
  change (wrap (st <| wsize := 0 |> <| whave := 0 |> <| wnext := 0 |>)) with (wrap st).
  destruct (negb (wrap st =? 0)); (split; [exact Ho|]); by repeat split.
Qed.

Lemma inflate_init_run zs state mem windowBits :
  match j_inflateInit2_ zs state (Some mem) windowBits with
  | (zs', state', ret) =>
      if window_ok windowBits then
        ret = Z_OK /\ exists st, state' = Some st /\ owned zs' st /\ (windowBits < 0 -> started st)
        /\ next_in zs' = next_in zs /\ next_out zs' = next_out zs /\ avail_out zs' = avail_out zs
        /\ (next_in_null zs', next_out_null zs') = (next_in_null zs, next_out_null zs)
      else ret = Z_STREAM_ERROR /\ state' = None
  end.
Proof.
  unfold j_inflateInit2_, j_inflateReset2. cbv zeta.
  set (zs1 := zs <| msg := None |> <| zalloc_set := true |> <| zfree_set := true |>).
  set (st1 := mem <| is_strm := zs_addr zs1 |> <| window_null := true |> <| mode := IM.HEAD |>).
  assert (Ho : owned zs1 st1) by by split. rewrite (owned_check _ _ Ho).
  pose proof (window_request_ok windowBits) as W. destruct (window_request windowBits) as [[w b]|]; [|by rewrite W].
  destruct W as [-> Hw]. destruct (negb (b =? 0) && ((b <? 8) || (b >? 15))); [done|]. cbn [negb].
  change (negb (window_null st1)) with false. cbn [andb].
  destruct (reset_started zs1 (st1 <| wrap := w |> <| wbits := b |>)) as (zs' & st' & E & O & M & L & H & B & Wr & N); [exact Ho|].
  rewrite E. split; [done|]. eexists. split; [reflexivity|]. split; [exact O|]. split; [|exact N].
  intros Hneg. split; [exact M|change (wrap st' = 0); rewrite Wr; exact (Hw Hneg)|exact L|exact H|exact B].
Qed.

(** ** Properties *)

(** C2. Decoding a stream of stored, fixed and dynamic blocks: one call of [j_inflate] on a raw deflate stream whose
    bits are those of the blocks returns [Z_STREAM_END] and has written exactly the instruction stream of
    these blocks: for each block its captured header bits, padded and followed by the marker, the stored
    data or one instruction per symbol, and the end mark.  What follows the stream in the input stays
    unread, whatever mixture of the fast loop and the slow path the machine used, and its fuel was enough. *)
Theorem inflate_stream flush zs st g d rest bs b :
  owned zs st -> started st -> next_out_null zs = false -> next_in_null zs = false -> flush <> Z_BLOCK -> flush <> Z_TREES ->
  Forall block_ok (bs ++ [b]) -> next_in zs = d ++ rest -> bytes_ok (next_in zs) -> bytes_bits d = stream_enc 0 bs b ->
  Z.of_nat (length (stream_ins bs b)) <= avail_out zs < 2 ^ 32 ->
  exists zs' st' g', j_inflate zs (Some st) g flush = Some (zs', Some st', g', Z_STREAM_END)
    /\ next_in zs' = rest /\ next_out zs' = next_out zs ++ stream_ins bs b
    /\ avail_out zs' = avail_out zs - Z.of_nat (length (stream_ins bs b)) /\ hold st' = 0 /\ bits st' = 0.
Proof. apply inflate_stream_run. Qed.
(** zeroed memory, and a block of each type and three bytes behind the stream *)
Definition zero_inflate : inflate_state :=
  mk_is 0 IM.HEAD 0 0 0 0 0 0 0 None 0 0 0 0 true 0 0 0 0 0 (Codes 0) (Codes 0) 0 0 0 0 0 0 0 ∅ ∅ ∅ 0 0 0 ∅ 0 0 0 0 0 0.
Definition demo_bytes : list Z := [0; 3; 0; 252; 255; 1; 2; 3; 12; 193; 129; 0; 0; 0; 0; 128; 32; 182; 252; 165; 190; 172; 57; 174; 2; 161; 209; 251; 255; 1].
Definition demo_input : z_stream := mk_stream (demo_bytes ++ [7; 8; 9]) 0 [] 100 0 None 0 0 false false true true 0.
Lemma inflate_stream_witness :
  exists zs' st' g', j_inflate demo_input (Some zero_inflate) (mk_ig ∅ 0 0 0 0) Z_NO_FLUSH = Some (zs', Some st', g', Z_STREAM_END)
    /\ next_in zs' = [7; 8; 9] /\ next_out zs' = stream_ins demo_blocks (Fixed demo_symbols) /\ avail_out zs' = 49.
Proof.
  destruct (inflate_stream Z_NO_FLUSH demo_input zero_inflate (mk_ig ∅ 0 0 0 0) demo_bytes [7; 8; 9] demo_blocks (Fixed demo_symbols))
    as (zs' & st' & g' & E & N & P & A & _).
  - by split.
  - by split.
  - reflexivity.
  - reflexivity.
  - discriminate.
  - discriminate.
  - exact demo_blocks_ok.
  - reflexivity.
  - repeat constructor; unfold is_byte; lia.
  - vm_compute. reflexivity.
  - split; [apply Z.leb_le|apply Z.ltb_lt]; reflexivity.
  - exists zs', st', g'. split; [exact E|]. split; [exact N|]. split; [exact P|]. rewrite A. reflexivity.
Defined.

