(* ===== verification/Files.v ===== *)
(** * From file to file (partial/decode_docker.cpp, encode_docker.cpp)

    The drivers on gzip files that fit one buffer: parsing of the header, the copies,
    one call of [j_inflate], one of [j_deflate], and the round trip: the file that
    encode_docker writes from the output of decode_docker is the original one. *)
From S2P Require Import Prelude Zlib Inffast Format Encode Bitstream Bytes Blocks Recode Instructions Drivers.
From S2P Require InflateState Inflate DeflateState Deflate.

(** ** copyBytes *)

Lemma take_of_app {A} (l l' : list A) n : length l = n -> take n (l ++ l') = l.
Proof. intros <-. apply take_app_length. Qed.
Lemma copyBytes_exact fuel buffer input n :
  n <= Z.of_nat (length input) -> n < Z.of_nat fuel -> (copyBytes fuel buffer input n).2 = take (Z.to_nat n) input.
Proof.
  revert buffer input n. induction fuel as [|fuel IH]; intros buffer input n Hn Hf; cbn [copyBytes].
  { by replace (Z.to_nat n) with 0%nat by lia. }
  destruct (Z.gtb_spec n 0) as [H0|H0]; [|by replace (Z.to_nat n) with 0%nat by lia].
  set (m := if n <? CHUNK then n else CHUNK). assert (Hm : 0 < m <= n) by (subst m; unfold CHUNK; destruct (Z.ltb_spec n 16384); lia).
  cbv zeta. rewrite (take_of_app (take (Z.to_nat m) input)) by (rewrite length_take; lia).
  specialize (IH (take (Z.to_nat m) input ++ drop (length (take (Z.to_nat m) input)) buffer) (drop (Z.to_nat m) input) (n - m)).
  destruct (copyBytes fuel _ _ _) as [inp rest]. cbn [snd] in *. rewrite IH by (rewrite ?length_drop; lia).
  replace (Z.to_nat n) with (Z.to_nat m + Z.to_nat (n - m))%nat by lia. by rewrite <- take_take_drop.
Qed.
Lemma copy_exact buffer input n : n <= Z.of_nat (length input) -> copy buffer input n = take (Z.to_nat n) input.
Proof. intros Hn. apply copyBytes_exact; lia. Qed.

(** ** The gzip header of RFC 1952 *)

Record gzip_header := mk_gzip {
  g_fixed : list Z; g_extra : option (list Z); g_name : option (list Z); g_comment : option (list Z); g_hcrc : option (list Z) }.
Definition zero_ended (o : option (list Z)) : list Z := match o with Some l => l ++ [0] | None => [] end.
Definition extra_field (o : option (list Z)) : list Z := match o with Some l => le16 (Z.of_nat (length l)) ++ l | None => [] end.
Definition render (h : gzip_header) : list Z :=
  g_fixed h ++ extra_field (g_extra h) ++ zero_ended (g_name h) ++ zero_ended (g_comment h) ++ default [] (g_hcrc h).
Definition flagged {A} (flags f : Z) (o : option A) : Prop := has_flag flags f = bool_decide (is_Some o).
Record gzip_ok (h : gzip_header) : Prop := {
  gk_fixed : length (g_fixed h) = 10%nat;
  gk_magic0 : byte_at (g_fixed h) 0 = 0x1f;
  gk_magic1 : byte_at (g_fixed h) 1 = 0x8b;
  gk_extra : flagged (byte_at (g_fixed h) 3) FEXTRA (g_extra h);
  gk_name : flagged (byte_at (g_fixed h) 3) FNAME (g_name h);
  gk_comment : flagged (byte_at (g_fixed h) 3) FCOMMENT (g_comment h);
  gk_hcrc : flagged (byte_at (g_fixed h) 3) FHCRC (g_hcrc h);
  gk_extra_len : forall l, g_extra h = Some l -> Z.of_nat (length l) < 65536;
  gk_name_zero : forall l, g_name h = Some l -> Forall (fun c => c <> 0) l;
  gk_comment_zero : forall l, g_comment h = Some l -> Forall (fun c => c <> 0) l;
  gk_hcrc_len : forall l, g_hcrc h = Some l -> length l = 2%nat }.

Lemma skip_string_spec l rest n :
  Forall (fun c => c <> 0) l -> skip_string (l ++ 0 :: rest) n = Some (rest, n + Z.of_nat (length l) + 1).
Proof.
  intros H. revert n. induction H as [|c l Hc _ IH]; intros n; cbn [app skip_string].
  - change (0 =? 0) with true. cbn. do 2 f_equal. lia.
  - destruct (Z.eqb_spec c 0); [done|]. rewrite IH. cbn [length]. do 2 f_equal. lia.
Qed.
(** a field that is skipped when its flag is set *)
Lemma skip_field flags f o rest n :
  flagged flags f o -> (forall l, o = Some l -> Forall (fun c => c <> 0) l) ->
  (if has_flag flags f then skip_string (zero_ended o ++ rest) n else Some (zero_ended o ++ rest, n))
  = Some (rest, n + Z.of_nat (length (zero_ended o))).
Proof.
  intros Hf Hz. unfold flagged in Hf. rewrite Hf. destruct o as [l|]; cbn [zero_ended].
  - rewrite bool_decide_eq_true_2 by eauto. rewrite <- app_assoc. cbn [app]. rewrite skip_string_spec by auto.
    rewrite length_app. cbn [length]. do 2 f_equal. lia.
  - rewrite bool_decide_eq_false_2 by (by intros []). cbn. do 2 f_equal. lia.
Qed.

(** the offset is that of the deflate data, except that the two length bytes of an extra field are not counted *)
Definition extra_slip (h : gzip_header) : Z := match g_extra h with Some _ => 2 | None => 0 end.
Lemma parse_gzip_run extra0 h data trailer :
  gzip_ok h -> length trailer = 8%nat ->
  parseGzipFile extra0 (render h ++ data ++ trailer)
  = Parsed (Z.of_nat (length (render h)) - extra_slip h) (Z.of_nat (length data) + extra_slip h).
Proof.
  intros [Hl H0 H1 Fe Fn Fc Fh Le Zn Zc Lh] Ht. unfold parseGzipFile, render. rewrite <- !app_assoc.
  set (rest := extra_field _ ++ _).
  assert (Hb : forall i, (i < 10)%nat -> byte_at (g_fixed h ++ rest) i = byte_at (g_fixed h) i).
  { intros i Hi. unfold byte_at. apply app_nth1. lia. }
  rewrite !Hb by lia. rewrite H0, H1. change (negb (31 =? 31) || negb (139 =? 139)) with false.
  destruct (Nat.ltb_spec (length (g_fixed h ++ rest)) GZIP_HEADER_LEN) as [Hlt|_].
  { rewrite length_app in Hlt. unfold GZIP_HEADER_LEN in Hlt. lia. }
  cbv zeta. rewrite drop_app_length' by done. set (flags := byte_at (g_fixed h) 3) in *.
  set (rest1 := zero_ended (g_name h) ++ zero_ended (g_comment h) ++ default [] (g_hcrc h) ++ data ++ trailer).
  assert (Ee : (if has_flag flags FEXTRA then
      (drop (Z.to_nat match rest with b0 :: b1 :: _ => b0 + 256 * b1 | _ => extra0 end) (drop 2 rest),
       match rest with b0 :: b1 :: _ => b0 + 256 * b1 | _ => extra0 end) else (rest, 0))
    = (rest1, Z.of_nat (length (extra_field (g_extra h))) - extra_slip h)).
  { unfold flagged in Fe. rewrite Fe. unfold extra_slip, rest, extra_field. destruct (g_extra h) as [l|].
    - rewrite bool_decide_eq_true_2 by eauto. specialize (Le l eq_refl). unfold le16. cbn [app drop].
      assert (E : Z.of_nat (length l) mod 256 + 256 * (Z.of_nat (length l) / 256) = Z.of_nat (length l)).
      { pose proof (Z.div_mod (Z.of_nat (length l)) 256). lia. }
      rewrite E, Nat2Z.id, drop_0, drop_app_length. f_equal. cbn [length]. lia.
    - by rewrite bool_decide_eq_false_2 by (by intros []). }
  rewrite Ee. unfold rest1. rewrite (skip_field flags FNAME (g_name h)) by done.
  rewrite (skip_field flags FCOMMENT (g_comment h)) by done.
  assert (Eh : forall n, (if has_flag flags FHCRC then n + 2 else n) = n + Z.of_nat (length (default [] (g_hcrc h)))).
  { intros n. unfold flagged in Fh. rewrite Fh. destruct (g_hcrc h) as [l|].
    - rewrite bool_decide_eq_true_2 by eauto. change (default [] (Some l)) with l. rewrite (Lh l eq_refl). done.
    - rewrite bool_decide_eq_false_2 by (by intros []). cbn. lia. }
  rewrite Eh. subst rest. rewrite !length_app, Hl, Ht. unfold GZIP_HEADER_LEN. f_equal; lia.
Qed.

(** ** decode_docker: decompressBytes on one buffer *)

Section Decode.
Import InflateState Inflate.
Context (zs0 : z_stream) (mem : inflate_state) (buffer0 : list Z).

Lemma good_return : bool_decide (Z_STREAM_END ∈ [Z_NEED_DICT; Z_STREAM_ERROR; Z_DATA_ERROR; Z_MEM_ERROR]) = false.
Proof. reflexivity. Qed.
Lemma inflate_chunk_one f zs st g d bs b output :
  owned zs st -> started st -> next_in_null zs = false -> Forall block_ok (bs ++ [b]) -> next_in zs = d -> bytes_ok d ->
  bytes_bits d = stream_enc 0 bs b -> Z.of_nat (length (stream_ins bs b)) < CHUNK ->
  exists zs' st' g', inflate_chunk (S f) zs (Some st) g output = Some (zs', st', g', output ++ stream_ins bs b, true).
Proof.
  intros Ho Hst Hni Hok Hin Hy Hd Hlen. cbn [inflate_chunk]. set (zs1 := zs <| avail_out := CHUNK |> <| next_out := [] |> <| next_out_null := false |>).
  destruct (inflate_stream_run Z_NO_FLUSH zs1 st g d [] bs b) as (zs' & st' & g' & E & _ & P & A & _); try done.
  { change (next_in zs1) with (next_in zs). by rewrite Hin, app_nil_r. } { change (next_in zs1) with (next_in zs). by rewrite Hin. }
  { change (avail_out zs1) with CHUNK. unfold CHUNK in *. lia. }
  rewrite E, good_return, P. change (next_out zs1) with (@nil Z). cbn [app]. rewrite A. change (avail_out zs1) with CHUNK.
  destruct (Z.eqb_spec (CHUNK - Z.of_nat (length (stream_ins bs b))) 0); [lia|]. by eexists _, _, _.
Qed.

(** what decompressBytes is called on: [len] bytes at [start], a raw stream of blocks *)
Lemma decompress_one file start len d bs b :
  take (Z.to_nat len) (file_at file start) = d -> Z.of_nat (length d) = len -> 0 < len <= CHUNK -> bytes_ok d ->
  Forall block_ok (bs ++ [b]) -> bytes_bits d = stream_enc 0 bs b -> Z.of_nat (length (stream_ins bs b)) < CHUNK ->
  decompressBytes zs0 (Some mem) file (-15) start len = Some (stream_ins bs b, true).
Proof.
  intros Hd Hl Hlen Hy Hok Hb Hins. unfold decompressBytes. cbv zeta. set (zs1 := zs0 <| zalloc_set := false |> <| zfree_set := false |>
    <| next_in := [] |> <| next_in_null := true |>).
  pose proof (inflate_init_run zs1 None mem (-15)) as I. destruct (j_inflateInit2_ zs1 None (Some mem) (-15)) as [[zs2 st2] ret].
  change (window_ok (-15)) with true in I. cbv iota in I. destruct I as (_ & st & -> & Ho & Hst & _).
  specialize (Hst ltac:(lia)). destruct (Z.to_nat len) as [|n] eqn:En; [lia|]. cbn [decompress_loop].
  destruct (Z.gtb_spec len 0); [|lia]. cbv zeta.
  replace (if len <? CHUNK then len else CHUNK) with len by (destruct (Z.ltb_spec len CHUNK); lia). rewrite En, Hd.
  set (zs3 := zs2 <| next_in := d |> <| next_in_null := false |>).
  destruct (inflate_chunk_one (1 + 16 * length d + 1000) zs3 st (mk_ig ∅ 0 0 0 0) d bs b [] Ho Hst eq_refl Hok eq_refl Hy Hb Hins)
    as (zs' & st' & g' & E).
  change (2 + 16 * length d + 1000)%nat with (S (1 + 16 * length d + 1000)). rewrite E. rewrite Z.sub_diag. reflexivity.
Qed.
End Decode.

(** ** encode_docker: compress_data on one buffer *)

Section Encode.
Import DeflateState Deflate.
Context (mem : deflate_state) (indet : ins_locals -> ins_locals) (out0 : Z) (locals0 : ins_locals) (buffer0 : list Z).
(** the memory [malloc] returns is zero where the initialisation leaves it unset, and holds bytes *)
Record memory_ok : Prop := {
  my_last : last_ mem = 0;
  my_hold : hold mem = 0;
  my_bits : bits mem = 0;
  my_cells : buffer_ok mem }.
Context (Hmem : memory_ok).

Lemma init_docker zs :
  exists zs' st, j_deflateInit2_ zs None (Some mem) true 9 Z_DEFLATED (-15) 8 4 = (zs', Some st, Z_OK)
    /\ callable zs' st /\ fresh st /\ sym_buf st = 2 ^ 14 /\ buffer_ok st.
Proof.
  destruct Hmem as [H1 H2 H3 H4].
  destruct (init_fresh_run zs None mem 9 (-15) 8 4 H1 H2 H3) as (zs' & st & E & C & F & B & _); [lia..|].
  exists zs', st. split; [done|]. split; [done|]. split; [done|]. split; [done|].
  rewrite init_raw in E by lia. cbv zeta in E. set (zs1 := zs <| msg := None |> <| zalloc_set := true |> <| zfree_set := true |>) in E.
  set (st1 := init_state mem (zs_addr zs1) 9 (- -15) 8 4) in E. assert (Hc : callable zs1 st1) by by split.
  rewrite (reset_ok zs1 st1 Hc eq_refl) in E. injection E as _ <-. exact H4.
Qed.

(** blocks the encoder does not change *)
Lemma rle_same bs b : Forall (fun c => rle_block c = c) (bs ++ [b]) -> map rle_block bs = bs /\ rle_block b = b.
Proof.
  intros H. apply Forall_app in H as [H1 H2]. apply Forall_cons_1 in H2 as [H2 _]. split; [|done].
  induction H1 as [|c bs E H1 IH]; [done|]. cbn [map]. by rewrite E, IH.
Qed.
(** every block whose instructions and encoding fit the buffer fits the tables of the re-encoder *)
Lemma blocks_fit pos bs b :
  Forall block_ok (bs ++ [b]) -> Forall (fun c => rle_block c = c) (bs ++ [b]) -> Z.of_nat (length (stream_ins bs b)) < CHUNK ->
  Z.of_nat (length (stream_enc pos bs b)) <= 8 * (CHUNK - 1) -> Forall (fun c => block_ok c /\ block_fits (2 ^ 14) c) (bs ++ [b]).
Proof.
  change (2 ^ 14) with CHUNK. revert pos. unfold CHUNK.
  induction bs as [|c bs IH]; intros pos Hok Hz Hlen He; cbn [app stream_ins stream_enc] in *; cbv zeta in He;
    apply Forall_cons_1 in Hok as [Hc Hok]; apply Forall_cons_1 in Hz as [Hz1 Hz]; rewrite !length_app in Hlen; rewrite length_app in He.
  - constructor; [|done]. split; [done|]. apply (short_fits _ pos 1); rewrite ?Hz1; try done; lia.
  - constructor; [split; [done|]; apply (short_fits _ pos 0); rewrite ?Hz1; try done; lia|]. eapply IH; [done|done|lia|].
    instantiate (1 := pos + Z.of_nat (length (block_enc pos 0 c))). lia.
Qed.

Lemma deflate_chunk_one f zs st g d bs b dest :
  callable zs st -> fresh st -> sym_buf st = 2 ^ 14 -> buffer_ok st -> next_in_null zs = false ->
  Forall block_ok (bs ++ [b]) -> Forall (fun c => rle_block c = c) (bs ++ [b]) -> next_in zs = stream_ins bs b -> bytes_ok (stream_ins bs b) -> bytes_ok d ->
  bytes_bits d = stream_enc 0 bs b -> Z.of_nat (length (stream_ins bs b)) < CHUNK -> Z.of_nat (length d) < CHUNK ->
  exists zs' st' g', deflate_chunk indet out0 locals0 (S f) zs (Some st) g Z_FINISH dest = Done (zs', st', g', dest ++ d, inr Z_STREAM_END).
Proof.
  intros Hc Hf Hb Hbo Hni Hok Hz Hin Hy Hyd Hd Hlen Hld. cbn [deflate_chunk].
  set (zs1 := zs <| avail_out := CHUNK |> <| next_out := [] |> <| next_out_null := false |>).
  destruct (rle_same bs b Hz) as [Ez1 Ez2].
  destruct (reencode_stream_run indet out0 Z_FINISH zs1 st g locals0 bs b []) as (zs' & st' & g' & E & _ & P & A); try done.
  { by destruct Hc. } { rewrite Hb. apply (blocks_fit 0); try done. rewrite <- Hd, length_bytes_bits. lia. } { change (next_in zs1) with (next_in zs). by rewrite Hin, app_nil_r. }
  { change (next_in zs1) with (next_in zs). by rewrite Hin. }
  { change (avail_out zs1) with CHUNK. rewrite Ez1, Ez2, <- Hd, length_bytes_bits. lia. }
  rewrite Ez1, Ez2 in P. change (next_out zs1) with (@nil Z) in P, A. change (avail_out zs1) with CHUNK in A. cbn [bytes_bits flat_map app] in P.
  assert (Hy1 : bytes_ok (next_in zs1)) by (change (next_in zs1) with (next_in zs); by rewrite Hin).
  destruct (j_deflate_bytes indet out0 zs1 st g locals0 Z_FINISH _ _ _ _ Hy1 Hbo ltac:(constructor) E) as [_ Ho].
  assert (En : next_out zs' = d) by (apply bytes_bits_inj; [done|done|congruence]).
  rewrite E. change (Z_STREAM_END =? Z_STREAM_ERROR) with false. change (Z_STREAM_END =? Z_NEED_DICT) with false.
  change (Z_STREAM_END =? Z_DATA_ERROR) with false. change (Z_STREAM_END =? Z_MEM_ERROR) with false. cbn [orb].
  rewrite En in A |- *. cbn [length] in A. destruct (Z.eqb_spec (avail_out zs') 0); [lia|]. by eexists _, _, _.
Qed.

Lemma compress_one source len start d bs b :
  take (Z.to_nat len) (file_at source start) = stream_ins bs b -> Z.of_nat (length (stream_ins bs b)) = len -> 0 < len < CHUNK ->
  bytes_ok (stream_ins bs b) -> bytes_ok d -> Forall block_ok (bs ++ [b]) -> Forall (fun c => rle_block c = c) (bs ++ [b]) -> bytes_bits d = stream_enc 0 bs b ->
  Z.of_nat (length d) < CHUNK ->
  compress_data (Some mem) true indet out0 locals0 source len 0 start = Done (d, Z_OK).
Proof.
  intros Hs Hl Hlen Hy Hyd Hok Hz Hd Hld. unfold compress_data. cbv zeta. change (0 =? 0) with true. cbv iota.
  destruct (init_docker (mk_stream [] 0 [] 0 0 None 0 0 true true false false 1)) as (zs & st & E & C & F & B & Bo).
  rewrite E. change (negb (Z_OK =? Z_OK)) with false. cbv iota. cbn [compress_loop]. cbv zeta.
  replace (if len <? CHUNK then len else CHUNK) with len by (destruct (Z.ltb_spec len CHUNK); lia). rewrite Hs, Z.sub_diag.
  change (0 <=? 0) with true. cbv iota. set (zs1 := zs <| next_in := stream_ins bs b |> <| next_in_null := false |>).
  assert (C1 : callable zs1 st) by by destruct C.
  destruct (deflate_chunk_one (1 + 16 * length (stream_ins bs b) + 1000) zs1 st (mk_dg ∅ ∅) d bs b [] C1 F B Bo eq_refl Hok Hz eq_refl
    Hy Hyd Hd) as (zs' & st' & g' & E1); [lia|done|].
  change (2 + 16 * length (stream_ins bs b) + 1000)%nat with (S (1 + 16 * length (stream_ins bs b) + 1000)). rewrite E1. reflexivity.
Qed.
End Encode.

(** ** Whole files *)

Lemma stream_ins_bytes bs b : Forall block_ok (bs ++ [b]) -> bytes_ok (stream_ins bs b).
Proof.
  assert (F : forall last c, last_ok last -> block_ok c -> bytes_ok (header_ins last c ++ body_ins c)).
  { intros last c Hl Hc. assert (Hm : bytes_ok ins_end) by (repeat constructor; unfold is_byte; lia).
    destruct c as [data|xs|h xs]; cbn [block_ok body_ins] in *.
    - destruct Hc as [Hd Hlen]. apply Forall_app_2; [|by apply Forall_app_2]. apply Forall_app_2; [|done].
      apply Forall_app_2; [repeat constructor; destruct Hl; subst; unfold is_byte; lia|].
      apply Forall_app_2; apply le16_bits; unfold stored_len; lia.
    - apply Forall_app_2; [|by apply instrs_bytes]. apply Forall_app_2; [|done]. repeat constructor; destruct Hl; subst; unfold is_byte; lia.
    - destruct Hc as (_ & Hx & _). apply Forall_app_2; [|by apply instrs_bytes]. apply Forall_app_2; [|done]. apply pack_spec. }
  induction bs as [|c bs IH]; cbn [app stream_ins]; intros H; apply Forall_cons_1 in H as [Hc H].
  - apply F; [by right|done].
  - rewrite app_assoc. apply Forall_app_2; [apply F; [by left|done]|by apply IH].
Qed.
Lemma read_int_bytes x l : 0 <= x < 2 ^ 31 -> read_int (int_bytes x ++ l) = x.
Proof.
  intros Hx. unfold read_int, int_bytes, byte_at, u8. cbn [app nth]. rewrite !Z.shiftr_div_pow2 by lia.
  change (2 ^ 8) with 256. change (2 ^ 16) with 65536. change (2 ^ 24) with 16777216.
  replace (x mod 256 + 256 * ((x / 256) mod 256) + 65536 * ((x / 65536) mod 256) + 16777216 * ((x / 16777216) mod 256)) with x
    by (Z.to_euclidean_division_equations; lia).
  apply s32_small. lia.
Qed.
(** the part of a file between two others *)
Lemma file_part (a b c : list Z) n m :
  n = Z.of_nat (length a) -> m = Z.of_nat (length b) -> take (Z.to_nat m) (file_at (a ++ b ++ c) n) = b /\ file_at (a ++ b ++ c) (n + m) = c.
Proof.
  intros -> ->. unfold file_at. split.
  - rewrite !Nat2Z.id, drop_app_length. apply take_app_length.
  - rewrite app_assoc, drop_app_length'; [done|]. rewrite length_app. lia.
Qed.

Section Round.
Context (zs0 : z_stream) (imem : InflateState.inflate_state) (ibuf : list Z) (extra0 : Z) (undef : Z * Z).
Context (dmem : DeflateState.deflate_state) (indet : Deflate.ins_locals -> Deflate.ins_locals) (out0 : Z)
        (locals0 : Deflate.ins_locals) (dbuf : list Z) (Hmem : memory_ok dmem).
Context (h : gzip_header) (d trailer : list Z) (bs : list block) (b : block).
Context (Hh : gzip_ok h) (Hx : g_extra h = None) (Ht : length trailer = 8%nat).
Context (Hok : Forall block_ok (bs ++ [b])) (Hz : Forall (fun c => rle_block c = c) (bs ++ [b])) (Hy : bytes_ok d) (Hd : bytes_bits d = stream_enc 0 bs b).
Context (Hld : 0 < Z.of_nat (length d) < CHUNK) (Hli : Z.of_nat (length (stream_ins bs b)) < CHUNK).
Context (Hlh : Z.of_nat (length (render h)) < 2 ^ 30).
Abbreviation file := (render h ++ d ++ trailer).
Abbreviation pos := (Z.of_nat (length (render h))).
Abbreviation fri := (int_bytes pos ++ render h ++ stream_ins bs b ++ trailer).

Lemma decode_file : decode_main zs0 (Some imem) ibuf extra0 undef file = Some (fri, true).
Proof.
  unfold decode_main. rewrite (parse_gzip_run extra0 h d trailer Hh Ht). unfold extra_slip. rewrite Hx, Z.sub_0_r, Z.add_0_r.
  unfold CHUNK in *. rewrite s32_small by lia. unfold j_build_fri. rewrite s32_small by lia.
  destruct (file_part (render h) d trailer _ _ eq_refl eq_refl) as [P1 P2].
  rewrite (decompress_one zs0 imem file pos (Z.of_nat (length d)) d bs b P1 eq_refl) by (unfold CHUNK; done || lia).
  rewrite copy_exact by (rewrite !length_app; lia). rewrite Nat2Z.id, take_app_length. cbv zeta.
  rewrite (Z.add_comm (Z.of_nat (length d))). rewrite s32_small by lia. rewrite P2.
  assert (El : Z.of_nat (length file) = pos + Z.of_nat (length d) + 8) by (rewrite !length_app, Ht; lia).
  rewrite El. destruct (Z.gtb_spec (pos + Z.of_nat (length d) + 8) (pos + Z.of_nat (length d))); [|lia]. cbn [andb].
  replace (pos + Z.of_nat (length d) + 8 - (pos + Z.of_nat (length d))) with 8 by lia. rewrite s32_small by lia.
  rewrite copy_exact by lia. change (Z.to_nat 8) with 8%nat. rewrite <- Ht, firstn_all, <- !app_assoc. done.
Qed.

Lemma encode_file : encode_main (Some dmem) true indet out0 locals0 dbuf fri = Done (file, true).
Proof.
  unfold CHUNK in *. unfold encode_main, j_compress_fri. rewrite read_int_bytes by lia. cbv zeta.
  change (drop 4 fri) with (render h ++ stream_ins bs b ++ trailer). rewrite copy_exact by (rewrite !length_app; lia).
  rewrite Nat2Z.id, take_app_length.
  assert (L4 : Z.of_nat (length (int_bytes pos ++ render h)) = pos + 4) by (rewrite length_app; cbn [int_bytes length]; lia).
  assert (El : Z.of_nat (length fri) - (pos + 4) - 8 = Z.of_nat (length (stream_ins bs b))).
  { rewrite app_assoc, !length_app, Ht. rewrite !length_app in L4. lia. }
  rewrite El. rewrite (s32_small (Z.of_nat (length (stream_ins bs b)))) by lia.
  destruct (file_part (int_bytes pos ++ render h) (stream_ins bs b) trailer (pos + 4) _ ltac:(lia) eq_refl) as [P1 P2].
  rewrite <- app_assoc in P1, P2. pose proof (stream_reads_bound bs b).
  rewrite (compress_one dmem indet out0 locals0 Hmem fri (Z.of_nat (length (stream_ins bs b))) (pos + 4) d bs b P1 eq_refl)
    by (unfold CHUNK; done || lia || by apply stream_ins_bytes).
  change (negb (Z_OK =? 0)) with false. cbv iota. rewrite s32_small by lia. rewrite P2, copy_exact by lia.
  change (Z.to_nat 8) with 8%nat. rewrite <- Ht, firstn_all. done.
Qed.
End Round.

(** ** Properties *)

(** C1. The round trip of files.  For every gzip file without an extra field whose data are a raw stream of
    stored, fixed and dynamic blocks, the dynamic ones with the runs of code lengths the encoder chooses (those of zlib and gzip),
    where data and instructions fit one buffer of the drivers: decode_docker
    succeeds, its output is the offset, the header, the instruction stream and the trailer, and
    encode_docker makes of it the original file, byte for byte.  The memory the decoder is given is
    arbitrary; that of the encoder must be zero in the three fields its initialisation forgets. *)
Theorem file_roundtrip zs0 imem ibuf extra0 undef dmem indet out0 locals0 dbuf h d trailer bs b :
  memory_ok dmem -> gzip_ok h -> g_extra h = None -> length trailer = 8%nat ->
  Forall block_ok (bs ++ [b]) -> Forall (fun c => rle_block c = c) (bs ++ [b]) -> bytes_ok d -> bytes_bits d = stream_enc 0 bs b ->
  0 < Z.of_nat (length d) < CHUNK -> Z.of_nat (length (stream_ins bs b)) < CHUNK -> Z.of_nat (length (render h)) < 2 ^ 30 ->
  exists fri, decode_main zs0 (Some imem) ibuf extra0 undef (render h ++ d ++ trailer) = Some (fri, true)
    /\ fri = int_bytes (Z.of_nat (length (render h))) ++ render h ++ stream_ins bs b ++ trailer
    /\ encode_main (Some dmem) true indet out0 locals0 dbuf fri = Done (render h ++ d ++ trailer, true).
Proof.
  intros. eexists. split; [by apply decode_file|]. split; [done|]. by apply encode_file.
Qed.
(** a file with a name and a block of each type *)
Definition demo_header : gzip_header :=
  mk_gzip [0x1f; 0x8b; 8; 8; 0; 0; 0; 0; 0; 3] None (Some [97; 46; 98]) None None.
Lemma demo_header_ok : gzip_ok demo_header.
Proof.
  split; try reflexivity; try (intros l [= <-]); try discriminate. repeat constructor; discriminate.
Qed.
Definition demo_trailer : list Z := [1; 2; 3; 4; 5; 6; 7; 8].
Lemma zero_memory_ok : memory_ok zero_state.
Proof. split; try reflexivity. intros i. change (is_byte 0). unfold is_byte. lia. Qed.
Lemma file_roundtrip_witness :
  exists fri, decode_main demo_input (Some zero_inflate) [] 0 (0, 0) (render demo_header ++ demo_bytes ++ demo_trailer) = Some (fri, true)
    /\ fri = [14; 0; 0; 0] ++ render demo_header ++ stream_ins demo_blocks (Fixed demo_symbols) ++ demo_trailer
    /\ encode_main (Some zero_state) true id 0 (Deflate.mk_il 0 0 0) [] fri
       = Done (render demo_header ++ demo_bytes ++ demo_trailer, true).
Proof.
  apply (file_roundtrip demo_input zero_inflate [] 0 (0, 0) zero_state id 0 (Deflate.mk_il 0 0 0) [] demo_header demo_bytes demo_trailer
           demo_blocks (Fixed demo_symbols)).
  - apply zero_memory_ok.
  - apply demo_header_ok.
  - reflexivity.
  - reflexivity.
  - exact demo_blocks_ok.
  - exact demo_blocks_rle.
  - repeat constructor; unfold is_byte; lia.
  - vm_compute. reflexivity.
  - split; reflexivity.
  - reflexivity.
  - reflexivity.
Defined.

(** C14. parseGzipFile on a gzip header of RFC 1952 (any of the optional fields): the offset and the length it
    returns are those of the deflate data, except that with an extra field the offset is two bytes short,
    the length of that field not being counted. *)
Theorem parse_gzip extra0 h data trailer :
  gzip_ok h -> length trailer = 8%nat ->
  parseGzipFile extra0 (render h ++ data ++ trailer)
  = Parsed (Z.of_nat (length (render h)) - extra_slip h) (Z.of_nat (length data) + extra_slip h).
Proof. apply parse_gzip_run. Qed.
(** with an extra field, a name and a header checksum: the data are at 24, not at 22 *)
Definition demo_header_extra : gzip_header :=
  mk_gzip [0x1f; 0x8b; 8; 14; 0; 0; 0; 0; 0; 3] (Some [9; 9; 9]) (Some [97; 46; 98; 99; 100; 101]) None (Some [5; 6]).
Lemma parse_gzip_witness :
  length (render demo_header_extra) = 24%nat
  /\ parseGzipFile 0 (render demo_header_extra ++ demo_bytes ++ demo_trailer) = Parsed 22 32.
Proof.
  split; [reflexivity|]. apply (parse_gzip 0 demo_header_extra demo_bytes demo_trailer); [|reflexivity].
  split; try reflexivity; try (intros l [= <-]); try discriminate; try reflexivity. repeat constructor; discriminate.
Defined.

(** C33. copyBytes copies what is there: as long as the input has the bytes asked for, exactly these are
    written, in order, over any number of buffer fills and whatever the buffer held before; asked for
    more than the input has, it still writes that many bytes of whatever the buffer holds. *)
Theorem copy_bytes buffer input n :
  (n <= Z.of_nat (length input) -> copy buffer input n = take (Z.to_nat n) input)
  /\ (0 < n <= CHUNK ->
      copy buffer input n = take (Z.to_nat n) (take (Z.to_nat n) input ++ drop (length (take (Z.to_nat n) input)) buffer)).
Proof.
  split; [apply copy_exact|]. intros Hn. unfold copy. destruct (Z.to_nat n) as [|k] eqn:En; [lia|].
  cbn [copyBytes]. destruct (Z.gtb_spec n 0); [|lia].
  replace (if n <? CHUNK then n else CHUNK) with n by (destruct (Z.ltb_spec n CHUNK); lia). rewrite En, Z.sub_diag.
  cbn [copyBytes]. destruct (Z.gtb_spec 0 0); [lia|]. cbn [snd]. by rewrite app_nil_r.
Qed.
Lemma copy_bytes_witness :
  copy [8; 8; 8; 8] [1; 2; 3] 2 = [1; 2] /\ copy [7; 7; 7; 7; 7] [1; 2; 3] 5 = [1; 2; 3; 7; 7].
Proof.
  split.
  - apply (proj1 (copy_bytes [8; 8; 8; 8] [1; 2; 3] 2)). cbn. lia.
  - apply (proj2 (copy_bytes [7; 7; 7; 7; 7] [1; 2; 3] 5)). unfold CHUNK. lia.
Defined.
