(* ===== verification/Wp.v ===== *)
(** * Weakest preconditions of programs in the monad

    [wp m Q E s]: from the state [s] the program [m] either returns a value and a state
    of [Q] or leaves by an exit and a state of [E].  A loop that used up its fuel is the
    exit [Diverge], so that [E] also says that the loops end. *)
From S2P Require Import Prelude Bitstream.

Definition wp {S A} (m : M S A) (Q : A -> S -> Prop) (E : exit -> S -> Prop) (s : S) : Prop :=
  match m s with (s', inl e) => E e s' | (s', inr x) => Q x s' end.

Section Rules.
Context {S : Type}.
Implicit Types (s : S) (E : exit -> S -> Prop).

Lemma wp_bind {A B} (m : M S A) (k : A -> M S B) Q E s :
  wp m (fun x s' => wp (k x) Q E s') E s -> wp (m ≫= k) Q E s.
Proof. unfold wp, mbind, M_bind. by destruct (m s) as [s' [e|x]]. Qed.
Lemma wp_assoc {A B C} (m : M S A) (k : A -> M S B) (h : B -> M S C) Q E s :
  wp (m ≫= (fun x => k x ≫= h)) Q E s -> wp ((m ≫= k) ≫= h) Q E s.
Proof. unfold wp. by rewrite bind_bind. Qed.
(** a last statement *)
Lemma wp_last {A} (m : M S A) Q E s : wp (m ≫= mret) Q E s -> wp m Q E s.
Proof. unfold wp, mbind, M_bind. by destruct (m s) as [s' [e|x]]. Qed.
Lemma wp_ret {A} (x : A) (Q : A -> S -> Prop) E s : Q x s -> wp (mret x) Q E s.
Proof. done. Qed.
Lemma wp_exit {A} e (Q : A -> S -> Prop) E s : E e s -> wp (exit_with e) Q E s.
Proof. done. Qed.
Lemma wp_gets {A B} (f : S -> A) (k : A -> M S B) Q E s : wp (k (f s)) Q E s -> wp (gets f ≫= k) Q E s.
Proof. done. Qed.
Lemma wp_id {B} (k : S -> M S B) Q E s : wp (k s) Q E s -> wp (gets id ≫= k) Q E s.
Proof. done. Qed.
Lemma wp_modify {B} (f : S -> S) (k : unit -> M S B) Q E s : wp (k tt) Q E (f s) -> wp (modify f ≫= k) Q E s.
Proof. done. Qed.
Lemma wp_conseq {A} (m : M S A) (Q Q' : A -> S -> Prop) (E E' : exit -> S -> Prop) s :
  wp m Q E s -> (forall x s', Q x s' -> Q' x s') -> (forall e s', E e s' -> E' e s') -> wp m Q' E' s.
Proof. unfold wp. intros H HQ HE. destruct (m s) as [s' [e|x]]; auto. Qed.

(** a loop with an invariant and a measure *)
Lemma wp_repeat {A} (I : S -> Prop) (m : S -> nat) (body : M S (option A)) Q E fuel s :
  (forall s, I s -> wp body (fun r s' => match r with
     | Some x => Q x s' | None => I s' /\ (m s' < m s)%nat end) E s) ->
  I s -> (m s < fuel)%nat -> wp (repeat_m fuel body) Q E s.
Proof.
  intros H. revert s. induction fuel as [|fuel IH]; intros s Hs Hm; [lia|]. cbn [repeat_m]. apply wp_bind.
  apply (wp_conseq _ _ _ _ _ _ (H s Hs)); [|done]. intros [x|] s' Hs'; [by apply wp_ret|]. destruct Hs'. apply IH; [done|lia].
Qed.
Lemma forever_total (I : S -> Prop) (m : S -> nat) (step : M S unit) E fuel s :
  (forall s, I s -> wp step (fun _ s' => I s' /\ (m s' < m s)%nat) E s) ->
  I s -> (m s < fuel)%nat -> E (forever step fuel s).2 (forever step fuel s).1.
Proof.
  intros H. revert s. induction fuel as [|fuel IH]; intros s Hs Hm; [lia|]. cbn [forever].
  specialize (H s Hs). unfold wp in H. destruct (step s) as [s' [e|[]]]; [done|]. destruct H. apply IH; [done|lia].
Qed.
End Rules.

(** ** The bit reader *)

Section Reader.
Context {S : Type} `{BitReader S}.
Implicit Types (s : S) (E : exit -> S -> Prop).

Lemma wp_NEEDBITS {B} n (k : unit -> M S B) Q E s :
  reader_ok s -> 0 <= n <= 57 ->
  (forall s', pulled s s' -> n <= rd_bits s' -> rd_bits s' <= Z.max (rd_bits s) (n + 7) -> wp (k tt) Q E s') ->
  (forall s', pulled s s' -> rd_next s' = [] -> rd_bits s' < n -> E Leave s') ->
  wp (NEEDBITS n ≫= k) Q E s.
Proof.
  intros Hok Hn HQ HE. apply wp_bind. unfold wp at 1.
  destruct (needbits_spec n s Hok Hn) as (s' & Hp & [(E1 & A & B1)|(E1 & A & B1)]); rewrite E1; auto.
Qed.
Lemma wp_drop_bits {B} n (k : unit -> M S B) Q E s :
  reader_ok s -> 0 <= n <= rd_bits s ->
  (forall s', reader_ok s' -> length (stream s') = (length (stream s) - Z.to_nat n)%nat -> rest_of s' = rest_of s ->
     rd_bits s' = rd_bits s - n -> wp (k tt) Q E s') ->
  wp (drop_bits n ≫= k) Q E s.
Proof.
  intros Hok Hn HQ. apply wp_bind. unfold wp at 1. destruct (drop_bits_spec n s Hok Hn) as (s' & E1 & A & B1 & C & D & F).
  rewrite E1. apply HQ; [done| |done|done]. by rewrite B1, length_drop.
Qed.
Lemma wp_BYTEBITS {B} (k : unit -> M S B) Q E s :
  reader_ok s ->
  (forall s', reader_ok s' -> (length (stream s') <= length (stream s))%nat -> rest_of s' = rest_of s ->
     rd_bits s' <= rd_bits s -> wp (k tt) Q E s') ->
  wp (BYTEBITS ≫= k) Q E s.
Proof.
  intros Hok HQ. apply wp_bind. unfold wp at 1. destruct (bytebits_spec s Hok) as (s' & E1 & A & B1 & C & D & F).
  rewrite E1. apply HQ; [done| |done|]. { rewrite B1, length_drop. lia. }
  rewrite F. pose proof (ro_bits s Hok). pose proof (Z.mul_div_le (rd_bits s) 8 ltac:(lia)). lia.
Qed.
Lemma wp_INITBITS {B} (k : unit -> M S B) Q E s :
  reader_ok s ->
  (forall s', reader_ok s' -> Z.of_nat (length (stream s')) = Z.of_nat (length (stream s)) - rd_bits s -> rest_of s' = rest_of s ->
     rd_bits s' = 0 -> wp (k tt) Q E s') ->
  wp (INITBITS ≫= k) Q E s.
Proof.
  intros Hok HQ. apply wp_modify, HQ; [|rewrite !length_stream; rewrite ?rd_bits_set; [|by apply Hok|done]|by rewrite rest_of_set|by rewrite rd_bits_set].
  - split; rewrite ?rd_bits_set, ?rd_hold_set, ?rd_next_set; [lia|done|by apply Hok].
  - unfold have_in. rewrite rd_next_set. lia.
Qed.
(** the table lookups end when no entry they can find needs more than [b] bits *)
Lemma wp_lookup {A B} (f : S -> A) need b fuel (k : A -> M S B) Q E s :
  reader_ok s -> b <= 40 -> b <= rd_bits s + 8 * Z.of_nat fuel ->
  (forall s', pulled s s' -> need (f s') <= b) ->
  (forall s', pulled s s' -> need (f s') <= rd_bits s' -> rd_bits s' <= Z.max (rd_bits s) (b + 7) -> wp (k (f s')) Q E s') ->
  (forall s', pulled s s' -> rd_next s' = [] -> rd_bits s' <= Z.max (rd_bits s) (b + 7) -> E Leave s') ->
  wp (lookup_loop (Datatypes.S fuel) f need ≫= k) Q E s.
Proof.
  intros Hok Hb Hf Hneed HQ HE. apply wp_bind.
  assert (G : forall fuel s1, pulled s s1 -> rd_bits s1 <= Z.max (rd_bits s) (b + 7) -> b <= rd_bits s1 + 8 * Z.of_nat fuel ->
    wp (lookup_loop (Datatypes.S fuel) f need) (fun x s' => wp (k x) Q E s') E s1); [|apply G; [by apply pulled_refl|lia|done]].
  clear fuel Hf. induction fuel as [|fuel IH]; intros s1 Hp Hb1 Hf; pose proof (Hneed s1 Hp) as Hn;
    cbn [lookup_loop]; apply wp_gets, wp_gets; destruct (Z.leb_spec (need (f s1)) (rd_bits s1)) as [L|L]; try (by apply wp_ret, HQ).
  { lia. }
  apply wp_bind. unfold wp at 1. destruct (rd_next s1) as [|x next] eqn:En.
  { unfold PULLBYTE. rewrite En. by apply HE. }
  destruct (pullbyte_spec s1 x next (pu_ok _ _ Hp) ltac:(lia) En) as (s2 & E2 & O2 & S2 & R2 & N2 & B2). rewrite E2.
  apply (IH s2); [|lia|lia]. eapply pulled_trans; [done|]. by split.
Qed.
End Reader.
