(* ===== verification/Invariant.v ===== *)
(** * The invariant of [j_inflate]

    What holds of the decoder's state between two turns of its loop and between two
    calls, whatever the input was: [data_ok] says it mode by mode.  [post] and [stop]
    are what a turn establishes: it keeps the invariant, never uses more input or room
    than there is, and makes progress, either in the input and output or in [rank]. *)
From S2P Require Import Prelude DeflateTables Inftrees Zlib Trees Format Encode Bitstream Wp.
From S2P Require Import InflateState Inffast Inflate Codebook Sorting Huffman Decoding Capture.

(** ** Well-formed tables *)

(** a two-level table with entries of the symbols below [n] *)
Record table_wf (type : codetype) (n : nat) (at_ : Z -> code) (root : Z) : Prop := {
  tw_ok : table_ok at_ root;
  tw_made : forall i, 0 <= i < 2 ^ root -> is_link (at_ i) \/ made type n (at_ i);
  tw_made2 : forall i, 0 <= i < 2 ^ root -> is_link (at_ i) -> forall j, 0 <= j < 2 ^ op (at_ i) ->
    made type n (at_ (val (at_ i) + j)) }.

Lemma made_mono type n n' h : (n <= n')%nat -> made type n h -> made type n' h.
Proof. intros Hn [Hb [(s & Hs & E)|Hi]]; (split; [done|]); [left; exists s; split; [lia|done]|by right]. Qed.
Lemma codes_wf type lens n n' at_ root :
  (n <= n')%nat -> table_codes type lens n at_ root -> table_wf type n' at_ root.
Proof.
  intros Hn [T _ _ _ M M2]. split; [done| |].
  - intros i Hi. destruct (M i Hi); [by left|right; by eapply made_mono].
  - intros i Hi L j Hj. by eapply made_mono, M2.
Qed.
(** the operations of the entries *)
Lemma made_lens h : made LENS 288 h ->
  op h = 0 \/ 16 <= op h <= 21 \/ (Z.land (op h) 16 = 0 /\ Z.land (op h) 64 <> 0 /\ 16 <= op h).
Proof.
  intros [_ [(s & Hs & ->)|[-> _]]]; [|by right; right; cbn].
  assert (A : all_below 288 (fun s => let o := op (table_entry LENS s 1) in
    (o =? 0) || ((16 <=? o) && (o <=? 21)) || ((Z.land o 16 =? 0) && negb (Z.land o 64 =? 0) && (16 <=? o))) = true) by (vm_compute; reflexivity).
  pose proof (all_below_spec _ _ A s Hs) as B. cbv beta zeta in B.
  assert (Eo : forall b b', op (table_entry LENS s b) = op (table_entry LENS s b')).
  { intros b b'. unfold table_entry. cbv zeta. by destruct (_ <? _); [|destruct (_ >=? _)]. }
  rewrite (Eo _ 1). clear A Eo. lia.
Qed.
Lemma made_dists h : made DISTS 32 h ->
  16 <= op h <= 29 \/ (Z.land (op h) 16 = 0 /\ Z.land (op h) 64 <> 0 /\ 16 <= op h).
Proof.
  intros [_ [(s & Hs & ->)|[-> _]]]; [|by right; cbn].
  assert (A : all_below 32 (fun s => let o := op (table_entry DISTS s 1) in
    ((16 <=? o) && (o <=? 29)) || ((Z.land o 16 =? 0) && negb (Z.land o 64 =? 0) && (16 <=? o))) = true) by (vm_compute; reflexivity).
  pose proof (all_below_spec _ _ A s Hs) as B. cbv beta zeta in B.
  assert (Eo : forall b b', op (table_entry DISTS s b) = op (table_entry DISTS s b')).
  { intros b b'. unfold table_entry. cbv zeta. by destruct (_ <? _); [|destruct (_ >=? _)]. }
  rewrite (Eo _ 1). clear A Eo. lia.
Qed.
Lemma made_op h type n : made type n h -> 0 <= op h <= 255.
Proof.
  intros [_ [(s & _ & E)|[-> _]]]; [|lia]. rewrite E. unfold table_entry. cbv zeta. destruct (_ <? _); [cbn; lia|].
  destruct (_ >=? _); cbn [op]; [|lia]. pose proof (u8_range (table_extra type (s - table_match type))). lia.
Qed.
Lemma made_codes h : made CODES 19 h -> 0 <= val h <= 18.
Proof.
  intros [_ [(s & Hs & ->)|[_ ->]]]; [|lia]. unfold table_entry. cbn [table_match]. cbv zeta.
  destruct (Z.ltb_spec (s + 1) 20); [cbn; lia|lia].
Qed.

(** the fixed tables *)
Definition made_b (type : codetype) (n : nat) (h : code) : bool :=
  (1 <=? cbits h) && (cbits h <=? 15)
  && (existsb (fun s => bool_decide (h = table_entry type (Z.of_nat s) (cbits h))) (seq 0 n) || (op h =? 64) && (val h =? 0)).
Lemma made_b_ok type n h : made_b type n h = true -> made type n h.
Proof.
  unfold made_b. rewrite !andb_true_iff, orb_true_iff, andb_true_iff. intros [[A B] C]. split; [lia|].
  destruct C as [C|C]; [left|right; lia]. apply existsb_exists in C as (s & Hs & E). apply in_seq in Hs.
  apply bool_decide_eq_true in E. exists (Z.of_nat s). split; [lia|done].
Qed.
Lemma flat_wf type n l root :
  0 <= root <= 15 -> flat_ok l root = true -> all_below (Z.to_nat (2 ^ root)) (fun i => made_b type n (tget code_zero l i)) = true ->
  table_wf type n (tget code_zero l) root.
Proof.
  intros Hr F A. split; [by apply flat_table_ok| |].
  - intros i Hi. right. apply made_b_ok. exact (all_below_spec _ _ A i ltac:(lia)).
  - intros i Hi L. pose proof (all_below_spec _ _ F i ltac:(lia)) as B. cbv beta zeta in B. unfold is_link in L. lia.
Qed.
Lemma lenfix_wf : table_wf LENS 288 (tget code_zero lenfix) 9.
Proof. apply flat_wf; [lia|vm_compute; reflexivity..]. Qed.
Lemma distfix_wf : table_wf DISTS 32 (tget code_zero distfix) 5.
Proof. apply flat_wf; [lia|vm_compute; reflexivity..]. Qed.

(** ** The state between two turns *)

(** the bits captured in [header_buf], the output bytes of which start at index 0 *)
Definition cap (st : inflate_state) : Z := 8 * header_have st + my_bi_valid st.
Record capturing (st : inflate_state) (bound : Z) : Prop := {
  cp_flag : header_flag st = 1;
  cp_index : header_index st = 0;
  cp_have : 0 <= header_have st;
  cp_valid : 0 <= my_bi_valid st <= 16;
  cp_bound : cap st <= bound }.
(** the captured header is complete; [header_buf] has 605 bytes *)
Record closed (st : inflate_state) : Prop := {
  cd_flag : header_flag st = 0;
  cd_have : 0 <= header_have st <= 565 }.
(** the tables of the block *)
Record tables (st : inflate_state) : Prop := {
  tb_len : table_wf LENS 288 (code_at st (lencode st)) (lenbits st);
  tb_dist : table_wf DISTS 32 (code_at st (distcode st)) (distbits st) }.
(** the table of the code length code, which has one level *)
Definition codes_table (st : inflate_state) : Prop :=
  table_wf CODES 19 (code_at st (lencode st)) (lenbits st)
  /\ forall i, 0 <= i < 2 ^ lenbits st -> made CODES 19 (code_at st (lencode st) i).
(** the counts of a dynamic header *)
Record counts (st : inflate_state) : Prop := {
  ct_ncode : 4 <= ncode st <= 19;
  ct_nlen : 257 <= nlen st <= 286;
  ct_ndist : 1 <= ndist st <= 30 }.
(** an instruction is waiting *)
Definition ins_ok (g : inf_globals) : Prop := 0 <= ins_buffer_index g < ins_buffer_have g /\ ins_buffer_have g <= 4.
(** what the rest of the block needs *)
Definition body_ok (st : inflate_state) : Prop :=
  if itree_type st =? 0 then 0 <= length_ st <= 65535 else tables st.

(** the invariant in the mode [m] *)
Definition data_at (m : IM.inflate_mode) (st : inflate_state) (g : inf_globals) : Prop :=
  match m with
  | IM.HEAD | IM.FLAGS | IM.TIME | IM.OS | IM.EXLEN | IM.EXTRA | IM.NAME | IM.COMMENT | IM.HCRC
  | IM.TYPE | IM.TYPEDO | IM.LENGTH | IM.DONE | IM.BAD => True
  | IM.DICTID | IM.DICT | IM.MEM | IM.SYNC => False
  | IM.STORED => capturing st 8 /\ itree_type st = 0
  | IM.TABLE => capturing st 3 /\ itree_type st <> 0
  | IM.LENLENS => capturing st (17 + 3 * have st) /\ itree_type st <> 0 /\ counts st /\ 0 <= have st <= ncode st
      /\ forall i, 0 <= i < have st -> 0 <= aget 0 (lens st) (tget 0 order i) <= 7
  | IM.CODELENS => capturing st (74 + 14 * have st) /\ itree_type st <> 0 /\ counts st /\ 0 <= have st <= nlen st + ndist st
      /\ (forall i, 0 <= i < have st -> 0 <= aget 0 (lens st) i <= 15)
      /\ codes_table st /\ lenbits st <= 7
  | IM.SEND_HEADER =>
      (capturing st 4498 \/ closed st /\ 0 <= header_index st <= header_have st) /\ body_ok st
  | IM.COPY_ | IM.COPY => closed st /\ 0 <= length_ st <= 65535
  | IM.LEN_ | IM.LEN | IM.DIST => closed st /\ tables st
  | IM.LENEXT | IM.DISTEXT => closed st /\ tables st /\ 0 <= extra st <= 15
  | IM.LIT | IM.MATCH => closed st /\ tables st /\ ins_ok g
  | IM.SENDINS => ins_ok g /\ (2 <= ins_type g <= 4 \/ closed st /\ tables st)
  | IM.SETENDOFBLOCK => closed st
  | IM.CHECK => capturing st 0
  end.
Definition data_ok (st : inflate_state) (g : inf_globals) : Prop := data_at (mode st) st g.

(** output that is due without more input, in bits *)
Definition pend_at (m : IM.inflate_mode) (st : inflate_state) (g : inf_globals) : Z :=
  match m with
  | IM.STORED => 48
  | IM.TABLE | IM.LENLENS | IM.CODELENS => cap st + 40
  | IM.SEND_HEADER => if header_flag st =? 1 then cap st + 40 else 8 * (header_have st - header_index st) + 16
  | IM.COPY_ | IM.COPY | IM.LENEXT | IM.DIST | IM.SETENDOFBLOCK => 16
  | IM.DISTEXT => 32
  | IM.MATCH | IM.LIT | IM.SENDINS => 8 * (ins_buffer_have g - ins_buffer_index g)
  | _ => 0
  end.
(** the order of the modes in turns that neither read nor write *)
Definition rank (m : IM.inflate_mode) : Z :=
  match m with
  | IM.BAD => 0 | IM.DONE => 1 | IM.LENGTH => 2 | IM.SENDINS => 3 | IM.SETENDOFBLOCK => 4 | IM.LIT => 5 | IM.MATCH => 6
  | IM.DISTEXT => 7 | IM.DIST => 8 | IM.LENEXT => 9 | IM.LEN => 10 | IM.LEN_ => 11 | IM.COPY => 12 | IM.COPY_ => 13
  | IM.SEND_HEADER => 14 | IM.CODELENS => 15 | IM.LENLENS => 16 | IM.TABLE => 17 | IM.STORED => 18 | IM.CHECK => 19
  | IM.TYPEDO => 20 | IM.TYPE => 21 | IM.HCRC => 22 | IM.COMMENT => 23 | IM.NAME => 24 | IM.EXTRA => 25 | IM.EXLEN => 26
  | IM.OS => 27 | IM.TIME => 28 | IM.FLAGS => 29 | IM.HEAD => 30 | _ => 31
  end.
Lemma mode_rank_range m : 0 <= rank m <= 31.
Proof. by destruct m. Qed.

(** ** A turn *)

(** The machine's parts: [y] bits to read, room for [l] bytes, the result so far; [tot] is the size of the output buffer. *)
Record has (tot : Z) (s : im) (y l r : Z) (st : inflate_state) (g : inf_globals) : Prop := {
  ha_ok : reader_ok s;
  ha_bits : rd_bits s <= 39;
  ha_y : Z.of_nat (length (stream s)) = y;
  ha_left : l_left s = l;
  ha_range : 0 <= l < 2 ^ 32;
  ha_put : Z.of_nat (length (l_put s)) + l = tot;
  ha_ret : l_ret s = r;
  ha_st : state s = st;
  ha_glob : glob s = g }.

Section Turn.
Context (tot flush x0 t0 : Z).
Abbreviation has := (has tot).

(** at most [x0] bits and bytes are left, and [t0] bounds the output *)
Definition budget (y l p : Z) : Prop := y + l <= x0 /\ 16 * y + p - 8 * l <= t0.
(** what holds at a [case] that a turn from rank [r0] comes to *)
Record entry (r0 : Z) (m : IM.inflate_mode) (s : im) : Prop := {
  en_has : has s (Z.of_nat (length (stream s))) (l_left s) Z_OK (state s) (glob s);
  en_mode : mode (state s) = m;
  en_data : data_at m (state s) (glob s);
  en_budget : budget (Z.of_nat (length (stream s))) (l_left s) (pend_at m (state s) (glob s));
  en_rank : Z.of_nat (length (stream s)) + l_left s < x0 \/ rank m <= r0 }.
(** what a turn that ends with [break] establishes *)
Record post (r0 : Z) (x : unit) (s : im) : Prop := {
  po_has : has s (Z.of_nat (length (stream s))) (l_left s) (l_ret s) (state s) (glob s);
  po_data : data_ok (state s) (glob s);
  po_ret : l_ret s = Z_OK \/ mode (state s) = IM.BAD;
  po_budget : budget (Z.of_nat (length (stream s))) (l_left s) (pend_at (mode (state s)) (state s) (glob s));
  po_rank : Z.of_nat (length (stream s)) + l_left s < x0 \/ rank (mode (state s)) < r0 }.
(** why the loop is left: the end, an error, or no more input or room *)
Definition left_for (s : im) : Prop :=
  l_ret s = Z_STREAM_END /\ mode (state s) = IM.DONE
  \/ l_ret s = Z_DATA_ERROR /\ mode (state s) = IM.BAD
  \/ l_ret s = Z_OK /\ (l_next s = [] \/ l_left s = 0 \/ flush = Z_BLOCK \/ flush = Z_TREES).
Record stop (e : exit) (s : im) : Prop := {
  sp_exit : e = Leave;
  sp_has : has s (Z.of_nat (length (stream s))) (l_left s) (l_ret s) (state s) (glob s);
  sp_data : data_ok (state s) (glob s);
  sp_budget : budget (Z.of_nat (length (stream s))) (l_left s) (pend_at (mode (state s)) (state s) (glob s));
  sp_for : left_for s }.
Definition handles (m : IM.inflate_mode) (h : M im unit) : Prop :=
  forall r0 s, entry r0 m s -> wp h (post r0) stop s.

Lemma has_self s y l r st g : has s y l r st g -> has s (Z.of_nat (length (stream s))) (l_left s) (l_ret s) (state s) (glob s).
Proof. intros [A B C D E F G H I]. by split; try congruence; rewrite D. Qed.
Lemma enter r0 m s y l st g :
  has s y l Z_OK st g -> mode st = m -> data_at m st g -> budget y l (pend_at m st g) -> y + l < x0 \/ rank m <= r0 -> entry r0 m s.
Proof.
  intros Hh Em Hd Hb Hr. pose proof (has_self _ _ _ _ _ _ Hh) as Hs. destruct Hh as [A B C D E F G H I]. subst y l st g.
  rewrite G in Hs. by split.
Qed.
Lemma break r0 x s y l r st g :
  has s y l r st g -> data_ok st g -> r = Z_OK \/ mode st = IM.BAD -> budget y l (pend_at (mode st) st g) ->
  y + l < x0 \/ rank (mode st) < r0 -> post r0 x s.
Proof.
  intros Hh Hd Hr Hb Hk. pose proof (has_self _ _ _ _ _ _ Hh) as Hs. destruct Hh as [A B C D E F G H I]. subst y l r st g. by split.
Qed.
Lemma leaves s y l r st g :
  has s y l r st g -> data_ok st g -> budget y l (pend_at (mode st) st g) -> left_for s -> stop Leave s.
Proof.
  intros Hh Hd Hb Hk. pose proof (has_self _ _ _ _ _ _ Hh) as Hs. destruct Hh as [A B C D E F G H I]. subst y l r st g. by split.
Qed.
(** the way most turns are left: no more input *)
Lemma starved s y l st g :
  has s y l Z_OK st g -> data_ok st g -> budget y l (pend_at (mode st) st g) -> rd_next s = [] -> stop Leave s.
Proof. intros Hh Hd Hb Hn. apply (leaves s y l Z_OK st g); [done..|]. right. right. split; [apply Hh|by left]. Qed.
End Turn.

(** ** Steps of a handler *)

Lemma reader_locals (s s' : im) : l_next s' = l_next s -> l_hold s' = l_hold s -> l_bits s' = l_bits s -> reader_ok s -> reader_ok s'.
Proof. intros E1 E2 E3 [A B C]. split; cbn in *; by rewrite ?E1, ?E2, ?E3. Qed.

Section Steps.
Context (tot : Z).
Abbreviation has := (has tot).
Context {B : Type} (k : unit -> M im B) (Q : B -> im -> Prop) (E : exit -> im -> Prop).
Context (s : im) (y l r : Z) (st : inflate_state) (g : inf_globals) (Hh : has s y l r st g).

Lemma has_rest s' y' :
  reader_ok s' -> rest_of s' = rest_of s -> rd_bits s' <= 39 -> Z.of_nat (length (stream s')) = y' -> has s' y' l r st g.
Proof using Hh.
  intros Hok Hr Hb Hy. destruct Hh as [H1 H2 H3 H4 H5 H6 H7 H8 H9].
  pose proof (f_equal l_left Hr) as Rl. pose proof (f_equal l_put Hr) as Rp. pose proof (f_equal l_ret Hr) as Rr.
  pose proof (f_equal state Hr) as Rs. pose proof (f_equal glob Hr) as Rg.
  change (l_left s' = l_left s) in Rl. change (l_put s' = l_put s) in Rp. change (l_ret s' = l_ret s) in Rr.
  change (state s' = state s) in Rs. change (glob s' = glob s) in Rg.
  by split; [done|done|done|congruence|done|rewrite Rp|congruence..].
Qed.
Lemma has_pulled s' : pulled s s' -> rd_bits s' <= 39 -> has s' y l r st g.
Proof using Hh. intros [Hok Hs Hr] Hb. apply has_rest; [done..|]. rewrite Hs. apply Hh. Qed.

Lemma w_NEED n :
  0 <= n <= 32 ->
  (forall s', has s' y l r st g -> n <= rd_bits s' -> wp (k tt) Q E s') ->
  (forall s', has s' y l r st g -> rd_next s' = [] -> E Leave s') ->
  wp (NEEDBITS n ≫= k) Q E s.
Proof using Hh.
  intros Hn HQ HE. pose proof (ha_bits _ _ _ _ _ _ _ Hh). apply wp_NEEDBITS; [apply Hh|lia| |].
  - intros s' P H1 H2. apply HQ; [apply has_pulled; [done|lia]|done].
  - intros s' P H1 H2. apply HE; [apply has_pulled; [done|lia]|done].
Qed.
Lemma w_drop n :
  0 <= n <= rd_bits s ->
  (forall s', has s' (y - n) l r st g -> rd_bits s' = rd_bits s - n -> wp (k tt) Q E s') -> wp (drop_bits n ≫= k) Q E s.
Proof using Hh.
  intros Hn HQ. pose proof (ha_bits _ _ _ _ _ _ _ Hh). pose proof (ha_y _ _ _ _ _ _ _ Hh) as Hy.
  apply wp_drop_bits; [apply Hh|done|]. intros s' H1 H2 H3 H4. apply HQ; [|done]. apply has_rest; [done..|lia|].
  assert (Hb : 0 <= rd_bits s) by lia. pose proof (length_stream s Hb) as L. unfold have_in in L. rewrite H2. lia.
Qed.
Lemma w_BYTEBITS :
  (forall s' y', has s' y' l r st g -> y' <= y -> wp (k tt) Q E s') -> wp (BYTEBITS ≫= k) Q E s.
Proof using Hh.
  intros HQ. pose proof (ha_bits _ _ _ _ _ _ _ Hh). pose proof (ha_y _ _ _ _ _ _ _ Hh) as Hy.
  apply wp_BYTEBITS; [apply Hh|]. intros s' H1 H2 H3 H4. apply (HQ s' (Z.of_nat (length (stream s')))); [|lia]. apply has_rest; [done..|lia|done].
Qed.
Lemma w_INITBITS n :
  n <= rd_bits s ->
  (forall s' y', has s' y' l r st g -> 0 <= y' <= y - n -> wp (k tt) Q E s') -> wp (INITBITS ≫= k) Q E s.
Proof using Hh.
  intros Hn HQ. pose proof (ha_bits _ _ _ _ _ _ _ Hh). pose proof (ha_y _ _ _ _ _ _ _ Hh) as Hy.
  apply wp_INITBITS; [apply Hh|]. intros s' H1 H2 H3 H4. apply (HQ s' (Z.of_nat (length (stream s')))); [|lia]. apply has_rest; [done..|lia|done].
Qed.
Lemma w_upd f : (forall s', has s' y l r (f st) g -> rd_bits s' = rd_bits s -> l_next s' = l_next s -> wp (k tt) Q E s') -> wp (upd f ≫= k) Q E s.
Proof using Hh.
  intros HQ. apply wp_modify, HQ; [|done|done]. destruct Hh as [H1 H2 H3 H4 H5 H6 H7 H8 H9]. split; try assumption; [by apply (reader_locals s)|exact (f_equal f H8)].
Qed.
Lemma w_upd_glob f : (forall s', has s' y l r st (f g) -> rd_bits s' = rd_bits s -> l_next s' = l_next s -> wp (k tt) Q E s') -> wp (upd_glob f ≫= k) Q E s.
Proof using Hh.
  intros HQ. apply wp_modify, HQ; [|done|done]. destruct Hh as [H1 H2 H3 H4 H5 H6 H7 H8 H9]. split; try assumption; [by apply (reader_locals s)|exact (f_equal f H9)].
Qed.
Lemma w_upd_strm f : (forall s', has s' y l r st g -> rd_bits s' = rd_bits s -> l_next s' = l_next s -> wp (k tt) Q E s') -> wp (upd_strm f ≫= k) Q E s.
Proof using Hh. intros HQ. apply wp_modify, HQ; [|done|done]. destruct Hh as [H1 H2 H3 H4 H5 H6 H7 H8 H9]. split; try done. by apply (reader_locals s). Qed.
Lemma w_set_ret v : (forall s', has s' y l v st g -> rd_bits s' = rd_bits s -> l_next s' = l_next s -> wp (k tt) Q E s') -> wp (set_ret v ≫= k) Q E s.
Proof using Hh. intros HQ. apply wp_modify, HQ; [|done|done]. destruct Hh as [H1 H2 H3 H4 H5 H6 H7 H8 H9]. split; try done. by apply (reader_locals s). Qed.
(** bytes are written *)
Lemma w_put w :
  Z.of_nat (length w) <= l ->
  (forall s', has s' y (l - Z.of_nat (length w)) r st g -> l_next s' = l_next s -> wp (k tt) Q E s') -> wp (put_bytes w ≫= k) Q E s.
Proof using Hh.
  intros Hw HQ. apply wp_modify, HQ; [|done]. destruct Hh as [H1 H2 H3 H4 H5 H6 H7 H8 H9]. split; try assumption.
  - by apply (reader_locals s).
  - change (u32 (l_left s - Z.of_nat (length w)) = l - Z.of_nat (length w)). rewrite H4. apply u32_small. lia.
  - lia.
  - change (Z.of_nat (length (l_put s ++ w)) + (l - Z.of_nat (length w)) = tot). rewrite length_app. lia.
Qed.
(** bytes leave the input *)
Lemma w_skip n :
  n <= have_in s ->
  (forall s', has s' (y - 8 * Z.max 0 n) l r st g -> l_next s' = drop (Z.to_nat n) (l_next s) -> wp (k tt) Q E s') -> wp (skip_in n ≫= k) Q E s.
Proof using Hh.
  intros Hn HQ. apply wp_modify, HQ; [|done]. destruct Hh as [[O1 O2 O3] H2 H3 H4 H5 H6 H7 H8 H9]. split; try assumption.
  - split; [exact O1|exact O2|]. change (bytes_ok (drop (Z.to_nat n) (l_next s))). by apply Forall_drop.
  - rewrite length_stream in H3 |- * by apply O1. unfold have_in in *.
    change (rd_bits s + 8 * Z.of_nat (length (drop (Z.to_nat n) (l_next s))) = y - 8 * Z.max 0 n). change (rd_next s) with (l_next s) in *.
    rewrite length_drop. lia.
Qed.
Lemma has_next : rd_next s = l_next s.
Proof. done. Qed.
Lemma has_in_y : 8 * have_in s <= y.
Proof using Hh. destruct Hh as [[O1 O2 O3] H2 <- H4 H5 H6 H7 H8 H9]. rewrite length_stream by apply O1. lia. Qed.
Lemma has_bits_y : rd_bits s <= y /\ 0 <= rd_bits s.
Proof using Hh. destruct Hh as [[O1 O2 O3] H2 <- H4 H5 H6 H7 H8 H9]. rewrite length_stream by apply O1. unfold have_in. lia. Qed.
End Steps.

(** a change of other locals *)
Lemma has_other tot s s' y l r st g :
  has tot s y l r st g -> (l_next s', l_hold s', l_bits s') = (l_next s, l_hold s, l_bits s) ->
  (l_left s', l_put s', l_ret s') = (l_left s, l_put s, l_ret s) -> has tot s' y l r (state s') (glob s').
Proof.
  intros [H1 H2 H3 H4 H5 H6 H7 H8 H9] E1 E2. injection E1 as N1 N2 N3. injection E2 as P1 P2 P3.
  split; try done; try congruence; [by apply (reader_locals s)|cbn in *; by rewrite N3|].
  rewrite <- H3. unfold stream. cbn. by rewrite N1, N2, N3.
Qed.
(** reading the state *)
Lemma w_state {B} tot (k : inflate_state -> M im B) Q E s y l r st g :
  has tot s y l r st g -> wp (k st) Q E s -> wp (gets state ≫= k) Q E s.
Proof. intros Hh H. apply wp_gets. by rewrite (ha_st _ _ _ _ _ _ _ Hh). Qed.
Lemma w_get {A B} tot (f : inflate_state -> A) (k : A -> M im B) Q E s y l r st g :
  has tot s y l r st g -> wp (k (f st)) Q E s -> wp (gets (fun s => f (state s)) ≫= k) Q E s.
Proof. intros Hh H. apply wp_gets. by rewrite (ha_st _ _ _ _ _ _ _ Hh). Qed.
Lemma w_glob {B} tot (k : inf_globals -> M im B) Q E s y l r st g :
  has tot s y l r st g -> wp (k g) Q E s -> wp (gets glob ≫= k) Q E s.
Proof. intros Hh H. apply wp_gets. by rewrite (ha_glob _ _ _ _ _ _ _ Hh). Qed.
Lemma w_left {B} tot (k : Z -> M im B) Q E s y l r st g :
  has tot s y l r st g -> wp (k l) Q E s -> wp (gets l_left ≫= k) Q E s.
Proof. intros Hh H. apply wp_gets. by rewrite (ha_left _ _ _ _ _ _ _ Hh). Qed.
(** a number read from the input *)
Lemma w_BITS {B} n (k : Z -> M im B) Q E s :
  0 <= n -> (forall v, 0 <= v < 2 ^ n -> wp (k v) Q E s) -> wp (gets (BITS n) ≫= k) Q E s.
Proof. intros Hn H. apply wp_gets, H. by apply BITS_range. Qed.

(** ** Dropping header bits *)

Lemma send_cap st v n : 0 <= n <= 16 -> 0 <= my_bi_valid st <= 16 -> 0 <= header_have st ->
  cap (my_send_bits st v n) = cap st + n /\ 0 <= my_bi_valid (my_send_bits st v n) <= 16 /\ 0 <= header_have (my_send_bits st v n).
Proof.
  intros Hn Hv Hh. unfold my_send_bits, cap. change my_Buf_size with 16. destruct (Z.gtb_spec (my_bi_valid st) (16 - n)) as [G|G]; cbv zeta.
  - set (st1 := st <| my_bi_buf := _ |>). set (st2 := my_put_short st1 _).
    assert (E1 : my_bi_valid st2 = my_bi_valid st) by reflexivity. assert (E2 : header_have st2 = header_have st + 1 + 1) by reflexivity.
    clearbody st2. cbn [my_bi_valid header_have set_field]. rewrite E1, E2. lia.
  - cbn [my_bi_valid header_have set_field]. lia.
Qed.
Lemma send_uncaptured st v n : uncaptured (my_send_bits st v n) = uncaptured st.
Proof. unfold my_send_bits. by destruct (_ >? _). Qed.

(** DROPBITS in the state: the bits are captured, or nothing changes *)
Record dropped (n : Z) (st : inflate_state) (g : inf_globals) (st' : inflate_state) (g' : inf_globals) : Prop := {
  dp_rest : uncaptured st' = uncaptured st;
  dp_ins : (ins_buffer_index g', ins_buffer_have g', ins_type g') = (ins_buffer_index g, ins_buffer_have g, ins_type g);
  dp_off : header_flag st = 0 -> st' = st /\ g' = g;
  dp_cap : forall c, capturing st c -> capturing st' (c + n) /\ cap st' = cap st + n }.
Lemma w_DROP {B} tot (k : unit -> M im B) Q E s y l r st g n :
  has tot s y l r st g -> 0 <= n <= rd_bits s -> n <= 16 ->
  (forall s' st' g', has tot s' (y - n) l r st' g' -> rd_bits s' = rd_bits s - n -> dropped n st g st' g' -> wp (k tt) Q E s') ->
  wp (DROPBITS n ≫= k) Q E s.
Proof.
  intros Hh Hn H16 HQ. unfold DROPBITS. unfold wp. rewrite bind_bind. apply wp_modify. rewrite (ha_st _ _ _ _ _ _ _ Hh), (ha_glob _ _ _ _ _ _ _ Hh).
  destruct (Z.eqb_spec (header_flag st) 0) as [F|F]; cbn [negb].
  - apply (w_drop tot k Q E s y l r st g Hh n Hn). intros s' H1 H2. apply (HQ s' st g); [done|done|].
    split; [done|done|done|]. intros c [C _ _ _ _]. congruence.
  - set (st1 := my_send_bits st (BITS n s) n). set (s1 := s <| state := _ |> <| glob := _ |>).
    assert (H1 : has tot s1 y l r st1 (g <| HEADER_BITS_CNT := u64 (HEADER_BITS_CNT g + n) |>)).
    { destruct Hh as [H1 H2 H3 H4 H5 H6 H7 H8 H9]. split; try done. by apply (reader_locals s). }
    change (wp (drop_bits n ≫= k) Q E s1). apply (w_drop tot k Q E s1 y l r _ _ H1 n Hn). intros s' H2 H3.
    apply (HQ s' _ _ H2 H3). split; [apply send_uncaptured|done|done|]. intros c [C1 C2 C3 C4 C5].
    destruct (send_cap st (BITS n s) n ltac:(lia) C4 C3) as (A1 & A2 & A3). fold st1 in A1, A2, A3. split; [|done].
    pose proof (send_uncaptured st (BITS n s) n) as U. fold st1 in U.
    split; [rewrite <- C1; exact (f_equal header_flag U)|rewrite <- C2; exact (f_equal header_index U)|done|done|lia].
Qed.

(** ** Padding the header *)

Lemma windup_cap st c : capturing st c ->
  capturing (my_bi_windup st) (c + 7) /\ my_bi_valid (my_bi_windup st) = 0 /\ cap (my_bi_windup st) <= cap st + 7
  /\ uncaptured (my_bi_windup st) = uncaptured st.
Proof.
  intros [A B C D E]. unfold cap in *.
  assert (U : uncaptured (my_bi_windup st) = uncaptured st) by (unfold my_bi_windup; destruct (_ >? 8); [done|by destruct (_ >? 0)]).
  assert (V : my_bi_valid (my_bi_windup st) = 0) by done.
  assert (W : header_have st <= header_have (my_bi_windup st) /\ 8 * header_have (my_bi_windup st) <= 8 * header_have st + my_bi_valid st + 7).
  { unfold my_bi_windup. destruct (Z.gtb_spec (my_bi_valid st) 8); [|destruct (Z.gtb_spec (my_bi_valid st) 0)]; cbv zeta.
    - change (header_have st <= header_have st + 1 + 1 /\ 8 * (header_have st + 1 + 1) <= 8 * header_have st + my_bi_valid st + 7). lia.
    - change (header_have st <= header_have st + 1 /\ 8 * (header_have st + 1) <= 8 * header_have st + my_bi_valid st + 7). lia.
    - change (header_have st <= header_have st /\ 8 * header_have st <= 8 * header_have st + my_bi_valid st + 7). lia. }
  split; [|split; [done|split; [lia|done]]]. split.
  - rewrite <- A. exact (f_equal header_flag U).
  - rewrite <- B. exact (f_equal header_index U).
  - lia.
  - lia.
  - unfold cap. lia.
Qed.
Lemma windup_stored st : capturing st 8 -> capturing (my_bi_windup st) 8.
Proof. intros H. destruct (windup_cap st 8 H) as ([A B C D E] & V & W & _). destruct H as [_ _ _ _ H]. unfold cap in *. split; [done..|]. unfold cap. lia. Qed.
Lemma close_closed st c : capturing st c -> c <= 4498 ->
  closed (close_header st) /\ header_index (close_header st) = 0 /\ 0 <= header_have (close_header st)
  /\ 8 * header_have (close_header st) <= cap st + 23.
Proof.
  intros H Hc. destruct (windup_cap st c H) as ([A B C D E] & V & W & U). unfold cap in *.
  assert (Eh : header_have (close_header st) = header_have (my_bi_windup st) + 1 + 1) by reflexivity.
  assert (Ei : header_index (close_header st) = header_index (my_bi_windup st)) by reflexivity.
  destruct H as [_ _ _ _ H]. unfold cap in H.
  split; [split; [done|lia]|]. split; [congruence|]. lia.
Qed.
(** what the invariant reads of the capture, the tables and the body *)
Definition cap_view (st : inflate_state) := (header_flag st, header_index st, header_have st, my_bi_valid st).
Lemma capturing_ext st st' c : cap_view st' = cap_view st -> capturing st c -> capturing st' c.
Proof. intros U [A B C D E]. injection U as U1 U2 U3 U4. unfold cap in *. split; unfold cap; by rewrite ?U1, ?U2, ?U3, ?U4. Qed.
Lemma cap_ext st st' : cap_view st' = cap_view st -> cap st' = cap st.
Proof. intros U. injection U as U1 U2 U3 U4. unfold cap. by rewrite U3, U4. Qed.
Lemma closed_ext st st' : cap_view st' = cap_view st -> closed st -> closed st'.
Proof. intros U [A B]. injection U as U1 U2 U3 U4. split; by rewrite ?U1, ?U3. Qed.
Definition table_view (st : inflate_state) := (lencode st, distcode st, lenbits st, distbits st, codes st).
Definition body_view (st : inflate_state) := (itree_type st, length_ st, table_view st).
Lemma code_at_ext st st' p : codes st' = codes st -> code_at st' p = code_at st p.
Proof. intros E. unfold code_at. by rewrite E. Qed.
Lemma tables_ext st st' : table_view st' = table_view st -> tables st -> tables st'.
Proof. intros E [A B]. injection E as E1 E2 E3 E4 E5. split; by rewrite ?E1, ?E2, ?E3, ?E4, (code_at_ext st). Qed.
Lemma codes_table_ext st st' : table_view st' = table_view st -> codes_table st -> codes_table st'.
Proof. intros E. injection E as E1 E2 E3 E4 E5. unfold codes_table. by rewrite E1, E3, (code_at_ext st st' _ E5). Qed.
Lemma body_ext st st' : body_view st' = body_view st -> body_ok st -> body_ok st'.
Proof. intros E. injection E as E1 E2 E3 E4 E5 E6 E7. unfold body_ok. rewrite E1, E2. destruct (_ =? 0); [done|]. apply tables_ext. unfold table_view. congruence. Qed.
Lemma same_mode st st' : uncaptured st' = uncaptured st -> mode st' = mode st.
Proof. intros U. exact (f_equal mode U). Qed.
Lemma same_itree st st' : uncaptured st' = uncaptured st -> itree_type st' = itree_type st.
Proof. intros U. exact (f_equal itree_type U). Qed.
Lemma same_body st st' : uncaptured st' = uncaptured st -> body_view st' = body_view st.
Proof. intros U. exact (f_equal body_view U). Qed.
Lemma counts_uncaptured st st' : uncaptured st' = uncaptured st -> counts st -> counts st'.
Proof.
  intros U [A B C]. pose proof (f_equal ncode U) as E1. pose proof (f_equal nlen U) as E2. pose proof (f_equal ndist U) as E3.
  change (ncode st' = ncode st) in E1. change (nlen st' = nlen st) in E2. change (ndist st' = ndist st) in E3. split; lia.
Qed.
