(* ===== verification/Fastsafe.v ===== *)
(** * The fast decoding loop on any input (partial/libz_j/inffast.c)

    Whatever the input bytes are, [inflate_fast] with well-formed tables returns: a turn
    reads at most 48 bits, all of them from the input, and writes at most four bytes and
    at most two for each bit it reads. *)
From Stdlib Require Import String.
From S2P Require Import Prelude DeflateTables Inftrees Zlib Trees Format Encode Bitstream.
From S2P Require Import InflateState Inffast Inflate Codebook Fastpath Huffman Invariant.
#[local] Open Scope Z_scope.
#[local] Open Scope list_scope.

Section Safe.
Context (input : list Z) (lcode dcode : Z -> code) (lroot droot : Z).
Context (Hl : table_wf LENS 288 lcode lroot) (Hd : table_wf DISTS 32 dcode droot).
Abbreviation len := (Z.of_nat (length input)).
Abbreviation fast_ok := (fast_ok input).
Abbreviation dodist := (dodist input dcode).
Abbreviation dolen := (dolen input lcode dcode (2 ^ droot - 1)).

Lemma fast_len s : fast_ok s -> 0 <= f_bits s <= 64 /\ 0 <= f_in s <= len.
Proof. intros [[A _ _] B]. by split. Qed.
Lemma fast_drop_safe n s (s' := fast_drop n s) : fast_ok s -> 0 <= n <= f_bits s ->
  fast_ok s' /\ fouts s' = fouts s /\ pos s' = pos s + n /\ f_bits s' = f_bits s - n.
Proof.
  intros Hok Hn. destruct (fast_len s Hok) as [Hb _].
  destruct (fast_drop_spec input n s (take (Z.to_nat n) (fstream input s)) (drop (Z.to_nat n) (fstream input s)) Hok)
    as (A & _ & B & C & D); [by rewrite take_drop| |lia|done].
  assert (Hb0 : 0 <= rd_bits (rdr input s)) by apply Hb.
  pose proof (length_stream (rdr input s) Hb0) as L. change (rd_bits (rdr input s)) with (f_bits s) in L.
  rewrite length_take. unfold fstream, have_in in *. lia.
Qed.

(** a table's entry, and one that is not a link *)
Lemma land_idx v n : 0 <= n -> 0 <= Z.land v (2 ^ n - 1) < 2 ^ n.
Proof. intros Hn. rewrite land_ones_mod by done. by apply mod_range. Qed.
Lemma link_fields h : is_link h -> negb (Z.land (op h) 16 =? 0) = false /\ (Z.land (op h) 64 =? 0) = true /\ (op h =? 0) = false.
Proof. intros H. destruct (link_op h H) as (-> & -> & N). split; [done|]. split; [done|]. by apply Z.eqb_neq. Qed.
Lemma op16 e : 16 <= e <= 31 -> negb (Z.land e 16 =? 0) = true /\ Z.land e 15 = e - 16.
Proof.
  intros He. assert (A : all_below 16 (fun k => negb (Z.land (16 + k) 16 =? 0) && (Z.land (16 + k) 15 =? k)) = true) by (vm_compute; reflexivity).
  pose proof (all_below_spec _ _ A (e - 16) ltac:(lia)) as B. cbv beta in B. apply andb_true_iff in B as [B C].
  replace (16 + (e - 16)) with e in * by lia. split; [done|lia].
Qed.

(** what a distance does: a match, or the end of the loop *)
Record dist_done (s : fast) (c : Z) (b : bool) (s' : fast) : Prop := {
  dd_ok : fast_ok s';
  dd_pos : pos s + 1 <= pos s' <= pos s + c;
  dd_out : if b then f_put s' = f_put s /\ f_mode s' = Some IM.BAD
           else exists w, f_put s' = f_put s ++ w /\ length w = 4%nat /\ f_mode s' = f_mode s }.
Lemma dodist_made k h l s :
  made DISTS 32 h -> fast_ok s -> cbits h <= f_bits s -> pos s + cbits h + 13 <= 8 * len ->
  exists b s', dodist (S k) h l s = Some (b, s') /\ dist_done s (cbits h + 13) b s'.
Proof.
  intros Hm Hok Hb Hp. pose proof (proj1 Hm) as Hc. cbn [Inffast.dodist]. cbv zeta.
  destruct (fast_drop_safe (cbits h) s Hok) as (O1 & F1 & P1 & B1); [lia|]. set (s1 := fast_drop (cbits h) s) in *. clearbody s1.
  injection F1 as U1 M1 G1. destruct (made_dists h Hm) as [Ho|(Ho & Hx & _)].
  - destruct (op16 (op h) ltac:(lia)) as [-> ->]. cbv iota. set (n := op h - 16). assert (Hn : 0 <= n <= 13) by lia.
    assert (X : exists s2, (if f_bits s1 <? n then pull_below input n (fast_pull input s1) else s1) = s2
      /\ fmore input s1 s2 /\ n <= f_bits s2).
    { eexists. split; [reflexivity|]. destruct (fast_len s1 O1) as [Hb1 _].
      destruct (Z.ltb_spec (f_bits s1) n) as [L|L]; [|split; [by apply fmore_refl|done]].
      destruct (fast_pull_spec input s1 O1) as [M2 E2]; [unfold pos in *; lia|lia|].
      destruct (pull_below_spec input n (fast_pull input s1) (fm_ok _ _ _ M2)) as (M3 & _ & _ & B3); [lia|rewrite (fm_pos _ _ _ M2); lia|].
      split; [by eapply fmore_trans|]. lia. }
    destruct X as (s2 & Es & [O2 _ F2 P2 _] & B2). rewrite Es. clear Es. injection F2 as U2 M2 G2.
    destruct (fast_drop_safe n s2 O2) as (O3 & _ & P3 & _); [lia|].
    eexists _, _. split; [reflexivity|]. split; [exact (fast_put input _ _ O3)|change (pos s + 1 <= pos (fast_drop n s2) <= pos s + (cbits h + 13)); lia|].
    exists (ins_match (val h + low_bits (f_hold s2) n) l). split; [|split; [done|exact (eq_trans M2 M1)]].
    change (f_put s2 ++ ins_match (val h + low_bits (f_hold s2) n) l = f_put s ++ ins_match (val h + low_bits (f_hold s2) n) l).
    by rewrite U2, U1.
  - rewrite Ho. change (negb (0 =? 0)) with false. cbv iota. destruct (Z.eqb_spec (Z.land (op h) 64) 0) as [E|E]; [done|].
    eexists _, _. split; [reflexivity|]. split; [by destruct O1; split|change (pos s + 1 <= pos s1 <= pos s + (cbits h + 13)); lia|by split].
Qed.
Lemma dodist_link k h l s :
  is_link h -> dodist (S k) h l s = dodist k (dcode (fast_link h (fast_drop (cbits h) s))) l (fast_drop (cbits h) s).
Proof. intros L. destruct (link_fields h L) as (E1 & E2 & _). cbn [Inffast.dodist]. cbv zeta. by rewrite E1, E2. Qed.
Lemma dodist_first l s :
  fast_ok s -> 15 <= f_bits s -> pos s + 28 <= 8 * len ->
  exists b s', dodist 16 (dcode (Z.land (f_hold s) (2 ^ droot - 1))) l s = Some (b, s') /\ dist_done s 28 b s'.
Proof.
  intros Hok Hb Hp. pose proof (tw_ok _ _ _ _ Hd) as T. pose proof (tb_root _ _ T) as Hr.
  pose proof (land_idx (f_hold s) droot ltac:(lia)) as Hi. set (i := Z.land _ _) in *. pose proof (tb_bits _ _ T i Hi) as Hc.
  destruct (decide (is_link (dcode i))) as [L|L].
  - destruct (tb_link _ _ T i Hi L) as (Ec & Ho & _ & Hs). rewrite (dodist_link 15 _ l s L).
    destruct (fast_drop_safe (cbits (dcode i)) s Hok) as (O1 & F1 & P1 & B1); [lia|].
    set (s1 := fast_drop (cbits (dcode i)) s) in *. clearbody s1. unfold fast_link. unfold is_link in L.
    pose proof (land_idx (f_hold s1) (op (dcode i)) ltac:(lia)) as Hj. set (j := Z.land (f_hold s1) _) in *.
    pose proof (tw_made2 _ _ _ _ Hd i Hi L j Hj) as Hm. destruct (Hs j Hj) as [Hc2 _]. pose proof (proj1 Hm) as Hc3.
    destruct (dodist_made 14 _ l s1 Hm O1) as (b & s' & E & [A B C]); [lia|lia|].
    exists b, s'. split; [exact E|]. injection F1 as U1 M1 G1. split; [done|lia|]. rewrite <- U1, <- M1. exact C.
  - destruct (tw_made _ _ _ _ Hd i Hi) as [?|Hm]; [done|].
    destruct (dodist_made 15 _ l s Hm Hok) as (b & s' & E & [A B C]); [lia|lia|].
    exists b, s'. split; [exact E|]. split; [done|lia|done].
Qed.

(** what a turn of the loop does; [b] is a [break] *)
Record turn_done (s : fast) (c : Z) (b : bool) (s' : fast) : Prop := {
  td_ok : fast_ok s';
  td_pos : pos s + 1 <= pos s' <= pos s + c;
  td_out : exists w, f_put s' = f_put s ++ w /\ Z.of_nat (length w) <= 4 /\ Z.of_nat (length w) <= 2 * (pos s' - pos s)
    /\ (if b then f_mode s' = Some IM.BAD \/ f_mode s' = Some IM.TYPE /\ w <> []
        else f_mode s' = f_mode s /\ w <> []) }.
Lemma ins_literal_length v : (1 <= length (ins_literal v) <= 2)%nat.
Proof. unfold ins_literal. destruct (v =? 0xaa); cbn; lia. Qed.
Lemma dolen_link k h s :
  is_link h -> dolen (S k) h s = dolen k (lcode (fast_link h (fast_drop (cbits h) s))) (fast_drop (cbits h) s).
Proof.
  intros L. destruct (link_fields h L) as (E1 & E2 & E3). cbn [Inffast.dolen]. cbv zeta. by rewrite E1, E2, E3.
Qed.
Lemma dolen_made k h s :
  made LENS 288 h -> fast_ok s -> cbits h <= f_bits s -> pos s + cbits h + 33 <= 8 * len ->
  exists b s', dolen (S k) h s = Some (b, s') /\ turn_done s (cbits h + 33) b s'.
Proof.
  intros Hm Hok Hb Hp. pose proof (proj1 Hm) as Hc. cbn [Inffast.dolen]. cbv zeta.
  destruct (fast_drop_safe (cbits h) s Hok) as (O1 & F1 & P1 & B1); [lia|]. set (s1 := fast_drop (cbits h) s) in *. clearbody s1.
  injection F1 as U1 M1 G1. destruct (Z.eqb_spec (op h) 0) as [E0|E0].
  { eexists _, _. split; [reflexivity|]. pose proof (ins_literal_length (val h)) as Lw. split; [exact (fast_put input _ _ O1)| |].
    - change (pos s + 1 <= pos s1 <= pos s + (cbits h + 33)). lia.
    - exists (ins_literal (val h)). change (pos (fast_write (ins_literal (val h)) s1)) with (pos s1). split; [by rewrite <- U1|].
      split; [lia|]. split; [lia|]. split; [exact M1|]. intros E; rewrite E in Lw; cbn in Lw; lia. }
  destruct (made_lens h Hm) as [Ho|[Ho|(Ho & Hx & _)]]; [done| |].
  - destruct (op16 (op h) ltac:(lia)) as [-> ->]. cbv iota. assert (Hn : 0 <= op h - 16 <= 5) by lia. set (n := op h - 16) in *. clearbody n.
    assert (X : exists v s2, (if negb (n =? 0) then (val h + low_bits (f_hold (pull_below input n s1)) n, fast_drop n (pull_below input n s1))
        else (val h, s1)) = (v, s2) /\ fast_ok s2 /\ fouts s2 = fouts s1 /\ pos s2 = pos s1 + n).
    { destruct (Z.eqb_spec n 0) as [->|N]; cbn [negb]; [exists (val h), s1; split; [done|]; split; [done|]; split; [done|lia]|].
      destruct (pull_below_spec input n s1 O1) as ([O2 _ F2 P2 _] & B2 & _); [lia|lia|]. specialize (B2 ltac:(lia)).
      destruct (fast_drop_safe n _ O2) as (O3 & _ & P3 & _); [lia|]. eexists _, _. split; [reflexivity|]. split_and!; [done|exact F2|lia]. }
    destruct X as (v & s2 & -> & O2 & F2 & P2). clear Ho. cbv iota.
    destruct (pull15_spec input s2 O2) as ([O3 _ F3 P3 _] & B3); [lia|].
    destruct (dodist_first v _ O3) as (b & s' & E & [O4 P4 D]); [lia|lia|]. exists b, s'. split; [exact E|].
    set (s3 := pull15 input s2) in *. clearbody s3. clear E.
    pose proof (eq_trans F3 F2) as F. injection F as U3 M3 G3. split; [done|lia|]. destruct b.
    + exists []. destruct D as [D1 D2]. rewrite app_nil_r. split; [congruence|]. split; [cbn; lia|]. split; [cbn; lia|by left].
    + destruct D as (w & D1 & D2 & D3). exists w. split; [congruence|]. split; [lia|]. split; [lia|]. split; [congruence|]. by destruct w.
  - rewrite Ho. change (negb (0 =? 0)) with false. cbv iota. destruct (Z.eqb_spec (Z.land (op h) 64) 0) as [E|E]; [done|].
    destruct (negb (Z.land (op h) 32 =? 0)).
    + eexists _, _. split; [reflexivity|]. split; [apply fast_put; by destruct O1; split| |].
      * change (pos s + 1 <= pos s1 <= pos s + (cbits h + 33)). lia.
      * exists ins_end. change (pos (fast_write ins_end (s1 <| f_mode := Some IM.TYPE |>))) with (pos s1). split; [by rewrite <- U1|].
        split; [cbn; lia|]. split; [cbn; lia|]. by right.
    + eexists _, _. split; [reflexivity|]. split; [by destruct O1; split| |].
      * change (pos s + 1 <= pos s1 <= pos s + (cbits h + 33)). lia.
      * exists []. change (pos (fast_bad "invalid literal/length code"%string s1)) with (pos s1). rewrite app_nil_r. split; [exact U1|].
        split; [cbn; lia|]. split; [cbn; lia|]. by left.
Qed.
Lemma dolen_first s :
  fast_ok s -> 15 <= f_bits s -> pos s + 48 <= 8 * len ->
  exists b s', dolen 16 (lcode (Z.land (f_hold s) (2 ^ lroot - 1))) s = Some (b, s') /\ turn_done s 48 b s'.
Proof.
  intros Hok Hb Hp. pose proof (tw_ok _ _ _ _ Hl) as T. pose proof (tb_root _ _ T) as Hr.
  pose proof (land_idx (f_hold s) lroot ltac:(lia)) as Hi. set (i := Z.land _ _) in *. pose proof (tb_bits _ _ T i Hi) as Hc.
  destruct (decide (is_link (lcode i))) as [L|L].
  - destruct (tb_link _ _ T i Hi L) as (Ec & Ho & _ & Hs). rewrite (dolen_link 15 _ s L).
    destruct (fast_drop_safe (cbits (lcode i)) s Hok) as (O1 & F1 & P1 & B1); [lia|].
    set (s1 := fast_drop (cbits (lcode i)) s) in *. clearbody s1. unfold fast_link. unfold is_link in L.
    pose proof (land_idx (f_hold s1) (op (lcode i)) ltac:(lia)) as Hj. set (j := Z.land (f_hold s1) _) in *.
    pose proof (tw_made2 _ _ _ _ Hl i Hi L j Hj) as Hm. destruct (Hs j Hj) as [Hc2 _]. pose proof (proj1 Hm) as Hc3.
    destruct (dolen_made 14 _ s1 Hm O1) as (b & s' & E & [A B (w & C1 & C2 & C3 & C4)]); [lia|lia|].
    exists b, s'. split; [exact E|]. injection F1 as U1 M1 G1. rewrite U1 in C1. rewrite M1 in C4. split; [done|lia|].
    exists w. split; [done|]. split; [done|]. split; [lia|exact C4].
  - destruct (tw_made _ _ _ _ Hl i Hi) as [?|Hm]; [done|].
    destruct (dolen_made 15 _ s Hm Hok) as (b & s' & E & [A B C]); [lia|lia|].
    exists b, s'. split; [exact E|]. split; [done|lia|done].
Qed.

Lemma fast_loop_safe fuel avail s :
  fast_ok s -> f_mode s = None -> f_in s < len - 5 -> Z.of_nat (length (f_put s)) <= avail - 258 ->
  avail - 258 - Z.of_nat (length (f_put s)) < Z.of_nat fuel ->
  exists s' w, fast_loop input lcode dcode (2 ^ lroot - 1) (2 ^ droot - 1) fuel avail s = Some s'
    /\ fast_ok s' /\ pos s + 1 <= pos s' /\ f_put s' = f_put s ++ w /\ Z.of_nat (length (f_put s')) <= avail
    /\ Z.of_nat (length w) <= 2 * (pos s' - pos s)
    /\ (f_mode s' = Some IM.BAD \/ (f_mode s' = Some IM.TYPE \/ f_mode s' = None) /\ w <> []).
Proof.
  revert s. induction fuel as [|fuel IH]; intros s Hok Hm Hin Hroom Hfuel; [lia|]. cbn [fast_loop]. cbv zeta.
  destruct (fast_len s Hok) as [Hb Hi].
  destruct (pull15_spec input s Hok) as ([O1 _ F1 P1 _] & B1); [unfold pos; lia|]. injection F1 as U1 M1 G1.
  destruct (dolen_first (pull15 input s) O1) as (b & s2 & E & [O2 P2 (w & W1 & W2 & W3 & W4)]); [lia|unfold pos in *; lia|].
  rewrite E. rewrite U1 in W1. assert (Lw : Z.of_nat (length (f_put s2)) = Z.of_nat (length (f_put s)) + Z.of_nat (length w)).
  { rewrite W1, length_app. lia. }
  destruct b.
  { exists s2, w. split; [done|]. split; [done|]. split; [lia|]. split; [done|]. split; [lia|]. split; [lia|].
    destruct W4 as [W4|[W4 W5]]; [by left|right]. split; [by left|done]. }
  destruct W4 as [W4 W5]. rewrite M1, Hm in W4. assert (0 < length w)%nat by (destruct w; [done|cbn; lia]).
  destruct ((f_in s2 <? len - 5) && (Z.of_nat (length (f_put s2)) <? avail - 257)) eqn:Eb.
  - apply andb_true_iff in Eb as [E1 E2]. destruct (IH s2 O2 W4) as (s' & w' & E' & O' & P' & W' & L' & K' & D'); [lia|lia|lia|].
    exists s', (w ++ w'). split; [done|]. split; [done|]. split; [lia|]. split; [by rewrite W', W1, app_assoc|]. split; [done|].
    split; [rewrite length_app; lia|]. destruct D' as [D'|[D' _]]; [by left|right]. split; [done|]. by destruct w.
  - exists s2, w. split; [done|]. split; [done|]. split; [lia|]. split; [done|]. split; [lia|]. split; [lia|].
    right. split; [by right|done].
Qed.

(** the bytes given back; a negative position would be in front of the input *)
Lemma fast_unused_safe s (s' := fast_unused s) :
  bytes_ok input -> fast_ok s -> reader_ok (rdr input s') /\ f_bits s' < 8 /\ fouts s' = fouts s
  /\ Z.of_nat (length (fstream input s')) <= 8 * len - pos s.
Proof.
  intros Hin Hok. destruct (fast_len s Hok) as [Hb Hi]. destruct Hok as [[_ Hh _] _]. cbn in Hh.
  assert (Eb : f_bits s' = f_bits s - 8 * (f_bits s / 8)).
  { change (f_bits s') with (f_bits s - Z.shiftl (Z.shiftr (f_bits s) 3) 3). rewrite Z.shiftl_mul_pow2, Z.shiftr_div_pow2 by lia.
    change (2 ^ 3) with 8. lia. }
  assert (Ei : f_in s' = f_in s - f_bits s / 8).
  { change (f_in s') with (f_in s - Z.shiftr (f_bits s) 3). by rewrite Z.shiftr_div_pow2 by lia. }
  assert (Eh : f_hold s' = f_hold s mod 2 ^ f_bits s').
  { change (f_hold s') with (Z.land (f_hold s) (2 ^ f_bits s' - 1)). apply land_ones_mod. rewrite Eb.
    pose proof (Z.mod_pos_bound (f_bits s) 8 ltac:(lia)). rewrite Z.mod_eq in H by lia. lia. }
  pose proof (Z.mod_pos_bound (f_bits s) 8 ltac:(lia)) as Hm. rewrite Z.mod_eq in Hm by lia.
  assert (Hok' : reader_ok (rdr input s')).
  { split; cbn [rdr rd_bits rd_hold rd_next reader_reader rdr_bits rdr_hold rdr_next]; [lia| |].
    - rewrite Eh. apply Z.mod_pos_bound. lia.
    - by apply Forall_drop. }
  split; [done|]. split; [lia|]. split; [done|]. unfold fstream.
  assert (H0 : 0 <= rd_bits (rdr input s')) by apply Hok'.
  rewrite (length_stream _ H0). unfold have_in. change (rd_bits (rdr input s')) with (f_bits s').
  change (rd_next (rdr input s')) with (drop (Z.to_nat (f_in s')) input). rewrite length_drop, Eb, Ei. unfold pos.
  assert (0 <= f_bits s / 8) by (apply Z.div_pos; lia). lia.
Qed.
End Safe.

(** the state apart from what [inflate_fast] changes *)
Definition fast_frame (st : inflate_state) : inflate_state := st <| mode := IM.HEAD |> <| hold := 0 |> <| bits := 0 |>.
(** what [inflate_fast] leaves after [put] *)
Record fast_result (zs : z_stream) (st : inflate_state) (zs' : z_stream) (st' : inflate_state) (put : list Z) : Prop := {
  fr_reader : reader_ok (srdr zs' st') /\ bits st' < 8;
  fr_frame : fast_frame st' = fast_frame st;
  fr_mode : mode st' = IM.BAD \/ (mode st' = IM.TYPE \/ mode st' = mode st) /\ put <> [];
  fr_out : next_out zs' = next_out zs ++ put;
  fr_left : avail_out zs' = avail_out zs - Z.of_nat (length put);
  fr_room : Z.of_nat (length put) <= avail_out zs;
  fr_used : Z.of_nat (length (stream (srdr zs' st'))) < Z.of_nat (length (stream (srdr zs st)));
  fr_ratio : Z.of_nat (length put) <= 2 * (Z.of_nat (length (stream (srdr zs st))) - Z.of_nat (length (stream (srdr zs' st')))) }.
Lemma inflate_fast_safe zs st :
  tables st -> reader_ok (srdr zs st) -> (6 <= length (next_in zs))%nat -> 258 <= avail_out zs < 2 ^ 32 ->
  exists zs' st' put, inflate_fast zs st = Some (zs', st') /\ fast_result zs st zs' st' put.
Proof.
  intros [Hl Hd] Hr Hlen Hav. unfold inflate_fast. cbv zeta. set (s0 := mk_fast 0 [] (hold st) (bits st) None None).
  assert (O0 : fast_ok (next_in zs) s0) by (split; [exact Hr|cbn; lia]).
  destruct (fast_loop_safe (next_in zs) _ _ _ _ Hl Hd (Z.to_nat (avail_out zs)) (avail_out zs) s0 O0)
    as (s & w & E & O & P & W & L & K & D); [done|cbn; lia|cbn; lia|cbn; lia|].
  rewrite E. cbn [f_put s0 app] in W. destruct (fast_unused_safe (next_in zs) s (ro_next _ Hr) O) as (R & B & F & Y).
  set (s' := fast_unused s) in *. clearbody s'. injection F as F1 F2 F3. rewrite F1, F2, W.
  assert (Hy : Z.of_nat (length (stream (srdr zs st))) = 8 * Z.of_nat (length (next_in zs)) - pos s0).
  { assert (H0 : 0 <= rd_bits (srdr zs st)) by apply Hr. rewrite (length_stream _ H0). unfold have_in, pos. cbn. lia. }
  rewrite W in L. eexists _, _, w. split; [reflexivity|].
  set (st1 := match f_mode s with Some m => st <| mode := m |> | None => st end).
  assert (Em : mode st1 = IM.BAD \/ (mode st1 = IM.TYPE \/ mode st1 = mode st) /\ w <> []).
  { unfold st1. destruct D as [->|[[-> | ->] Hw]]; [by left|by right; split; [left|]|by right; split; [right|]]. }
  assert (Ef : fast_frame st1 = fast_frame st) by (unfold st1; by destruct (f_mode s)).
  clearbody st1. set (zs1 := match f_msg s' with Some t => zs <| msg := Some t |> | None => zs end).
  assert (Ez : next_in zs1 = next_in zs /\ next_out zs1 = next_out zs /\ avail_out zs1 = avail_out zs) by (unfold zs1; by destruct (f_msg s')).
  destruct Ez as (Z1 & Z2 & Z3). clearbody zs1. clear E D.
  match goal with |- fast_result _ _ ?a ?b _ => set (zs2 := a); set (st2 := b) end.
  assert (Er : srdr zs2 st2 = rdr (next_in zs) s') by (unfold srdr, rdr, zs2, st2; cbn; by rewrite Z1).
  split; rewrite ?Er; try done.
  - rewrite <- Z2. reflexivity.
  - unfold zs2. cbn [avail_out set_field]. rewrite Z3. apply u32_small. lia.
  - change (stream (rdr (next_in zs) s')) with (fstream (next_in zs) s'). lia.
  - change (stream (rdr (next_in zs) s')) with (fstream (next_in zs) s'). lia.
Qed.
