(* ===== verification/Turns.v ===== *)
(** * Every turn of [j_inflate] keeps the invariant

    One lemma for each [case]: [handles m h] for the handler [h] of the mode [m]. *)
From Stdlib Require Import String.
From S2P Require Import Prelude DeflateTables Inftrees Zlib Trees Format Encode Bitstream Wp.
From S2P Require Import InflateState Inffast Inflate Codebook Sorting Huffman Fastpath Decoding Capture Invariant Fastsafe.
#[local] Open Scope string_scope.
#[local] Open Scope Z_scope.
#[local] Open Scope list_scope.

(** one statement of a handler; [H] says what holds of the machine *)
Ltac step :=
  match goal with
  | |- wp ((_ ≫= _) ≫= _) _ _ _ => apply wp_assoc
  | |- wp (gets id ≫= _) _ _ _ => apply wp_id
  | |- wp (gets l_hold ≫= _) _ _ _ => apply wp_gets
  | |- wp (mret _ ≫= _) _ _ _ => apply wp_bind, wp_ret
  | |- wp (skip ≫= _) _ _ _ => apply wp_bind, wp_ret
  | |- wp (gets (BITS _) ≫= _) _ _ _ => apply w_BITS; [lia|intros ? ?]
  | H : has _ ?s _ _ _ _ _ |- wp (?m ≫= _) _ _ ?s =>
      lazymatch m with
      | upd _ => apply (w_upd _ _ _ _ _ _ _ _ _ _ H); clear H; intros ? H ? ?
      | set_mode _ => apply (w_upd _ _ _ _ _ _ _ _ _ _ H); clear H; intros ? H ? ?
      | upd_crc _ => apply (w_upd _ _ _ _ _ _ _ _ _ _ H); clear H; intros ? H ? ?
      | upd_head _ => apply (w_upd _ _ _ _ _ _ _ _ _ _ H); clear H; intros ? H ? ?
      | upd_strm _ => apply (w_upd_strm _ _ _ _ _ _ _ _ _ _ H); clear H; intros ? H ? ?
      | upd_glob _ => apply (w_upd_glob _ _ _ _ _ _ _ _ _ _ H); clear H; intros ? H ? ?
      | set_ins _ _ => apply (w_upd_glob _ _ _ _ _ _ _ _ _ _ H); clear H; intros ? H ? ?
      | set_ret _ => apply (w_set_ret _ _ _ _ _ _ _ _ _ _ H); clear H; intros ? H ? ?
      | gets state => apply (w_state _ _ _ _ _ _ _ _ _ _ H)
      | gets glob => apply (w_glob _ _ _ _ _ _ _ _ _ _ H)
      | gets l_left => apply (w_left _ _ _ _ _ _ _ _ _ _ H)
      | gets (fun s => ?f (state s)) => apply (w_get _ f _ _ _ _ _ _ _ _ _ H)
      end
  end.

(** forget how the state was made, keeping [F]; a let-bound state would be unfolded again and again *)
Ltac abstract_state H F x := match type of H with Invariant.has _ _ _ _ _ ?t _ => revert F H; generalize t; intros x F H end.

Section Turns.
Context (tot flush x0 t0 : Z).
Abbreviation has := (has tot).
Abbreviation post := (post tot x0 t0).
Abbreviation stop := (stop tot flush x0 t0).
Abbreviation entry := (entry tot x0 t0).
Abbreviation handles := (handles tot flush x0 t0).
Abbreviation budget := (budget x0 t0).

Lemma w_bad text r0 s y l r st g :
  has s y l r st g -> y + l <= x0 -> 16 * y - 8 * l <= t0 -> y + l < x0 \/ 0 < r0 -> wp (bad text) (post r0) stop s.
Proof.
  intros H H1 H2 H3. unfold bad. step. apply wp_last. step. apply wp_ret.
  apply (break tot x0 t0 r0 tt _ _ _ _ _ _ H); [done|by right|split; cbn; lia|cbn; lia].
Qed.
(** the end of a turn with the mode [m] *)
Lemma w_to m r0 s y l st g :
  has s y l Z_OK st g -> data_at m (st <| mode := m |>) g -> budget y l (pend_at m (st <| mode := m |>) g) ->
  y + l < x0 \/ rank m < r0 -> wp (set_mode m) (post r0) stop s.
Proof.
  intros H Hd Hb Hr. apply wp_last. step. apply wp_ret. apply (break tot x0 t0 r0 tt _ _ _ _ _ _ H); [done|by left|done|done].
Qed.

(** [NEEDBITS(n)] at the start of a [case], with the invariant [Hd] of the mode *)
Lemma w_read {B} n (k : unit -> M im B) Q m s y l st g :
  has s y l Z_OK st g -> mode st = m -> data_at m st g -> budget y l (pend_at m st g) -> 0 <= n <= 32 ->
  (forall s', has s' y l Z_OK st g -> n <= rd_bits s' -> wp (k tt) Q stop s') -> wp (NEEDBITS n ≫= k) Q stop s.
Proof.
  intros H Em Hd Hb Hn HQ. apply (w_NEED tot k Q stop s y l Z_OK st g H n Hn); [done|]. intros s' H' Hnil. subst m.
  by apply (starved tot flush x0 t0 _ _ _ _ _ H').
Qed.
Lemma entry_inv r0 m s : entry r0 m s -> exists y l st g, has s y l Z_OK st g /\ mode st = m /\ data_at m st g
  /\ budget y l (pend_at m st g) /\ (y + l < x0 \/ rank m <= r0).
Proof. intros [A B C D E]. eexists _, _, _, _. split; [exact A|]. done. Qed.

Lemma DONE_ok : handles IM.DONE h_DONE.
Proof.
  intros r0 s [H Em _ Hb _]. unfold h_DONE. step. apply wp_exit. apply (leaves tot flush x0 t0 _ _ _ _ _ _ H).
  - unfold data_ok. by rewrite Em.
  - by rewrite Em.
  - left. split; [apply H|]. by rewrite (ha_st _ _ _ _ _ _ _ H).
Qed.
Lemma BAD_ok : handles IM.BAD h_BAD.
Proof.
  intros r0 s [H Em _ Hb _]. unfold h_BAD. step. apply wp_exit. apply (leaves tot flush x0 t0 _ _ _ _ _ _ H).
  - unfold data_ok. by rewrite Em.
  - by rewrite Em.
  - right. left. split; [apply H|]. by rewrite (ha_st _ _ _ _ _ _ _ H).
Qed.

Ltac begin := let He := fresh in
  intros r0 s He; apply entry_inv in He; destruct He as (y & l & st & g & H & Em & Hd & Hb & Hr).
Ltac easy_budget := first [split; cbn; unfold Invariant.budget in *; cbn in *; lia|cbn; unfold Invariant.budget in *; cbn in *; lia].
(** on to the next [case] *)
Ltac fall L := match goal with H : has ?s _ _ _ _ _ |- wp _ _ _ ?s =>
  apply L; apply (enter tot x0 t0 _ _ _ _ _ _ _ H); [reflexivity| |easy_budget|easy_budget] end.

Lemma LENGTH_ok : handles IM.LENGTH h_LENGTH.
Proof.
  begin. unfold h_LENGTH. step. destruct (negb (wrap st =? 0) && negb (flags st =? 0)).
  - apply (w_read 32 _ _ _ _ _ _ _ _ H Em Hd Hb); [lia|]. clear s H. intros s H Hn. step. step.
    destruct (_ && _); [apply (w_bad _ _ _ _ _ _ _ _ H); easy_budget|].
    apply (w_INITBITS _ _ _ _ _ _ _ _ _ _ H 32 Hn). clear s H Hn. intros s y' H Hy. step. fall DONE_ok. done.
  - step. fall DONE_ok. done.
Qed.

(** *** The gzip header *)

Lemma HCRC_ok : handles IM.HCRC h_HCRC.
Proof.
  begin. unfold h_HCRC, set_check. step. cbv zeta. destruct (negb (Z.land (flags st) 0x200 =? 0)).
  - apply (w_read 16 _ _ _ _ _ _ _ _ H Em Hd Hb); [lia|]. clear s H. intros s H Hn. step.
    destruct (_ && _); [apply (w_bad _ _ _ _ _ _ _ _ H); easy_budget|].
    apply (w_INITBITS _ _ _ _ _ _ _ _ _ _ H 16 Hn). clear s H Hn. intros s y' H Hy. do 4 step.
    apply (w_to _ _ _ _ _ _ _ H); [done|easy_budget..].
  - do 4 step. apply (w_to _ _ _ _ _ _ _ H); [done|easy_budget..].
Qed.

(** a string of the header: it ends with a zero or takes all the input *)
Lemma scan_string_spec {I : inflate_state -> Prop} save l c0 st :
  (forall b st, I st -> I (save b st)) -> I st ->
  let '(len, copy, st') := scan_string l c0 save st in
  I st' /\ c0 <= copy <= c0 + Z.of_nat (length l) /\ (len <> 0 -> copy = c0 + Z.of_nat (length l)).
Proof.
  intros HI. revert c0 st. induction l as [|b l IH]; intros c0 st Hst; cbn [scan_string]; [split; [done|]; cbn; lia|]. cbv zeta.
  destruct (negb (b =? 0) && negb (length l =? 0)%nat) eqn:E.
  - specialize (IH (c0 + 1) (save b st) (HI _ _ Hst)). destruct (scan_string l (c0 + 1) save (save b st)) as [[len copy] st'].
    cbn [length]. destruct IH as (A & B & C). split; [done|]. split; [lia|]. intros N. specialize (C N). lia.
  - split; [by apply HI|]. cbn [length]. split; [lia|]. intros N. destruct (Nat.eqb_spec (length l) 0); [lia|].
    destruct (Z.eqb_spec b 0); done.
Qed.
Lemma string_field_ok m r0 save rest s y l st g :
  has s y l Z_OK st g -> mode st = m -> (forall st g, data_at m st g) -> (forall st g, pend_at m st g = 0) -> budget y l 0 ->
  (forall b st, mode st = m -> mode (save b st) = m) ->
  (forall s' y' st', has s' y' l Z_OK st' g -> y' <= y -> wp rest (post r0) stop s') -> wp (string_field save rest) (post r0) stop s.
Proof.
  intros H Em Hd Hp Hb Hs HQ. unfold string_field. step. destruct (Z.eqb_spec (have_in s) 0) as [E|E].
  - apply wp_exit. apply (starved tot flush x0 t0 _ _ _ _ _ H).
    + unfold data_ok. rewrite Em. apply Hd.
    + by rewrite Em, Hp.
    + unfold have_in in E. destruct (rd_next s); [done|cbn in E; lia].
  - rewrite (ha_st _ _ _ _ _ _ _ H). pose proof (scan_string_spec (I := fun st => mode st = m) save (l_next s) 0 st Hs Em) as R.
    destruct (scan_string (l_next s) 0 save st) as [[len copy] st']. destruct R as (Em' & Hc & Hlen).
    set (w := take _ (l_next s)). clearbody w. assert (Hin : have_in s = Z.of_nat (length (l_next s))) by done. step. step.
    match goal with H1 : l_next ?s1 = l_next ?s, H2 : l_next ?s2 = l_next ?s1 |- wp _ _ _ ?s2 => pose proof (eq_trans H2 H1) as En; clear H1 H2 end.
    match goal with |- wp _ _ _ ?s2 => assert (Hin2 : have_in s2 = have_in s) by (rewrite Hin, <- En; done) end.
    pose proof (has_in_y _ _ _ _ _ _ _ H) as Hy. apply (w_skip _ _ _ _ _ _ _ _ _ _ H); [lia|]. clear H. intros s3 H En3.
    destruct (Z.eqb_spec len 0) as [E0|E0]; cbn [negb].
    + apply (HQ _ _ _ H). lia.
    + apply wp_exit. apply (starved tot flush x0 t0 _ _ _ _ _ H).
      * unfold data_ok. match goal with |- data_at (mode ?x) _ _ => assert (E' : mode x = m) end; [|rewrite E'; apply Hd].
        destruct (header_crc st'); [exact Em'|exact Em'].
      * match goal with |- Invariant.budget _ _ _ _ (pend_at (mode ?x) _ _) => assert (E' : mode x = m) end; [|rewrite E', Hp; easy_budget].
        destruct (header_crc st'); [exact Em'|exact Em'].
      * change (rd_next s3) with (l_next s3). rewrite En3. apply drop_ge. rewrite En. rewrite (Hlen E0). lia.
Qed.
Lemma save_name_mode m b st : mode st = m -> mode (save_name b st) = m.
Proof. intros E. unfold save_name. by repeat case_match. Qed.
Lemma save_comment_mode m b st : mode st = m -> mode (save_comment b st) = m.
Proof. intros E. unfold save_comment. by repeat case_match. Qed.
Lemma COMMENT_ok : handles IM.COMMENT h_COMMENT.
Proof.
  begin. unfold h_COMMENT. step. cbv zeta. destruct (negb (Z.land (flags st) 0x1000 =? 0)).
  - apply (string_field_ok IM.COMMENT r0 _ _ s y l st g H Em); [done|done|exact Hb|by apply save_comment_mode|].
    clear s H. intros s y' st' H Hy. step. fall HCRC_ok. done.
  - step. step. fall HCRC_ok. done.
Qed.
Lemma NAME_ok : handles IM.NAME h_NAME.
Proof.
  begin. unfold h_NAME. step. cbv zeta. destruct (negb (Z.land (flags st) 0x800 =? 0)).
  - apply (string_field_ok IM.NAME r0 _ _ s y l st g H Em); [done|done|exact Hb|by apply save_name_mode|].
    clear s H. intros s y' st' H Hy. step. step. fall COMMENT_ok. done.
  - do 3 step. fall COMMENT_ok. done.
Qed.
Lemma save_extra_frame w st : mode (save_extra w st) = mode st /\ length_ (save_extra w st) = length_ st.
Proof. unfold save_extra. by repeat case_match. Qed.
Lemma EXTRA_ok : handles IM.EXTRA h_EXTRA.
Proof.
  begin. unfold h_EXTRA. step. cbv zeta. destruct (negb (Z.land (flags st) 0x400 =? 0)).
  - step. pose proof (has_in_y _ _ _ _ _ _ _ H) as Hy. set (copy := if _ >? _ then _ else _).
    assert (Hc : copy = Z.min (length_ st) (have_in s)) by (unfold copy; destruct (Z.gtb_spec (length_ st) (have_in s)); lia). clearbody copy.
    assert (G : forall s st, has s (y - 8 * Z.max 0 copy) l Z_OK st g -> mode st = IM.EXTRA ->
      (length_ st <> 0 -> rd_next s = []) ->
      wp (n ← get length_; if negb (n =? 0) then leave else upd (fun st => st <| length_ := 0 |>);; set_mode IM.NAME;; h_NAME)
        (post r0) stop s).
    { change (budget y l 0) in Hb. clear s st H Em Hd Hc Hy. intros s st H Em Hn. step. destruct (Z.eqb_spec (length_ st) 0) as [E|E]; cbn [negb].
      - do 2 step. fall NAME_ok. done.
      - apply wp_exit. apply (starved tot flush x0 t0 _ _ _ _ _ H); [unfold data_ok; by rewrite Em|rewrite Em; easy_budget|by apply Hn]. }
    destruct (Z.eqb_spec copy 0) as [E0|E0]; cbn [when negb].
    + step. apply (G s st); [|done|].
      * replace (y - 8 * Z.max 0 copy) with y by lia. exact H.
      * intros N. unfold have_in in *. destruct (rd_next s); [done|]. cbn [length] in *. lia.
    + do 2 step. clear Hy. destruct (save_extra_frame (take (Z.to_nat copy) (l_next s)) st) as [M1 L1].
      set (st1 := save_extra _ st) in *. clearbody st1. do 2 step.
      assert (M2 : mode (if header_crc st1 then st1 <| check := Crc32.crc32 0 (check st1) (Some (take (Z.to_nat copy) (l_next s))) |> else st1) = mode st1
        /\ length_ (if header_crc st1 then st1 <| check := Crc32.crc32 0 (check st1) (Some (take (Z.to_nat copy) (l_next s))) |> else st1) = length_ st1)
        by (by destruct (header_crc st1)).
      set (st2 := if header_crc st1 then _ else _) in *. clearbody st2. destruct M2 as [M2 L2]. step.
      match goal with |- wp _ _ _ ?s2 => assert (En : l_next s2 = l_next s) by congruence;
        assert (Hin : have_in s2 = have_in s) by (unfold have_in; change (rd_next s2) with (l_next s2); by rewrite En) end.
      apply (w_skip _ _ _ _ _ _ _ _ _ _ H); [lia|]. clear H. intros s3 H En3. step.
      apply (G _ _ H); [change (mode st2 = IM.EXTRA); congruence|]. intros N. change (length_ st2 - copy <> 0) in N.
      match goal with E : l_next ?s4 = l_next s3 |- _ => change (l_next s4 = []); rewrite E end. rewrite En3, En. apply drop_ge.
      unfold have_in in *. change (rd_next s) with (l_next s) in *. lia.
  - do 2 step. fall NAME_ok. done.
Qed.
(** the statements up to the next INITBITS *)
Ltac to_init := repeat (lazymatch goal with |- wp (INITBITS ≫= _) _ _ _ => fail | _ => step end).
Ltac init n := match goal with H : has ?s _ _ _ _ _ |- wp (INITBITS ≫= _) _ _ ?s =>
  apply (w_INITBITS _ _ _ _ _ _ _ _ _ _ H n); [lia|]; clear H; intros ? ? H ? end.
Lemma EXLEN_ok : handles IM.EXLEN h_EXLEN.
Proof.
  begin. unfold h_EXLEN. step. destruct (negb (Z.land (flags st) 0x400 =? 0)).
  - step. apply (w_read 16 _ _ _ _ _ _ _ _ H Em Hd Hb); [lia|]. clear s H. intros s H Hn. to_init. init 16.
    step. fall EXTRA_ok. done.
  - do 2 step. fall EXTRA_ok. done.
Qed.
Lemma OS_ok : handles IM.OS h_OS.
Proof.
  begin. unfold h_OS. apply (w_read 16 _ _ _ _ _ _ _ _ H Em Hd Hb); [lia|]. clear s H. intros s H Hn.
  to_init. init 16. step. fall EXLEN_ok. done.
Qed.
Lemma TIME_ok : handles IM.TIME h_TIME.
Proof.
  begin. unfold h_TIME. apply (w_read 32 _ _ _ _ _ _ _ _ H Em Hd Hb); [lia|]. clear s H. intros s H Hn.
  to_init. init 32. step. fall OS_ok. done.
Qed.
Lemma FLAGS_ok : handles IM.FLAGS h_FLAGS.
Proof.
  begin. unfold h_FLAGS. apply (w_read 16 _ _ _ _ _ _ _ _ H Em Hd Hb); [lia|]. clear s H. intros s H Hn. do 3 step.
  destruct (negb (Z.land _ 0xff =? _)); [apply (w_bad _ _ _ _ _ _ _ _ H); easy_budget|].
  destruct (negb (Z.land _ 0xe000 =? 0)); [apply (w_bad _ _ _ _ _ _ _ _ H); easy_budget|].
  to_init. init 16. step. fall TIME_ok. done.
Qed.
Lemma HEAD_ok : handles IM.HEAD h_HEAD.
Proof.
  begin. unfold h_HEAD, set_check. step. destruct (wrap st =? 0); [apply (w_to _ _ _ _ _ _ _ H); [done|easy_budget..]|].
  apply (w_read 16 _ _ _ _ _ _ _ _ H Em Hd Hb); [lia|]. clear s H. intros s H Hn. do 2 step.
  destruct (_ && _).
  - to_init. init 16. apply (w_to _ _ _ _ _ _ _ H); [done|easy_budget..].
  - do 3 step. destruct (_ || _); [apply (w_bad _ _ _ _ _ _ _ _ H); easy_budget|].
    destruct (negb _); [apply (w_bad _ _ _ _ _ _ _ _ H); easy_budget|].
    apply (w_DROP _ _ _ _ _ _ _ _ _ _ 4 H); [lia|lia|]. clear H. intros s1 st1 g1 H Hb1 [_ Hi _ _]. injection Hi as I1 I2 I3.
    do 3 step. destruct (_ || _); [apply (w_bad _ _ _ _ _ _ _ _ H); easy_budget|].
    to_init. apply wp_last. init 12. apply wp_ret. apply (break tot x0 t0 _ _ _ _ _ _ _ _ H).
    + split; [split; rewrite ?I1, ?I2; cbn; lia|]. left. rewrite I3. cbn. lia.
    + by left.
    + split; cbn; rewrite ?I1, ?I2; cbn; easy_budget.
    + easy_budget.
Qed.

(** *** Instructions and stored bytes *)

Lemma full m s y st g :
  has s y 0 Z_OK st g -> mode st = m -> data_at m st g -> budget y 0 (pend_at m st g) -> stop Leave s.
Proof.
  intros H <- Hd Hb. apply (leaves tot flush x0 t0 _ _ _ _ _ _ H); [done|done|]. right. right. split; [apply H|]. right. left. apply H.
Qed.
Lemma copy_length l a (n := if a >? l then l else u32 a) : 0 <= l -> 0 <= a < 2 ^ 32 -> n = Z.min a l.
Proof. intros Hl Ha. unfold n. destruct (Z.gtb_spec a l); [lia|]. rewrite u32_small; lia. Qed.

Lemma SENDINS_ok : handles IM.SENDINS h_SENDINS.
Proof.
  begin. unfold h_SENDINS. step. pose proof (ha_range _ _ _ _ _ _ _ H). destruct (Z.eqb_spec l 0) as [->|Hl].
  { apply wp_exit. by apply (full IM.SENDINS s y st g). }
  destruct Hd as [Hi Ht]. destruct Hi as [Hi Hi4]. step. cbv zeta. rewrite copy_length by lia. set (copy := Z.min _ l).
  set (w := map u8 _). assert (Hw : Z.of_nat (length w) = copy) by (unfold w; rewrite length_map, length_aread; lia).
  apply (w_put _ _ _ _ _ _ _ _ _ _ H); [lia|]. rewrite Hw. clearbody w. clear H. intros s1 H _. do 2 step.
  set (g1 := g <| ins_buffer_index := ins_buffer_index g + copy |>) in *.
  assert (G1 : ins_buffer_index g1 = ins_buffer_index g + copy) by reflexivity.
  assert (G2 : ins_buffer_have g1 = ins_buffer_have g) by reflexivity. assert (G3 : ins_type g1 = ins_type g) by reflexivity. clearbody g1.
  destruct (Z.eqb_spec (ins_buffer_index g1) (ins_buffer_have g1)) as [E|E]; cbn [when].
  - rewrite G3. destruct (Z.eqb_spec (ins_type g) 4); [apply (w_to _ _ _ _ _ _ _ H); [done|easy_budget..]|].
    destruct (Z.eqb_spec (ins_type g) 3); [apply (w_to _ _ _ _ _ _ _ H); [done|easy_budget..]|].
    destruct (Z.eqb_spec (ins_type g) 2); [apply (w_to _ _ _ _ _ _ _ H); [done|easy_budget..]|].
    destruct Ht as [Ht|[[Ht1 Ht2] [Ht3 Ht4]]]; [lia|]. apply (w_to _ _ _ _ _ _ _ H); [split; by split|easy_budget..].
  - apply wp_ret. apply (break tot x0 t0 _ _ _ _ _ _ _ _ H).
    + unfold data_ok. rewrite Em. cbn [data_at]. rewrite G3. split; [split; lia|done].
    + by left.
    + rewrite Em. cbn [pend_at] in Hb |- *. destruct Hb. split; lia.
    + left. destruct Hb. lia.
Qed.
Lemma SETENDOFBLOCK_ok : handles IM.SETENDOFBLOCK h_SETENDOFBLOCK.
Proof.
  begin. unfold h_SETENDOFBLOCK. do 2 step. fall SENDINS_ok. split; [split; cbn; lia|left; cbn; lia].
Qed.
Lemma LIT_ok : handles IM.LIT h_LIT.
Proof.
  begin. unfold h_LIT. destruct Hd as (Hc & Ht & Hi). apply (w_to _ _ _ _ _ _ _ H); [|easy_budget..].
  destruct Hc, Ht. split; [done|]. right. by split.
Qed.
Lemma MATCH_ok : handles IM.MATCH h_MATCH.
Proof.
  begin. unfold h_MATCH. destruct Hd as (Hc & Ht & Hi). apply (w_to _ _ _ _ _ _ _ H); [|easy_budget..].
  destruct Hc, Ht. split; [done|]. right. by split.
Qed.
Lemma COPY_ok : handles IM.COPY h_COPY.
Proof.
  begin. unfold h_COPY. step. cbv zeta. destruct Hd as [Hc Hlen]. destruct (Z.eqb_spec (length_ st) 0) as [E|E]; cbn [negb].
  { apply (w_to _ _ _ _ _ _ _ H); [by destruct Hc|easy_budget..]. }
  step. rewrite (ha_left _ _ _ _ _ _ _ H). pose proof (ha_range _ _ _ _ _ _ _ H) as Hl. pose proof (has_in_y _ _ _ _ _ _ _ H) as Hy.
  set (copy := if _ >? l then l else _). assert (Ec : copy = Z.min (length_ st) (Z.min (have_in s) l)).
  { unfold copy. destruct (Z.gtb_spec (length_ st) (have_in s)); [destruct (Z.gtb_spec (have_in s) l)|destruct (Z.gtb_spec (length_ st) l)]; lia. }
  clearbody copy. assert (H0 : 0 <= have_in s) by (unfold have_in; lia). destruct (Z.eqb_spec copy 0) as [E0|E0].
  - apply wp_exit. apply (leaves tot flush x0 t0 _ _ _ _ _ _ H); [unfold data_ok; by rewrite Em|by rewrite Em|].
    right. right. split; [apply H|]. rewrite (ha_left _ _ _ _ _ _ _ H). unfold have_in in *. change (rd_next s) with (l_next s) in *.
    destruct (l_next s); [by left|]. right. left. cbn [length] in *. lia.
  - set (w := take _ _). assert (Hw : Z.of_nat (length w) = copy).
    { unfold w, have_in in *. change (rd_next s) with (l_next s) in *. rewrite length_take. lia. }
    apply (w_put _ _ _ _ _ _ _ _ _ _ H); [lia|]. rewrite Hw. clearbody w. clear H. intros s1 H En.
    assert (Hin : have_in s1 = have_in s) by (unfold have_in; change (rd_next s1) with (l_next s1); by rewrite En).
    apply (w_skip _ _ _ _ _ _ _ _ _ _ H); [lia|]. clear H. intros s2 H _. apply wp_last. step. apply wp_ret.
    apply (break tot x0 t0 _ _ _ _ _ _ _ _ H).
    + unfold data_ok. change (mode (st <| length_ := length_ st - copy |>)) with (mode st). rewrite Em.
      destruct Hc. split; [by split|]. cbn. lia.
    + by left.
    + change (mode (st <| length_ := length_ st - copy |>)) with (mode st). rewrite Em. easy_budget.
    + easy_budget.
Qed.
Lemma COPY__ok : handles IM.COPY_ h_COPY_.
Proof. begin. unfold h_COPY_. step. fall COPY_ok. destruct Hd as [[A B] C]. by split. Qed.

(** *** The block header *)

Lemma SEND_HEADER_ok : handles IM.SEND_HEADER h_SEND_HEADER.
Proof.
  begin. unfold h_SEND_HEADER. step. destruct Hd as [Hd Hbody].
  match type of H with Invariant.has _ _ _ _ _ ?x _ => set (st1 := x) in * end.
  assert (S1 : closed st1 /\ 0 <= header_index st1 <= header_have st1
    /\ 8 * (header_have st1 - header_index st1) + 16 <= pend_at IM.SEND_HEADER st g /\ body_ok st1 /\ mode st1 = IM.SEND_HEADER).
  { subst st1. destruct Hd as [Hd|[Hd1 Hd2]]; cbn [pend_at].
    - rewrite (cp_flag _ _ Hd). change (1 =? 1) with true. cbv iota. destruct (close_closed st 4498 Hd) as (A & B & C & D); [lia|].
      change (my_put_byte _ _ <| header_flag := 0 |>) with (close_header st). destruct (windup_cap st _ Hd) as (_ & _ & _ & U).
      split; [done|]. rewrite B. split; [lia|]. split; [lia|]. split; [|exact (eq_trans (f_equal mode U) Em)].
      apply (body_ext st); [exact (f_equal body_view U)|done].
    - rewrite (cd_flag _ Hd1). change (0 =? 1) with false. cbv iota. split_and!; (done || lia). }
  clearbody st1. clear Hd Hbody Em. destruct S1 as (Hc & Hi & Hp & Hbody & Em). assert (Hb2 : budget y l (pend_at IM.SEND_HEADER st1 g)).
  { cbn [pend_at]. rewrite (cd_flag _ Hc). change (0 =? 1) with false. cbv iota. destruct Hb. split; lia. }
  clear Hb Hp. step. pose proof (ha_range _ _ _ _ _ _ _ H) as Hl. destruct (Z.eqb_spec l 0) as [->|Hl0].
  { apply wp_exit. apply (full IM.SEND_HEADER _ y st1 g H Em); [|done]. split; [by right|done]. }
  step. cbv zeta. pose proof (cd_have _ Hc). rewrite copy_length by lia. set (copy := Z.min _ l).
  set (w := aread _ _ _ _). assert (Hw : Z.of_nat (length w) = copy) by (unfold w; rewrite length_aread; lia).
  apply (w_put _ _ _ _ _ _ _ _ _ _ H); [lia|]. rewrite Hw. clearbody w. clear H. intros s2 H _. step.
  set (st2 := st1 <| header_index := header_index st1 + copy |>) in *.
  assert (E1 : header_index st2 = header_index st1 + copy) by reflexivity.
  assert (E2 : header_have st2 = header_have st1) by reflexivity. assert (E3 : header_flag st2 = 0) by exact (cd_flag _ Hc).
  assert (E4 : mode st2 = IM.SEND_HEADER) by exact Em. assert (E5 : body_ok st2) by (by apply (body_ext st1)). clearbody st2.
  apply wp_last. step. apply wp_ret. cbn [pend_at] in Hb2. rewrite (cd_flag _ Hc) in Hb2. change (0 =? 1) with false in Hb2. cbv iota in Hb2.
  assert (Hc2 : closed st2) by (split; lia). clear Hc. unfold body_ok in E5.
  destruct (Z.eqb_spec (header_have st2) (header_index st2)) as [E|E].
  - apply (break tot x0 t0 _ _ _ _ _ _ _ _ H).
    + destruct Hc2. destruct (itree_type st2 =? 0); [by split|]. by split; [split|destruct E5; split].
    + by left.
    + destruct Hb2. destruct (itree_type st2 =? 0); cbn; split; lia.
    + destruct Hr as [Hr|Hr]; [left; lia|right]. destruct (itree_type st2 =? 0); cbn in *; lia.
  - apply (break tot x0 t0 _ _ _ _ _ _ _ _ H).
    + unfold data_ok. rewrite E4. split; [right; split; [done|lia]|exact E5].
    + by left.
    + rewrite E4. cbn [pend_at]. rewrite E3. change (0 =? 1) with false. cbv iota. destruct Hb2. split; lia.
    + left. destruct Hb2. lia.
Qed.

Lemma CHECK_ok : handles IM.CHECK h_CHECK.
Proof.
  begin. unfold h_CHECK. step. destruct (negb (wrap st =? 0)); [|step; fall LENGTH_ok; done].
  apply (w_read 32 _ _ _ _ _ _ _ _ H Em Hd Hb); [lia|]. clear s H. intros s H Hn.
  apply wp_modify. set (s1 := s <| l_out := _ |>). apply wp_modify.
  match goal with |- wp _ _ _ ?x => set (s2 := x) end.
  assert (H2 : has s2 y l Z_OK (state s2) (glob s2)) by (eapply (has_other tot s); [exact H|done..]).
  assert (Hn2 : 32 <= rd_bits s2) by exact Hn. clearbody s2. clear s1 H.
  step. apply (w_DROP _ _ _ _ _ _ _ _ _ _ 8 H2); [lia|lia|]. clear H2. intros s3 st3 g3 H3 Hb3 _.
  step. apply (w_DROP _ _ _ _ _ _ _ _ _ _ 8 H3); [lia|lia|]. clear H3. intros s4 st4 g4 H4 Hb4 _.
  step. apply (w_DROP _ _ _ _ _ _ _ _ _ _ 8 H4); [lia|lia|]. clear H4. intros s5 st5 g5 H5 Hb5 _.
  step. apply (w_DROP _ _ _ _ _ _ _ _ _ _ 8 H5); [lia|lia|]. clear H5. intros s6 st6 g6 H6 Hb6 _.
  to_init. match goal with H : has ?s _ _ _ _ _ |- _ => init 0 end.
  apply (w_to _ _ _ _ _ _ _ H6); [|easy_budget..]. split; [split; cbn; lia|left; cbn; lia].
Qed.
Lemma STORED_ok : handles IM.STORED h_STORED.
Proof.
  begin. unfold h_STORED. destruct Hd as [Hd Hi]. apply (w_BYTEBITS _ _ _ _ _ _ _ _ _ _ H). clear s H. intros s y' H Hy. step.
  pose proof (windup_stored st Hd) as Hd'. destruct (windup_cap st 8 Hd) as (_ & _ & _ & U).
  set (st1 := my_bi_windup st) in *. clearbody st1.
  assert (Em1 : mode st1 = IM.STORED) by exact (eq_trans (f_equal mode U) Em).
  assert (Hi1 : itree_type st1 = 0) by exact (eq_trans (f_equal itree_type U) Hi).
  assert (Hb' : budget y' l (pend_at IM.STORED st1 g)) by (destruct Hb as [B1 B2]; cbn [pend_at] in *; split; lia).
  assert (Hd1 : data_at IM.STORED st1 g) by done.
  apply (w_read 32 _ _ _ _ _ _ _ _ H Em1 Hd1 Hb'); [lia|]. clear H. intros s2 H Hn. step.
  destruct (negb _); [apply (w_bad _ _ _ _ _ _ _ _ H); easy_budget|]. step.
  set (st2 := st1 <| length_ := _ |>) in *. assert (Hl2 : 0 <= length_ st2 <= 65535).
  { change (0 <= Z.land (u32 (l_hold s2)) (2 ^ 16 - 1) <= 65535). rewrite land_ones_mod by lia. pose proof (Z.mod_pos_bound (u32 (l_hold s2)) (2 ^ 16)). lia. }
  assert (C2 : capturing st2 8) by (destruct Hd'; by split). assert (Hi2 : itree_type st2 = 0) by exact Hi1. clearbody st2.
  apply (w_DROP _ _ _ _ _ _ _ _ _ _ 16 H); [lia|lia|]. clear H. intros s3 st3 g3 H Hb3 [U3 _ _ C3]. destruct (C3 _ C2) as [D3 _].
  apply (w_DROP _ _ _ _ _ _ _ _ _ _ 16 H); [lia|lia|]. clear H. intros s4 st4 g4 H Hb4 [U4 _ _ C4]. destruct (C4 _ D3) as [D4 _].
  pose proof (eq_trans U4 U3) as U5. pose proof (f_equal itree_type U5) as I5. pose proof (f_equal length_ U5) as L5.
  change (itree_type st4 = itree_type st2) in I5. change (length_ st4 = length_ st2) in L5.
  apply (w_to _ _ _ _ _ _ _ H).
  - split; [left; destruct D4; split; [done..|unfold cap in *; cbn in *; lia]|]. unfold body_ok. cbn [itree_type length_ set_field mode].
    rewrite I5, Hi2. change (0 =? 0) with true. cbv iota. lia.
  - cbn [pend_at header_flag set_field]. rewrite (cp_flag _ _ D4). change (1 =? 1) with true. cbv iota.
    pose proof (cp_bound _ _ D4) as B4. unfold cap in *. destruct Hb'. cbn [pend_at] in *. split; [lia|cbn; lia].
  - destruct Hb'. left. lia.
Qed.

(** the start of a block *)
Definition start_header (st : inflate_state) : inflate_state :=
  st <| header_flag := 1 |> <| header_index := 0 |> <| header_have := 0 |> <| my_bi_buf := 0 |> <| my_bi_valid := 0 |>.
Lemma start_capturing st : capturing (start_header st) 0 /\ cap (start_header st) = 0 /\ mode (start_header st) = mode st.
Proof.
  assert (K : cap (start_header st) = 0) by reflexivity. split; [|by split].
  split; [reflexivity|reflexivity|change (0 <= 0); lia|change (0 <= 0 <= 16); lia|rewrite K; lia].
Qed.
(** the type bits; TYPE falls through to here *)
Lemma TYPEDO_ok m : m = IM.TYPE \/ m = IM.TYPEDO -> handles m (h_TYPEDO flush).
Proof.
  intros Hm. begin. clear Hd. assert (Hp : forall st g, data_at m st g /\ pend_at m st g = 0) by (by destruct Hm as [-> | ->]).
  rewrite (proj2 (Hp st g)) in Hb. assert (Hr' : y + l < x0 \/ 20 <= r0) by (destruct Hm as [-> | ->]; cbn in Hr; lia). clear Hr.
  unfold h_TYPEDO. apply (w_upd _ _ _ _ _ _ _ _ _ _ H start_header). clear H. intros s' H H0 H1.
  pose proof (start_capturing st) as F. rewrite Em in F. abstract_state H F st0. destruct F as (C0 & K0 & Em0).
  step. destruct (negb (last_ st0 =? 0)).
  { apply (w_BYTEBITS _ _ _ _ _ _ _ _ _ _ H). clear H. intros s2 y' H Hy. apply (w_to _ _ _ _ _ _ _ H); [by apply (capturing_ext st0)|easy_budget..]. }
  assert (Hb0 : budget y l (pend_at m st0 g)) by (by rewrite (proj2 (Hp st0 g))).
  apply (w_read 3 _ _ _ _ _ _ _ _ H Em0 (proj1 (Hp st0 g)) Hb0); [lia|]. clear H. intros s3 H Hn. do 2 step.
  assert (F : capturing (st0 <| last_ := v |>) 0 /\ cap (st0 <| last_ := v |>) = 0) by (split; [by apply (capturing_ext st0)|exact K0]).
  abstract_state H F st1. destruct F as [C1 K1].
  apply (w_DROP _ _ _ _ _ _ _ _ _ _ 1 H); [lia|lia|]. clear H. intros s4 st4 g4 H Hb4 [_ _ _ C4].
  destruct (C4 _ C1) as [C5 K5]. rewrite K1 in K5. change (0 + 1) with 1 in C5, K5. step.
  assert (G : forall s5 st5 g5, has s5 (y - 1) l Z_OK st5 g5 -> 2 <= rd_bits s5 -> capturing st5 1 -> cap st5 = 1 ->
    (forall st6 g6, uncaptured st6 = uncaptured st5 -> capturing st6 3 -> data_ok st6 g6 /\ pend_at (mode st6) st6 g6 <= 48) ->
    wp (DROPBITS 2) (post r0) stop s5).
  { clear H. intros s5 st5 g5 H Hb5 C K G. apply wp_last. apply (w_DROP _ _ _ _ _ _ _ _ _ _ 2 H); [lia|lia|]. clear H.
    intros s6 st6 g6 H Hb6 [U6 _ _ C6]. destruct (C6 _ C) as [C7 _]. destruct (G _ g6 U6 C7) as [G1 G2]. apply wp_ret.
    apply (break tot x0 t0 _ _ _ _ _ _ _ _ H); [done|by left|destruct Hb; split; lia|destruct Hb; left; lia]. }
  assert (Gc : forall s5 st5 g5 t, has s5 (y - 1) l Z_OK st5 g5 -> 2 <= rd_bits s5 -> capturing st5 1 -> cap st5 = 1 -> wp (bad t;; DROPBITS 2) (post r0) stop s5).
  { clear H. intros s5 st5 g5 t H Hb5 C K. unfold bad. do 3 step. eapply (G _ _ _ H); [lia|by apply (capturing_ext st5)|exact K|]. intros st6 g6 U6 C6.
    unfold data_ok. by rewrite (same_mode _ _ U6). }
  repeat match goal with |- wp ((if ?v =? ?w then _ else _) ≫= _) _ _ _ => destruct (v =? w) end.
  - do 3 step. match type of H with Invariant.has _ _ _ _ _ ?x _ =>
      assert (F : capturing x 1 /\ cap x = 1 /\ mode x = IM.STORED /\ itree_type x = 0) by (split; [by apply (capturing_ext st4)|by split]) end.
    abstract_state H F st5. destruct F as (F1 & F2 & F3 & F4). eapply (G _ _ _ H); [lia|done|done|]. intros st6 g6 U6 C6. unfold data_ok.
    rewrite (same_mode _ _ U6), F3. split; [|done]. split; [|by rewrite (same_itree _ _ U6)]. destruct C6. by split; [done..|lia].
  - do 6 step. match type of H with Invariant.has _ _ _ _ _ ?x _ =>
      assert (F : capturing x 1 /\ cap x = 1 /\ mode x = IM.SEND_HEADER /\ itree_type x = 1 /\ tables x) end.
    { split; [by apply (capturing_ext st4)|]. split; [exact K5|]. split; [done|]. split; [done|]. split; [exact lenfix_wf|exact distfix_wf]. }
    abstract_state H F st5. destruct F as (F1 & F2 & F3 & F4 & F5).
    assert (Hf : forall st6 g6, uncaptured st6 = uncaptured st5 -> capturing st6 3 -> data_ok st6 g6 /\ pend_at (mode st6) st6 g6 <= 48).
    { intros st6 g6 U6 C6. unfold data_ok. rewrite (same_mode _ _ U6), F3. split.
      - split; [left; destruct C6; split; [done..|lia]|]. apply (body_ext st5); [exact (same_body _ _ U6)|]. unfold body_ok. by rewrite F4.
      - cbn [pend_at]. rewrite (cp_flag _ _ C6). change (1 =? 1) with true. cbv iota. pose proof (cp_bound _ _ C6). lia. }
    destruct (flush =? Z_TREES) eqn:Ef; cbn [when].
    + step. apply (w_DROP _ _ _ _ _ _ _ _ _ _ 2 H); [lia|lia|]. clear H. intros s6 st6 g6 H Hb6 [U6 _ _ C6].
      destruct (C6 _ F1) as [C7 _]. destruct (Hf st6 g6 U6 C7) as [G1 G2]. apply wp_bind, wp_exit.
      apply (leaves tot flush x0 t0 _ _ _ _ _ _ H); [done|destruct Hb; split; lia|]. right. right. split; [apply H|]. right. right. right. lia.
    + step. eapply (G _ _ _ H); [lia|done|done|exact Hf].
  - do 3 step. match type of H with Invariant.has _ _ _ _ _ ?x _ =>
      assert (F : capturing x 1 /\ cap x = 1 /\ mode x = IM.TABLE /\ itree_type x = 2) by (split; [by apply (capturing_ext st4)|by split]) end.
    abstract_state H F st5. destruct F as (F1 & F2 & F3 & F4). eapply (G _ _ _ H); [lia|done|done|]. intros st6 g6 U6 C6. unfold data_ok.
    rewrite (same_mode _ _ U6), F3. split; [split; [done|rewrite (same_itree _ _ U6); lia]|]. pose proof (cp_bound _ _ C6). cbn [pend_at]. lia.
  - by eapply Gc; [exact H|lia|..].
Qed.
Lemma TYPE_ok : handles IM.TYPE (h_TYPE flush).
Proof.
  intros r0 s He. unfold h_TYPE. destruct ((flush =? Z_BLOCK) || (flush =? Z_TREES)) eqn:Ef; [|exact (TYPEDO_ok IM.TYPE (or_introl eq_refl) r0 s He)].
  apply entry_inv in He as (y & l & st & g & H & Em & Hd & Hb & Hr). apply wp_exit.
  apply (leaves tot flush x0 t0 _ _ _ _ _ _ H); [unfold data_ok; by rewrite Em|by rewrite Em|].
  right. right. split; [apply H|]. apply orb_true_iff in Ef as [E|E]; lia.
Qed.

(** *** Codes *)

(** what the codes of a block leave alone *)
Definition kept (st : inflate_state) := (mode st, cap_view st, table_view st).
Lemma kept_mode st st' : kept st' = kept st -> mode st' = mode st.
Proof. by intros [= -> _ _]. Qed.
Lemma kept_closed st st' : kept st' = kept st -> closed st -> closed st'.
Proof. intros E. injection E as _ E1 E2 E3 E4 _ _ _ _ _. apply closed_ext. unfold cap_view. congruence. Qed.
Lemma kept_tables st st' : kept st' = kept st -> tables st -> tables st'.
Proof. intros E. injection E as _ _ _ _ _ E1 E2 E3 E4 E5. apply tables_ext. unfold table_view. congruence. Qed.

(** DROPBITS after the header *)
Lemma w_DROP0 {B} (k : unit -> M im B) Q E s y l r st g n :
  has s y l r st g -> closed st -> 0 <= n <= rd_bits s -> n <= 16 ->
  (forall s', has s' (y - n) l r st g -> rd_bits s' = rd_bits s - n -> wp (k tt) Q E s') -> wp (DROPBITS n ≫= k) Q E s.
Proof.
  intros H Hc Hn H16 HQ. apply (w_DROP tot k Q E s y l r st g n H Hn H16). intros s' st' g' H' Hb [_ _ D _].
  destruct (D (cd_flag _ Hc)) as [-> ->]. by apply HQ.
Qed.
Lemma w_drop_code {B} (k : unit -> M im B) Q E s y l r st g n :
  has s y l r st g -> closed st -> 0 <= n <= rd_bits s -> n <= 16 ->
  (forall s' st', has s' (y - n) l r st' g -> kept st' = kept st -> rd_bits s' = rd_bits s - n -> wp (k tt) Q E s') ->
  wp (drop_code n ≫= k) Q E s.
Proof.
  intros H Hc Hn H16 HQ. unfold drop_code. step. apply (w_DROP0 _ _ _ _ _ _ _ _ _ _ H Hc Hn H16). clear H. intros s1 H Hb. step.
  apply (HQ _ _ H); [done|]. lia.
Qed.

(** the extra bits of a length or a distance *)
Lemma w_extra {B} (f : Z -> inflate_state -> inflate_state) (k : unit -> M im B) Q m s y l st g (e := extra st) :
  has s y l Z_OK st g -> mode st = m -> data_at m st g -> budget y l (pend_at m st g) -> closed st -> 0 <= e <= 15 ->
  (forall v st, kept (f v st) = kept st) ->
  (forall s' y' st', has s' y' l Z_OK st' g -> kept st' = kept st -> y' <= y -> wp (k tt) Q stop s') ->
  wp (when (negb (e =? 0)) (NEEDBITS e;; v ← gets (BITS e); upd (f v);; DROPBITS e;; upd (fun st => st <| back := back st + e |>)) ≫= k) Q stop s.
Proof.
  intros H Em Hd Hb Hc He Hf HQ. destruct (Z.eqb_spec e 0) as [E|E]; cbn [when negb].
  - step. apply (HQ _ _ _ H); [done|lia].
  - step. apply (w_read e _ _ _ _ _ _ _ _ H Em Hd Hb); [lia|]. clear H. intros s1 H Hn. do 4 step.
    assert (K : kept (f v st) = kept st) by apply Hf. abstract_state H K st1. step.
    match type of H with Invariant.has _ ?s2 _ _ _ _ _ => assert (Hn2 : e <= rd_bits s2) by lia end.
    apply (w_DROP0 _ _ _ _ _ _ _ _ _ _ H (kept_closed _ _ K Hc)); [lia|lia|]. clear H. intros s3 H Hb3. step.
    apply (HQ _ _ _ H); [exact K|lia].
Qed.

Lemma DISTEXT_ok : handles IM.DISTEXT h_DISTEXT.
Proof.
  begin. unfold h_DISTEXT. step. destruct Hd as (Hc & Ht & He).
  apply (w_extra (fun v st => st <| offset := u32 (offset st + v) |>) _ _ IM.DISTEXT s y l st g H Em); [done|done|done|done|done|].
  clear H. intros s1 y' st1 H K Hy. do 3 step. apply MATCH_ok. apply (enter tot x0 t0 _ _ _ _ _ _ _ H); [done| |easy_budget|easy_budget].
  split; [by apply (closed_ext st1), (kept_closed st)|]. split; [by apply (tables_ext st1), (kept_tables st)|].
  split; cbn; lia.
Qed.

(** looking a code up: the entry is in the table, and its bits are there *)
Section Look.
Context {B : Type} (tab : inflate_state -> code_ptr) (nbits : inflate_state -> Z) (type : codetype) (n : nat).
Context (m : IM.inflate_mode) (st : inflate_state) (g : inf_globals) (y l : Z).
Abbreviation at_ := (code_at st (tab st)).
Abbreviation root := (nbits st).
Context (Hw : table_wf type n at_ root) (Em : mode st = m) (Hd : data_at m st g) (Hb : budget y l (pend_at m st g)).

Lemma w_look (k : code -> M im B) Q s :
  has s y l Z_OK st g ->
  (forall s' i, has s' y l Z_OK st g -> 0 <= i < 2 ^ root -> cbits (at_ i) <= rd_bits s' -> wp (k (at_ i)) Q stop s') ->
  wp (look tab nbits ≫= k) Q stop s.
Proof using Hw Em Hd Hb.
  intros H HQ. pose proof (tw_ok _ _ _ _ Hw) as T. pose proof (tb_root _ _ T) as Hr. pose proof (ha_bits _ _ _ _ _ _ _ H) as Hbits.
  pose proof (ro_bits _ (ha_ok _ _ _ _ _ _ _ H)) as Hb0.
  assert (S : forall s', pulled s s' -> state s' = st) by (intros s' P; rewrite (pulled_state _ _ P); apply H).
  apply (wp_lookup _ _ root); [apply H|lia|lia| | |].
  - intros s' P. rewrite (S s' P). apply (tb_bits _ _ T). apply BITS_range. lia.
  - intros s' P H1 H2. rewrite (S s' P) in *. apply HQ; [apply (has_pulled tot s y l Z_OK st g H s' P); lia|apply BITS_range; lia|done].
  - intros s' P H1 H2. subst m. apply (starved tot flush x0 t0 _ y l st g); [apply (has_pulled tot s y l Z_OK st g H s' P); lia|done|done|done].
Qed.
Lemma w_look2 (k : code -> M im B) Q s i :
  has s y l Z_OK st g -> 0 <= i < 2 ^ root -> is_link (at_ i) ->
  (forall s' h, has s' y l Z_OK st g -> made type n h -> root + cbits h <= rd_bits s' -> wp (k h) Q stop s') ->
  wp (look2 tab (at_ i) ≫= k) Q stop s.
Proof using Hw Em Hd Hb.
  intros H Hi L HQ. pose proof (tw_ok _ _ _ _ Hw) as T. pose proof (tb_root _ _ T) as Hr. pose proof (ha_bits _ _ _ _ _ _ _ H) as Hbits.
  pose proof (ro_bits _ (ha_ok _ _ _ _ _ _ _ H)) as Hb0. destruct (tb_link _ _ T i Hi L) as (Ec & Ho & _ & Hj). pose proof L as L'. unfold is_link in L'.
  assert (S : forall s', pulled s s' -> state s' = st) by (intros s' P; rewrite (pulled_state _ _ P); apply H).
  assert (J : forall s', 0 <= Z.shiftr (BITS (cbits (at_ i) + op (at_ i)) s') (cbits (at_ i)) < 2 ^ op (at_ i)).
  { intros s'. pose proof (BITS_range (cbits (at_ i) + op (at_ i)) s' ltac:(lia)) as R. rewrite Z.shiftr_div_pow2 by lia.
    split; [apply Z.div_pos; lia|]. apply Z.div_lt_upper_bound; [lia|]. rewrite <- Z.pow_add_r by lia. lia. }
  apply (wp_lookup _ _ 15); [apply H|lia|lia| | |].
  - intros s' P. rewrite (S s' P). destruct (Hj _ (J s')) as [A _]. lia.
  - intros s' P H1 H2. rewrite (S s' P) in *. apply HQ; [apply (has_pulled tot s y l Z_OK st g H s' P); lia| |lia].
    apply (tw_made2 _ _ _ _ Hw i Hi L _ (J s')).
  - intros s' P H1 H2. subst m. apply (starved tot flush x0 t0 _ y l st g); [apply (has_pulled tot s y l Z_OK st g H s' P); lia|done|done|done].
Qed.

(** one code of one or two levels, [link] being the test of LEN or DIST *)
Lemma w_code (link : code -> bool) (k : code -> M im B) Q s :
  has s y l Z_OK st g -> closed st -> (forall h, is_link h -> link h = true) -> (forall h, made type n h -> link h = false) ->
  (forall s' y' st' h, has s' y' l Z_OK st' g -> kept st' = kept st -> y' < y -> made type n h -> wp (k h) Q stop s') ->
  wp (here ← look tab nbits; here ← (if link here then h2 ← look2 tab here; drop_code (cbits here);; mret h2 else mret here);
      drop_code (cbits here);; k here) Q stop s.
Proof using Hw Em Hd Hb.
  intros H Hc Hl1 Hl2 HQ. pose proof (tw_ok _ _ _ _ Hw) as T. pose proof (tb_root _ _ T) as Hr. apply w_look; [done|].
  clear H. intros s1 i H Hi Hcb. pose proof (tb_bits _ _ T i Hi) as Hci. destruct (decide (is_link (at_ i))) as [L|L].
  - rewrite (Hl1 _ L). step. destruct (tb_link _ _ T i Hi L) as (Ec & Ho & _ & _). unfold is_link in L.
    apply (w_look2 _ _ _ i H Hi L). clear H. intros s2 h H Hm Hbits. step. pose proof (proj1 Hm) as Hch.
    pose proof (ha_bits _ _ _ _ _ _ _ H). apply (w_drop_code _ _ _ _ _ _ _ _ _ _ H Hc); [lia|lia|]. clear H. intros s3 st3 H K3 Hb3. step.
    apply (w_drop_code _ _ _ _ _ _ _ _ _ _ H (kept_closed _ _ K3 Hc)); [lia|lia|]. clear H. intros s4 st4 H K4 Hb4.
    apply (HQ _ _ _ h H); [congruence|lia|done].
  - destruct (tw_made _ _ _ _ Hw i Hi) as [?|Hm]; [done|]. rewrite (Hl2 _ Hm). step. pose proof (proj1 Hm) as Hch.
    apply (w_drop_code _ _ _ _ _ _ _ _ _ _ H Hc); [lia|lia|]. clear H. intros s2 st2 H K2 Hb2. apply (HQ _ _ _ _ H K2); [lia|done].
Qed.
End Look.

(** the tests for a link *)
Lemma link_op_land h : is_link h -> Z.land (op h) 0xf0 = 0 /\ op h <> 0.
Proof.
  intros L. unfold is_link in L. assert (A : all_below 16 (fun o => Z.land o 0xf0 =? 0) = true) by (vm_compute; reflexivity).
  pose proof (all_below_spec _ _ A (op h) ltac:(lia)) as E. cbv beta in E. lia.
Qed.
Lemma op_hi e : 16 <= e <= 255 -> Z.land e 0xf0 <> 0.
Proof.
  intros He. assert (A : all_below 256 (fun e => (e <? 16) || negb (Z.land e 0xf0 =? 0)) = true) by (vm_compute; reflexivity).
  pose proof (all_below_spec _ _ A e ltac:(lia)) as E. cbv beta in E. lia.
Qed.
Lemma land15 x : 0 <= Z.land x 15 <= 15.
Proof. rewrite (land_ones_mod 4) by lia. pose proof (Z.mod_pos_bound x (2 ^ 4)). lia. Qed.

Lemma DIST_ok : handles IM.DIST h_DIST.
Proof.
  begin. unfold h_DIST. destruct Hd as (Hc & Ht). pose proof (tb_dist _ Ht) as Hw.
  apply (w_code distcode distbits DISTS 32 IM.DIST st g y l Hw Em (conj Hc Ht) Hb (fun h => Z.land (op h) 0xf0 =? 0) dist_found _ s H Hc).
  - intros h L. destruct (link_op_land h L). lia.
  - intros h Hm. apply Z.eqb_neq. destruct (made_dists h Hm) as [Ho|(_ & _ & Ho)]; apply op_hi; [lia|]. pose proof (made_op h DISTS 32 Hm). lia.
  - clear H. intros s1 y' st1 h H K Hy Hm. unfold dist_found. destruct (negb (Z.land (op h) 64 =? 0)); [apply (w_bad _ _ _ _ _ _ _ _ H); easy_budget|].
    step. match type of H with Invariant.has _ _ _ _ _ ?x _ => assert (F : closed x /\ tables x /\ 0 <= extra x <= 15) end.
    { split; [by apply (closed_ext st1), (kept_closed st)|]. split; [by apply (tables_ext st1), (kept_tables st)|apply land15]. }
    abstract_state H F st2. step. apply DISTEXT_ok. apply (enter tot x0 t0 _ _ _ _ _ _ _ H); [done| |easy_budget|easy_budget].
    destruct F as (F1 & F2 & F3). split; [by apply (closed_ext st2)|]. split; [by apply (tables_ext st2)|done].
Qed.
Lemma LENEXT_ok : handles IM.LENEXT h_LENEXT.
Proof.
  begin. unfold h_LENEXT. step. destruct Hd as (Hc & Ht & He).
  apply (w_extra (fun v st => st <| length_ := u32 (length_ st + v) |>) _ _ IM.LENEXT s y l st g H Em); [done|done|done|done|done|].
  clear H. intros s1 y' st1 H K Hy. do 2 step. apply DIST_ok. apply (enter tot x0 t0 _ _ _ _ _ _ _ H); [done| |easy_budget|easy_budget].
  split; [by apply (closed_ext st1), (kept_closed st)|by apply (tables_ext st1), (kept_tables st)].
Qed.

(** a turn of the fast loop *)
Lemma fast_ok_ r0 s y l st g :
  has s y l Z_OK st g -> mode st = IM.LEN -> closed st -> tables st -> budget y l 0 -> 6 <= have_in s -> 258 <= l ->
  wp (modify RESTORE;; s ← gets id;
      match inflate_fast (strm s) (state s) with
      | None => exit_with Diverge
      | Some (zs, st) => modify (fun s => LOAD (s <| strm := zs |> <| state := st |>));;
          upd (fun st => if bool_decide (mode st = IM.TYPE) then st <| back := -1 |> else st)
      end) (post r0) stop s.
Proof.
  intros H Em Hc Ht Hb Hin Hl. apply wp_modify, wp_id.
  assert (Er : srdr (strm (RESTORE s)) (state (RESTORE s)) = mk_reader (l_next s) (l_hold s) (l_bits s)) by reflexivity.
  assert (Eo : avail_out (strm (RESTORE s)) = l_left s /\ next_in (strm (RESTORE s)) = l_next s /\ next_out (strm (RESTORE s)) = l_put s
    /\ kept (state (RESTORE s)) = kept (state s) /\ glob (RESTORE s) = glob s /\ l_ret (RESTORE s) = l_ret s) by done.
  revert Er Eo. generalize (RESTORE s). intros s1 Er (E1 & E2 & E3 & K & E4 & E5).
  pose proof H as [O1 O2 O3 O4 O5 O6 O7 O8 O9]. rewrite O8 in K.
  destruct (inflate_fast_safe (strm s1) (state s1)) as (zs' & st' & put & -> & [[R1 R2] R3 R4 R5 R6 R7 R8 R9]).
  { by apply (kept_tables st). }
  { rewrite Er. destruct O1 as [P1 P2 P3]. by split. }
  { rewrite E2. unfold have_in in Hin. change (rd_next s) with (l_next s) in Hin. lia. }
  { lia. }
  rewrite Er in R8, R9. change (stream (mk_reader (l_next s) (l_hold s) (l_bits s))) with (stream s) in R8, R9.
  apply wp_modify. match goal with |- wp _ _ _ ?x => set (s2 := x) end.
  assert (H2 : has s2 (Z.of_nat (length (stream (srdr zs' st')))) (l - Z.of_nat (length put)) Z_OK st' g).
  { split; try done.
    - destruct R1 as [P1 P2 P3]. by split.
    - change (bits st' <= 39). lia.
    - change (avail_out zs' = l - Z.of_nat (length put)). lia.
    - lia.
    - change (Z.of_nat (length (next_out zs')) + (l - Z.of_nat (length put)) = tot). rewrite R5, length_app, E3. lia.
    - change (l_ret s1 = Z_OK). congruence.
    - change (glob s1 = g). congruence. }
  clearbody s2. rewrite O3 in *. apply wp_last. step. apply wp_ret.
  set (y2 := Z.of_nat (length (stream (srdr zs' st')))) in *. clearbody y2.
  match type of H2 with Invariant.has _ _ _ _ _ ?x _ => assert (F : kept x = kept st') by (by case_match) end.
  abstract_state H2 F st2. assert (Em2 : mode st2 = IM.BAD \/ mode st2 = IM.TYPE \/ mode st2 = IM.LEN).
  { rewrite (kept_mode _ _ F). destruct R4 as [->|[[-> | ->] _]]; [by left|by right; left|right; right]. rewrite (kept_mode _ _ K). done. }
  apply (break tot x0 t0 _ _ _ _ _ _ _ _ H2).
  - unfold data_ok. destruct Em2 as [-> |[-> | Em2]]; [done..|]. rewrite Em2.
    pose proof (f_equal cap_view R3) as V1. pose proof (f_equal table_view R3) as V2.
    change (cap_view st' = cap_view (state s1)) in V1. change (table_view st' = table_view (state s1)) in V2.
    split.
    + by apply (kept_closed st'), (closed_ext (state s1)), (kept_closed st).
    + by apply (kept_tables st'), (tables_ext (state s1)), (kept_tables st).
  - by left.
  - destruct Em2 as [-> |[-> | ->]]; easy_budget.
  - left. destruct Hb. lia.
Qed.

(** a literal, a length or the end of the block *)
Lemma len_found_ok r0 s y l st g h :
  has s y l Z_OK st g -> closed st -> tables st -> budget y l 16 -> y + l < x0 -> made LENS 288 h -> wp (len_found h) (post r0) stop s.
Proof.
  intros H Hc Ht Hb Hy Hm. unfold len_found. step.
  match type of H with Invariant.has _ _ _ _ _ ?x _ => assert (F : closed x /\ tables x) by (split; [by apply (closed_ext st)|by apply (tables_ext st)]) end.
  abstract_state H F st1. destruct F as [Hc1 Ht1]. clear Hc Ht. destruct (Z.eqb_spec (op h) 0) as [E|E].
  - step. set (w := if val h =? 0xaa then _ else _). assert (Hw : (1 <= length w <= 2)%nat) by (unfold w; case_match; cbn; lia). clearbody w.
    apply wp_last. step. apply wp_ret. apply (break tot x0 t0 _ _ _ _ _ _ _ _ H).
    + split; [by apply (closed_ext st1)|]. split; [by apply (tables_ext st1)|]. split; cbn; lia.
    + by left.
    + cbn. destruct Hb. split; lia.
    + left. lia.
  - destruct (negb (Z.land (op h) 32 =? 0)); [|destruct (negb (Z.land (op h) 64 =? 0))].
    + step. apply (w_to _ _ _ _ _ _ _ H); [by apply (closed_ext st1)|exact Hb|by left].
    + apply (w_bad _ _ _ _ _ _ _ _ H); easy_budget.
    + step. match type of H with Invariant.has _ _ _ _ _ ?x _ => assert (F : closed x /\ tables x /\ 0 <= extra x <= 15) end.
      { split; [by apply (closed_ext st1)|]. split; [by apply (tables_ext st1)|apply land15]. }
      abstract_state H F st2. step. apply LENEXT_ok. apply (enter tot x0 t0 _ _ _ _ _ _ _ H); [done| |exact Hb|by left].
      destruct F as (F1 & F2 & F3). split; [by apply (closed_ext st2)|]. split; [by apply (tables_ext st2)|done].
Qed.
Lemma LEN_ok : handles IM.LEN h_LEN.
Proof.
  begin. destruct Hd as (Hc & Ht). unfold h_LEN. step. destruct ((have_in s >=? 6) && (l_left s >=? 258)) eqn:Ef.
  - apply andb_true_iff in Ef as [E1 E2]. rewrite (ha_left _ _ _ _ _ _ _ H) in E2. by apply (fast_ok_ r0 s y l st g H Em Hc Ht Hb); lia.
  - step. assert (K : kept (st <| back := 0 |>) = kept st) by done. abstract_state H K st1.
    pose proof (kept_closed _ _ K Hc) as Hc1. pose proof (kept_tables _ _ K Ht) as Ht1. pose proof (kept_mode _ _ K) as Em1. rewrite Em in Em1.
    apply (w_code lencode lenbits LENS 288 IM.LEN st1 g y l (tb_len _ Ht1) Em1 (conj Hc1 Ht1) Hb
      (fun h => negb (op h =? 0) && (Z.land (op h) 0xf0 =? 0)) len_found _ _ H Hc1).
    + intros h L. destruct (link_op_land h L). lia.
    + intros h Hm. destruct (made_lens h Hm) as [->|[Ho|(_ & _ & Ho)]]; [done| |]; pose proof (made_op h LENS 288 Hm);
        pose proof (op_hi (op h) ltac:(lia)); lia.
    + clear H. intros s2 y' st2 h H K2 Hy Hm. destruct Hb as [B1 B2]. cbn [pend_at] in B2.
      apply (len_found_ok r0 s2 y' l st2 g h H (kept_closed _ _ K2 Hc1) (kept_tables _ _ K2 Ht1)); [split; lia|lia|done].
Qed.
Lemma LEN__ok : handles IM.LEN_ h_LEN_.
Proof.
  begin. unfold h_LEN_. step. apply LEN_ok. apply (enter tot x0 t0 _ _ _ _ _ _ _ H); [done| |easy_budget|easy_budget].
  destruct Hd as [A B]. split; [by apply (closed_ext st)|by apply (tables_ext st)].
Qed.
End Turns.
