(* ===== verification/TurnsHeader.v ===== *)
(** * The turns of [j_inflate] that read the header of a dynamic block

    TABLE, LENLENS and CODELENS: the code lengths stay in range and the captured bits
    within [header_buf], and a header that is accepted leaves two well-formed tables. *)
From Stdlib Require Import String.
From S2P Require Import Prelude DeflateTables Inftrees Zlib Trees Format Encode Bitstream Wp.
From S2P Require Import InflateState Inffast Inflate Codebook Sorting Huffman Fastpath Decoding Capture Invariant Fastsafe Turns.
#[local] Open Scope string_scope.
#[local] Open Scope Z_scope.
#[local] Open Scope list_scope.

(** ** The loops over the code lengths *)

Definition head_view (st : inflate_state) := (mode st, itree_type st, ncode st, nlen st, ndist st, cap_view st).
Lemma head_fields st st' : head_view st' = head_view st ->
  mode st' = mode st /\ itree_type st' = itree_type st /\ ncode st' = ncode st /\ nlen st' = nlen st /\ ndist st' = ndist st
  /\ cap_view st' = cap_view st.
Proof. intros E. injection E as E1 E2 E3 E4 E5 E6 E7 E8 E9. unfold cap_view. split_and!; congruence. Qed.
Lemma counts_head st st' : ncode st' = ncode st -> nlen st' = nlen st -> ndist st' = ndist st -> counts st -> counts st'.
Proof. intros E1 E2 E3 [A B C]. split; lia. Qed.

Lemma zero_lens_spec n st :
  0 <= have st <= 19 -> 19 - have st <= Z.of_nat n ->
  (forall i, 0 <= i < have st -> 0 <= aget 0 (lens st) (tget 0 order i) <= 7) ->
  head_view (zero_lens n st) = head_view st
  /\ forall i, 0 <= i < 19 -> 0 <= aget 0 (lens (zero_lens n st)) (tget 0 order i) <= 7.
Proof.
  revert st. induction n as [|n IH]; intros st Hh Hn HI; cbn [zero_lens].
  - split; [done|]. intros i Hi. apply HI. lia.
  - destruct (Z.ltb_spec (have st) 19) as [L|L]; [|split; [done|]; intros i Hi; apply HI; lia].
    set (st1 := st <| lens := aset (lens st) (tget 0 order (have st)) 0 |> <| have := have st + 1 |>).
    assert (E1 : have st1 = have st + 1) by reflexivity.
    assert (E2 : lens st1 = aset (lens st) (tget 0 order (have st)) 0) by reflexivity.
    assert (E3 : head_view st1 = head_view st) by reflexivity.
    destruct (IH st1) as [A B]; [lia|lia| |by rewrite A].
    intros i Hi. rewrite E2, aget_aset. destruct (Z.eqb_spec (tget 0 order (have st)) (tget 0 order i)); [lia|].
    apply HI. destruct (Z.eq_dec i (have st)) as [->|]; [done|lia].
Qed.
Lemma order_onto j : 0 <= j < 19 -> exists i, 0 <= i < 19 /\ tget 0 order i = j.
Proof.
  intros Hj. assert (A : all_below 19 (fun j => existsb (fun i => tget 0 order (Z.of_nat i) =? j) (seq 0 19)) = true) by (vm_compute; reflexivity).
  pose proof (all_below_spec _ _ A j Hj) as B. apply existsb_exists in B as (i & Hi & E). apply in_seq in Hi.
  exists (Z.of_nat i). split; [lia|]. by apply Z.eqb_eq in E.
Qed.
Lemma put_lens_spec n len st :
  0 <= len <= 15 -> 0 <= have st -> have st + Z.of_nat n < 65536 -> (forall i, 0 <= i < have st -> 0 <= aget 0 (lens st) i <= 15) ->
  head_view (put_lens n len st) = head_view st /\ table_view (put_lens n len st) = table_view st
  /\ have (put_lens n len st) = have st + Z.of_nat n
  /\ forall i, 0 <= i < have st + Z.of_nat n -> 0 <= aget 0 (lens (put_lens n len st)) i <= 15.
Proof.
  revert st. induction n as [|n IH]; intros st Hl Hh Hn HI; cbn [put_lens].
  - split; [done|]. split; [done|]. split; [lia|]. intros i Hi. apply HI. lia.
  - set (st1 := st <| lens := _ |> <| have := _ |>).
    assert (E1 : have st1 = have st + 1) by (change (u32 (have st + 1) = have st + 1); apply u32_small; lia).
    assert (E2 : lens st1 = aset (lens st) (have st) len) by (unfold st1; cbn [lens set_field]; rewrite u16_small by lia; done).
    assert (E3 : head_view st1 = head_view st) by reflexivity. assert (E4 : table_view st1 = table_view st) by reflexivity.
    destruct (IH st1) as (A & B & C & D); [done|lia|lia| |].
    { intros i Hi. rewrite E2, aget_aset. destruct (Z.eqb_spec (have st) i); [lia|]. apply HI. lia. }
    rewrite A, B, C. split; [done|]. split; [done|]. split; [lia|]. intros i Hi. apply D. lia.
Qed.

Section Turns.
Context (tot flush x0 t0 : Z).
Abbreviation has := (has tot).
Abbreviation post := (post tot x0 t0).
Abbreviation stop := (stop tot flush x0 t0).
Abbreviation handles := (handles tot flush x0 t0).
Abbreviation budget := (budget x0 t0).

(** the machine inside a loop of the mode [m], with the values of the loop's condition *)
Record inside (r0 : Z) (m : IM.inflate_mode) (l : Z) (st : inflate_state) (s : im) : Prop := {
  in_has : exists y g, has s y l Z_OK st g /\ budget y l (cap st + 40) /\ (y + l < x0 \/ rank m <= r0) /\ data_at m st g;
  in_mode : mode st = m }.

(** ** LENLENS *)

Lemma lenlens_turn_ok r0 l s :
  (exists st, inside r0 IM.LENLENS l st s) ->
  wp lenlens_turn (fun x s' => match x with
    | Some _ => exists st, inside r0 IM.LENLENS l st s' /\ have st = ncode st
    | None => (exists st, inside r0 IM.LENLENS l st s')
        /\ (Z.to_nat (ncode (state s') - have (state s')) < Z.to_nat (ncode (state s) - have (state s)))%nat end) stop s.
Proof.
  intros (st & [(y & g & H & Hb & Hr & Hd) Em]). unfold lenlens_turn. step. pose proof Hd as (Hc & Hi & Hn & Hh & HI).
  pose proof (ct_ncode _ Hn) as Hnc. destruct (Z.ltb_spec (have st) (ncode st)) as [L|L].
  - rewrite (ha_st _ _ _ _ _ _ _ H). apply (w_read tot flush x0 t0 3 _ _ IM.LENLENS s y l st g H Em Hd Hb); [lia|]. clear H. intros s1 H Hn1. do 2 step.
    match type of H with Invariant.has _ _ _ _ _ ?x _ => assert (F : capturing x (17 + 3 * have st) /\ cap x = cap st /\ mode x = IM.LENLENS
      /\ itree_type x <> 0 /\ counts x /\ have x = have st + 1 /\ ncode x = ncode st
      /\ forall i, 0 <= i < have st + 1 -> 0 <= aget 0 (lens x) (tget 0 order i) <= 7) end.
    { split; [by apply (capturing_ext st)|]. split; [done|]. split; [done|]. split; [done|]. split; [by apply (counts_head st)|]. split; [done|]. split; [done|].
      intros i Hi1. cbn [lens set_field]. rewrite aget_aset. destruct (Z.eqb_spec (tget 0 order (have st)) (tget 0 order i)); [lia|].
      apply HI. destruct (Z.eq_dec i (have st)) as [->|]; [done|lia]. }
    abstract_state H F st1. destruct F as (F1 & F2 & F3 & F4 & F5 & F6 & F7 & F8).
    apply (w_DROP _ _ _ _ _ _ _ _ _ _ 3 H); [lia|lia|]. clear H. intros s2 st2 g2 H Hb2 [U _ _ C]. destruct (C _ F1) as [C1 C2]. apply wp_ret.
    rewrite (ha_st _ _ _ _ _ _ _ H). pose proof (f_equal have U) as E1. pose proof (f_equal ncode U) as E2. pose proof (f_equal lens U) as E3.
    change (have st2 = have st1) in E1. change (ncode st2 = ncode st1) in E2. change (lens st2 = lens st1) in E3.
    split; [|lia]. exists st2. split; [|by rewrite (same_mode _ _ U)]. exists (y - 3), g2. split; [done|]. split; [destruct Hb; split; lia|].
    split; [destruct Hb; destruct Hr; lia|]. split; [destruct C1; by split; [done..|lia]|]. split; [by rewrite (same_itree _ _ U)|].
    split; [by apply (counts_uncaptured st1)|]. split; [lia|]. intros i Hi1. rewrite E3. apply F8. lia.
  - apply wp_ret. exists st. split; [|lia]. split; [|done]. by exists y, g.
Qed.

(** ** Building a table *)

Lemma w_build {B} type off n nbits set_bits (k : Z -> M im B) Q E s y l r st g (lens_ := fun i => aget 0 (lens st) (off st + i)) :
  has s y l r st g -> 0 <= n st < 65536 -> (forall i, 0 <= i < n st -> 0 <= lens_ i <= 15) -> 1 <= nbits st <= 15 ->
  (type = CODES -> nbits st <= 7 /\ forall i, 0 <= i < n st -> lens_ i <= nbits st) ->
  (forall s' res, has s' y l (r_ret res) (set_bits (r_bits res) (st <| codes := r_mem res |> <| work := r_work res |> <| next := r_table res |>)) g ->
     (r_ret res = 0 -> built false type lens_ (Z.to_nat (n st)) (next st) (codes st) ∅ res) -> wp (k (r_ret res)) Q E s') ->
  wp (build_table type off n nbits set_bits ≫= k) Q E s.
Proof.
  intros H Hn HL Hb HC HQ. unfold build_table. do 2 step. change (inflate_table type) with (fun l c t b m w => inflate_table_gen false type l c t b m w ∅).
  cbv beta. fold lens_. pose proof (Z2Nat.id (n st) ltac:(lia)) as En.
  destruct (inflate_table_run false type lens_ (Z.to_nat (n st)) (next st) (nbits st) (codes st) (work st) ∅) as (res & Er & Hres);
    rewrite ?En in *; [lia|done|done|done|]. rewrite Er. do 4 step. apply (HQ _ res H). intros R.
  destruct Hres as [(A & _)|[(A & _)|(_ & A)]]; [lia|lia|done].
Qed.

(** the tables built are well-formed *)
Lemma built_codes lens_ table mem tree res st :
  built false CODES lens_ 19 table mem tree res -> codes st = r_mem res -> lencode st = Codes table -> lenbits st = r_bits res ->
  codes_table st /\ lenbits st <= 7.
Proof.
  intros [_ _ T _ _] E1 E2 E3. pose proof (T (r_mem res) ltac:(done)) as Hc.
  assert (E : code_at st (lencode st) = fun i => aget code_zero (r_mem res) (table + i)) by (unfold code_at; by rewrite E2, E1).
  unfold codes_table. rewrite E, E3. split; [|by apply (tc_root _ _ _ _ _ Hc)]. split; [by apply (codes_wf CODES lens_ 19)|].
  intros i Hi. destruct (tc_made _ _ _ _ _ Hc i Hi) as [L|]; [|done]. by destruct (tc_flat _ _ _ _ _ Hc eq_refl i Hi).
Qed.
(** the tables of the block, the second behind the first *)
Lemma built_tables l1 l2 n1 n2 mem1 mem tree1 tree2 res1 res2 st :
  built false LENS l1 n1 0 mem1 tree1 res1 -> built false DISTS l2 n2 (r_table res1) mem tree2 res2 -> mem = r_mem res1 ->
  (n1 <= 288)%nat -> (n2 <= 32)%nat -> codes st = r_mem res2 -> lencode st = Codes 0 -> lenbits st = r_bits res1 ->
  distcode st = Codes (r_table res1) -> distbits st = r_bits res2 -> tables st.
Proof.
  intros [_ _ T1 _ _] [_ _ T2 F2 _] -> Hn1 Hn2 E1 E2 E3 E4 E5.
  pose proof (T1 (r_mem res2) ltac:(intros p Hp; apply F2; lia)) as C1. pose proof (T2 (r_mem res2) ltac:(done)) as C2.
  assert (A1 : code_at st (lencode st) = fun i => aget code_zero (r_mem res2) (0 + i)) by (unfold code_at; by rewrite E2, E1).
  assert (A2 : code_at st (distcode st) = fun i => aget code_zero (r_mem res2) (r_table res1 + i)) by (unfold code_at; by rewrite E4, E1).
  split; [rewrite A1, E3; by apply (codes_wf LENS l1 n1)|rewrite A2, E5; by apply (codes_wf DISTS l2 n2)].
Qed.

(** ** CODELENS *)

(** after [d] more header bits of the mode CODELENS *)
Record read_on (l : Z) (st : inflate_state) (y d : Z) (s : im) (st' : inflate_state) (g' : inf_globals) : Prop := {
  rn_has : has s (y - d) l Z_OK st' g';
  rn_view : uncaptured st' = uncaptured st;
  rn_cap : capturing st' (74 + 14 * have st + d);
  rn_bits : cap st' = cap st + d }.
Lemma read_start l s y st g : has s y l Z_OK st g -> capturing st (74 + 14 * have st) -> read_on l st y 0 s st g.
Proof. intros H C. split; [by rewrite Z.sub_0_r|done|by rewrite Z.add_0_r|lia]. Qed.
Lemma w_read_on {B} (k : unit -> M im B) Q E l st y d s st' g' n :
  read_on l st y d s st' g' -> 0 <= n <= rd_bits s -> n <= 16 ->
  (forall s1 st1 g1, read_on l st y (d + n) s1 st1 g1 -> rd_bits s1 = rd_bits s - n -> wp (k tt) Q E s1) -> wp (DROPBITS n ≫= k) Q E s.
Proof.
  intros [H U C K] Hn H16 HQ. apply (w_DROP _ _ _ _ _ _ _ _ _ _ n H); [done|done|]. clear H. intros s1 st1 g1 H Hb [U1 _ _ D].
  destruct (D _ C) as [C1 K1]. apply (HQ s1 st1 g1); [|done].
  split; [by replace (y - (d + n)) with (y - d - n) by lia|congruence| |lia]. by replace (74 + 14 * have st + (d + n)) with (74 + 14 * have st + d + n) by lia.
Qed.

(** a repeat instruction: the extra bits [e] behind the code *)
Lemma w_repeat_bits {B} b e len base (k : option (Z * Z) -> M im B) Q s y l st g :
  has s y l Z_OK st g -> mode st = IM.CODELENS -> data_at IM.CODELENS st g -> budget y l (cap st + 40) -> 0 <= b <= 7 -> 2 <= e <= 7 ->
  (forall s1 st1 g1 v, read_on l st y (b + e) s1 st1 g1 -> 0 <= v < 2 ^ e -> wp (k (Some (len, base + v))) Q stop s1) ->
  wp ((NEEDBITS (b + e);; DROPBITS b;; v ← gets (BITS e); DROPBITS e;; mret (Some (len, base + v))) ≫= k) Q stop s.
Proof.
  intros H Em Hd Hb Hbb He HQ. step. apply (w_read tot flush x0 t0 (b + e) _ _ IM.CODELENS s y l st g H Em Hd Hb); [lia|]. clear H. intros s1 H Hn.
  destruct Hd as [Hc _]. step. apply (w_read_on _ _ _ _ _ _ _ _ _ _ b (read_start _ _ _ _ _ H Hc)); [lia|lia|]. intros s2 st2 g2 R2 Hb2. do 2 step. step.
  apply (w_read_on _ _ _ _ _ _ _ _ _ _ e R2); [lia|lia|]. intros s3 st3 g3 R3 Hb3. step. apply (HQ s3 st3 g3); [exact R3|done].
Qed.

(** what a turn of CODELENS leaves: more lengths, or an error *)
Definition spoilt (r0 : Z) (s : im) : Prop := exists y l st g, has s y l Z_OK st g /\ mode st = IM.BAD
  /\ y + l <= x0 /\ 16 * y - 8 * l <= t0 /\ (y + l < x0 \/ 0 < r0).
Definition codelens_done (r0 l : Z) (s s' : im) (x : option unit) : Prop :=
  match x with
  | Some _ => spoilt r0 s' \/ exists st, inside r0 IM.CODELENS l st s' /\ have st = nlen st + ndist st
  | None => (exists st, inside r0 IM.CODELENS l st s')
      /\ (Z.to_nat (nlen (state s') + ndist (state s') - have (state s')) < Z.to_nat (nlen (state s) + ndist (state s) - have (state s)))%nat
  end.

(** [n] lengths are written, for at most 14 bits each *)
Lemma put_lens_turn r0 l s0 st0 g0 y st d s st' g' n len :
  read_on l st y d s st' g' -> has s0 y l Z_OK st0 g0 -> st0 = st -> mode st = IM.CODELENS -> data_at IM.CODELENS st g0 -> budget y l (cap st + 40) ->
  y + l < x0 \/ 15 <= r0 -> 0 <= len <= 15 -> (1 <= n)%nat -> 0 <= d <= 14 -> have st + Z.of_nat n <= nlen st + ndist st ->
  wp (upd (put_lens n len);; mret None) (fun x s' => codelens_done r0 l s0 s' x) stop s.
Proof.
  intros [H U C K] H0 -> Em (_ & Hi & Hn & Hh & HI & Ht & Hlb) Hb Hr Hlen H1 Hd Hfit. step. apply wp_ret.
  pose proof (ct_nlen _ Hn). pose proof (ct_ndist _ Hn).
  pose proof (f_equal have U) as E1. pose proof (f_equal lens U) as E2. pose proof (f_equal table_view U) as E3.
  change (have st' = have st) in E1. change (lens st' = lens st) in E2. change (table_view st' = table_view st) in E3.
  destruct (put_lens_spec n len st' Hlen) as (A1 & A2 & A3 & A4); [lia|lia|rewrite E1, E2; exact HI|].
  destruct (head_fields _ _ A1) as (B1 & B2 & B3 & B4 & B5 & B6). rewrite E1 in A3, A4.
  pose proof (same_mode _ _ U) as M1. pose proof (same_itree _ _ U) as M2. pose proof (counts_uncaptured _ _ U Hn) as Hn'.
  pose proof (f_equal nlen U) as N1. pose proof (f_equal ndist U) as N2. change (nlen st' = nlen st) in N1. change (ndist st' = ndist st) in N2.
  match type of H with Invariant.has _ ?s1 _ _ _ _ _ => unfold codelens_done; rewrite (ha_st _ _ _ _ _ _ _ H), (ha_st _ _ _ _ _ _ _ H0) end.
  set (st2 := put_lens n len st') in *. clearbody st2. split; [|lia].
  exists st2. split; [|congruence]. exists (y - d), g'. split; [exact H|]. rewrite (cap_ext _ _ B6), K.
  split; [destruct Hb; split; lia|]. split; [cbn [rank]; lia|].
  split; [apply (capturing_ext st' st2 _ B6); destruct C; split; [done..|lia]|]. split; [congruence|].
  split; [by apply (counts_head st')|]. split; [lia|]. split; [rewrite A3; exact A4|].
  assert (E4 : table_view st2 = table_view st) by congruence. split; [by apply (codes_table_ext st)|]. injection E4 as _ _ L _ _. lia.
Qed.

(** an instruction that does not fit ends the header *)
Lemma capturing_pos st c : capturing st c -> 0 <= cap st.
Proof. intros [_ _ A B _]. unfold cap. lia. Qed.
Lemma spoilt_turn r0 l s0 y st d s st' g' text :
  read_on l st y d s st' g' -> 0 <= d -> budget y l (cap st + 40) -> 0 <= cap st -> y + l < x0 \/ 15 <= r0 ->
  wp (bad text;; mret (Some tt)) (fun x s' => codelens_done r0 l s0 s' x) stop s.
Proof.
  intros [H U C K] Hd Hb H0 Hr. unfold bad. do 3 step. apply wp_ret. left. eexists _, _, _, _. split; [exact H|]. split; [done|].
  destruct Hb. split_and!; lia.
Qed.
Lemma codelens_turn_ok r0 l s :
  (exists st, inside r0 IM.CODELENS l st s) -> wp codelens_turn (fun x s' => codelens_done r0 l s s' x) stop s.
Proof.
  intros (st & [(y & g & H & Hb & Hr & Hd) Em]). unfold codelens_turn. step. pose proof Hd as (Hc & Hi & Hn & Hh & HI & Ht & Hlb).
  destruct (Z.ltb_spec (have st) (nlen st + ndist st)) as [L|L].
  2: { apply wp_ret. right. exists st. split; [|lia]. split; [|done]. by exists y, g. }
  destruct Ht as [Hw Hm]. pose proof (capturing_pos st _ Hc) as Hcap.
  assert (G : forall s2 st2 g2 d len copy, read_on l st y d s2 st2 g2 -> 0 <= len <= 15 -> 1 <= copy -> 0 <= d <= 14 ->
    wp (if have st + copy >? nlen st + ndist st then bad "invalid bit length repeat";; mret (Some tt)
        else upd (put_lens (Z.to_nat copy) len);; mret None) (fun x s' => codelens_done r0 l s s' x) stop s2).
  { intros s2 st2 g2 d len copy R2 Hlen H1 Hd2. destruct (Z.gtb_spec (have st + copy) (nlen st + ndist st)).
    - by apply (spoilt_turn r0 l s y st d s2 st2 g2 _ R2); [lia|..].
    - apply (put_lens_turn r0 l s st g y st d s2 st2 g2 _ len R2 H); (done || lia). }
  apply (w_look tot flush x0 t0 lencode lenbits CODES 19 IM.CODELENS st g y l Hw Em Hd Hb _ _ s H).
  intros s1 i H1 Hi1 Hcb. pose proof (Hm i Hi1) as Hmi. pose proof (made_codes _ Hmi) as Hv. pose proof (proj1 Hmi) as Hc1.
  pose proof (tb_bits _ _ (tw_ok _ _ _ _ Hw) i Hi1) as Hc2. set (h := code_at st (lencode st) i) in *. clearbody h.
  destruct (Z.ltb_spec (val h) 16) as [V|V].
  - apply (w_read_on _ _ _ _ _ _ _ _ _ _ (cbits h) (read_start _ _ _ _ _ H1 Hc)); [lia|lia|]. intros s2 st2 g2 R2 Hb2.
    apply (put_lens_turn r0 l s st g y st (0 + cbits h) s2 st2 g2 1 (val h) R2 H); (done || lia).
  - step. destruct (Z.eqb_spec (val h) 16) as [V6|V6]; [destruct (Z.eqb_spec (have st) 0) as [E0|E0]|destruct (Z.eqb_spec (val h) 17)].
    + step. apply (w_read tot flush x0 t0 _ _ _ IM.CODELENS s1 y l st g H1 Em Hd Hb); [lia|]. clear s1 H1 Hcb. intros s1 H1 Hcb.
      step. apply (w_read_on _ _ _ _ _ _ _ _ _ _ (cbits h) (read_start _ _ _ _ _ H1 Hc)); [lia|lia|]. intros s2 st2 g2 R2 Hb2.
      unfold wp. rewrite bind_bind. by apply (spoilt_turn r0 l s y st (0 + cbits h) s2 st2 g2 _ R2); [lia|..].
    + apply (w_repeat_bits _ 2 _ _ _ _ s1 y l st g H1 Em Hd Hb); [lia|lia|]. intros s2 st2 g2 v R2 Hv2.
      apply (G s2 st2 g2 _ _ _ R2); [apply HI; lia|lia|lia].
    + apply (w_repeat_bits _ 3 _ _ _ _ s1 y l st g H1 Em Hd Hb); [lia|lia|]. intros s2 st2 g2 v R2 Hv2.
      apply (G s2 st2 g2 _ _ _ R2); lia.
    + apply (w_repeat_bits _ 7 _ _ _ _ s1 y l st g H1 Em Hd Hb); [lia|lia|]. intros s2 st2 g2 v R2 Hv2.
      apply (G s2 st2 g2 _ _ _ R2); lia.
Qed.

(** the tables of a header that was read *)
Lemma codelens_tables r0 y l s st g :
  has s y l Z_OK st g -> mode st = IM.CODELENS -> data_at IM.CODELENS st g -> have st = nlen st + ndist st ->
  budget y l (cap st + 40) -> y + l < x0 \/ 15 <= r0 ->
  wp (if aget 0 (lens st) 256 =? 0 then bad "invalid code -- missing end-of-block"
      else
        upd (fun st => st <| next := 0 |> <| lencode := Codes 0 |> <| lenbits := 9 |>);;
        ret ← build_table LENS (fun _ => 0) nlen lenbits (fun b st => st <| lenbits := b |>);
        if negb (ret =? 0) then bad "invalid literal/lengths set"
        else
          upd (fun st => st <| distcode := Codes (next st) |> <| distbits := 6 |>);;
          ret ← build_table DISTS nlen ndist distbits (fun b st => st <| distbits := b |>);
          if negb (ret =? 0) then bad "invalid distances set"
          else
            set_mode IM.SEND_HEADER;;
            when (flush =? Z_TREES) leave) (post r0) stop s.
Proof.
  intros H Em (Hc & Hi & Hn & Hh & HI & Ht & Hlb) Eh Hb Hr. pose proof (capturing_pos _ _ Hc) as Hp. pose proof (ct_nlen _ Hn). pose proof (ct_ndist _ Hn).
  assert (Bad : forall text s' st' g', has s' y l Z_OK st' g' \/ (exists r, has s' y l r st' g') -> wp (bad text) (post r0) stop s').
  { intros text s' st' g' [H'|[r H']]; apply (w_bad tot flush x0 t0 text r0 _ _ _ _ _ _ H'); destruct Hb; lia. }
  destruct (_ =? 0); [by apply (Bad _ s st g); left|]. step.
  match type of H with Invariant.has _ _ _ _ _ ?x _ => assert (F : head_view x = head_view st /\ body_view x = body_view x /\ lens x = lens st
    /\ next x = 0 /\ lencode x = Codes 0 /\ lenbits x = 9 /\ itree_type x = itree_type st) by done end.
  abstract_state H F st1. destruct F as (F1 & _ & F2 & F3 & F4 & F5 & F6). destruct (head_fields _ _ F1) as (M1 & I1 & N1 & N2 & N3 & K1).
  assert (Hl1 : forall i, 0 <= i < nlen st1 + ndist st1 -> 0 <= aget 0 (lens st1) i <= 15) by (intros i Hi1; rewrite F2; apply HI; lia).
  assert (B1 : 1 <= lenbits st1 <= 15) by lia.
  apply (w_build LENS (fun _ => 0) nlen lenbits _ _ _ _ _ _ _ _ _ _ H); [lia|intros i Hi1; apply Hl1; lia|exact B1|done|].
  clear H. intros s2 res H Hres. destruct (Z.eqb_spec (r_ret res) 0) as [R|R]; cbn [negb]; [|by eapply Bad; right; exists (r_ret res); exact H].
  specialize (Hres R). rewrite R in H. step.
  match type of H with Invariant.has _ _ _ _ _ ?x _ => assert (G : head_view x = head_view st1 /\ lens x = lens st1 /\ codes x = r_mem res
    /\ next x = r_table res /\ lencode x = lencode st1 /\ lenbits x = r_bits res /\ distcode x = Codes (r_table res) /\ distbits x = 6) by done end.
  abstract_state H G st2. destruct G as (G1 & G2 & G3 & G4 & G5 & G6 & G7 & G8). destruct (head_fields _ _ G1) as (M2 & I2 & O1 & O2 & O3 & K2).
  apply (w_build DISTS nlen ndist distbits _ _ _ _ _ _ _ _ _ _ H);
    [lia|intros i Hi2; rewrite G2; apply Hl1; lia|lia|done|].
  clear H. intros s3 res2 H Hres2. destruct (Z.eqb_spec (r_ret res2) 0) as [R2|R2]; cbn [negb]; [|by eapply Bad; right; exists (r_ret res2); exact H].
  specialize (Hres2 R2). rewrite R2 in H. step.
  match type of H with Invariant.has _ _ _ _ _ ?x _ => assert (J : mode x = IM.SEND_HEADER /\ itree_type x = itree_type st2 /\ cap_view x = cap_view st2
    /\ codes x = r_mem res2 /\ lencode x = lencode st2 /\ lenbits x = lenbits st2 /\ distcode x = distcode st2 /\ distbits x = r_bits res2) by done end.
  abstract_state H J st3. destruct J as (J1 & J2 & J3 & J4 & J5 & J6 & J7 & J8).
  assert (Ht3 : tables st3).
  { rewrite G3, G4 in Hres2. rewrite F3 in Hres. apply (built_tables _ _ _ _ _ _ _ _ res res2 st3 Hres Hres2); [done|lia|lia|congruence..]. }
  assert (K3 : cap_view st3 = cap_view st) by congruence. pose proof (cap_ext _ _ K3) as E3.
  assert (C3 : capturing st3 4498) by (apply (capturing_ext st); [done|]; destruct Hc; split; [done..|lia]).
  assert (D3 : data_ok st3 g).
  { unfold data_ok. rewrite J1. split; [by left|]. unfold body_ok. destruct (Z.eqb_spec (itree_type st3) 0); [lia|done]. }
  assert (P3 : budget y l (pend_at (mode st3) st3 g)).
  { rewrite J1. cbn [pend_at]. rewrite (cp_flag _ _ C3). change (1 =? 1) with true. cbv iota. destruct Hb. split; lia. }
  destruct (flush =? Z_TREES) eqn:Ef; cbn [when].
  - apply wp_exit. apply (leaves tot flush x0 t0 _ _ _ _ _ _ H); [done|done|]. right. right. split; [apply H|]. right. right. right. lia.
  - apply wp_ret. apply (break tot x0 t0 _ _ _ _ _ _ _ _ H); [done|by left|done|]. rewrite J1. cbn [rank]. lia.
Qed.
Lemma CODELENS_ok : handles IM.CODELENS (h_CODELENS flush).
Proof.
  intros r0 s He. apply entry_inv in He as (y & l & st & g & H & Em & Hd & Hb & Hr). unfold h_CODELENS. apply wp_bind.
  apply (wp_conseq _ (fun _ s' => spoilt r0 s' \/ exists st, inside r0 IM.CODELENS l st s' /\ have st = nlen st + ndist st) _ stop); [| |done].
  - apply (wp_repeat (fun s => exists st, inside r0 IM.CODELENS l st s)
      (fun s => Z.to_nat (nlen (state s) + ndist (state s) - have (state s))) codelens_turn).
    + intros s1 H1. apply (wp_conseq _ _ _ _ _ _ (codelens_turn_ok r0 l s1 H1)); [|done]. by intros [[]|].
    + exists st. split; [|done]. by exists y, g.
    + destruct Hd as (_ & _ & [? ? ?] & ? & _). rewrite (ha_st _ _ _ _ _ _ _ H). lia.
  - clear. intros _ s [(y & l' & st & g & H & Em & H1 & H2 & H3)|(st & [(y & g & H & Hb & Hr & Hd) Em] & Eh)].
    + step. rewrite Em. apply wp_ret. apply (break tot x0 t0 _ _ _ _ _ _ _ _ H).
      * unfold data_ok. by rewrite Em.
      * by left.
      * rewrite Em. split; cbn; lia.
      * rewrite Em. done.
    + step. rewrite Em. by apply (codelens_tables r0 y l s st g H Em).
Qed.

Lemma LENLENS_ok : handles IM.LENLENS (h_LENLENS flush).
Proof.
  intros r0 s He. apply entry_inv in He as (y & l & st & g & H & Em & Hd & Hb & Hr). unfold h_LENLENS. apply wp_bind.
  apply (wp_conseq _ (fun _ s' => exists st, inside r0 IM.LENLENS l st s' /\ have st = ncode st) _ stop); [| |done].
  { apply (wp_repeat (fun s => exists st, inside r0 IM.LENLENS l st s) (fun s => Z.to_nat (ncode (state s) - have (state s))) lenlens_turn).
    - intros s1 H1. apply (wp_conseq _ _ _ _ _ _ (lenlens_turn_ok r0 l s1 H1)); [|done]. by intros [[]|].
    - exists st. split; [|done]. by exists y, g.
    - destruct Hd as (_ & _ & [? ? ?] & ? & _). rewrite (ha_st _ _ _ _ _ _ _ H). lia. }
  clear. intros _ s (st & [(y & g & H & Hb & Hr & Hc & Hi & Hn & Hh & HI) Em] & Eh). pose proof (ct_ncode _ Hn) as Hnc.
  pose proof (capturing_pos _ _ Hc) as Hp. step. destruct (zero_lens_spec 19 st) as [Z1 Z2]; [lia|lia|done|].
  set (st1 := zero_lens 19 st) in *. clearbody st1. destruct (head_fields _ _ Z1) as (M1 & I1 & N1 & N2 & N3 & K1). step.
  match type of H with Invariant.has _ _ _ _ _ ?x _ => assert (F : head_view x = head_view st1 /\ lens x = lens st1
    /\ next x = 0 /\ lencode x = Codes 0 /\ lenbits x = 7) by done end.
  abstract_state H F st2. destruct F as (F1 & F2 & F3 & F4 & F5). destruct (head_fields _ _ F1) as (M2 & I2 & O1 & O2 & O3 & K2).
  assert (Hl : forall i, 0 <= i < 19 -> 0 <= aget 0 (lens st2) (0 + i) <= 7).
  { intros i Hi1. destruct (order_onto i Hi1) as (j & Hj & E). rewrite F2, Z.add_0_l, <- E. by apply Z2. }
  apply (w_build CODES (fun _ => 0) (fun _ => 19) lenbits _ _ _ _ _ _ _ _ _ _ H);
    [lia|intros i Hi1; specialize (Hl i Hi1); lia|lia|intros _; rewrite F5; split; [lia|intros i Hi1; specialize (Hl i Hi1); lia]|].
  clear H. intros s2 res H Hres. destruct (Z.eqb_spec (r_ret res) 0) as [R|R]; cbn [negb].
  2: { apply (w_bad tot flush x0 t0 _ r0 _ _ _ _ _ _ H); cbn [rank] in Hr; destruct Hb; lia. }
  specialize (Hres R). rewrite R in H. do 2 step.
  match type of H with Invariant.has _ _ _ _ _ ?x _ => assert (G : mode x = IM.CODELENS /\ itree_type x = itree_type st2 /\ ncode x = ncode st2
    /\ nlen x = nlen st2 /\ ndist x = ndist st2 /\ cap_view x = cap_view st2 /\ have x = 0 /\ codes x = r_mem res /\ lencode x = lencode st2
    /\ lenbits x = r_bits res) by done end.
  abstract_state H G st3. destruct G as (G1 & G2 & G3 & G4 & G5 & G6 & G7 & G8 & G9 & G10).
  rewrite F3 in Hres. change (Z.to_nat 19) with 19%nat in Hres. rewrite F4 in G9. destruct (built_codes _ _ _ _ _ st3 Hres G8 G9 G10) as [T1 T2].
  assert (K3 : cap_view st3 = cap_view st) by congruence. apply CODELENS_ok. apply (enter tot x0 t0 _ _ _ _ _ _ _ H); [done| | |].
  - split; [apply (capturing_ext st); [done|]; destruct Hc; split; [done..|lia]|]. split; [congruence|].
    split; [apply (counts_head st); congruence|]. pose proof (ct_nlen _ Hn). pose proof (ct_ndist _ Hn). split; [lia|]. split; [intros; lia|done].
  - cbn [pend_at]. rewrite (cap_ext _ _ K3). exact Hb.
  - cbn [rank] in *. lia.
Qed.
Lemma TABLE_ok : handles IM.TABLE (h_TABLE flush).
Proof.
  intros r0 s He. apply entry_inv in He as (y & l & st & g & H & Em & Hd & Hb & Hr). unfold h_TABLE.
  apply (w_read tot flush x0 t0 14 _ _ IM.TABLE s y l st g H Em Hd Hb); [lia|]. clear s H. intros s H Hbits. destruct Hd as [Hc Hi].
  assert (Hp : cap st <= 3) by apply Hc. pose proof (capturing_pos _ _ Hc) as Hp0. do 2 step.
  match type of H with Invariant.has _ _ _ _ _ ?x _ => assert (F : capturing x 3 /\ cap x = cap st /\ itree_type x = itree_type st
    /\ nlen x = v + 257) by (split; [by apply (capturing_ext st)|done]) end.
  abstract_state H F st1. destruct F as (C1 & K1 & I1 & N1).
  apply (w_DROP _ _ _ _ _ _ _ _ _ _ 5 H); [lia|lia|]. clear H. intros s2 st2 g2 H Hb2 [U2 _ _ D2]. destruct (D2 _ C1) as [C2 K2].
  do 2 step.
  match type of H with Invariant.has _ _ _ _ _ ?x _ => assert (F : capturing x 8 /\ cap x = cap st2 /\ itree_type x = itree_type st2
    /\ nlen x = nlen st2 /\ ndist x = v0 + 1) by (split; [by apply (capturing_ext st2)|done]) end.
  abstract_state H F st3. destruct F as (C3 & K3 & I3 & N3 & O3).
  apply (w_DROP _ _ _ _ _ _ _ _ _ _ 5 H); [lia|lia|]. clear H. intros s4 st4 g4 H Hb4 [U4 _ _ D4]. destruct (D4 _ C3) as [C4 K4].
  do 2 step.
  match type of H with Invariant.has _ _ _ _ _ ?x _ => assert (F : capturing x 13 /\ cap x = cap st4 /\ itree_type x = itree_type st4
    /\ nlen x = nlen st4 /\ ndist x = ndist st4 /\ ncode x = v1 + 4) by (split; [by apply (capturing_ext st4)|done]) end.
  abstract_state H F st5. destruct F as (C5 & K5 & I5 & N5 & O5 & P5).
  apply (w_DROP _ _ _ _ _ _ _ _ _ _ 4 H); [lia|lia|]. clear H. intros s6 st6 g6 H Hb6 [U6 _ _ D6]. destruct (D6 _ C5) as [C6 K6].
  assert (E2 : itree_type st2 = itree_type st1 /\ nlen st2 = nlen st1) by (split; [exact (f_equal itree_type U2)|exact (f_equal nlen U2)]).
  assert (E4 : itree_type st4 = itree_type st3 /\ nlen st4 = nlen st3 /\ ndist st4 = ndist st3)
    by (split; [exact (f_equal itree_type U4)|split; [exact (f_equal nlen U4)|exact (f_equal ndist U4)]]).
  assert (E6 : itree_type st6 = itree_type st5 /\ nlen st6 = nlen st5 /\ ndist st6 = ndist st5 /\ ncode st6 = ncode st5)
    by (split; [exact (f_equal itree_type U6)|split; [exact (f_equal nlen U6)|split; [exact (f_equal ndist U6)|exact (f_equal ncode U6)]]]).
  step. destruct ((_ >? _) || _) eqn:Eb; [apply (w_bad tot flush x0 t0 _ r0 _ _ _ _ _ _ H); cbn [pend_at] in Hb; destruct Hb; lia|].
  apply orb_false_iff in Eb as [Eb1 Eb2]. do 2 step.
  match type of H with Invariant.has _ _ _ _ _ ?x _ => assert (F : mode x = IM.LENLENS /\ cap_view x = cap_view st6 /\ itree_type x = itree_type st6
    /\ nlen x = nlen st6 /\ ndist x = ndist st6 /\ ncode x = ncode st6 /\ have x = 0) by done end.
  abstract_state H F st7. destruct F as (F1 & F2 & F3 & F4 & F5 & F6 & F7).
  apply LENLENS_ok. apply (enter tot x0 t0 _ _ _ _ _ _ _ H); [done| | |].
  - split; [apply (capturing_ext st6); [done|]; rewrite F7; exact C6|]. split; [lia|]. split; [split; lia|]. split; [lia|]. intros i Hi1. lia.
  - cbn [pend_at] in *. rewrite (cap_ext _ _ F2). destruct Hb. split; lia.
  - destruct Hb. cbn [rank]. left. lia.
Qed.
End Turns.
