(* ===== verification/Progress.v ===== *)
(** * [j_inflate] keeps its invariant and always returns

    The loop of [j_inflate] on any bytes: it ends within [inflate_fuel], keeps
    [inflate_ok], writes at most two bytes per bit read (and what was pending), and
    stops only at the end, at an error, or without input or room. *)
From S2P Require Import Prelude DeflateTables Inftrees Zlib Trees Format Encode Bitstream Wp.
From S2P Require Import InflateState Inffast Inflate Drivers Codebook Sorting Huffman Fastpath Decoding Capture Instructions Invariant Fastsafe Turns TurnsHeader.

(** ** The loop *)

Section Loop.
Context (tot flush : Z).

Lemma dispatch_ok x0 t0 r0 m s :
  entry tot x0 t0 r0 m s -> wp (dispatch flush) (post tot x0 t0 r0) (stop tot flush x0 t0) s.
Proof.
  intros He. pose proof (en_mode _ _ _ _ _ _ He) as Em. pose proof (en_data _ _ _ _ _ _ He) as Hd. unfold dispatch. apply wp_gets. rewrite Em.
    destruct m; try (by destruct Hd); [apply HEAD_ok|apply FLAGS_ok|apply TIME_ok|apply OS_ok|apply EXLEN_ok|apply EXTRA_ok|apply
    NAME_ok|apply COMMENT_ok|apply HCRC_ok|apply TYPE_ok|apply (TYPEDO_ok _ _ _ _ IM.TYPEDO (or_intror eq_refl))|apply STORED_ok|apply
    COPY__ok|apply COPY_ok|apply TABLE_ok|apply LENLENS_ok|apply CODELENS_ok|apply LEN__ok|apply LEN_ok|apply LENEXT_ok|apply DIST_ok|apply
    DISTEXT_ok|apply MATCH_ok|apply LIT_ok|apply CHECK_ok|apply LENGTH_ok|apply DONE_ok|apply BAD_ok|apply SENDINS_ok|apply
    SETENDOFBLOCK_ok|apply SEND_HEADER_ok]; exact He.
Qed.

(** between two turns *)
Record waiting (x t : Z) (s : im) : Prop := {
  wa_has : has tot s (Z.of_nat (length (stream s))) (l_left s) (l_ret s) (state s) (glob s);
  wa_data : data_ok (state s) (glob s);
  wa_ret : l_ret s = Z_OK \/ mode (state s) = IM.BAD;
  wa_budget : budget x t (Z.of_nat (length (stream s))) (l_left s) (pend_at (mode (state s)) (state s) (glob s)) }.
Definition turns_left (s : im) : nat := Z.to_nat (64 * (Z.of_nat (length (stream s)) + l_left s) + rank (mode (state s))).

Lemma turn_ok x t s :
  waiting x t s -> wp (dispatch flush) (fun _ s' => waiting x t s' /\ (turns_left s' < turns_left s)%nat) (stop tot flush x t) s.
Proof.
  intros [H Hd Hr Hb]. pose proof (mode_rank_range (mode (state s))) as Hk. pose proof (ha_range _ _ _ _ _ _ _ H) as Hl.
  set (x0 := Z.of_nat (length (stream s)) + l_left s).
  assert (Hb0 : budget x0 t (Z.of_nat (length (stream s))) (l_left s) (pend_at (mode (state s)) (state s) (glob s))) by (destruct Hb; split; lia).
  destruct (decide (mode (state s) = IM.BAD)) as [Em|Em].
  - unfold dispatch. apply wp_gets. rewrite Em. unfold h_BAD. apply wp_modify, wp_exit.
    apply (leaves tot flush x t _ (Z.of_nat (length (stream s))) (l_left s) Z_DATA_ERROR (state s) (glob s)); [|done|done|right; left; by split].
    destruct H as [H1 H2 H3 H4 H5 H6 H7 H8 H9]. split; try done. by apply (reader_locals s).
  - destruct Hr as [Hr|Hr]; [|done]. rewrite Hr in H.
    assert (He : entry tot x0 t (rank (mode (state s))) (mode (state s)) s) by (split; [exact H|done|exact Hd|exact Hb0|right; lia]).
    apply (wp_conseq _ _ _ _ _ _ (dispatch_ok x0 t _ _ s He)).
    + intros _ s' [P1 P2 P3 P4 P5]. split; [split; [done..|destruct Hb, P4; split; lia]|].
      unfold turns_left. pose proof (mode_rank_range (mode (state s'))). pose proof (ha_range _ _ _ _ _ _ _ P1). destruct P4. lia.
    + intros e s' [S1 S2 S3 S4 S5]. split; [done..| |done]. destruct Hb, S4. split; lia.
Qed.
Lemma run_ok x t s fuel :
  waiting x t s -> (turns_left s < fuel)%nat -> exists s', run fuel flush s = (s', Leave) /\ stop tot flush x t Leave s'.
Proof.
  intros Hw Hf. pose proof (forever_total (waiting x t) turns_left (dispatch flush) (stop tot flush x t) fuel s (turn_ok x t) Hw Hf) as R.
  unfold run. destruct (forever (dispatch flush) fuel s) as [s' e]. cbn [fst snd] in R. pose proof (sp_exit _ _ _ _ _ _ R) as ->. by exists s'.
Qed.
End Loop.

(** ** The invariant between two calls *)

Record inflate_ok (st : inflate_state) (g : inf_globals) : Prop := {
  io_bits : 0 <= bits st <= 39;
  io_hold : 0 <= hold st < 2 ^ bits st;
  io_data : data_ok st g }.

(** what the invariant reads *)
Definition data_view (st : inflate_state) :=
  (head_view st, body_view st, (have st, lens st, extra st)).
Lemma data_ext st st' g : data_view st' = data_view st -> data_ok st g -> data_ok st' g.
Proof.
  intros E. pose proof (f_equal (fun v => v.1.1) E) as E1. pose proof (f_equal (fun v => v.1.2) E) as E2. cbn [data_view fst snd] in E1, E2.
  pose proof (f_equal (fun v => v.2.1.1) E) as Eh. pose proof (f_equal (fun v => v.2.1.2) E) as El. pose proof (f_equal (fun v => v.2.2) E) as Ex.
  cbn [data_view fst snd] in Eh, El, Ex. clear E. destruct (head_fields _ _ E1) as (M1 & I1 & N1 & N2 & N3 & K1). clear E1.
  assert (L1 : length_ st' = length_ st) by exact (f_equal (fun v => v.1.2) E2). assert (T1 : table_view st' = table_view st) by exact (f_equal snd E2).
  assert (B1 : lenbits st' = lenbits st) by exact (f_equal (fun v => v.1.1.2) T1).
  assert (H1 : header_have st' = header_have st) by exact (f_equal (fun v => v.1.2) K1).
  assert (H2 : header_index st' = header_index st) by exact (f_equal (fun v => v.1.1.2) K1).
  pose proof (fun c => capturing_ext st st' c K1) as C. pose proof (closed_ext st st' K1) as D. pose proof (tables_ext st st' T1) as T.
  pose proof (codes_table_ext st st' T1) as F. pose proof (counts_head st st' N1 N2 N3) as N. pose proof (body_ext st st' E2) as B.
  clear K1 T1 E2. unfold data_ok. rewrite M1. destruct (mode st); cbn [data_at]; rewrite ?I1, ?N1, ?N2, ?N3, ?L1, ?Eh, ?El, ?Ex, ?B1, ?H1, ?H2; try done; intuition auto.
Qed.
Lemma pend_ext m st st' g : cap_view st' = cap_view st -> pend_at m st' g = pend_at m st g.
Proof.
  intros K1. assert (H1 : header_have st' = header_have st) by exact (f_equal (fun v => v.1.2) K1).
  assert (H2 : header_index st' = header_index st) by exact (f_equal (fun v => v.1.1.2) K1).
  assert (H3 : header_flag st' = header_flag st) by exact (f_equal (fun v => v.1.1.1) K1).
  destruct m; cbn [pend_at]; by rewrite ?(cap_ext _ _ K1), ?H1, ?H2, ?H3.
Qed.

(** the bits that are loaded and waiting, and what can still be written for them *)
Definition loaded (zs : z_stream) (st : inflate_state) : Z := bits st + 8 * avail_in zs.
Definition owed (zs : z_stream) (st : inflate_state) (g : inf_globals) : Z := 16 * loaded zs st + pend_at (mode st) st g.

(** the arguments are refused *)
Definition refused (zs : z_stream) (st : inflate_state) : bool :=
  inflateStateCheck zs (Some st) || next_out_null zs || (next_in_null zs && negb (avail_in zs =? 0)).
(** what a call on good parts leaves *)
Record call_ok (zs : z_stream) (st : inflate_state) (g : inf_globals) (flush : Z)
    (zs' : z_stream) (st' : inflate_state) (g' : inf_globals) (ret : Z) : Prop := {
  co_ok : inflate_ok st' g';
  co_in : bytes_ok (next_in zs');
  co_room : 0 <= avail_out zs' < 2 ^ 32;
  co_out : Z.of_nat (length (next_out zs')) + avail_out zs' = Z.of_nat (length (next_out zs)) + avail_out zs;
  co_owed : owed zs' st' g' - 8 * avail_out zs' <= owed zs st g - 8 * avail_out zs;
  co_ret : ret = Z_STREAM_ERROR /\ refused zs st = true \/ ret = Z_DATA_ERROR /\ mode st' = IM.BAD \/ ret = Z_STREAM_END /\ mode st' = IM.DONE
    \/ (ret = Z_OK \/ ret = Z_BUF_ERROR) /\ (next_in zs' = [] \/ avail_out zs' = 0 \/ flush = Z_BLOCK \/ flush = Z_TREES) }.

(** what [inf_leave] hands back *)
Lemma inf_leave_view flush s :
  let (s', r) := inf_leave flush s in
  next_in (strm s') = l_next s /\ next_out (strm s') = l_put s /\ avail_out (strm s') = l_left s
  /\ hold (state s') = l_hold s /\ bits (state s') = l_bits s /\ data_view (state s') = data_view (state s) /\ glob s' = glob s
  /\ (r = l_ret s \/ l_ret s = Z_OK /\ r = Z_BUF_ERROR).
Proof.
  unfold inf_leave. cbv zeta. destruct (negb (Z.land _ 4 =? 0) && _); (do 7 (split; [reflexivity|]));
    (destruct (_ && _) eqn:Eb; [right|by left]); apply andb_true_iff in Eb as [_ Eb]; (split; [|done]);
    match type of Eb with (?x =? _) = true => change x with (l_ret s) in Eb end; by apply Z.eqb_eq in Eb.
Qed.
Lemma j_inflate_total zs st g flush :
  inflate_ok st g -> bytes_ok (next_in zs) -> 0 <= avail_out zs < 2 ^ 32 ->
  exists zs' st' g' ret, j_inflate zs (Some st) g flush = Some (zs', Some st', g', ret) /\ call_ok zs st g flush zs' st' g' ret.
Proof.
  intros Hok Hin Hout. pose proof Hok as [Hb Hh Hd]. unfold j_inflate. fold (refused zs st). destruct (refused zs st) eqn:Eref.
  { exists zs, st, g, Z_STREAM_ERROR. split; [done|]. split; [done..|lia|by left]. }
  set (st0 := if bool_decide (mode st = IM.TYPE) then _ else st).
  assert (F0 : data_ok st0 g /\ pend_at (mode st0) st0 g = pend_at (mode st) st g /\ hold st0 = hold st /\ bits st0 = bits st).
  { subst st0. case_bool_decide as Em; [rewrite Em|]; by split_and!. }
  clearbody st0. destruct F0 as (D0 & P0 & Eh & Eb). cbv zeta. match goal with |- context [run _ _ ?x] => set (s := x) end.
  assert (F : reader_ok s /\ rd_bits s = bits st /\ Z.of_nat (length (stream s)) = loaded zs st /\ l_left s = avail_out zs /\ l_put s = next_out zs
    /\ l_ret s = Z_OK /\ state s = st0 /\ glob s = g /\ l_next s = next_in zs).
  { assert (O : reader_ok s) by (split; [change (0 <= bits st0 <= 64); lia|change (0 <= hold st0 < 2 ^ bits st0); by rewrite Eb, Eh|exact Hin]).
    split; [done|]. split; [exact Eb|]. split; [|by split_and!]. rewrite length_stream by apply O. change (bits st0 + 8 * avail_in zs = loaded zs st).
    unfold loaded. by rewrite Eb. }
  clearbody s. destruct F as (O & F1 & F2 & F3 & F4 & F5 & F6 & F7 & F8).
  assert (W : waiting (Z.of_nat (length (next_out zs)) + avail_out zs) (loaded zs st + avail_out zs) (owed zs st g - 8 * avail_out zs) s).
  { unfold owed. split; rewrite ?F2, ?F3, ?F5, ?F6, ?F7; [|done|by left|rewrite P0; split; lia].
    split; try done; [lia|by rewrite F4]. }
  destruct (run_ok _ flush _ _ s (inflate_fuel s) W) as (s' & -> & [_ S2 S3 S4 S5]).
  { unfold turns_left, inflate_fuel. pose proof (mode_rank_range (mode (state s))). rewrite F2, F3, F8. change (l_bits s) with (rd_bits s). rewrite F1.
    unfold loaded, avail_in. lia. }
  cbv iota. pose proof (inf_leave_view flush s') as V. destruct (inf_leave flush s') as [s2 r]. destruct V as (V1 & V2 & V3 & V4 & V5 & V6 & V7 & V8).
  exists (strm s2), (state s2), (glob s2), r. split; [done|]. pose proof (ha_ok _ _ _ _ _ _ _ S2) as [R1 R2 R3].
  assert (K : cap_view (state s2) = cap_view (state s')) by (exact (proj2 (proj2 (proj2 (proj2 (proj2 (head_fields _ _ (f_equal (fun v => v.1.1) V6)))))))).
  assert (M : mode (state s2) = mode (state s')) by (exact (proj1 (head_fields _ _ (f_equal (fun v => v.1.1) V6)))).
  split.
  - split; [rewrite V5; pose proof (ha_bits _ _ _ _ _ _ _ S2); change (rd_bits s') with (l_bits s') in *; lia|by rewrite V4, V5|].
    rewrite V7. by apply (data_ext (state s')).
  - by rewrite V1.
  - rewrite V3. apply S2.
  - rewrite V2, V3. apply S2.
  - unfold owed, loaded, avail_in. rewrite V1, V3, V5, V7, M, (pend_ext _ _ _ _ K). destruct S4 as [_ S4].
    rewrite length_stream in S4 by apply R1. change (rd_bits s') with (l_bits s') in S4. unfold have_in in S4. change (rd_next s') with (l_next s') in S4.
    unfold owed, loaded, avail_in in S4. lia.
  - rewrite V1, V3, M. destruct S5 as [[L1 L2]|[[L1 L2]|[L1 L2]]]; rewrite L1 in V8.
    + right; right; left. destruct V8 as [->|[? _]]; done.
    + right; left. destruct V8 as [->|[? _]]; done.
    + right; right; right. split; [destruct V8 as [->|[_ ->]]; [by left|by right]|tauto].
Qed.

(** ** The states a caller can reach *)

(** every state that initialisation and calls on any bytes, with any room and any flush value, lead to *)
Inductive reachable : inflate_state -> inf_globals -> Prop :=
| reach_init zs state0 mem windowBits zs' st g :
    j_inflateInit2_ zs state0 mem windowBits = (zs', Some st, Z_OK) -> reachable st g
| reach_call zs st g flush zs' st' g' ret :
    reachable st g -> bytes_ok (next_in zs) -> 0 <= avail_out zs < 2 ^ 32 ->
    j_inflate zs (Some st) g flush = Some (zs', Some st', g', ret) -> reachable st' g'.

Lemma reset_state zs st zs' st' r :
  j_inflateReset zs (Some st) = (zs', Some st', r) -> r = Z_OK -> mode st' = IM.HEAD /\ bits st' = 0 /\ hold st' = 0 /\ next_in zs' = next_in zs.
Proof.
  unfold j_inflateReset, j_inflateResetKeep. destruct (inflateStateCheck zs (Some st)); [by intros [= <- <- <-]|].
  destruct (inflateStateCheck zs _); [by intros [= <- <- <-]|]. cbv zeta. intros E _. injection E as <- <-. by destruct (_ =? 0).
Qed.
Lemma reset2_state zs st w zs' st' :
  j_inflateReset2 zs (Some st) w = (zs', Some st', Z_OK) -> mode st' = IM.HEAD /\ bits st' = 0 /\ hold st' = 0 /\ next_in zs' = next_in zs.
Proof.
  unfold j_inflateReset2. destruct (inflateStateCheck zs (Some st)); [done|]. destruct (window_request w) as [[v b]|]; [|done].
  destruct (_ && (_ || _)); [done|]. cbv zeta. intros E. by apply (reset_state _ _ _ _ _ E).
Qed.
Lemma init_state zs state0 mem windowBits zs' st r :
  j_inflateInit2_ zs state0 mem windowBits = (zs', Some st, r) ->
  r = Z_MEM_ERROR /\ state0 = Some st \/ r = Z_OK /\ mode st = IM.HEAD /\ bits st = 0 /\ hold st = 0 /\ next_in zs' = next_in zs.
Proof.
  intros E. unfold j_inflateInit2_ in E. destruct mem as [m|]; [right; revert E|left; by injection E as <- -> <-]. cbv zeta.
  set (zs1 := zs <| msg := None |> <| zalloc_set := true |> <| zfree_set := true |>). change (next_in zs) with (next_in zs1).
  destruct (j_inflateReset2 zs1 _ windowBits) as [[zs2 st2] r2] eqn:E2. destruct (Z.eqb_spec r2 Z_OK) as [->|]; cbn [negb]; [|done].
  destruct st2 as [s2|]; [|done]. intros E. injection E as <- <- <-. split; [done|]. by apply (reset2_state _ _ _ _ _ E2).
Qed.
Lemma fresh_ok st g : mode st = IM.HEAD -> bits st = 0 -> hold st = 0 -> inflate_ok st g.
Proof. intros Em Eb Eh. split; [lia|by rewrite Eb, Eh|]. unfold data_ok. by rewrite Em. Qed.
Lemma reachable_inflate_ok st g : reachable st g -> inflate_ok st g.
Proof.
  intros H. induction H as [zs state0 mem w zs' st g E|zs st g flush zs' st' g' ret _ IH Hin Hout E].
  - destruct (init_state _ _ _ _ _ _ _ E) as [[? _]|(_ & M & B & K & _)]; [done|by apply fresh_ok].
  - destruct (j_inflate_total zs st g flush IH Hin Hout) as (zs1 & st1 & g1 & r1 & E1 & C). rewrite E1 in E. injection E as -> -> -> ->. apply C.
Qed.

(** ** The loops of decompressBytes *)

Lemma pend_range st g : data_ok st g -> 0 <= pend_at (mode st) st g <= 4600.
Proof.
  unfold data_ok. destruct (mode st); cbn [data_at pend_at]; try lia.
  - intros [C _]. pose proof (capturing_pos _ _ C). destruct C. lia.
  - intros (C & _ & [? ? ?] & ? & _). pose proof (capturing_pos _ _ C). destruct C. lia.
  - intros (C & _ & [? ? ?] & ? & _). pose proof (capturing_pos _ _ C). destruct C. lia.
  - intros (_ & _ & [? ?]). lia.
  - intros (_ & _ & [? ?]). lia.
  - intros [[? ?] _]. lia.
  - intros [[C|[C ?]] _].
    + rewrite (cp_flag _ _ C). change (1 =? 1) with true. cbv iota. pose proof (capturing_pos _ _ C). destruct C. lia.
    + rewrite (cd_flag _ C). change (0 =? 1) with false. cbv iota. destruct C. lia.
Qed.
Lemma owed_range zs st g : inflate_ok st g -> 0 <= owed zs st g <= 16 * (39 + 8 * avail_in zs) + 4600.
Proof. intros [B _ D]. pose proof (pend_range st g D). unfold owed, loaded, avail_in. lia. Qed.

Section Driver.
Context (zs0 : z_stream) (mem : option inflate_state).

(** no state, or a good one with [o] bits owed *)
Definition held (zs : z_stream) (st : option inflate_state) (g : inf_globals) (o : Z) : Prop :=
  match st with None => 0 <= o | Some s => inflate_ok s g /\ owed zs s g <= o end.
Lemma inflate_none zs g flush : j_inflate zs None g flush = Some (zs, None, g, Z_STREAM_ERROR).
Proof. done. Qed.
Lemma inflate_chunk_total fuel zs st g output o :
  held zs st g o -> bytes_ok (next_in zs) -> o < 8 * CHUNK * Z.of_nat fuel ->
  exists zs' st' g' output' ok, inflate_chunk fuel zs st g output = Some (zs', st', g', output', ok)
    /\ exists o', held zs' st' g' o' /\ 0 <= o' /\ 8 * Z.of_nat (length output') + o' <= 8 * Z.of_nat (length output) + o.
Proof.
  revert zs st g output o. induction fuel as [|fuel IH]; intros zs st g output o Hs Hin Ho.
  { destruct st as [s|]; cbn [held] in Hs; [|lia]. destruct Hs as [Hs Hs']. pose proof (owed_range zs s g Hs). lia. }
  cbn [inflate_chunk]. set (zs1 := zs <| avail_out := CHUNK |> <| next_out := [] |> <| next_out_null := false |>).
  destruct st as [s|]; cbn [held] in Hs.
  2: { rewrite inflate_none, bool_decide_eq_true_2 by set_solver. destruct (j_inflateEnd zs1 None) as [[zs2 st2] r2] eqn:E.
    exists zs2, st2, g, output, false. split; [done|]. exists o. unfold j_inflateEnd in E. by destruct (inflateStateCheck zs1 None); injection E as <- <- <-. }
  destruct Hs as [Hs Hs'].
  destruct (j_inflate_total zs1 s g Z_NO_FLUSH Hs Hin ltac:(change (avail_out zs1) with CHUNK; unfold CHUNK; lia))
    as (zs' & st' & g' & ret & -> & [C1 C2 C3 C4 C5 C6]). change (avail_out zs1) with CHUNK in *. change (owed zs1 s g) with (owed zs s g) in C5.
  change (length (next_out zs1)) with 0%nat in C4.
  pose proof (owed_range zs' st' g' C1) as R. unfold CHUNK in *. case_bool_decide as Er.
  - destruct (j_inflateEnd zs' (Some st')) as [[zs2 st2] r2] eqn:E. exists zs2, st2, g', output, false. split; [done|].
    exists (owed zs' st' g'). unfold j_inflateEnd in E. destruct (inflateStateCheck zs' _); injection E as <- <- <-; (split; [|lia]); [by split|cbn; lia].
  - destruct (Z.eqb_spec (avail_out zs') 0) as [E0|E0].
    + destruct (IH zs' (Some st') g' (output ++ next_out zs') (owed zs' st' g')) as (zs2 & st2 & g2 & out2 & ok & E & o' & H1 & H2 & H3);
        [by split|done|lia|]. exists zs2, st2, g2, out2, ok. split; [exact E|]. exists o'. rewrite length_app in H3. split; [done|lia].
    + exists zs', (Some st'), g', (output ++ next_out zs'), true. split; [done|]. exists (owed zs' st' g'). rewrite length_app. split; [by split|lia].
Qed.

(** more input *)
Lemma held_refill zs st g o chunk (zs1 := zs <| next_in := chunk |> <| next_in_null := false |>) :
  held zs st g o -> 0 <= o ->
  exists o1, held zs1 st g o1 /\ 0 <= o1 <= o + 128 * Z.of_nat (length chunk) /\ o1 <= 128 * Z.of_nat (length chunk) + 6000.
Proof.
  intros Hs Ho. destruct st as [s|]; cbn [held] in *; [|exists 0; lia]. destruct Hs as [Hs Hs']. exists (owed zs1 s g).
  pose proof (owed_range zs1 s g Hs) as R. change (avail_in zs1) with (Z.of_nat (length chunk)) in R.
  split; [by split|]. split; [|lia]. split; [lia|]. etrans; [|apply Z.add_le_mono_r; exact Hs'].
  unfold owed, loaded. change (avail_in zs1) with (Z.of_nat (length chunk)). unfold avail_in. lia.
Qed.
Lemma decompress_total fuel zs st g input len output o :
  held zs st g o -> 0 <= o -> bytes_ok input -> Z.max 0 len < Z.of_nat fuel ->
  exists out ok, decompress_loop fuel zs st g input len output = Some (out, ok)
    /\ 8 * Z.of_nat (length out) <= 8 * Z.of_nat (length output) + o + 128 * Z.of_nat (length (take (Z.to_nat len) input)).
Proof.
  revert zs st g input len output o. induction fuel as [|fuel IH]; intros zs st g input len output o Hs Ho Hin Hf; [lia|].
  cbn [decompress_loop]. destruct (Z.gtb_spec len 0) as [L|L]; [|exists output, true; split; [done|lia]]. cbv zeta.
  set (n := if len <? CHUNK then len else CHUNK). assert (Hn : 0 < n <= len) by (subst n; unfold CHUNK; destruct (Z.ltb_spec len 16384); lia).
  set (chunk := take (Z.to_nat n) input). destruct (held_refill zs st g o chunk Hs Ho) as (o1 & H1 & H2 & H3).
  set (zs1 := zs <| next_in := chunk |> <| next_in_null := false |>) in *.
  assert (Hc : bytes_ok (next_in zs1)) by (change (bytes_ok chunk); by apply Forall_take).
  destruct (inflate_chunk_total (2 + 16 * length chunk + 1000) zs1 st g output o1 H1 Hc) as (zs2 & st2 & g2 & out2 & ok & E & o2 & K1 & K2 & K3).
  { unfold CHUNK. lia. }
  rewrite E. assert (Hl : (length (take (Z.to_nat len) input) = length chunk + length (take (Z.to_nat (len - n)) (drop (Z.to_nat n) input)))%nat).
  { unfold chunk. rewrite <- length_app, take_take_drop. do 2 f_equal. lia. }
  destruct ok; [|exists out2, false; split; [done|lia]].
  destruct (IH zs2 st2 g2 (drop (Z.to_nat n) input) (len - n) out2 o2 K1 K2) as (out & ok & -> & B); [by apply Forall_drop|lia|].
  exists out, ok. split; [done|lia].
Qed.
Lemma decompressBytes_total file windowBits start len :
  bytes_ok file ->
  exists out ok, decompressBytes zs0 mem file windowBits start len = Some (out, ok)
    /\ Z.of_nat (length out) <= 16 * Z.of_nat (length (take (Z.to_nat len) (file_at file start))).
Proof.
  intros Hf. unfold decompressBytes. cbv zeta. set (zs := zs0 <| zalloc_set := false |> <| zfree_set := false |> <| next_in := [] |> <| next_in_null := true |>).
  destruct (j_inflateInit2_ zs None mem windowBits) as [[zs1 st] r] eqn:E.
  assert (H : held zs1 st (mk_ig ∅ 0 0 0 0) 0).
  { destruct st as [st|]; cbn [held]; [|lia]. destruct (init_state _ _ _ _ _ _ _ E) as [[_ ?]|(_ & M & B & K & N)]; [done|].
    split; [by apply fresh_ok|]. unfold owed, loaded, avail_in. rewrite M, B, N. cbn. lia. }
  destruct (decompress_total (S (Z.to_nat len)) zs1 st (mk_ig ∅ 0 0 0 0) (file_at file start) len [] 0 H) as (out & ok & -> & B);
    [lia|by apply Forall_drop|lia|]. exists out, ok. split; [done|]. cbn [length] in B. lia.
Qed.
Lemma build_total buffer0 apk pos len winbit : bytes_ok apk -> exists r, j_build_fri zs0 mem buffer0 apk pos len winbit = Some r.
Proof.
  intros Ha. unfold j_build_fri. cbv zeta. destruct (decompressBytes_total apk winbit pos (s32 len) Ha) as (out & ok & -> & _). eauto.
Qed.
Lemma decode_total buffer0 extra0 undef apk :
  bytes_ok apk -> parseGzipFile extra0 apk <> ParseLoop -> exists r, decode_main zs0 mem buffer0 extra0 undef apk = Some r.
Proof.
  intros Ha Hp. unfold decode_main. destruct (parseGzipFile extra0 apk) as [| |o l]; [destruct undef as [o l]|done|];
    (destruct (build_total buffer0 apk (s32 o) l (-15) Ha) as [[out ok] ->]; destruct ok; [by eauto|]; by apply build_total).
Qed.
End Driver.

(** ** Properties *)

(** C4. The state of the decoder is well-formed at every call, whatever a caller does: after the initialisation
    and any sequence of calls of [j_inflate] on any bytes, with any room and any flush value, the bit buffer
    holds at most 39 bits and no others, and the state satisfies the invariant of its mode: between the
    block header and its end at most 4498 bits (563 bytes) have been captured in the 605 bytes of [header_buf], or the
    complete header with its marker has at most 565 bytes and no index is beyond it; the counts and
    the code lengths of a dynamic header are in range; the tables of the block are two-level tables all
    entries of which are those of symbols of the alphabet or invalid codes; the extra bits are at most 15; and a waiting
    instruction lies in the buffer.  The modes DICTID, DICT, MEM and SYNC are never reached. *)
Theorem inflate_invariant st g : reachable st g -> inflate_ok st g.
Proof. apply reachable_inflate_ok. Qed.
Definition start_state : z_stream * option inflate_state * Z := j_inflateInit2_ demo_input None (Some zero_inflate) (-15).
Definition start_st : inflate_state := default zero_inflate start_state.1.2.
Definition start_zs : z_stream := start_state.1.1.
Lemma start_init : j_inflateInit2_ demo_input None (Some zero_inflate) (-15) = (start_zs, Some start_st, Z_OK).
Proof. vm_compute. reflexivity. Qed.
Definition no_globals : inf_globals := mk_ig ∅ 0 0 0 0.
Abbreviation start_call room := (j_inflate (start_zs <| avail_out := room |>) (Some start_st) no_globals Z_NO_FLUSH).
Lemma demo_input_bytes room : bytes_ok (next_in (start_zs <| avail_out := room |>)).
Proof. repeat constructor; unfold is_byte; lia. Qed.
(** in the middle of a dynamic block, with a bit of the header captured *)
Lemma inflate_invariant_witness :
  match start_call 16 with Some (_, Some st, g, ret) => reachable st g /\ inflate_ok st g /\ ret = Z_OK | _ => False end.
Proof.
  assert (E : match start_call 16 with Some (_, Some _, _, ret) => ret =? Z_OK | _ => false end = true) by (vm_compute; reflexivity).
  destruct (start_call 16) as [[[[zs [st|]] g] ret]|] eqn:Ec; [|discriminate|discriminate].
  assert (R : reachable st g).
  { apply (reach_call (start_zs <| avail_out := 16 |>) start_st no_globals Z_NO_FLUSH zs st g ret).
    - exact (reach_init _ _ _ _ _ _ no_globals start_init).
    - apply demo_input_bytes.
    - cbn. lia.
    - exact Ec. }
  split; [exact R|]. split; [exact (inflate_invariant st g R)|]. by apply Z.eqb_eq.
Defined.

(** C5. [j_inflate] returns: on every state that can be reached, any bytes, any room and any flush value the loop
    of its state machine ends within the fuel (64 turns for each bit and each byte of room).  What it writes is
    paid for: each byte written takes half a bit of what was to be read or was pending ([owed]: 16 for a bit
    to read, and the captured header or the waiting instruction), so that no input makes the output explode. *)
Theorem inflate_returns zs st g flush :
  reachable st g -> bytes_ok (next_in zs) -> 0 <= avail_out zs < 2 ^ 32 ->
  exists zs' st' g' ret, j_inflate zs (Some st) g flush = Some (zs', Some st', g', ret)
    /\ bytes_ok (next_in zs') /\ 0 <= avail_out zs' < 2 ^ 32
    /\ Z.of_nat (length (next_out zs')) + avail_out zs' = Z.of_nat (length (next_out zs)) + avail_out zs
    /\ 8 * (avail_out zs - avail_out zs') <= owed zs st g - owed zs' st' g' /\ 0 <= owed zs' st' g'.
Proof.
  intros Hr Hin Hout. destruct (j_inflate_total zs st g flush (reachable_inflate_ok st g Hr) Hin Hout) as (zs' & st' & g' & ret & E & [C1 C2 C3 C4 C5 _]).
  exists zs', st', g', ret. pose proof (owed_range zs' st' g' C1). split_and!; (done || lia).
Qed.
Lemma inflate_returns_witness : exists zs' st' g' ret, start_call 16 = Some (zs', Some st', g', ret) /\ 8 * (16 - avail_out zs') <= 16 * 8 * 33.
Proof.
  destruct (inflate_returns (start_zs <| avail_out := 16 |>) start_st no_globals Z_NO_FLUSH) as (zs' & st' & g' & ret & E & _ & _ & _ & B & B0).
  - exact (reach_init _ _ _ _ _ _ no_globals start_init).
  - apply demo_input_bytes.
  - cbn. lia.
  - exists zs', st', g', ret. split; [exact E|]. assert (Eo : owed (start_zs <| avail_out := 16 |>) start_st no_globals = 16 * 8 * 33) by (vm_compute; reflexivity).
    rewrite Eo in B. change (avail_out (start_zs <| avail_out := 16 |>)) with 16 in B. clear E. lia.
Defined.

(** C6. [j_inflate] never stalls: a call on good arguments that is not asked to stop at block boundaries ends at
    the end of the stream, at an error in the data, or after it has used all its input or all the room it was given;
    with input and room it therefore always gets on, and the only other return code is for arguments that are refused. *)
Theorem inflate_progress zs st g flush zs' st' g' ret :
  reachable st g -> bytes_ok (next_in zs) -> 0 <= avail_out zs < 2 ^ 32 -> flush <> Z_BLOCK -> flush <> Z_TREES ->
  j_inflate zs (Some st) g flush = Some (zs', Some st', g', ret) ->
  if refused zs st then ret = Z_STREAM_ERROR
  else ret = Z_STREAM_END /\ mode st' = IM.DONE \/ ret = Z_DATA_ERROR /\ mode st' = IM.BAD
    \/ (ret = Z_OK \/ ret = Z_BUF_ERROR) /\ (next_in zs' = [] \/ avail_out zs' = 0).
Proof.
  intros Hr Hin Hout H1 H2 E. destruct (refused zs st) eqn:Er.
  - unfold j_inflate in E. fold (refused zs st) in E. rewrite Er in E. by injection E as <- <- <- <-.
  - destruct (j_inflate_total zs st g flush (reachable_inflate_ok st g Hr) Hin Hout) as (zs1 & st1 & g1 & r1 & E1 & [_ _ _ _ _ C6]).
    rewrite E in E1. injection E1 as -> -> -> ->. destruct C6 as [[_ ?]|[?|[?|[? [?|[?|[?|?]]]]]]]; [congruence|tauto..].
Qed.
Lemma inflate_progress_witness :
  match start_call 16 with Some (zs, Some _, _, ret) => ret = Z_OK /\ (next_in zs = [] \/ avail_out zs = 0) | _ => False end.
Proof.
  assert (E : match start_call 16 with Some (_, Some _, _, ret) => ret =? Z_OK | _ => false end = true) by (vm_compute; reflexivity).
  destruct (start_call 16) as [[[[zs [st|]] g] ret]|] eqn:Ec; [|discriminate|discriminate]. apply Z.eqb_eq in E. split; [exact E|].
  assert (Er : refused (start_zs <| avail_out := 16 |>) start_st = false) by (vm_compute; reflexivity).
  pose proof (inflate_progress (start_zs <| avail_out := 16 |>) start_st no_globals Z_NO_FLUSH zs st g ret
    (reach_init _ _ _ _ _ _ no_globals start_init) (demo_input_bytes 16) ltac:(cbn; lia) ltac:(discriminate) ltac:(discriminate) Ec) as P.
  rewrite Er in P. destruct P as [[P _]|[[P _]|[_ P]]]; [rewrite E in P; discriminate|rewrite E in P; discriminate|exact P].
Defined.

(** C7. decode_docker ends on every file: decompressBytes, whatever the file, the window size and the part of it
    that is decoded, leaves its loops and has written at most 16 bytes for each byte of that part; and so the program
    ends, unless its parser loops at the end of a file without the zero byte it waits for, whatever the
    memory it did not initialise holds. *)
Theorem decode_ends zs0 mem buffer0 extra0 undef apk :
  bytes_ok apk ->
  (forall windowBits start len, exists out ok, decompressBytes zs0 mem apk windowBits start len = Some (out, ok)
     /\ Z.of_nat (length out) <= 16 * Z.of_nat (length (take (Z.to_nat len) (file_at apk start))))
  /\ (parseGzipFile extra0 apk <> ParseLoop <-> exists r, decode_main zs0 mem buffer0 extra0 undef apk = Some r).
Proof.
  intros Ha. split; [intros w start len; by apply decompressBytes_total|]. split; [by apply decode_total|].
  intros [r E] Hp. unfold decode_main in E. by rewrite Hp in E.
Qed.
(** a gzip file with garbage behind its header *)
Definition garbage : list Z := [0x1f; 0x8b; 8; 0; 0; 0; 0; 0; 0; 3; 0xff; 0x12; 0; 0; 0; 0; 0; 0; 0; 0].
Lemma decode_ends_witness : exists r, decode_main demo_input (Some zero_inflate) [] 0 (0, 0) garbage = Some r.
Proof.
  apply (decode_ends demo_input (Some zero_inflate) [] 0 (0, 0) garbage).
  - repeat constructor; unfold is_byte; lia.
  - vm_compute. discriminate.
Defined.
